(** * SeiaPanel: scheduling and archival subsystem

    A shallow embedding of the Go sources of the panel's cron validator
    (package models, the file of [ValidateCronField]), backup model
    (package models, the file of [GetOldestBackup]), backup service
    (package services, the file of [RotateBackups]), archive extractors
    (package handlers, the file of [UnarchiveFile]), backup handlers
    (handlers/backups.go) and schedule service
    (services/schedule_service.go), with the properties of the
    specification stated and settled against it.

    Go strings are byte strings and are modelled by [string] (a list of
    8-bit [ascii]); Go's [int] is the 64-bit signed integer and is
    modelled by [Z] with the range test written out where the source
    depends on it ([strconv.Atoi]); a Go [error] is an [option] of an
    error value, [None] being [nil]. *)

From Stdlib Require Import ZArith Ascii String List Bool Lia.
From Stdlib Require OrderedTypeEx.
From stdpp Require Import base option list gmap strings fin_maps.

Local Open Scope string_scope.

(* ===================================================================== *)
(** ** The parts of Go's standard library the sources call *)
(* ===================================================================== *)

Module GoStr.

(** [strings.HasPrefix(s, prefix)]. *)
Definition HasPrefix (s p : string) : bool := String.prefix p s.

Fixpoint drop_bytes (n : nat) (s : string) : string :=
  match n, s with
  | O, _ => s
  | S n', String _ s' => drop_bytes n' s'
  | S _, EmptyString => EmptyString
  end.

(** [strings.TrimPrefix(s, prefix)]. *)
Definition TrimPrefix (s p : string) : string :=
  if HasPrefix s p then drop_bytes (String.length p) s else s.

Definition str_rev (s : string) : string :=
  string_of_list_ascii (List.rev (list_ascii_of_string s)).

(** [strings.HasSuffix(s, suffix)]. *)
Definition HasSuffix (s p : string) : bool :=
  String.prefix (str_rev p) (str_rev s).

(** [strings.TrimSuffix(s, suffix)]. *)
Definition TrimSuffix (s p : string) : string :=
  if HasSuffix s p
  then str_rev (drop_bytes (String.length p) (str_rev s))
  else s.

(** [strings.Contains(s, sep)] for a one-byte [sep], which is what
    every call site of the sources passes. *)
Fixpoint Contains (s : string) (sep : ascii) : bool :=
  match s with
  | EmptyString => false
  | String c s' => Ascii.eqb c sep || Contains s' sep
  end.

(** [strings.Split(s, sep)] for a one-byte [sep]: [n] separators give
    [n + 1] pieces, empty pieces included. *)
Fixpoint Split (s : string) (sep : ascii) : list string :=
  match s with
  | EmptyString => [EmptyString]
  | String c s' =>
      if Ascii.eqb c sep then EmptyString :: Split s' sep
      else match Split s' sep with
           | h :: t => String c h :: t
           | [] => [String c EmptyString]
           end
  end.

(** [strings.Join(elems, sep)]. *)
Fixpoint JoinStrings (elems : list string) (sep : string) : string :=
  match elems with
  | [] => EmptyString
  | [e] => e
  | e :: rest => e ++ sep ++ JoinStrings rest sep
  end.

(** The white-space runes of [unicode.IsSpace] in their UTF-8
    encoding: the six ASCII ones, U+0085, U+00A0, U+1680,
    U+2000..U+200A, U+2028, U+2029, U+202F, U+205F and U+3000.
    [space_rune_len s] is the byte length of the white-space rune that
    [s] starts with, and 0 when it starts with none. *)
Definition ascii_space (x : nat) : bool :=
  ((9 <=? x) && (x <=? 13))%nat || (x =? 32)%nat.

Definition space2 (x y : nat) : bool :=
  ((x =? 194) && ((y =? 133) || (y =? 160)))%nat.

Definition space3 (x y z : nat) : bool :=
  (((x =? 225) && (y =? 154) && (z =? 128))
   || ((x =? 226) && (y =? 128)
       && (((128 <=? z) && (z <=? 138)) || (z =? 168) || (z =? 169) || (z =? 175)))
   || ((x =? 226) && (y =? 129) && (z =? 159))
   || ((x =? 227) && (y =? 128) && (z =? 128)))%nat.

Definition space_rune_len (s : string) : nat :=
  match s with
  | EmptyString => 0
  | String a r =>
      if ascii_space (nat_of_ascii a) then 1
      else match r with
           | EmptyString => 0
           | String b r2 =>
               if space2 (nat_of_ascii a) (nat_of_ascii b) then 2
               else match r2 with
                    | EmptyString => 0
                    | String c _ =>
                        if space3 (nat_of_ascii a) (nat_of_ascii b) (nat_of_ascii c)
                        then 3 else 0
                    end
           end
  end.

(** The same, read from the end of the string: the argument is the
    reversed string, so the bytes of a rune come last byte first. *)
Definition space_rune_len_rev (s : string) : nat :=
  match s with
  | EmptyString => 0
  | String c r =>
      if ascii_space (nat_of_ascii c) then 1
      else match r with
           | EmptyString => 0
           | String b r2 =>
               if space2 (nat_of_ascii b) (nat_of_ascii c) then 2
               else match r2 with
                    | EmptyString => 0
                    | String a _ =>
                        if space3 (nat_of_ascii a) (nat_of_ascii b) (nat_of_ascii c)
                        then 3 else 0
                    end
           end
  end.

Fixpoint trim_with (rune_len : string -> nat) (fuel : nat) (s : string) : string :=
  match fuel with
  | O => s
  | S fuel' =>
      match rune_len s with
      | O => s
      | n => trim_with rune_len fuel' (drop_bytes n s)
      end
  end.

(** [strings.TrimSpace(s)]: leading white space is removed first,
    trailing white space after it. *)
Definition TrimSpace (s : string) : string :=
  let l := trim_with space_rune_len (String.length s) s in
  str_rev (trim_with space_rune_len_rev (String.length l) (str_rev l)).

Local Open Scope Z_scope.

Definition min_int : Z := - 2 ^ 63.
Definition max_int : Z := 2 ^ 63 - 1.

Definition digit_val (c : ascii) : option Z :=
  let n := Z.of_nat (nat_of_ascii c) in
  if (48 <=? n) && (n <=? 57) then Some (n - 48) else None.

Fixpoint parse_digits (s : string) (acc : Z) : option Z :=
  match s with
  | EmptyString => Some acc
  | String c s' =>
      match digit_val c with
      | Some d => parse_digits s' (acc * 10 + d)
      | None => None
      end
  end.

(** [strconv.Atoi(s)]: an optional sign, then one or more decimal
    digits; [None] stands for a non-nil error (syntax, or a value
    outside the 64-bit [int]). *)
Definition Atoi (s : string) : option Z :=
  let '(neg, ds) :=
    match s with
    | String "-"%char r => (true, r)
    | String "+"%char r => (false, r)
    | _ => (false, s)
    end in
  match ds with
  | EmptyString => None
  | _ =>
      match parse_digits ds 0 with
      | None => None
      | Some n =>
          let v := if neg then - n else n in
          if (min_int <=? v) && (v <=? max_int) then Some v else None
      end
  end.

End GoStr.

(* ===================================================================== *)
(** ** Package models: the cron validator *)
(* ===================================================================== *)

Module Cron.
Import GoStr.
Local Open Scope Z_scope.

(** The errors the validator builds with [fmt.Errorf], one constructor
    per format string, carrying the format's arguments. *)
Inductive cron_error : Type :=
| ErrEmpty (fieldName : string)              (* "%s cannot be empty" *)
| ErrStep (fieldName value : string)         (* "invalid step value in %s: %s" *)
| ErrRange (fieldName value : string)        (* "invalid range in %s: %s" *)
| ErrValue (fieldName value : string)        (* "invalid value in %s: %s" *)
| ErrBounds (fieldName : string) (num : Z)   (* "minute must be between 0-59, got %d" *)
| ErrRangeBounds (fieldName : string).       (* "minute range must be between 0-59" *)

Definition validateSingleCronValue (fieldName value : string) : option cron_error :=
  match Atoi value with
  | None => Some (ErrValue fieldName value)
  | Some num =>
      if String.eqb fieldName "minute" then
        if (num <? 0) || (num >? 59) then Some (ErrBounds fieldName num) else None
      else if String.eqb fieldName "hour" then
        if (num <? 0) || (num >? 23) then Some (ErrBounds fieldName num) else None
      else if String.eqb fieldName "day_of_month" then
        if (num <? 1) || (num >? 31) then Some (ErrBounds fieldName num) else None
      else if String.eqb fieldName "month" then
        if (num <? 1) || (num >? 12) then Some (ErrBounds fieldName num) else None
      else if String.eqb fieldName "day_of_week" then
        if (num <? 0) || (num >? 6) then Some (ErrBounds fieldName num) else None
      else None
  end.

Definition validateCronRange (fieldName : string) (start end_ : Z) : option cron_error :=
  if String.eqb fieldName "minute" then
    if (start <? 0) || (end_ >? 59) then Some (ErrRangeBounds fieldName) else None
  else if String.eqb fieldName "hour" then
    if (start <? 0) || (end_ >? 23) then Some (ErrRangeBounds fieldName) else None
  else if String.eqb fieldName "day_of_month" then
    if (start <? 1) || (end_ >? 31) then Some (ErrRangeBounds fieldName) else None
  else if String.eqb fieldName "month" then
    if (start <? 1) || (end_ >? 12) then Some (ErrRangeBounds fieldName) else None
  else if String.eqb fieldName "day_of_week" then
    if (start <? 0) || (end_ >? 6) then Some (ErrRangeBounds fieldName) else None
  else None.

(** The loop over the parts of a comma-separated list: the first part
    that fails ends the validation with its error. *)
Fixpoint validateParts (fieldName : string) (parts : list string) : option cron_error :=
  match parts with
  | [] => None
  | part :: rest =>
      match validateSingleCronValue fieldName (TrimSpace part) with
      | Some err => Some err
      | None => validateParts fieldName rest
      end
  end.

Definition ValidateCronField (fieldName value : string) : option cron_error :=
  if String.eqb value "" then Some (ErrEmpty fieldName)
  else if String.eqb value "*" then None
  else if HasPrefix value "*/" then
    match Atoi (TrimPrefix value "*/") with
    | None => Some (ErrStep fieldName value)
    | Some step => if step <? 1 then Some (ErrStep fieldName value) else None
    end
  else if Contains value ","%char then
    validateParts fieldName (Split value ","%char)
  else if Contains value "-"%char then
    match Split value "-"%char with
    | [p0; p1] =>
        match Atoi (TrimSpace p0), Atoi (TrimSpace p1) with
        | Some start, Some end_ =>
            if start >=? end_ then Some (ErrRange fieldName value)
            else validateCronRange fieldName start end_
        | _, _ => Some (ErrRange fieldName value)
        end
    | _ => Some (ErrRange fieldName value)
    end
  else validateSingleCronValue fieldName value.

(** [Schedule.GetCronExpression]: the five fields, space-joined in the
    order minute, hour, day of month, month, day of week. *)
Definition GetCronExpression
           (cronMinute cronHour cronDayOfMonth cronMonth cronDayOfWeek : string) : string :=
  cronMinute ++ " " ++ cronHour ++ " " ++ cronDayOfMonth ++ " " ++ cronMonth
             ++ " " ++ cronDayOfWeek.

(** The bounds as the specification lists them, to compare the
    validator with: minute 0-59, hour 0-23, day of month 1-31, month
    1-12, day of week 0-6. *)
Definition spec_bounds (fieldName : string) : option (Z * Z) :=
  if String.eqb fieldName "minute" then Some (0, 59)
  else if String.eqb fieldName "hour" then Some (0, 23)
  else if String.eqb fieldName "day_of_month" then Some (1, 31)
  else if String.eqb fieldName "month" then Some (1, 12)
  else if String.eqb fieldName "day_of_week" then Some (0, 6)
  else None.

End Cron.

(* ===================================================================== *)
(** ** path/filepath on a Unix system *)
(* ===================================================================== *)

Module Path.
Import GoStr.

Definition Separator : ascii := "/"%char.

Definition rooted (path : string) : bool :=
  match path with
  | String c _ => Ascii.eqb c Separator
  | EmptyString => false
  end.

(** One element of the scan of [filepath.Clean], on the stack of the
    elements kept so far (last one first): an empty element and [.]
    are dropped; [..] removes the last kept element when there is
    one that is not itself [..], is dropped at the top of a rooted
    path, and is kept at the head of a relative one; any other
    element is kept. *)
Definition clean_step (is_rooted : bool) (out : list string) (elem : string) : list string :=
  if String.eqb elem "" then out
  else if String.eqb elem "." then out
  else if String.eqb elem ".." then
    match out with
    | top :: rest =>
        if String.eqb top ".." then (if is_rooted then out else ".." :: out) else rest
    | [] => if is_rooted then [] else [".."]
    end
  else elem :: out.

Definition clean_elems (is_rooted : bool) (elems : list string) : list string :=
  List.rev (List.fold_left (clean_step is_rooted) elems []).

(** [filepath.Clean(path)]. *)
Definition Clean (path : string) : string :=
  if String.eqb path "" then "."
  else
    let out := clean_elems (rooted path) (Split path Separator) in
    if rooted path then "/" ++ JoinStrings out "/"
    else match out with
         | [] => "."
         | _ => JoinStrings out "/"
         end.

(** [filepath.Join(a, b)]: empty elements are ignored, the rest is
    joined with the separator and cleaned. *)
Definition Join (a b : string) : string :=
  if negb (String.eqb a "") then Clean (a ++ "/" ++ b)
  else if negb (String.eqb b "") then Clean b
  else "".

(** [filepath.Dir(path)]: everything up to and including the last
    separator, cleaned. *)
Definition Dir (path : string) : string :=
  match Split path Separator with
  | [] | [_] => Clean ""
  | pieces => Clean (JoinStrings (List.removelast pieces) "/" ++ "/")
  end.

(** [filepath.Base(path)]: the last element of the path, trailing
    separators removed; [.] for the empty path and [/] for a path of
    separators only. *)
Definition Base (path : string) : string :=
  if String.eqb path "" then "."
  else match List.filter (fun e => negb (String.eqb e "")) (Split path Separator) with
       | [] => "/"
       | e :: es => List.last es e
       end.

(** The directory a path names, as the list of the names on the way
    from the root, for a process whose working directory is [cwd]:
    resolution is lexical (the model has no symbolic links). *)
Definition resolve (cwd : list string) (path : string) : list string :=
  clean_elems true (if rooted path then Split path Separator
                    else (cwd ++ Split path Separator)%list).

(** [p] lies strictly inside the directory [root]. *)
Definition strictly_inside (root p : list string) : Prop :=
  exists rest, rest <> [] /\ p = (root ++ rest)%list.

(** [p] is [root] or lies inside it. *)
Definition inside (root p : list string) : Prop :=
  exists rest, p = (root ++ rest)%list.

(** A name without a separator in it. *)
Definition slash_free (s : string) : Prop := Contains s Separator = false.

(** A name that [filepath.Clean] keeps in a rooted path: not empty,
    not [.] and not [..], and without a separator. *)
Definition plain (s : string) : Prop :=
  s <> "" /\ s <> "." /\ s <> ".." /\ slash_free s.

(** What follows a name in a joined path: nothing, or a separator and
    more names. *)
Definition path_tail (l : list string) : string :=
  match l with
  | [] => ""
  | _ => "/" ++ JoinStrings l "/"
  end.

Fixpoint is_prefix (a b : list string) : bool :=
  match a, b with
  | [], _ => true
  | x :: a', y :: b' => String.eqb x y && is_prefix a' b'
  | _ :: _, [] => false
  end.

End Path.

(* ===================================================================== *)
(** ** The file system the os package acts on *)
(* ===================================================================== *)

Module FS.
Import GoStr Path.
Local Open Scope Z_scope.

Inductive node : Type :=
| Directory (perm : Z)
| Regular (perm : Z) (data : string).

Inductive os_error : Type := ENOENT | EEXIST | ENOTDIR | EISDIR | ENOTEMPTY.

(** A file system is the working directory of the process and a finite
    map from resolved paths to nodes.  The root directory is always
    there.  Permission checks, the umask, symbolic links and a full
    disk are outside the model: an operation fails only for the
    shape of the tree. *)
Record filesys : Type := mkFS {
  cwd : list string;
  nodes : gmap (list string) node
}.

Definition node_at (fs : filesys) (p : list string) : option node :=
  match p with
  | [] => Some (Directory 493)
  | _ => nodes fs !! p
  end.

Definition with_nodes (fs : filesys) (m : gmap (list string) node) : filesys :=
  mkFS (cwd fs) m.

Definition locate (fs : filesys) (path : string) : list string :=
  resolve (cwd fs) path.

(** Nothing outside the directory [root] differs between [fs] and
    [fs']: the nodes that are not strictly inside [root] are the same,
    and so is the working directory. *)
Definition same_outside (root : list string) (fs fs' : filesys) : Prop :=
  cwd fs' = cwd fs
  /\ forall p, ~ strictly_inside root p -> nodes fs' !! p = nodes fs !! p.

(** [os.Stat(path)]; [None] is an error, which [Stat_err] gives. *)
Definition Stat (fs : filesys) (path : string) : option node :=
  if String.eqb path "" then None else node_at fs (locate fs path).

(** The error of the kernel for a path at which there is no node: the
    walk from the root ends at the first name that is not there
    (ENOENT), or at a regular file when names are still to come
    (ENOTDIR). *)
Fixpoint lookup_error (fs : filesys) (seen todo : list string) : os_error :=
  match todo with
  | [] => ENOENT
  | name :: rest =>
      match node_at fs seen with
      | Some (Directory _) => lookup_error fs (seen ++ [name]) rest
      | Some (Regular _ _) => ENOTDIR
      | None => ENOENT
      end
  end.

Definition stat_errno (fs : filesys) (path : string) : os_error :=
  if String.eqb path "" then ENOENT else lookup_error fs [] (locate fs path).

(** The error [os.Stat(path)] returns; [None] is [nil]. *)
Definition Stat_err (fs : filesys) (path : string) : option os_error :=
  match Stat fs path with
  | Some _ => None
  | None => Some (stat_errno fs path)
  end.

(** [os.IsNotExist(err)]. *)
Definition IsNotExist (err : option os_error) : bool :=
  match err with
  | Some ENOENT => true
  | _ => false
  end.

Definition parent (p : list string) : list string := List.removelast p.

(** [os.Mkdir(path, perm)] on a resolved path. *)
Definition mkdir_at (p : list string) (perm : Z) (fs : filesys) : filesys * option os_error :=
  match node_at fs p with
  | Some _ => (fs, Some EEXIST)
  | None =>
      match node_at fs (parent p) with
      | Some (Directory _) => (with_nodes fs (<[p := Directory perm]> (nodes fs)), None)
      | Some (Regular _ _) => (fs, Some ENOTDIR)
      | None => (fs, Some ENOENT)
      end
  end.

(** [os.MkdirAll] on a resolved path given last name first: an
    existing directory is success, an existing file is an error,
    otherwise the parent is made first and the directory after it. *)
Fixpoint mkdir_all_at (rp : list string) (perm : Z) (fs : filesys)
  : filesys * option os_error :=
  match node_at fs (List.rev rp) with
  | Some (Directory _) => (fs, None)
  | Some (Regular _ _) => (fs, Some ENOTDIR)
  | None =>
      match rp with
      | [] => (fs, None)
      | _ :: rparent =>
          match mkdir_all_at rparent perm fs with
          | (fs1, Some e) => (fs1, Some e)
          | (fs1, None) => mkdir_at (List.rev rp) perm fs1
          end
      end
  end.

(** [os.MkdirAll(path, perm)]. *)
Definition MkdirAll (path : string) (perm : Z) (fs : filesys) : filesys * option os_error :=
  if String.eqb path "" then (fs, Some ENOENT)
  else mkdir_all_at (List.rev (locate fs path)) perm fs.

(** [os.Create(path)]: an existing file is truncated and keeps its
    mode, a new one is asked for with mode 0666.  The kernel takes the
    bits of the process's umask away from the mode of a new file or
    directory; the model has no umask and records the mode asked
    for. *)
Definition Create (path : string) (fs : filesys) : filesys * option os_error :=
  if String.eqb path "" then (fs, Some ENOENT)
  else
    let p := locate fs path in
    match node_at fs p with
    | Some (Directory _) => (fs, Some EISDIR)
    | Some (Regular perm _) =>
        (with_nodes fs (<[p := Regular perm ""]> (nodes fs)), None)
    | None =>
        match node_at fs (parent p) with
        | Some (Directory _) =>
            (with_nodes fs (<[p := Regular 438 ""]> (nodes fs)), None)
        | Some (Regular _ _) => (fs, Some ENOTDIR)
        | None => (fs, Some ENOENT)
        end
    end.

(** [io.Copy(outFile, src)] into the file just created at [path]. *)
Definition write_data (path : string) (data : string) (fs : filesys) : filesys :=
  let p := locate fs path in
  match node_at fs p with
  | Some (Regular perm _) => with_nodes fs (<[p := Regular perm data]> (nodes fs))
  | _ => fs
  end.

(** [os.Chmod(path, mode)]: the permission bits of the mode are
    stored. *)
Definition Chmod (path : string) (mode : Z) (fs : filesys) : filesys * option os_error :=
  if String.eqb path "" then (fs, Some ENOENT)
  else
    let p := locate fs path in
    match p, node_at fs p with
    | [], _ => (fs, None)
    | _, Some (Directory _) =>
        (with_nodes fs (<[p := Directory (Z.land mode 511)]> (nodes fs)), None)
    | _, Some (Regular _ data) =>
        (with_nodes fs (<[p := Regular (Z.land mode 511) data]> (nodes fs)), None)
    | _, None => (fs, Some ENOENT)
    end.

(** [os.Open(path)] and the bytes read from the file: a directory
    opens, and every read of it fails. *)
Inductive opened : Type :=
| OpenFails (e : os_error)
| OpenedDirectory
| OpenedFile (data : string).

Definition Open (fs : filesys) (path : string) : opened :=
  match Stat fs path with
  | None => OpenFails (stat_errno fs path)
  | Some (Directory _) => OpenedDirectory
  | Some (Regular _ data) => OpenedFile data
  end.

(** [os.WriteFile(path, data, perm)]. *)
Definition WriteFile (path : string) (data : string) (perm : Z) (fs : filesys)
  : filesys * option os_error :=
  if String.eqb path "" then (fs, Some ENOENT)
  else
    let p := locate fs path in
    match node_at fs p with
    | Some (Directory _) => (fs, Some EISDIR)
    | Some (Regular perm0 _) =>
        (with_nodes fs (<[p := Regular perm0 data]> (nodes fs)), None)
    | None =>
        match node_at fs (parent p) with
        | Some (Directory _) =>
            (with_nodes fs (<[p := Regular perm data]> (nodes fs)), None)
        | Some (Regular _ _) => (fs, Some ENOTDIR)
        | None => (fs, Some ENOENT)
        end
    end.

(** The names directly below [p], in the order of [os.ReadDir]
    (sorted by name). *)
Definition child_name (p : list string) (k : list string) : option string :=
  if is_prefix p k then
    match List.skipn (List.length p) k with
    | [name] => Some name
    | _ => None
    end
  else None.

Fixpoint insert_sorted (x : string) (l : list string) : list string :=
  match l with
  | [] => [x]
  | y :: l' => if String.leb x y then x :: l else y :: insert_sorted x l'
  end.

Definition sort_names (l : list string) : list string :=
  List.fold_right insert_sorted [] l.

Definition children (fs : filesys) (p : list string) : list string :=
  sort_names (omap (fun kv => child_name p (fst kv)) (map_to_list (nodes fs))).

(** [os.ReadDir(path)]: the names of the entries of a directory. *)
Definition ReadDir (fs : filesys) (path : string) : option (list string) :=
  match Stat fs path with
  | Some (Directory _) => Some (children fs (locate fs path))
  | _ => None
  end.

(** [os.Remove(path)]: a file, or an empty directory. *)
Definition Remove (path : string) (fs : filesys) : filesys * option os_error :=
  if String.eqb path "" then (fs, Some ENOENT)
  else
    let p := locate fs path in
    match p, nodes fs !! p with
    | [], _ => (fs, Some ENOTEMPTY)
    | _, None => (fs, Some ENOENT)
    | _, Some (Regular _ _) => (with_nodes fs (delete p (nodes fs)), None)
    | _, Some (Directory _) =>
        match children fs p with
        | [] => (with_nodes fs (delete p (nodes fs)), None)
        | _ => (fs, Some ENOTEMPTY)
        end
    end.

(** [os.RemoveAll(path)]: the node and everything below it; a missing
    path is not an error. *)
Definition RemoveAll (path : string) (fs : filesys) : filesys :=
  if String.eqb path "" then fs
  else
    let p := locate fs path in
    with_nodes fs (filter (fun kv => is_prefix p (fst kv) = false) (nodes fs)).

(** Whether [os.RemoveAll(path)] returns an error: it does for a path
    that leads through a regular file, and then removes nothing. *)
Definition RemoveAll_fails (fs : filesys) (path : string) : bool :=
  match Stat_err fs path with
  | Some ENOTDIR => true
  | _ => false
  end.

End FS.

(* ===================================================================== *)
(** ** Archives as the readers of archive/tar, compress/gzip and
       archive/zip present them *)
(* ===================================================================== *)

Module Archive.

Inductive typeflag : Type := TypeReg | TypeDir | TypeOther.

Record tar_header : Type := mkHeader {
  Name : string;
  Typeflag : typeflag;
  Mode : Z
}.

(** What one call of [tarReader.Next()] gives before the end of the
    archive: a header, with the bytes the reader then yields for the
    entry, or an error.  The end of the list is [io.EOF]. *)
Inductive tar_next : Type :=
| Entry (header : tar_header) (body : string)
| ReadError.

(** One member of [zipReader.File]: its name, whether
    [file.FileInfo().IsDir()] holds, [file.Mode()], and what
    [file.Open()] gives ([None] for an error). *)
Record zip_file : Type := mkZipFile {
  zName : string;
  zIsDir : bool;
  zMode : Z;
  zOpen : option string
}.

(** The decoders, which belong to Go's standard library and are taken
    as given: [gzip.NewReader] with the decompressed bytes ([None] for
    an error), the sequence of results of [tar.Reader.Next], and
    [zip.OpenReader] on the bytes of the file; for writing, the bytes
    a [tar.Writer] over a [gzip.Writer] produces for a sequence of
    headers and contents, and how many of them have reached the file
    before the writers are closed.  [gzip_stream] is the gzip reader
    read to its end by [io.Copy]: [None] when [gzip.NewReader] refuses
    the header, and else the bytes the copy delivers, with [true] when
    it ends without an error and [false] when the stream breaks off
    after them. *)
Record codecs : Type := mkCodecs {
  gunzip : string -> option string;
  untar : string -> list tar_next;
  unzip : string -> option (list zip_file);
  targz_bytes : list (tar_header * string) -> string;
  targz_flushed : list (tar_header * string) -> Z;
  gzip_stream : string -> option (string * bool)
}.

End Archive.

(* ===================================================================== *)
(** ** Package handlers: the extractors of the file manager *)
(* ===================================================================== *)

Module FilesHandler.
Import GoStr Path FS Archive.
Local Open Scope Z_scope.

(** The extractors return the error of the failing call unwrapped. *)
Inductive extract_error : Type :=
| OsError (e : os_error)
| GzipError
| TarError
| ZipError.

Section Extractors.
Variable codec : codecs.

(** The loop of [extractTarGz] and of [extractTar], which the
    source writes out twice with the same body. *)
Fixpoint extract_tar_entries (destPath : string) (items : list tar_next) (fs : filesys)
  : filesys * option extract_error :=
  match items with
  | [] => (fs, None)
  | ReadError :: _ => (fs, Some TarError)
  | Entry header body :: rest =>
      let target := Join destPath (Name header) in
      if negb (HasPrefix target (Clean destPath ++ "/")) then
        extract_tar_entries destPath rest fs
      else
        match Typeflag header with
        | TypeDir =>
            match MkdirAll target 493 fs with
            | (fs1, Some e) => (fs1, Some (OsError e))
            | (fs1, None) => extract_tar_entries destPath rest fs1
            end
        | TypeReg =>
            match MkdirAll (Dir target) 493 fs with
            | (fs1, Some e) => (fs1, Some (OsError e))
            | (fs1, None) =>
                match Create target fs1 with
                | (fs2, Some e) => (fs2, Some (OsError e))
                | (fs2, None) =>
                    match Chmod target (Mode header) (write_data target body fs2) with
                    | (fs3, Some e) => (fs3, Some (OsError e))
                    | (fs3, None) => extract_tar_entries destPath rest fs3
                    end
                end
            end
        | TypeOther => extract_tar_entries destPath rest fs
        end
  end.

Definition extractTarGz (archivePath destPath : string) (fs : filesys)
  : filesys * option extract_error :=
  match Open fs archivePath with
  | OpenFails e => (fs, Some (OsError e))
  | OpenedDirectory => (fs, Some GzipError)
  | OpenedFile data =>
      match gunzip codec data with
      | None => (fs, Some GzipError)
      | Some tarBytes => extract_tar_entries destPath (untar codec tarBytes) fs
      end
  end.

Definition extractTar (archivePath destPath : string) (fs : filesys)
  : filesys * option extract_error :=
  match Open fs archivePath with
  | OpenFails e => (fs, Some (OsError e))
  | OpenedDirectory => (fs, Some TarError)
  | OpenedFile data => extract_tar_entries destPath (untar codec data) fs
  end.

Fixpoint extract_zip_files (destPath : string) (files : list zip_file) (fs : filesys)
  : filesys * option extract_error :=
  match files with
  | [] => (fs, None)
  | file :: rest =>
      let target := Join destPath (zName file) in
      if negb (HasPrefix target (Clean destPath ++ "/")) then
        extract_zip_files destPath rest fs
      else if zIsDir file then
        match MkdirAll target 493 fs with
        | (fs1, Some e) => (fs1, Some (OsError e))
        | (fs1, None) => extract_zip_files destPath rest fs1
        end
      else
        match MkdirAll (Dir target) 493 fs with
        | (fs1, Some e) => (fs1, Some (OsError e))
        | (fs1, None) =>
            match zOpen file with
            | None => (fs1, Some ZipError)
            | Some body =>
                match Create target fs1 with
                | (fs2, Some e) => (fs2, Some (OsError e))
                | (fs2, None) =>
                    match Chmod target (zMode file) (write_data target body fs2) with
                    | (fs3, Some e) => (fs3, Some (OsError e))
                    | (fs3, None) => extract_zip_files destPath rest fs3
                    end
                end
            end
        end
  end.

Definition extractZip (archivePath destPath : string) (fs : filesys)
  : filesys * option extract_error :=
  match Open fs archivePath with
  | OpenFails e => (fs, Some (OsError e))
  | OpenedDirectory => (fs, Some ZipError)
  | OpenedFile data =>
      match unzip codec data with
      | None => (fs, Some ZipError)
      | Some files => extract_zip_files destPath files fs
      end
  end.

(** [extractGz]: the output file is created once the header of the
    archive is read, and holds what [io.Copy] has written also when the
    copy ends in an error. *)
Definition extractGz (archivePath destPath : string) (fs : filesys)
  : filesys * option extract_error :=
  match Open fs archivePath with
  | OpenFails e => (fs, Some (OsError e))
  | OpenedDirectory => (fs, Some GzipError)
  | OpenedFile data =>
      match gzip_stream codec data with
      | None => (fs, Some GzipError)
      | Some (bytes, complete) =>
          let outputName := TrimSuffix (Base archivePath) ".gz" in
          let outputPath := Join destPath outputName in
          match Create outputPath fs with
          | (fs1, Some e) => (fs1, Some (OsError e))
          | (fs1, None) =>
              (write_data outputPath bytes fs1,
               if complete then None else Some GzipError)
          end
      end
  end.

(** The dispatch on the suffix of the file name in [UnarchiveFile];
    [None] is the answer for an unsupported format. *)
Definition unarchive (fileName archivePath fullPath : string) (fs : filesys)
  : option (filesys * option extract_error) :=
  if HasSuffix fileName ".tar.gz" || HasSuffix fileName ".tgz" then
    Some (extractTarGz archivePath fullPath fs)
  else if HasSuffix fileName ".tar" then Some (extractTar archivePath fullPath fs)
  else if HasSuffix fileName ".zip" then Some (extractZip archivePath fullPath fs)
  else if HasSuffix fileName ".gz" then Some (extractGz archivePath fullPath fs)
  else None.

End Extractors.

End FilesHandler.

(* ===================================================================== *)
(** ** Package models: backups and the persistence layer *)
(* ===================================================================== *)

Module Models.
Local Open Scope Z_scope.

(** A row of the backups table; the primary key [ID] is the key of
    the table. [CreatedAt] is a time stamp on a linear clock. *)
Record Backup : Type := mkBackup {
  ServerID : N;
  FileName : string;
  FilePath : string;
  FileSize : Z;
  CreatedAt : Z
}.

(** Modelled from the spec: models/server.go is not among the sources;
    the record has the fields of a server that the handlers and
    services read. *)
Record Server : Type := mkServer {
  ID : N;
  Name : string;
  FolderPath : string;
  BackupPath : string;
  MaxBackups : Z;
  Status : string
}.

(** The calls on the persistence layer, each of which can return an
    error of its own ([failing] says which ones do). *)
Inductive db_call : Type := CallCount | CallOldest | CallDelete | CallCreate.

Record database : Type := mkDB {
  backups : gmap N Backup;
  failing : db_call -> bool
}.

Definition with_backups (db : database) (t : gmap N Backup) : database :=
  mkDB t (failing db).

Definition of_server (serverID : N) (kv : N * Backup) : Prop :=
  ServerID (snd kv) = serverID.

#[global] Instance of_server_dec serverID kv : Decision (of_server serverID kv).
Proof. unfold of_server. apply _. Defined.

(** The rows of one server. *)
Definition rows_of (serverID : N) (t : gmap N Backup) : gmap N Backup :=
  filter (of_server serverID) t.

(** The key a new row gets, a key that is not in use: the model takes
    one more than the largest key in use. *)
Definition new_id (t : gmap N Backup) : N :=
  (1 + List.fold_right N.max 0 (List.map fst (map_to_list t)))%N.

(** [CreateBackup]: the row is inserted under a new key, with the
    time of insertion as its creation time. *)
Definition CreateBackup (serverID : N) (fileName filePath : string) (fileSize : Z)
           (now : Z) (db : database) : database * option (N * Backup) :=
  if failing db CallCreate then (db, None)
  else
    let id := new_id (backups db) in
    let b := mkBackup serverID fileName filePath fileSize now in
    (with_backups db (<[id := b]> (backups db)), Some (id, b)).

(** [Backup.Delete]: the row with the backup's key is deleted. *)
Definition Delete (id : N) (db : database) : database * bool :=
  if failing db CallDelete then (db, false)
  else (with_backups db (delete id (backups db)), true).

(** The order of [Order("created_at ASC").First]: creation time
    ascending, the primary key ascending among equal times. *)
Definition older (a b : N * Backup) : bool :=
  (CreatedAt (snd a) <? CreatedAt (snd b))
  || ((CreatedAt (snd a) =? CreatedAt (snd b)) && (fst a <=? fst b)%N).

Fixpoint oldest_of (l : list (N * Backup)) : option (N * Backup) :=
  match l with
  | [] => None
  | x :: l' =>
      match oldest_of l' with
      | None => Some x
      | Some y => if older x y then Some x else Some y
      end
  end.

(** [GetOldestBackup]; [None] is an error, among them the one for a
    server without backups. *)
Definition GetOldestBackup (serverID : N) (db : database) : option (N * Backup) :=
  if failing db CallOldest then None
  else oldest_of (map_to_list (rows_of serverID (backups db))).

(** [CountBackups]. *)
Definition CountBackups (serverID : N) (db : database) : option Z :=
  if failing db CallCount then None
  else Some (Z.of_nat (size (rows_of serverID (backups db)))).

End Models.

(* ===================================================================== *)
(** ** Package services: the backup service *)
(* ===================================================================== *)

Module BackupService.
Import GoStr Path FS Archive Models.
Local Open Scope Z_scope.

(** The state the backup operations act on. *)
Record world : Type := mkWorld {
  w_fs : filesys;
  w_db : database
}.

Inductive backup_error : Type :=
| ErrCreateBackupDir         (* "failed to create backup directory: %w" *)
| ErrCreateBackupFile        (* "failed to create backup file: %w" *)
| ErrCreateArchive           (* "failed to create tar.gz archive: %w" *)
| ErrBackupFileSize          (* "failed to get backup file size: %w" *)
| ErrCountBackups            (* "failed to count backups: %w" *)
| ErrGetOldest               (* "failed to get oldest backup: %w" *)
| ErrDeleteRecord            (* "failed to delete backup record: %w" *)
| ErrDeleteFile              (* "failed to delete backup file: %w" *)
| ErrPathNotCreatable        (* "backup path does not exist and cannot be created: %w" *)
| ErrPathNotWritable         (* "backup path is not writable: %w" *)
| ErrBackupNotFound          (* "backup file not found: %w" *)
| ErrServerFolderNotFound    (* "server folder not found: %w" *)
| ErrClearDirectory          (* "failed to clear server directory: %w" *)
| ErrExtract (e : backup_error) (* "failed to extract backup: %w" *)
| ErrOpenBackup              (* "failed to open backup file: %w" *)
| ErrGzipReader              (* "failed to create gzip reader: %w" *)
| ErrTarHeader               (* "failed to read tar header: %w" *)
| ErrInvalidPath (name : string)      (* "invalid file path in archive: %s" *)
| ErrCreateDirectory (target : string) (* "failed to create directory %s: %w" *)
| ErrParentDirectory (target : string) (* "failed to create parent directory for %s: %w" *)
| ErrCreateFile (target : string)     (* "failed to create file %s: %w" *)
| ErrSetPermissions (target : string). (* "failed to set permissions for %s: %w" *)

(** The number of backup records of a server. *)
Definition count_of (serverID : N) (w : world) : Z :=
  Z.of_nat (size (rows_of serverID (backups (w_db w)))).

(** [GenerateBackupFileName], given the date in the form YYYYMMDD and
    the four random digits. *)
Definition GenerateBackupFileName (serverName dateStr randomID : string) : string :=
  serverName ++ "_" ++ dateStr ++ "_" ++ randomID ++ ".tar.gz".

(** The order in which [filepath.Walk] visits the tree: a directory
    before its entries, the entries of a directory by name. *)
Fixpoint path_leb (a b : list string) : bool :=
  match a, b with
  | [], _ => true
  | _ :: _, [] => false
  | x :: a', y :: b' =>
      if String.eqb x y then path_leb a' b' else String.leb x y
  end.

Fixpoint insert_walk (x : list string * node) (l : list (list string * node))
  : list (list string * node) :=
  match l with
  | [] => [x]
  | y :: l' => if path_leb (fst x) (fst y) then x :: l else y :: insert_walk x l'
  end.

(** The nodes strictly below [root], with their paths relative to it,
    in walk order. *)
Definition walk_below (fs : filesys) (root : list string) : list (list string * node) :=
  List.fold_right insert_walk []
    (omap (fun kv : list string * node =>
             if is_prefix root (fst kv)
             then match List.skipn (List.length root) (fst kv) with
                  | [] => None
                  | rel => Some (rel, snd kv)
                  end
             else None)
          (map_to_list (nodes fs))).

(** The header and the content written for one visited node. *)
Definition archive_member (kv : list string * node) : tar_header * string :=
  match snd kv with
  | Directory perm => (mkHeader (JoinStrings (fst kv) "/") TypeDir perm, "")
  | Regular perm data => (mkHeader (JoinStrings (fst kv) "/") TypeReg perm, data)
  end.

Section Service.
Variable codec : codecs.

(** [CreateTarGzBackup]: the path of the archive and the size
    [os.Stat] reports for it before the writers are closed. *)
Definition CreateTarGzBackup (sourcePath backupPath fileName : string) (fs : filesys)
  : filesys * (string * Z + backup_error) :=
  match MkdirAll backupPath 493 fs with
  | (fs1, Some _) => (fs1, inr ErrCreateBackupDir)
  | (fs1, None) =>
      let fullBackupPath := Join backupPath fileName in
      match Create fullBackupPath fs1 with
      | (fs2, Some _) => (fs2, inr ErrCreateBackupFile)
      | (fs2, None) =>
          match Stat fs2 sourcePath with
          | None => (fs2, inr ErrCreateArchive)
          | Some _ =>
              let members :=
                List.map archive_member (walk_below fs2 (locate fs2 sourcePath)) in
              let fs3 := write_data fullBackupPath (targz_bytes codec members) fs2 in
              match Stat fs3 fullBackupPath with
              | None => (fs3, inr ErrBackupFileSize)
              | Some _ => (fs3, inl (fullBackupPath, targz_flushed codec members))
              end
          end
      end
  end.

(** [RotateBackups]. *)
Definition RotateBackups (serverID : N) (maxBackups : Z) (w : world)
  : world * option backup_error :=
  match CountBackups serverID (w_db w) with
  | None => (w, Some ErrCountBackups)
  | Some count =>
      if count >=? maxBackups then
        match GetOldestBackup serverID (w_db w) with
        | None => (w, Some ErrGetOldest)
        | Some (id, oldestBackup) =>
            let fs1 := fst (Remove (FilePath oldestBackup) (w_fs w)) in
            match Delete id (w_db w) with
            | (db1, false) => (mkWorld fs1 db1, Some ErrDeleteRecord)
            | (db1, true) => (mkWorld fs1 db1, None)
            end
        end
      else (w, None)
  end.

(** [DeleteBackupFile]. *)
Definition DeleteBackupFile (filePath : string) (fs : filesys)
  : filesys * option backup_error :=
  match Remove filePath fs with
  | (fs1, Some _) => (fs1, Some ErrDeleteFile)
  | (fs1, None) => (fs1, None)
  end.

(** [ValidateBackupPath]. *)
Definition ValidateBackupPath (backupPath : string) (fs : filesys)
  : filesys * option backup_error :=
  let made :=
    if IsNotExist (Stat_err fs backupPath) then MkdirAll backupPath 493 fs
    else (fs, None) in
  match made with
  | (fs1, Some _) => (fs1, Some ErrPathNotCreatable)
  | (fs1, None) =>
      let testFile := Join backupPath ".write_test" in
      match WriteFile testFile "test" 420 fs1 with
      | (fs2, Some _) => (fs2, Some ErrPathNotWritable)
      | (fs2, None) => (fst (Remove testFile fs2), None)
      end
  end.

(** The loop of [clearDirectory] over the entries read. *)
Fixpoint remove_entries (dirPath : string) (entries : list string) (fs : filesys) : filesys :=
  match entries with
  | [] => fs
  | name :: rest => remove_entries dirPath rest (RemoveAll (Join dirPath name) fs)
  end.

(** [clearDirectory]; [false] is the error of [os.ReadDir]. *)
Definition clearDirectory (dirPath : string) (fs : filesys) : filesys * bool :=
  match ReadDir fs dirPath with
  | None => (fs, false)
  | Some entries => (remove_entries dirPath entries fs, true)
  end.

(** The loop of [extractTarGzBackup] over the entries of the
    archive. *)
Fixpoint extract_backup_entries (destPath : string) (items : list tar_next) (fs : filesys)
  : filesys * option backup_error :=
  match items with
  | [] => (fs, None)
  | ReadError :: _ => (fs, Some ErrTarHeader)
  | Entry header body :: rest =>
      let target := Join destPath (Archive.Name header) in
      if negb (HasPrefix (Clean target) (Clean destPath)) then
        (fs, Some (ErrInvalidPath (Archive.Name header)))
      else
        match Typeflag header with
        | TypeDir =>
            match MkdirAll target 493 fs with
            | (fs1, Some _) => (fs1, Some (ErrCreateDirectory target))
            | (fs1, None) => extract_backup_entries destPath rest fs1
            end
        | TypeReg =>
            match MkdirAll (Dir target) 493 fs with
            | (fs1, Some _) => (fs1, Some (ErrParentDirectory target))
            | (fs1, None) =>
                match Create target fs1 with
                | (fs2, Some _) => (fs2, Some (ErrCreateFile target))
                | (fs2, None) =>
                    match Chmod target (Mode header) (write_data target body fs2) with
                    | (fs3, Some _) => (fs3, Some (ErrSetPermissions target))
                    | (fs3, None) => extract_backup_entries destPath rest fs3
                    end
                end
            end
        | TypeOther => extract_backup_entries destPath rest fs
        end
  end.

Definition extractTarGzBackup (backupFilePath destPath : string) (fs : filesys)
  : filesys * option backup_error :=
  match Open fs backupFilePath with
  | OpenFails _ => (fs, Some ErrOpenBackup)
  | OpenedDirectory => (fs, Some ErrGzipReader)
  | OpenedFile data =>
      match gunzip codec data with
      | None => (fs, Some ErrGzipReader)
      | Some tarBytes => extract_backup_entries destPath (untar codec tarBytes) fs
      end
  end.

(** [RestoreBackupFromArchive]: the two checks return only for the
    error that [os.IsNotExist] recognises; with any other answer of
    [os.Stat] the function goes on. *)
Definition RestoreBackupFromArchive (backupFilePath serverFolderPath : string) (fs : filesys)
  : filesys * option backup_error :=
  if IsNotExist (Stat_err fs backupFilePath) then (fs, Some ErrBackupNotFound)
  else if IsNotExist (Stat_err fs serverFolderPath) then (fs, Some ErrServerFolderNotFound)
  else
    match clearDirectory serverFolderPath fs with
    | (fs1, false) => (fs1, Some ErrClearDirectory)
    | (fs1, true) =>
        match extractTarGzBackup backupFilePath serverFolderPath fs1 with
        | (fs2, Some e) => (fs2, Some (ErrExtract e))
        | (fs2, None) => (fs2, None)
        end
    end.

End Service.

End BackupService.

(* ===================================================================== *)
(** ** handlers/backups.go *)
(* ===================================================================== *)

Module BackupsHandler.
Import GoStr Path FS Archive Models BackupService.
Local Open Scope Z_scope.

(** The answer of a handler: the HTTP status (200 when the handler
    sets none), the [success] member of the JSON body and its message
    (without the text of a wrapped error). *)
Record response : Type := mkResponse {
  status : Z;
  success : bool;
  message : string
}.

Section Handlers.
Variable codec : codecs.

(** [CreateBackup], from the answer of [models.GetServerByName]
    ([None] for an error) on; [dateStr], [randomID] and [now] are
    what the clock and the random source give. *)
Definition CreateBackup (found : option Server) (dateStr randomID : string) (now : Z)
           (w : world) : world * response :=
  match found with
  | None => (w, mkResponse 404 false "Server not found")
  | Some server =>
      if String.eqb (Models.BackupPath server) "" then
        (w, mkResponse 400 false
              "Backup path not configured. Please set it in Settings first.")
      else
        match RotateBackups (Models.ID server) (MaxBackups server) w with
        | (w1, Some _) => (w1, mkResponse 500 false "Failed to rotate backups")
        | (w1, None) =>
            let fileName := GenerateBackupFileName (Models.Name server) dateStr randomID in
            match CreateTarGzBackup codec (FolderPath server) (Models.BackupPath server)
                    fileName (w_fs w1) with
            | (fs2, inr _) =>
                (mkWorld fs2 (w_db w1), mkResponse 500 false "Failed to create backup")
            | (fs2, inl (backupPath, fileSize)) =>
                match Models.CreateBackup (Models.ID server) fileName backupPath fileSize now
                        (w_db w1) with
                | (db3, None) =>
                    (mkWorld (fst (Remove backupPath fs2)) db3,
                     mkResponse 500 false "Failed to save backup record")
                | (db3, Some _) =>
                    (mkWorld fs2 db3, mkResponse 200 true "Backup created successfully")
                end
            end
        end
  end.

(** The part of the server model that [UpdateBackupSettings] calls,
    [Server.UpdateBackupSettings(backupPath, maxBackups)], is not
    among the sources: it is a parameter, acting on a store of
    servers of any type and answering whether it succeeded. *)
Variable store : Type.
Variable Server_UpdateBackupSettings : Server -> string -> Z -> store -> store * bool.

(** [UpdateBackupSettings], from the answer of
    [models.GetServerByName] on; [formOk] says whether
    [r.ParseForm] succeeded, [backupPath] and [maxBackupsStr] are
    the form values. *)
Definition UpdateBackupSettings (found : option Server) (formOk : bool)
           (backupPath maxBackupsStr : string) (fs : filesys) (st : store)
  : filesys * store * response :=
  match found with
  | None => (fs, st, mkResponse 404 false "Server not found")
  | Some server =>
      if negb formOk then (fs, st, mkResponse 400 false "Error parsing form")
      else if String.eqb backupPath "" then
        (fs, st, mkResponse 400 false "Backup path is required")
      else
        match Atoi maxBackupsStr with
        | None => (fs, st, mkResponse 400 false "Max backups must be between 1 and 3")
        | Some maxBackups =>
            if (maxBackups <? 1) || (maxBackups >? 3) then
              (fs, st, mkResponse 400 false "Max backups must be between 1 and 3")
            else
              match ValidateBackupPath backupPath fs with
              | (fs1, Some _) => (fs1, st, mkResponse 400 false "Invalid backup path")
              | (fs1, None) =>
                  match Server_UpdateBackupSettings server backupPath maxBackups st with
                  | (st1, false) =>
                      (fs1, st1, mkResponse 500 false "Failed to update settings")
                  | (st1, true) =>
                      (fs1, st1,
                       mkResponse 200 true "Backup settings updated successfully")
                  end
              end
        end
  end.

End Handlers.

End BackupsHandler.

(* ===================================================================== *)
(** ** services/schedule_service.go *)
(* ===================================================================== *)

Module ScheduleService.
Import GoStr Path FS Archive Models BackupService.
Local Open Scope Z_scope.

(** [models.Schedule]. *)
Record Schedule : Type := mkSchedule {
  ID : N;
  ServerID : N;
  Name : string;
  CronMinute : string;
  CronHour : string;
  CronDayOfMonth : string;
  CronMonth : string;
  CronDayOfWeek : string;
  Enabled : bool;
  Action : string;
  Command : string
}.

Definition GetCronExpression (s : Schedule) : string :=
  Cron.GetCronExpression (CronMinute s) (CronHour s) (CronDayOfMonth s)
                         (CronMonth s) (CronDayOfWeek s).

(** The service: the entries of the cron engine (each with the
    schedule its callback has captured), the engine's counter of
    entry identifiers, and the map from schedule ID to entry ID.  The
    mutex is not modelled: a function is what a call does while it
    holds the lock. *)
Record service : Type := mkService {
  cron_entries : list (Z * Schedule);
  cron_nextID : Z;
  schedules : gmap N Z
}.

Inductive schedule_error : Type :=
| ErrAlreadyExists (id : N)   (* "schedule %d already exists in cron" *)
| ErrAddCronJob.              (* "failed to add cron job: %w" *)

(** What a firing of a backup schedule logs. *)
Inductive backup_log : Type :=
| LogNoBackupPath | LogRotateFailed | LogCreateFailed | LogSaveFailed | LogBackupCreated.

Section Service.
(** The parser of the cron engine, which belongs to robfig/cron:
    whether it accepts an expression. *)
Variable cron_accepts : string -> bool.
Variable codec : codecs.

(** [cron.AddFunc(spec, cmd)]: a rejected expression is an error,
    an accepted one makes an entry under the next identifier. *)
Definition cron_AddFunc (spec : string) (job : Schedule) (s : service)
  : service * option Z :=
  if cron_accepts spec then
    let id := cron_nextID s + 1 in
    (mkService (cron_entries s ++ [(id, job)]) id (schedules s), Some id)
  else (s, None).

(** [cron.Remove(id)]. *)
Definition cron_Remove (id : Z) (s : service) : service :=
  mkService (List.filter (fun e => negb (fst e =? id)) (cron_entries s))
            (cron_nextID s) (schedules s).

Definition addScheduleInternal (schedule : Schedule) (s : service)
  : service * option schedule_error :=
  match schedules s !! ID schedule with
  | Some _ => (s, Some (ErrAlreadyExists (ID schedule)))
  | None =>
      let cronExpr := GetCronExpression schedule in
      match cron_AddFunc cronExpr schedule s with
      | (s1, None) => (s1, Some ErrAddCronJob)
      | (s1, Some entryID) =>
          (mkService (cron_entries s1) (cron_nextID s1)
                     (<[ID schedule := entryID]> (schedules s1)), None)
      end
  end.

Definition AddSchedule (schedule : Schedule) (s : service)
  : service * option schedule_error :=
  if negb (Enabled schedule) then (s, None)
  else addScheduleInternal schedule s.

Definition RemoveSchedule (scheduleID : N) (s : service)
  : service * option schedule_error :=
  match schedules s !! scheduleID with
  | None => (s, None)
  | Some entryID =>
      let s1 := cron_Remove entryID s in
      (mkService (cron_entries s1) (cron_nextID s1) (delete scheduleID (schedules s1)),
       None)
  end.

Definition UpdateSchedule (schedule : Schedule) (s : service)
  : service * option schedule_error :=
  match RemoveSchedule (ID schedule) s with
  | (s1, Some e) => (s1, Some e)
  | (s1, None) =>
      if Enabled schedule then AddSchedule schedule s1 else (s1, None)
  end.

(** The loop of [LoadAllSchedules] over the enabled schedules read
    from the database: an error of one schedule is logged and the
    loop goes on. *)
Fixpoint load_schedules (l : list Schedule) (s : service) : service :=
  match l with
  | [] => s
  | schedule :: rest => load_schedules rest (fst (addScheduleInternal schedule s))
  end.

(** [executeBackup]; [dateStr], [randomID] and [now] are what the
    clock and the random source give. *)
Definition executeBackup (server : Server) (dateStr randomID : string) (now : Z)
           (w : world) : world * backup_log :=
  if String.eqb (Models.BackupPath server) "" then (w, LogNoBackupPath)
  else
    match RotateBackups (Models.ID server) (MaxBackups server) w with
    | (w1, Some _) => (w1, LogRotateFailed)
    | (w1, None) =>
        let fileName := GenerateBackupFileName (Models.Name server) dateStr randomID in
        match CreateTarGzBackup codec (FolderPath server) (Models.BackupPath server)
                fileName (w_fs w1) with
        | (fs2, inr _) => (mkWorld fs2 (w_db w1), LogCreateFailed)
        | (fs2, inl (backupFilePath, fileSize)) =>
            match Models.CreateBackup (Models.ID server) fileName backupFilePath fileSize now
                    (w_db w1) with
            | (db3, None) => (mkWorld fs2 db3, LogSaveFailed)
            | (db3, Some _) => (mkWorld fs2 db3, LogBackupCreated)
            end
        end
    end.

End Service.

End ScheduleService.

(* ===================================================================== *)
(** ** Concrete states and archives used in the examples *)
(* ===================================================================== *)

Module Fixtures.
Import GoStr Path FS Archive Models BackupService ScheduleService.
Local Open Scope Z_scope.

Definition nightly : Schedule :=
  mkSchedule 7 1 "nightly" "0" "3" "*" "*" "*" true "backup" "".

Definition paused : Schedule :=
  mkSchedule 9 1 "paused" "0" "3" "*" "*" "*" false "backup" "".

Definition one_registered : service :=
  mkService [(1, nightly)] 1 {[ 7%N := 1 ]}.

(** A server with the largest maximum the settings allow, and the same
    server after its maximum was lowered to 1. *)
Definition survival : Server :=
  mkServer 1 "survival" "/srv/survival" "/backups" 3 "offline".

Definition survival_max1 : Server :=
  mkServer 1 "survival" "/srv/survival" "/backups" 1 "offline".

(** Decoders that read every file as the given tar stream or zip
    directory, and a writer with fixed output. *)
Definition reading_as (items : list tar_next) (files : list zip_file) : codecs :=
  mkCodecs (fun data => Some data) (fun _ => items) (fun _ => Some files)
           (fun _ => "archive") (fun _ => 7) (fun data => Some (data, true)).

Definition dir755 : node := Directory 493.

(** A disk with the server's folder, the backup folder and three
    archives in it. *)
Definition disk : filesys :=
  mkFS [] (list_to_map
             [ (["srv"], dir755);
               (["srv"; "survival"], dir755);
               (["srv"; "survival"; "world.dat"], Regular 420 "w");
               (["backups"], dir755);
               (["backups"; "a.tar.gz"], Regular 420 "a");
               (["backups"; "b.tar.gz"], Regular 420 "b");
               (["backups"; "c.tar.gz"], Regular 420 "c") ]).

Definition three_rows : gmap N Backup :=
  list_to_map
    [ (1%N, mkBackup 1 "a.tar.gz" "/backups/a.tar.gz" 1 10);
      (2%N, mkBackup 1 "b.tar.gz" "/backups/b.tar.gz" 1 20);
      (3%N, mkBackup 1 "c.tar.gz" "/backups/c.tar.gz" 1 30) ].

Definition two_rows : gmap N Backup :=
  list_to_map
    [ (1%N, mkBackup 1 "a.tar.gz" "/backups/a.tar.gz" 1 10);
      (2%N, mkBackup 1 "b.tar.gz" "/backups/b.tar.gz" 1 20) ].

Definition survival_max2 : Server :=
  mkServer 1 "survival" "/srv/survival" "/backups" 2 "offline".

Definition never_failing : db_call -> bool := fun _ => false.

Definition insert_failing : db_call -> bool :=
  fun c => match c with CallCreate => true | _ => false end.

(** Three backups on record, every call on the persistence layer
    succeeding. *)
Definition three_backups : world := mkWorld disk (mkDB three_rows never_failing).

Definition two_backups : world := mkWorld disk (mkDB two_rows never_failing).

(** No backup on record, and the insertion of a record failing. *)
Definition insert_fails : world := mkWorld disk (mkDB ∅ insert_failing).

(** No backup on record. *)
Definition no_backups : world := mkWorld disk (mkDB ∅ never_failing).

(** Two servers in sibling folders whose names share a prefix, and a
    backup archive of the first. *)
Definition two_servers : filesys :=
  mkFS [] (list_to_map
             [ (["srv"], dir755);
               (["srv"; "mc1"], dir755);
               (["srv"; "mc1"; "world.dat"], Regular 420 "w");
               (["srv"; "mc10"], dir755);
               (["backups"], dir755);
               (["backups"; "mc1.tar.gz"], Regular 420 "z") ]).

(** An archive whose first entry leaves the destination and whose
    second entry stays inside it. *)
Definition sibling_entry : tar_header := mkHeader "../mc10/ops.json" TypeReg 420.
Definition inner_entry : tar_header := mkHeader "server.properties" TypeReg 420.

Definition crafted : list tar_next :=
  [Entry sibling_entry "[]"; Entry inner_entry "motd=hi"].

(** The entry of the specification's example in front of an entry that
    stays inside. *)
Definition escape_entry : tar_header := mkHeader "../../escape.txt" TypeReg 420.

Definition escaping : list tar_next :=
  [Entry escape_entry "x"; Entry inner_entry "motd=hi"].

Definition escaping_zip : list zip_file :=
  [mkZipFile "../../escape.txt" false 420 (Some "x");
   mkZipFile "server.properties" false 420 (Some "motd=hi")].

(** A disk on which the destination is a folder directly below the
    root whose name begins the name of the example's entry. *)
Definition short_destination : filesys :=
  mkFS [] (list_to_map
             [ (["e"], dir755);
               (["backups"], dir755);
               (["backups"; "e.tar.gz"], Regular 420 "z") ]).

(** A process working in [/srv/mc1], for a destination given as [..]. *)
Definition working_in_mc1 : filesys :=
  mkFS ["srv"; "mc1"] (nodes two_servers).

Definition crafted_zip : list zip_file :=
  [mkZipFile "../mc10/ops.json" false 420 (Some "[]");
   mkZipFile "server.properties" false 420 (Some "motd=hi")].

End Fixtures.

(* ===================================================================== *)
(** ** The schedule service: start-up and what it keeps true *)
(* ===================================================================== *)

Module ScheduleRegistry.
Import Models ScheduleService.
Local Open Scope Z_scope.

(** The service [InitScheduler] makes before it loads anything: a new
    cron engine and an empty map. *)
Definition new_service : service := mkService [] 0 ∅.

(** [LoadAllSchedules], given the answer of
    [models.GetAllEnabledSchedules] ([None] for an error): [false] is
    the error returned when the schedules cannot be read. *)
Definition LoadAllSchedules (cron_accepts : string -> bool)
           (enabled : option (list Schedule)) (s : service) : service * bool :=
  match enabled with
  | None => (s, false)
  | Some schedules => (load_schedules cron_accepts schedules s, true)
  end.

(** [InitScheduler]: an error of the load is logged only. *)
Definition InitScheduler (cron_accepts : string -> bool)
           (enabled : option (list Schedule)) : service :=
  fst (LoadAllSchedules cron_accepts enabled new_service).

(** The map and the engine agree: the identifiers of the engine's
    entries are distinct and not above the engine's counter, and a
    schedule ID is mapped to an entry ID exactly when the engine has an
    entry with that identifier whose callback holds a schedule with
    that ID. *)
Definition consistent (s : service) : Prop :=
  NoDup (List.map fst (cron_entries s))
  /\ (forall e, In e (cron_entries s) -> fst e <= cron_nextID s)
  /\ (forall sid eid,
         schedules s !! sid = Some eid
         <-> exists sch, In (eid, sch) (cron_entries s) /\ ID sch = sid).

End ScheduleRegistry.

(* ===================================================================== *)
(** ** Package models: schedules *)
(* ===================================================================== *)

Module ScheduleModel.
Import GoStr Cron ScheduleService.
Local Open Scope Z_scope.

(** The errors of the schedule model: the four messages of its own, an
    error of the cron validator, and an error of the database. *)
Inductive model_error : Type :=
| ErrNameRequired              (* "schedule name is required" *)
| ErrCronField (e : cron_error)
| ErrInvalidAction             (* "invalid action type" *)
| ErrCommandRequired           (* "command is required for send_command action" *)
| ErrDatabase.

(** The calls on the persistence layer for schedules, each of which can
    return an error of its own. *)
Inductive schedule_call : Type :=
| CallCreateSchedule | CallSaveSchedule | CallDeleteSchedule | CallFirstSchedule
| CallFindEnabled.

(** The schedules table, keyed by the primary key. *)
Record schedule_db : Type := mkScheduleDB {
  rows : gmap N Schedule;
  sfailing : schedule_call -> bool
}.

Definition with_rows (db : schedule_db) (t : gmap N Schedule) : schedule_db :=
  mkScheduleDB t (sfailing db).

Definition with_ID (s : Schedule) (id : N) : Schedule :=
  mkSchedule id (ServerID s) (Name s) (CronMinute s) (CronHour s) (CronDayOfMonth s)
             (CronMonth s) (CronDayOfWeek s) (Enabled s) (Action s) (Command s).

Definition with_Enabled (s : Schedule) (enabled : bool) : Schedule :=
  mkSchedule (ID s) (ServerID s) (Name s) (CronMinute s) (CronHour s) (CronDayOfMonth s)
             (CronMonth s) (CronDayOfWeek s) enabled (Action s) (Command s).

(** The key a new row gets, a key that is not in use and not 0: the
    model takes one more than the largest key in use. *)
Definition next_key (t : gmap N Schedule) : N :=
  (1 + List.fold_right N.max 0 (List.map fst (map_to_list t)))%N.

Definition validActions : list string :=
  ["send_command"; "start_server"; "restart_server"; "stop_server"; "backup"].

(** The loop over [validActions] that sets [isValidAction]. *)
Definition isValidAction (action : string) : bool :=
  List.existsb (String.eqb action) validActions.

(** The checks that [CreateSchedule] and [UpdateSchedule] both begin
    with, in the order of the source: the name, the five cron fields,
    the action, the command of a [send_command]. *)
Definition validate_inputs
           (name cronMinute cronHour cronDayOfMonth cronMonth cronDayOfWeek : string)
           (action command : string) : option model_error :=
  if String.eqb name "" then Some ErrNameRequired
  else
    match ValidateCronField "minute" cronMinute with
    | Some e => Some (ErrCronField e)
    | None =>
    match ValidateCronField "hour" cronHour with
    | Some e => Some (ErrCronField e)
    | None =>
    match ValidateCronField "day_of_month" cronDayOfMonth with
    | Some e => Some (ErrCronField e)
    | None =>
    match ValidateCronField "month" cronMonth with
    | Some e => Some (ErrCronField e)
    | None =>
    match ValidateCronField "day_of_week" cronDayOfWeek with
    | Some e => Some (ErrCronField e)
    | None =>
        if negb (isValidAction action) then Some ErrInvalidAction
        else if String.eqb action "send_command" && String.eqb command ""
             then Some ErrCommandRequired
             else None
    end end end end end.

(** What an insertion makes of a schedule: the field [Enabled] is
    tagged [gorm:"default:true"], so that its zero value [false] is
    replaced by the default, in the row and in the caller's struct; the
    new key becomes the schedule's ID.  (The default of [Command] is
    its zero value.) *)
Definition inserted (s : Schedule) (id : N) : Schedule :=
  with_ID (with_Enabled s true) id.

(** [DB.Create(schedule)]: the row is inserted under a new key. *)
Definition db_create (s : Schedule) (db : schedule_db) : schedule_db * option Schedule :=
  if sfailing db CallCreateSchedule then (db, None)
  else
    let id := next_key (rows db) in
    (with_rows db (<[id := inserted s id]> (rows db)), Some (inserted s id)).

(** [DB.Save(s)]: the row with the schedule's ID is written, all fields;
    a schedule whose ID is 0 is inserted under a new key.  The schedule
    comes back as the caller's struct holds it afterwards. *)
Definition db_save (s : Schedule) (db : schedule_db) : schedule_db * Schedule * bool :=
  if sfailing db CallSaveSchedule then (db, s, false)
  else if (ID s =? 0)%N then
    let id := next_key (rows db) in
    (with_rows db (<[id := inserted s id]> (rows db)), inserted s id, true)
  else (with_rows db (<[ID s := s]> (rows db)), s, true).

(** [CreateSchedule]. *)
Definition CreateSchedule (serverID : N)
           (name cronMinute cronHour cronDayOfMonth cronMonth cronDayOfWeek : string)
           (enabled : bool) (action command : string) (db : schedule_db)
  : schedule_db * (Schedule + model_error) :=
  match validate_inputs name cronMinute cronHour cronDayOfMonth cronMonth cronDayOfWeek
                        action command with
  | Some e => (db, inr e)
  | None =>
      let schedule :=
        mkSchedule 0 serverID name cronMinute cronHour cronDayOfMonth cronMonth
                   cronDayOfWeek enabled action command in
      match db_create schedule db with
      | (db1, None) => (db1, inr ErrDatabase)
      | (db1, Some created) => (db1, inl created)
      end
  end.

(** [GetScheduleByID]; [None] is an error, among them the one for an ID
    without a row. *)
Definition GetScheduleByID (id : N) (db : schedule_db) : option Schedule :=
  if sfailing db CallFirstSchedule then None else rows db !! id.

(** [Schedule.UpdateSchedule]: the database, the schedule as the
    caller's struct holds it afterwards, and the error.  The fields of
    the struct are assigned before the save, so that they are changed
    also when the save fails. *)
Definition UpdateSchedule (s : Schedule)
           (name cronMinute cronHour cronDayOfMonth cronMonth cronDayOfWeek : string)
           (enabled : bool) (action command : string) (db : schedule_db)
  : schedule_db * Schedule * option model_error :=
  match validate_inputs name cronMinute cronHour cronDayOfMonth cronMonth cronDayOfWeek
                        action command with
  | Some e => (db, s, Some e)
  | None =>
      let s1 :=
        mkSchedule (ID s) (ServerID s) name cronMinute cronHour cronDayOfMonth cronMonth
                   cronDayOfWeek enabled action command in
      match db_save s1 db with
      | (db1, s2, false) => (db1, s2, Some ErrDatabase)
      | (db1, s2, true) => (db1, s2, None)
      end
  end.

(** [Schedule.ToggleEnabled]. *)
Definition ToggleEnabled (s : Schedule) (db : schedule_db)
  : schedule_db * Schedule * bool :=
  db_save (with_Enabled s (negb (Enabled s))) db.

(** [Schedule.SetEnabled]. *)
Definition SetEnabled (s : Schedule) (enabled : bool) (db : schedule_db)
  : schedule_db * Schedule * bool :=
  db_save (with_Enabled s enabled) db.

(** [Schedule.Delete]: the row with the schedule's ID is deleted; for
    a schedule whose ID is 0 the persistence layer has no condition to
    delete by and returns an error. *)
Definition Delete (s : Schedule) (db : schedule_db) : schedule_db * bool :=
  if sfailing db CallDeleteSchedule then (db, false)
  else if (ID s =? 0)%N then (db, false)
  else (with_rows db (delete (ID s) (rows db)), true).

(** [GetAllEnabledSchedules]: the rows whose [enabled] column is
    true. *)
Definition GetAllEnabledSchedules (db : schedule_db) : option (list Schedule) :=
  if sfailing db CallFindEnabled then None
  else Some (List.filter Enabled (List.map snd (map_to_list (rows db)))).

(** What the validation establishes of a schedule. *)
Definition valid_schedule (s : Schedule) : Prop :=
  Name s <> ""
  /\ ValidateCronField "minute" (CronMinute s) = None
  /\ ValidateCronField "hour" (CronHour s) = None
  /\ ValidateCronField "day_of_month" (CronDayOfMonth s) = None
  /\ ValidateCronField "month" (CronMonth s) = None
  /\ ValidateCronField "day_of_week" (CronDayOfWeek s) = None
  /\ In (Action s) validActions
  /\ (Action s = "send_command" -> Command s <> "").

(** Every row is a valid schedule stored under its own ID, and no row
    has the key 0. *)
Definition well_stored (db : schedule_db) : Prop :=
  forall k s, rows db !! k = Some s -> ID s = k /\ k <> 0%N /\ valid_schedule s.

End ScheduleModel.

(* ===================================================================== *)
(** ** services/schedule_service.go: the firing of a schedule *)
(* ===================================================================== *)

Module Dispatcher.
Import GoStr Archive Models BackupService ScheduleService.
Local Open Scope Z_scope.

(** The functions of the process supervisor and of the server model
    that a firing calls are not among the sources: they are parameters,
    acting on a state of processes of any type; a command answers
    whether it succeeded. *)
Record supervisor (proc : Type) : Type := mkSupervisor {
  IsServerRunning : Server -> proc -> bool;
  SendCommand : Server -> string -> proc -> proc * bool;
  StartServer : Server -> proc -> proc * bool;
  RestartServer : Server -> proc -> proc * bool;
  StopServer : Server -> proc -> proc * bool;
  GetServerByID : N -> option Server
}.

Arguments IsServerRunning {proc}.
Arguments SendCommand {proc}.
Arguments StartServer {proc}.
Arguments RestartServer {proc}.
Arguments StopServer {proc}.
Arguments GetServerByID {proc}.

(** What a firing logs last. *)
Inductive fire_log : Type :=
| LogServerNotFound
| LogSkipped          (* the guard of the action is not met *)
| LogFailed           (* the supervisor answered with an error *)
| LogDone
| LogUnknownAction
| LogBackup (b : backup_log).

Section Firing.
Context {proc : Type}.
Variable sup : supervisor proc.
Variable codec : codecs.

Definition executeSendCommand (server : Server) (schedule : Schedule) (p : proc)
  : proc * fire_log :=
  if negb (IsServerRunning sup server p) then (p, LogSkipped)
  else match SendCommand sup server (Command schedule) p with
       | (p1, false) => (p1, LogFailed)
       | (p1, true) => (p1, LogDone)
       end.

Definition executeStartServer (server : Server) (p : proc) : proc * fire_log :=
  if IsServerRunning sup server p then (p, LogSkipped)
  else match StartServer sup server p with
       | (p1, false) => (p1, LogFailed)
       | (p1, true) => (p1, LogDone)
       end.

Definition executeRestartServer (server : Server) (p : proc) : proc * fire_log :=
  if negb (IsServerRunning sup server p) then (p, LogSkipped)
  else match RestartServer sup server p with
       | (p1, false) => (p1, LogFailed)
       | (p1, true) => (p1, LogDone)
       end.

Definition executeStopServer (server : Server) (p : proc) : proc * fire_log :=
  if negb (IsServerRunning sup server p) then (p, LogSkipped)
  else match StopServer sup server p with
       | (p1, false) => (p1, LogFailed)
       | (p1, true) => (p1, LogDone)
       end.

(** [executeSchedule], on the state of the processes and the state of
    the backups; [dateStr], [randomID] and [now] are what the clock and
    the random source give to a backup. *)
Definition executeSchedule (schedule : Schedule) (dateStr randomID : string) (now : Z)
           (p : proc) (w : world) : proc * world * fire_log :=
  match GetServerByID sup (ServerID schedule) with
  | None => (p, w, LogServerNotFound)
  | Some server =>
      if String.eqb (Action schedule) "send_command" then
        let '(p1, l) := executeSendCommand server schedule p in (p1, w, l)
      else if String.eqb (Action schedule) "start_server" then
        let '(p1, l) := executeStartServer server p in (p1, w, l)
      else if String.eqb (Action schedule) "restart_server" then
        let '(p1, l) := executeRestartServer server p in (p1, w, l)
      else if String.eqb (Action schedule) "stop_server" then
        let '(p1, l) := executeStopServer server p in (p1, w, l)
      else if String.eqb (Action schedule) "backup" then
        let '(w1, l) := executeBackup codec server dateStr randomID now w in
        (p, w1, LogBackup l)
      else (p, w, LogUnknownAction)
  end.

(** [ExecuteScheduleManually]. *)
Definition ExecuteScheduleManually (schedule : Schedule) (dateStr randomID : string)
           (now : Z) (p : proc) (w : world) : proc * world * fire_log :=
  executeSchedule schedule dateStr randomID now p w.

End Firing.

End Dispatcher.

(* ===================================================================== *)
(** ** The identifiers in the URLs *)
(* ===================================================================== *)

Module Strconv.
Import GoStr.
Local Open Scope Z_scope.

(** [strconv.ParseUint(s, 10, 32)]: one or more decimal digits, without
    a sign, of a value below 2^32; [None] stands for an error. *)
Definition ParseUint32 (s : string) : option N :=
  match s with
  | EmptyString => None
  | _ => match parse_digits s 0 with
         | Some n => if n <=? 4294967295 then Some (Z.to_N n) else None
         | None => None
         end
  end.

End Strconv.

(* ===================================================================== *)
(** ** Package handlers: the schedule handlers *)
(* ===================================================================== *)

Module ScheduleHandlers.
Import GoStr Strconv Models ScheduleService ScheduleModel.
Local Open Scope Z_scope.

(** The answer of a handler: the HTTP status (200 when the handler sets
    none), the [success] member of the JSON body, and its message or
    the error whose text it gives. *)
Record response : Type := mkResponse {
  status : Z;
  success : bool;
  message : string + model_error
}.

(** The schedules on record and the schedule service. *)
Record panel : Type := mkPanel {
  p_db : schedule_db;
  p_svc : service
}.

(** The part the handlers of one schedule share: the server, the ID in
    the URL, the schedule, and the test that it belongs to the server.
    The answer is the schedule or the response that ends the request. *)
Definition find_schedule (found : option Server) (scheduleIDStr : string) (db : schedule_db)
  : Schedule + response :=
  match found with
  | None => inr (mkResponse 404 false (inl "Server not found"))
  | Some server =>
      match ParseUint32 scheduleIDStr with
      | None => inr (mkResponse 400 false (inl "Invalid schedule ID"))
      | Some scheduleID =>
          match GetScheduleByID scheduleID db with
          | None => inr (mkResponse 404 false (inl "Schedule not found"))
          | Some schedule =>
              if negb (ServerID schedule =? Models.ID server)%N then
                inr (mkResponse 403 false (inl "Access denied"))
              else inl schedule
          end
      end
  end.

Definition parse_enabled (enabledStr : string) : bool :=
  String.eqb enabledStr "true" || String.eqb enabledStr "1".

(** The handlers act on the schedule service that [InitScheduler] made:
    the program runs it before it serves requests, so that
    [GetScheduleService] is not nil. *)
Section Handlers.
Variable cron_accepts : string -> bool.

(** [GetSchedule]. *)
Definition GetSchedule (found : option Server) (scheduleIDStr : string) (st : panel)
  : response + Schedule :=
  match find_schedule found scheduleIDStr (p_db st) with
  | inr r => inl r
  | inl schedule => inr schedule
  end.

(** [CreateSchedule], from the answer of [models.GetServerByName] on;
    [formOk] says whether [r.ParseForm] succeeded, the strings are the
    form values. *)
Definition CreateSchedule (found : option Server) (formOk : bool)
           (name cronMinute cronHour cronDayOfMonth cronMonth cronDayOfWeek : string)
           (enabledStr action command : string) (st : panel) : panel * response :=
  match found with
  | None => (st, mkResponse 404 false (inl "Server not found"))
  | Some server =>
      if negb formOk then (st, mkResponse 400 false (inl "Error parsing form"))
      else
        let enabled := parse_enabled enabledStr in
        match ScheduleModel.CreateSchedule (Models.ID server) name cronMinute cronHour
                cronDayOfMonth cronMonth cronDayOfWeek enabled action command (p_db st) with
        | (db1, inr e) => (mkPanel db1 (p_svc st), mkResponse 400 false (inr e))
        | (db1, inl schedule) =>
            if enabled then
              match AddSchedule cron_accepts schedule (p_svc st) with
              | (svc1, Some _) =>
                  (mkPanel db1 svc1,
                   mkResponse 201 true
                              (inl "Schedule created but failed to add to scheduler"))
              | (svc1, None) =>
                  (mkPanel db1 svc1, mkResponse 200 true (inl "Schedule created successfully"))
              end
            else (mkPanel db1 (p_svc st),
                  mkResponse 200 true (inl "Schedule created successfully"))
        end
  end.

(** [UpdateSchedule]. *)
Definition UpdateSchedule (found : option Server) (scheduleIDStr : string) (formOk : bool)
           (name cronMinute cronHour cronDayOfMonth cronMonth cronDayOfWeek : string)
           (enabledStr action command : string) (st : panel) : panel * response :=
  match find_schedule found scheduleIDStr (p_db st) with
  | inr r => (st, r)
  | inl schedule =>
      if negb formOk then (st, mkResponse 400 false (inl "Error parsing form"))
      else
        let enabled := parse_enabled enabledStr in
        match ScheduleModel.UpdateSchedule schedule name cronMinute cronHour cronDayOfMonth
                cronMonth cronDayOfWeek enabled action command (p_db st) with
        | (db1, _, Some e) => (mkPanel db1 (p_svc st), mkResponse 400 false (inr e))
        | (db1, schedule1, None) =>
            match ScheduleService.UpdateSchedule cron_accepts schedule1 (p_svc st) with
            | (svc1, Some _) =>
                (mkPanel db1 svc1,
                 mkResponse 200 true (inl "Schedule updated but failed to update scheduler"))
            | (svc1, None) =>
                (mkPanel db1 svc1, mkResponse 200 true (inl "Schedule updated successfully"))
            end
        end
  end.

(** [DeleteSchedule]: the schedule leaves the scheduler first, the
    database second. *)
Definition DeleteSchedule (found : option Server) (scheduleIDStr : string) (st : panel)
  : panel * response :=
  match find_schedule found scheduleIDStr (p_db st) with
  | inr r => (st, r)
  | inl schedule =>
      let svc1 := fst (RemoveSchedule (ID schedule) (p_svc st)) in
      match ScheduleModel.Delete schedule (p_db st) with
      | (db1, false) =>
          (mkPanel db1 svc1, mkResponse 500 false (inl "Failed to delete schedule"))
      | (db1, true) =>
          (mkPanel db1 svc1, mkResponse 200 true (inl "Schedule deleted successfully"))
      end
  end.

(** [ToggleSchedule]. *)
Definition ToggleSchedule (found : option Server) (scheduleIDStr : string) (st : panel)
  : panel * response :=
  match find_schedule found scheduleIDStr (p_db st) with
  | inr r => (st, r)
  | inl schedule =>
      match ToggleEnabled schedule (p_db st) with
      | (db1, _, false) =>
          (mkPanel db1 (p_svc st), mkResponse 500 false (inl "Failed to toggle schedule"))
      | (db1, schedule1, true) =>
          let svc1 := fst (ScheduleService.UpdateSchedule cron_accepts schedule1 (p_svc st)) in
          (mkPanel db1 svc1, mkResponse 200 true (inl "Schedule toggled successfully"))
      end
  end.

End Handlers.

(** The state of the panel the schedule handlers keep: the rows are
    valid schedules stored under their IDs, map and engine of the
    service agree, and every entry of the engine holds a schedule that
    is a row, as the row has it, and enabled. *)
Definition linked (st : panel) : Prop :=
  well_stored (p_db st)
  /\ ScheduleRegistry.consistent (p_svc st)
  /\ forall eid sch,
       In (eid, sch) (cron_entries (p_svc st)) ->
       rows (p_db st) !! ID sch = Some sch /\ Enabled sch = true.

(** A request leaves the schedule [s] stored under [k] alone: the row
    reads the same, its registration is the same, and the entries of the
    engine that hold it are still there. *)
Definition untouched (k : N) (s : Schedule) (st st' : panel) : Prop :=
  rows (p_db st') !! k = Some s
  /\ schedules (p_svc st') !! k = schedules (p_svc st) !! k
  /\ forall eid, In (eid, s) (cron_entries (p_svc st)) ->
                 In (eid, s) (cron_entries (p_svc st')).

(** No enabled row is left out of the scheduler: an enabled row whose
    expression the cron engine accepts is registered. *)
Definition complete (cron_accepts : string -> bool) (st : panel) : Prop :=
  forall k s,
    rows (p_db st) !! k = Some s ->
    Enabled s = true ->
    cron_accepts (GetCronExpression s) = true ->
    is_Some (schedules (p_svc st) !! k).

(** The panel at start-up: [InitScheduler] on the schedules on
    record. *)
Definition started (cron_accepts : string -> bool) (db : schedule_db) : panel :=
  mkPanel db (ScheduleRegistry.InitScheduler cron_accepts (GetAllEnabledSchedules db)).

End ScheduleHandlers.

(* ===================================================================== *)
(** ** handlers/backups.go: deleting and restoring a backup *)
(* ===================================================================== *)

Module BackupRequests.
Import GoStr Strconv Path FS Archive Models BackupService BackupsHandler.
Local Open Scope Z_scope.

(** [models.GetBackupByID]: the key and the row; [None] is an error,
    among them the one for an ID without a row.  [readFails] says
    whether the query itself fails. *)
Definition GetBackupByID (readFails : bool) (id : N) (db : database) : option (N * Backup) :=
  if readFails then None
  else match backups db !! id with
       | Some b => Some (id, b)
       | None => None
       end.

(** The part [DeleteBackup], [DownloadBackup] and [RestoreBackup] share
    after the server is known: the ID in the URL, the backup, and the
    test that it belongs to the server. *)
Definition find_backup (server : Server) (backupIDStr : string) (readFails : bool)
           (db : database) : N * Backup + response :=
  match ParseUint32 backupIDStr with
  | None => inr (mkResponse 400 false "Invalid backup ID")
  | Some backupID =>
      match GetBackupByID readFails backupID db with
      | None => inr (mkResponse 404 false "Backup not found")
      | Some (id, backup) =>
          if negb (ServerID backup =? Models.ID server)%N then
            inr (mkResponse 403 false "Access denied")
          else inl (id, backup)
      end
  end.

(** [DeleteBackup], from the answer of [models.GetServerByName] on: an
    error of the removal of the file is logged only. *)
Definition DeleteBackup (found : option Server) (backupIDStr : string) (readFails : bool)
           (w : world) : world * response :=
  match found with
  | None => (w, mkResponse 404 false "Server not found")
  | Some server =>
      match find_backup server backupIDStr readFails (w_db w) with
      | inr r => (w, r)
      | inl (id, backup) =>
          let fs1 := fst (DeleteBackupFile (FilePath backup) (w_fs w)) in
          match Delete id (w_db w) with
          | (db1, false) =>
              (mkWorld fs1 db1, mkResponse 500 false "Failed to delete backup record")
          | (db1, true) =>
              (mkWorld fs1 db1, mkResponse 200 true "Backup deleted successfully")
          end
      end
  end.

Section Restoring.
Variable codec : codecs.

(** [RestoreBackup], from the answer of [models.GetServerByName] on. *)
Definition RestoreBackup (found : option Server) (backupIDStr : string) (readFails : bool)
           (w : world) : world * response :=
  match found with
  | None => (w, mkResponse 404 false "Server not found")
  | Some server =>
      if String.eqb (Status server) "online" then
        (w, mkResponse 400 false
              "Cannot restore while server is running. Please stop the server first.")
      else
        match find_backup server backupIDStr readFails (w_db w) with
        | inr r => (w, r)
        | inl (_, backup) =>
            if IsNotExist (Stat_err (w_fs w) (FilePath backup)) then
              (w, mkResponse 404 false "Backup file not found on disk")
            else
              match RestoreBackupFromArchive codec (FilePath backup) (FolderPath server)
                      (w_fs w) with
              | (fs1, Some _) =>
                  (mkWorld fs1 (w_db w), mkResponse 500 false "Failed to restore backup")
              | (fs1, None) =>
                  (mkWorld fs1 (w_db w),
                   mkResponse 200 true
                     ("Server restored successfully from backup: " ++ FileName backup))
              end
        end
  end.

End Restoring.

(** The loop of [FormatFileSize] for a size of at least 1024 bytes: the
    divisor and the index into the unit letters with which the size is
    printed.  [n] is the loop variable, at most [fuel] rounds are
    run. *)
Fixpoint scale_loop (fuel : nat) (n div : Z) (exp : nat) : Z * nat :=
  match fuel with
  | O => (div, exp)
  | S fuel' =>
      if n >=? 1024 then scale_loop fuel' (n / 1024) (div * 1024) (S exp)
      else (div, exp)
  end.

(** The divisor and the index of [FormatFileSize]; [None] for a size
    below 1024, which is printed in bytes.  A loop variable below 2^63
    is below 1024 after seven divisions. *)
Definition size_scale (bytes : Z) : option (Z * nat) :=
  if bytes <? 1024 then None
  else Some (scale_loop 7 (bytes / 1024) 1024 0).

Definition unit_letters : string := "KMGTPE".

End BackupRequests.

(* ===================================================================== *)
(** ** Disks and archives in good shape *)
(* ===================================================================== *)

Module Disk.
Import GoStr Path FS Archive.

(** The nodes make a tree: a node is reached by plain names, and it
    lies in a directory. *)
Definition tree_shaped (fs : filesys) : Prop :=
  forall p n,
    nodes fs !! p = Some n ->
    p <> [] /\ Forall plain p /\ exists perm, node_at fs (parent p) = Some (Directory perm).

(** The same as a test. *)
Definition plainb (s : string) : bool :=
  negb (String.eqb s "") && negb (String.eqb s ".") && negb (String.eqb s "..")
  && negb (Contains s Separator).

Definition tree_shapedb (fs : filesys) : bool :=
  List.forallb
    (fun kv : list string * node =>
       match fst kv with
       | [] => false
       | p => List.forallb plainb p
              && match node_at fs (parent p) with
                 | Some (Directory _) => true
                 | _ => false
                 end
       end)
    (map_to_list (nodes fs)).

(** A name of an archive entry that leads down from the destination:
    plain names joined by separators. *)
Definition benign (name : string) : Prop :=
  exists names, names <> [] /\ Forall plain names /\ name = JoinStrings names "/".

Definition benign_item (item : tar_next) : Prop :=
  match item with
  | Entry header _ => benign (Archive.Name header)
  | ReadError => True
  end.

(** What a restore makes of a node that was archived: a directory
    comes back with mode 0755, a file with its content and the
    permission bits of its mode. *)
Definition restored (n : node) : node :=
  match n with
  | Directory _ => Directory 493
  | Regular perm data => Regular (Z.land perm 511) data
  end.

(** What is below [root] in [cur] is, node by node, what a restore makes
    of the node at the same place below [root0] in [fs0]. *)
Definition mirrors (fs0 : filesys) (root0 : list string) (cur : filesys) (root : list string)
  : Prop :=
  forall rel n,
    rel <> [] ->
    nodes cur !! (root ++ rel)%list = Some n ->
    exists n0, nodes fs0 !! (root0 ++ rel)%list = Some n0 /\ n = restored n0.

(** What a reader gives for the members a writer was given, when
    reading succeeds. *)
Definition items_of (members : list (tar_header * string)) : list tar_next :=
  List.map (fun m => Entry (fst m) (snd m)) members.

End Disk.

(* ===================================================================== *)
(** ** Package handlers: the file manager *)
(* ===================================================================== *)

Module FileManager.
Import GoStr Path FS Models BackupsHandler.
Local Open Scope Z_scope.

(** [filepath.Join] of three elements: the empty ones are ignored, the
    rest is joined with the separator and cleaned. *)
Definition Join3 (a b c : string) : string :=
  match List.filter (fun e => negb (String.eqb e "")) [a; b; c] with
  | [] => ""
  | elems => Clean (JoinStrings elems "/")
  end.

(** [os.Mkdir(path, perm)]. *)
Definition Mkdir (path : string) (perm : Z) (fs : filesys) : filesys * option os_error :=
  if String.eqb path "" then (fs, Some ENOENT)
  else mkdir_at (locate fs path) perm fs.

(** The path the handlers build for [name] in the folder [currentPath]
    of the server. *)
Definition full_path (server : Server) (currentPath name : string) : string :=
  if String.eqb currentPath "/" || String.eqb currentPath "" then
    Join (FolderPath server) name
  else Join3 (FolderPath server) (TrimPrefix currentPath "/") name.

(** [CreateDirectory], from the answer of [models.GetServerByName] on;
    [formOk] says whether [r.ParseForm] succeeded, [currentPath] and
    [dirName] are the form values. *)
Definition CreateDirectory (found : option Server) (formOk : bool)
           (currentPath dirName : string) (fs : filesys) : filesys * response :=
  match found with
  | None => (fs, mkResponse 404 false "Server not found")
  | Some server =>
      if negb formOk then (fs, mkResponse 400 false "Error parsing form")
      else if String.eqb dirName "" then
        (fs, mkResponse 400 false "Directory name is required")
      else
        let cleanPath := Clean (full_path server currentPath dirName) in
        if negb (HasPrefix cleanPath (FolderPath server)) then
          (fs, mkResponse 403 false "Access denied: path outside server directory")
        else
          match Stat fs cleanPath with
          | Some _ => (fs, mkResponse 409 false "Directory already exists")
          | None =>
              match Mkdir cleanPath 493 fs with
              | (fs1, Some _) => (fs1, mkResponse 500 false "Failed to create directory")
              | (fs1, None) => (fs1, mkResponse 200 true "Directory created successfully")
              end
          end
  end.

(** [CreateNewFile]. *)
Definition CreateNewFile (found : option Server) (formOk : bool)
           (currentPath fileName : string) (fs : filesys) : filesys * response :=
  match found with
  | None => (fs, mkResponse 404 false "Server not found")
  | Some server =>
      if negb formOk then (fs, mkResponse 400 false "Error parsing form")
      else if String.eqb fileName "" then (fs, mkResponse 400 false "File name is required")
      else if negb (Contains fileName "."%char) then
        (fs, mkResponse 400 false "File name must include an extension")
      else
        let cleanPath := Clean (full_path server currentPath fileName) in
        if negb (HasPrefix cleanPath (FolderPath server)) then
          (fs, mkResponse 403 false "Access denied: path outside server directory")
        else
          match Stat fs cleanPath with
          | Some _ => (fs, mkResponse 409 false "File already exists")
          | None =>
              match Create cleanPath fs with
              | (fs1, Some _) => (fs1, mkResponse 500 false "Failed to create file")
              | (fs1, None) => (fs1, mkResponse 200 true "File created successfully")
              end
          end
  end.

(** What [DeleteFiles] reports for a name it does not delete. *)
Inductive delete_error : Type :=
| InvalidPath (fileName : string)    (* "Invalid path: %s" *)
| NotFound (fileName : string)       (* "Not found: %s" *)
| FailedToDelete (fileName : string). (* "Failed to delete %s: %v" *)

(** The loop of [DeleteFiles] over the names: the file system, the
    count of the deleted items and the errors. *)
Fixpoint delete_each (folderPath fullPath : string) (fileNames : list string) (fs : filesys)
  : filesys * nat * list delete_error :=
  match fileNames with
  | [] => (fs, O, [])
  | fileName :: rest =>
      let filePath := Join fullPath fileName in
      if negb (HasPrefix filePath folderPath) then
        let '(fs1, n, errors) := delete_each folderPath fullPath rest fs in
        (fs1, n, InvalidPath fileName :: errors)
      else
        if IsNotExist (Stat_err fs filePath) then
          let '(fs1, n, errors) := delete_each folderPath fullPath rest fs in
          (fs1, n, NotFound fileName :: errors)
        else if RemoveAll_fails fs filePath then
          let '(fs1, n, errors) := delete_each folderPath fullPath rest fs in
          (fs1, n, FailedToDelete fileName :: errors)
        else
          let '(fs1, n, errors) :=
            delete_each folderPath fullPath rest (RemoveAll filePath fs) in
          (fs1, S n, errors)
  end.

(** The answer of [DeleteFiles]: the [success] member, the count and
    the errors, or the message of a request that is refused as a
    whole. *)
Inductive delete_answer : Type :=
| Refused (message : string)
| Deleted (success : bool) (count : nat) (errors : list delete_error).

(** [DeleteFiles]; [fileNames] is what [json.Unmarshal] gives for the
    form value [files], [None] when it fails. *)
Definition DeleteFiles (found : option Server) (formOk : bool) (currentPath : string)
           (fileNames : option (list string)) (fs : filesys) : filesys * delete_answer :=
  match found with
  | None => (fs, Refused "Server not found")
  | Some server =>
      if negb formOk then (fs, Refused "Invalid form data")
      else
        match fileNames with
        | None => (fs, Refused "Invalid files data")
        | Some [] => (fs, Refused "No files selected")
        | Some names =>
            let fullPath :=
              if String.eqb currentPath "/" || String.eqb currentPath "" then FolderPath server
              else Join (FolderPath server) (TrimPrefix currentPath "/") in
            if negb (HasPrefix fullPath (FolderPath server)) then (fs, Refused "Invalid path")
            else
              let '(fs1, n, errors) := delete_each (FolderPath server) fullPath names fs in
              (fs1, Deleted (0 <? n)%nat n errors)
        end
  end.

(** Where the test of the handlers lets a request reach: [T] lies in
    the folder [D], or in a folder beside it whose name begins with the
    name of [D]. *)
Definition near (D T : list string) : Prop :=
  D = []
  \/ exists pre d d' rest,
       D = (pre ++ [d])%list /\ T = (pre ++ d' :: rest)%list /\ String.prefix d d' = true.

End FileManager.

(* ===================================================================== *)
(** ** More concrete states used in the examples *)
(* ===================================================================== *)

Module MoreFixtures.
Import GoStr Path FS Archive Models BackupService ScheduleService Fixtures.
Local Open Scope Z_scope.

Definition hourly : Schedule :=
  mkSchedule 8 1 "hourly" "0" "*" "*" "*" "*" true "restart_server" "".

Definition hourly_off : Schedule :=
  mkSchedule 8 1 "hourly" "0" "*" "*" "*" "*" false "restart_server" "".

(** The schedule [nightly] as a request has it that disables it. *)
Definition nightly_off : Schedule :=
  mkSchedule 7 1 "nightly" "0" "3" "*" "*" "*" false "backup" "".

(** A parser that rejects the expressions with a field [bad]. *)
Definition rejecting_bad : string -> bool :=
  fun expr => negb (String.eqb expr "bad * * * *").

Definition broken : Schedule :=
  mkSchedule 9 1 "broken" "bad" "*" "*" "*" "*" true "restart_server" "".

(** A panel with one schedule on record, registered. *)
Definition nightly_db : ScheduleModel.schedule_db :=
  ScheduleModel.mkScheduleDB {[ 7%N := nightly ]} (fun _ => false).

Definition nightly_panel : ScheduleHandlers.panel :=
  ScheduleHandlers.mkPanel nightly_db one_registered.

(** The same panel with a database whose deletions fail. *)
Definition nightly_panel_no_delete : ScheduleHandlers.panel :=
  ScheduleHandlers.mkPanel
    (ScheduleModel.mkScheduleDB {[ 7%N := nightly ]}
       (fun c => match c with ScheduleModel.CallDeleteSchedule => true | _ => false end))
    one_registered.

(** A second server. *)
Definition creative : Server :=
  mkServer 2 "creative" "/srv/creative" "/backups" 3 "offline".

(** A supervisor whose state of processes says whether the one server
    runs: commands succeed, start and restart leave it running, stop
    leaves it stopped. *)
Definition one_process : Dispatcher.supervisor bool :=
  Dispatcher.mkSupervisor bool
    (fun _ running => running)
    (fun _ _ running => (running, true))
    (fun _ _ => (true, true))
    (fun _ _ => (true, true))
    (fun _ _ => (false, true))
    (fun id => if (id =? 1)%N then Some survival else None).

(** The first of the two servers in sibling folders. *)
Definition mc1 : Server := mkServer 1 "mc1" "/srv/mc1" "/backups" 3 "offline".

(** A gzip reader whose stream breaks off after two bytes. *)
Definition breaking_off : codecs :=
  mkCodecs (fun _ => None) (fun _ => []) (fun _ => None)
           (fun _ => "archive") (fun _ => 7) (fun _ => Some ("he", false)).

End MoreFixtures.

(* ===================================================================== *)
(** * Properties *)
(* ===================================================================== *)

(** ** The cron validator *)

Module CronProps.
Import GoStr Cron.
Local Open Scope Z_scope.

(** The model of [strconv.Atoi], [strings.TrimSpace] and
    [strings.Split] on sample inputs. *)
Example Atoi_samples :
  List.map Atoi
    [ "0"; "59"; "+7"; "-7"; "007"; ""; "+"; "-"; " 7"; "7 "; "1_0"; "0x10"; "1.0";
      "9223372036854775807"; "9223372036854775808";
      "-9223372036854775808"; "-9223372036854775809" ]
  = [ Some 0; Some 59; Some 7; Some (-7); Some 7; None; None; None; None; None; None;
      None; None;
      Some 9223372036854775807; None;
      Some (-9223372036854775808); None ].
Proof. reflexivity. Qed.

Example TrimSpace_samples :
  List.map TrimSpace [ ""; "   "; " 1 "; "1  2"; String (ascii_of_nat 9) "x" ]
  = [ ""; ""; "1"; "1  2"; "x" ].
Proof. reflexivity. Qed.

Example Split_samples :
  List.map (fun s => Split s ","%char) [ ""; "a"; "a,b"; "a,,b"; ","; "a," ]
  = [ [""]; ["a"]; ["a"; "b"]; ["a"; ""; "b"]; [""; ""]; ["a"; ""] ].
Proof. reflexivity. Qed.

(** Case analysis on the field name, following the switch of the
    validator: [Hb] is [spec_bounds fieldName = Some (lo, hi)], and in
    each of the five cases that remain [lo] and [hi] are the bounds of
    the field. *)
Ltac by_field Hb :=
  repeat match type of Hb with
         | (if String.eqb ?a ?b then _ else _) = _ => destruct (String.eqb a b)
         end;
  try discriminate; inversion Hb; subst.

(** A single value that passes is a number within the bounds the
    specification gives for the field. *)
Lemma validateSingleCronValue_bounds fieldName lo hi value :
  spec_bounds fieldName = Some (lo, hi) ->
  validateSingleCronValue fieldName value = None ->
  exists n, Atoi value = Some n /\ lo <= n <= hi.
Proof.
  unfold spec_bounds, validateSingleCronValue.
  destruct (Atoi value) as [n|]; [|discriminate].
  intros Hb Hv. exists n. split; [reflexivity|].
  by_field Hb;
    destruct (n <? _) eqn:E1; destruct (n >? _) eqn:E2; simpl in Hv; try discriminate;
    apply Z.ltb_ge in E1; rewrite Z.gtb_ltb in E2; apply Z.ltb_ge in E2; lia.
Qed.

Lemma validateCronRange_bounds fieldName lo hi a b :
  spec_bounds fieldName = Some (lo, hi) ->
  validateCronRange fieldName a b = None ->
  lo <= a /\ b <= hi.
Proof.
  unfold spec_bounds, validateCronRange. intros Hb Hv.
  by_field Hb;
    destruct (a <? _) eqn:E1; destruct (b >? _) eqn:E2; simpl in Hv; try discriminate;
    apply Z.ltb_ge in E1; rewrite Z.gtb_ltb in E2; apply Z.ltb_ge in E2; lia.
Qed.

Lemma validateParts_bounds fieldName lo hi parts :
  spec_bounds fieldName = Some (lo, hi) ->
  validateParts fieldName parts = None ->
  Forall (fun part => exists n, Atoi (TrimSpace part) = Some n /\ lo <= n <= hi) parts.
Proof.
  intros Hb. induction parts as [|part rest IH]; simpl; intros Hv.
  - constructor.
  - destruct (validateSingleCronValue fieldName (TrimSpace part)) eqn:E; [discriminate|].
    constructor; [|auto].
    eapply validateSingleCronValue_bounds; eauto.
Qed.

(** C5, as amended.  For each of the five fields, a value the
    validator accepts is the wildcard, or a step whose number is at
    least 1 (the step is not compared with the bounds of the field),
    or a comma-separated list each of whose parts is a number within
    the bounds of the field, or a range [a-b] with
    [lo <= a < b <= hi], or a single number within the bounds: every
    list, range and single value with a number outside the bounds of
    its field is rejected. *)
Theorem ValidateCronField_bounds_checked fieldName lo hi value :
  spec_bounds fieldName = Some (lo, hi) ->
  ValidateCronField fieldName value = None ->
  value = "*"
  \/ (HasPrefix value "*/" = true
      /\ exists n, Atoi (TrimPrefix value "*/") = Some n /\ 1 <= n)
  \/ (HasPrefix value "*/" = false /\ Contains value ","%char = true
      /\ Forall (fun part => exists n, Atoi (TrimSpace part) = Some n /\ lo <= n <= hi)
                (Split value ","%char))
  \/ (HasPrefix value "*/" = false /\ Contains value ","%char = false
      /\ Contains value "-"%char = true
      /\ exists p0 p1 a b,
          Split value "-"%char = [p0; p1]
          /\ Atoi (TrimSpace p0) = Some a /\ Atoi (TrimSpace p1) = Some b
          /\ lo <= a /\ a < b /\ b <= hi)
  \/ (HasPrefix value "*/" = false /\ Contains value ","%char = false
      /\ Contains value "-"%char = false
      /\ exists n, Atoi value = Some n /\ lo <= n <= hi).
Proof.
  intros Hb. unfold ValidateCronField.
  destruct (String.eqb value "") eqn:E0; [discriminate|].
  destruct (String.eqb value "*") eqn:E1.
  { intros _. left. now apply String.eqb_eq. }
  destruct (HasPrefix value "*/") eqn:E2.
  { destruct (Atoi (TrimPrefix value "*/")) as [step|] eqn:E3; [|discriminate].
    destruct (step <? 1) eqn:E4; [discriminate|].
    intros _. right. left. split; [reflexivity|].
    exists step. split; [reflexivity|]. apply Z.ltb_ge in E4. lia. }
  destruct (Contains value ","%char) eqn:E3.
  { intros Hv. right. right. left. repeat split; try reflexivity.
    eapply validateParts_bounds; eauto. }
  destruct (Contains value "-"%char) eqn:E4.
  { destruct (Split value "-"%char) as [|p0 [|p1 [|p2 ps]]] eqn:E5; try discriminate.
    destruct (Atoi (TrimSpace p0)) as [a|] eqn:Ea; [|discriminate].
    destruct (Atoi (TrimSpace p1)) as [b|] eqn:Eb; [|discriminate].
    destruct (a >=? b) eqn:E6; [discriminate|].
    intros Hv. right. right. right. left. repeat split; try reflexivity.
    exists p0, p1, a, b.
    destruct (validateCronRange_bounds _ _ _ _ _ Hb Hv) as [H1 H2].
    rewrite Z.geb_leb in E6. apply Z.leb_gt in E6.
    repeat split; auto. }
  intros Hv. right. right. right. right. repeat split; try reflexivity.
  eapply validateSingleCronValue_bounds; eauto.
Qed.

Lemma ValidateCronField_bounds_checked_witness :
  "3-7" = "*"
  \/ (HasPrefix "3-7" "*/" = true
      /\ exists n, Atoi (TrimPrefix "3-7" "*/") = Some n /\ 1 <= n)
  \/ (HasPrefix "3-7" "*/" = false /\ Contains "3-7" ","%char = true
      /\ Forall (fun part => exists n, Atoi (TrimSpace part) = Some n /\ 1 <= n <= 12)
                (Split "3-7" ","%char))
  \/ (HasPrefix "3-7" "*/" = false /\ Contains "3-7" ","%char = false
      /\ Contains "3-7" "-"%char = true
      /\ exists p0 p1 a b,
          Split "3-7" "-"%char = [p0; p1]
          /\ Atoi (TrimSpace p0) = Some a /\ Atoi (TrimSpace p1) = Some b
          /\ 1 <= a /\ a < b /\ b <= 12)
  \/ (HasPrefix "3-7" "*/" = false /\ Contains "3-7" ","%char = false
      /\ Contains "3-7" "-"%char = false
      /\ exists n, Atoi "3-7" = Some n /\ 1 <= n <= 12).
Proof.
  apply (ValidateCronField_bounds_checked "month" 1 12 "3-7"); reflexivity.
Defined.

(** C5 as stated fails on the step form: [*/100] holds the number 100,
    which is outside the bounds 0-59 of the minute field, and the
    validator accepts it. *)
Lemma step_outside_bounds_accepted :
  spec_bounds "minute" = Some (0, 59)
  /\ HasPrefix "*/100" "*/" = true
  /\ Atoi (TrimPrefix "*/100" "*/") = Some 100
  /\ ~ (0 <= 100 <= 59)
  /\ ValidateCronField "minute" "*/100" = None.
Proof. repeat split; try reflexivity. lia. Qed.

(** The wildcard is accepted and the empty string rejected, for every
    field name. *)
Lemma wildcard_accepted_empty_rejected fieldName :
  ValidateCronField fieldName "*" = None
  /\ ValidateCronField fieldName "" = Some (ErrEmpty fieldName).
Proof. split; reflexivity. Qed.

Example minute_60_rejected_59_accepted :
  ValidateCronField "minute" "60" = Some (ErrBounds "minute" 60)
  /\ ValidateCronField "minute" "59" = None.
Proof. split; reflexivity. Qed.

(** The switch on the field name has no default case: under any other
    name a number is not compared with anything. *)
Example unknown_field_unchecked :
  spec_bounds "second" = None /\ ValidateCronField "second" "99" = None.
Proof. split; reflexivity. Qed.

Example cron_expression_order :
  GetCronExpression "0" "*/2" "*" "*" "*" = "0 */2 * * *".
Proof. reflexivity. Qed.

End CronProps.

(** ** The scheduler's map of registered schedules *)

Module ScheduleProps.
Import Models ScheduleService Fixtures.
Local Open Scope Z_scope.

Lemma addScheduleInternal_registered cron_accepts schedule s :
  is_Some (schedules s !! ID schedule) ->
  addScheduleInternal cron_accepts schedule s = (s, Some (ErrAlreadyExists (ID schedule))).
Proof.
  intros [entryID H]. unfold addScheduleInternal. now rewrite H.
Qed.

(** A successful add registers the schedule. *)
Lemma addScheduleInternal_registers cron_accepts schedule s s1 :
  addScheduleInternal cron_accepts schedule s = (s1, None) ->
  is_Some (schedules s1 !! ID schedule).
Proof.
  unfold addScheduleInternal, cron_AddFunc.
  destruct (schedules s !! ID schedule); [discriminate|].
  destruct (cron_accepts _); [|discriminate].
  intros H. inversion H; subst; simpl.
  rewrite lookup_insert_eq. eauto.
Qed.

(** C8.  Adding an enabled schedule whose ID is already in the map
    returns the already-exists error and leaves the service as it
    was; removing an ID that is not in the map returns nil and leaves
    the service as it was. *)
Theorem add_registered_fails_remove_absent_noop cron_accepts schedule absentID s :
  (Enabled schedule = true ->
   is_Some (schedules s !! ID schedule) ->
   AddSchedule cron_accepts schedule s = (s, Some (ErrAlreadyExists (ID schedule))))
  /\ (schedules s !! absentID = None ->
      RemoveSchedule absentID s = (s, None)).
Proof.
  split.
  - intros He Hreg. unfold AddSchedule. rewrite He. simpl.
    now apply addScheduleInternal_registered.
  - intros Habs. unfold RemoveSchedule. now rewrite Habs.
Qed.

Lemma add_registered_fails_remove_absent_noop_witness :
  AddSchedule (fun _ => true) nightly one_registered
    = (one_registered, Some (ErrAlreadyExists 7))
  /\ RemoveSchedule 8 one_registered = (one_registered, None).
Proof.
  destruct (add_registered_fails_remove_absent_noop (fun _ => true) nightly 8 one_registered)
    as [Hadd Hrem].
  split.
  - apply Hadd; [reflexivity | vm_compute; eauto].
  - apply Hrem. reflexivity.
Defined.

(** Adding the same enabled schedule a second time fails. *)
Lemma AddSchedule_twice cron_accepts schedule s s1 :
  Enabled schedule = true ->
  AddSchedule cron_accepts schedule s = (s1, None) ->
  AddSchedule cron_accepts schedule s1 = (s1, Some (ErrAlreadyExists (ID schedule))).
Proof.
  intros He. unfold AddSchedule. rewrite He. simpl. intros H.
  apply addScheduleInternal_registered.
  eapply addScheduleInternal_registers; eauto.
Qed.

(** C10.  For a schedule that is not enabled, [AddSchedule] returns
    nil and the service, with its map from schedule to entry, is what
    it was. *)
Theorem AddSchedule_disabled_skipped cron_accepts schedule s :
  Enabled schedule = false ->
  AddSchedule cron_accepts schedule s = (s, None).
Proof.
  intros He. unfold AddSchedule. now rewrite He.
Qed.

Lemma AddSchedule_disabled_skipped_witness :
  AddSchedule (fun _ => true) paused one_registered = (one_registered, None).
Proof.
  apply (AddSchedule_disabled_skipped (fun _ => true) paused one_registered).
  reflexivity.
Defined.

End ScheduleProps.

(** ** The backup settings *)

Module SettingsProps.
Import GoStr FS Models BackupService BackupsHandler Fixtures.
Local Open Scope Z_scope.

Section Settings.
Variable store : Type.
Variable update : Server -> string -> Z -> store -> store * bool.

(** C9.  A request whose [max_backups] is not the decimal form of an
    integer from 1 to 3 is answered without success, with status
    400 when the server was found, and leaves the file system and
    the store of servers as they were; and whenever a request
    changes the store, it does so by the model's update called with
    a maximum from 1 to 3. *)
Theorem UpdateBackupSettings_max_between_1_and_3
        found formOk backupPath maxBackupsStr fs st :
  ((forall n, Atoi maxBackupsStr = Some n -> n < 1 \/ 3 < n) ->
   exists resp,
     UpdateBackupSettings store update found formOk backupPath maxBackupsStr fs st
       = (fs, st, resp)
     /\ success resp = false
     /\ (is_Some found -> status resp = 400))
  /\ (forall fs' st' resp,
        UpdateBackupSettings store update found formOk backupPath maxBackupsStr fs st
          = (fs', st', resp) ->
        st' <> st ->
        exists server m,
          found = Some server /\ Atoi maxBackupsStr = Some m /\ 1 <= m <= 3
          /\ st' = fst (update server backupPath m st)).
Proof.
  unfold UpdateBackupSettings. split.
  - intros Hbad.
    destruct found as [server|]; [|eexists; repeat split; intros [? ?]; discriminate].
    destruct formOk; simpl; [|eexists; repeat split].
    destruct (String.eqb backupPath ""); [eexists; repeat split|].
    destruct (Atoi maxBackupsStr) as [n|] eqn:E; [|eexists; repeat split].
    destruct (Hbad n eq_refl) as [Hlt|Hgt].
    + apply Z.ltb_lt in Hlt. rewrite Hlt. simpl. eexists; repeat split.
    + assert ((n >? 3) = true) as -> by (rewrite Z.gtb_ltb; now apply Z.ltb_lt).
      rewrite orb_true_r. eexists; repeat split.
  - intros fs' st' resp.
    destruct found as [server|]; [|intros H; inversion H; congruence].
    destruct formOk; simpl; [|intros H; inversion H; congruence].
    destruct (String.eqb backupPath ""); [intros H; inversion H; congruence|].
    destruct (Atoi maxBackupsStr) as [n|] eqn:E; [|intros H; inversion H; congruence].
    destruct (n <? 1) eqn:E1; simpl; [intros H; inversion H; congruence|].
    destruct (n >? 3) eqn:E2; simpl; [intros H; inversion H; congruence|].
    destruct (ValidateBackupPath backupPath fs) as [fs1 [e|]];
      [intros H; inversion H; congruence|].
    intros H Hne. exists server, n.
    apply Z.ltb_ge in E1. rewrite Z.gtb_ltb in E2. apply Z.ltb_ge in E2.
    repeat split; try lia.
    destruct (update server backupPath n st) as [st1 [|]]; inversion H; reflexivity.
Qed.

End Settings.

Lemma UpdateBackupSettings_max_between_1_and_3_witness :
  (exists resp,
      UpdateBackupSettings Z (fun _ _ m _ => (m, true)) (Some survival) true "/backups" "4"
                           (mkFS [] ∅) 3
      = (mkFS [] ∅, 3, resp)
      /\ success resp = false
      /\ (is_Some (Some survival) -> status resp = 400))
  /\ (exists server m,
         Some survival = Some server /\ Atoi "2" = Some m /\ 1 <= m <= 3
         /\ 2 = fst ((fun (_ : Server) (_ : string) (m : Z) (_ : Z) => (m, true))
                       server "/backups" m 3)).
Proof.
  split.
  - apply (UpdateBackupSettings_max_between_1_and_3 Z (fun _ _ m _ => (m, true))
             (Some survival) true "/backups" "4" (mkFS [] ∅) 3).
    intros n H. vm_compute in H. inversion H. lia.
  - apply (UpdateBackupSettings_max_between_1_and_3 Z (fun _ _ m _ => (m, true))
             (Some survival) true "/backups" "2" (mkFS [] ∅) 3)
      with (fs' := fst (ValidateBackupPath "/backups" (mkFS [] ∅)))
           (resp := mkResponse 200 true "Backup settings updated successfully").
    + vm_compute. reflexivity.
    + discriminate.
Defined.

End SettingsProps.

(** ** Paths *)

Module PathProps.
Import GoStr Path.

(** The model of [filepath.Clean] on the cases of the test table of
    Go's path/filepath package. *)
Example Clean_table :
  List.map Clean
    [ "abc"; "abc/def"; "a/b/c"; "."; ".."; "../.."; "../../abc"; "/abc"; "/";
      "";
      "abc/"; "abc/def/"; "a/b/c/"; "./"; "../"; "../../"; "/abc/";
      "abc//def//ghi"; "//abc"; "///abc"; "//abc//"; "abc//";
      "abc/./def"; "/./abc/def"; "abc/.";
      "abc/def/ghi/../jkl"; "abc/def/../ghi/../jkl"; "abc/def/.."; "abc/def/../..";
      "/abc/def/../.."; "abc/def/../../.."; "/abc/def/../../..";
      "abc/def/../../../ghi/jkl/../../../mno"; "/../abc";
      "abc/./../def"; "abc//./../def"; "abc/../../././../def" ]
  = [ "abc"; "abc/def"; "a/b/c"; "."; ".."; "../.."; "../../abc"; "/abc"; "/";
      ".";
      "abc"; "abc/def"; "a/b/c"; "."; ".."; "../.."; "/abc";
      "abc/def/ghi"; "/abc"; "/abc"; "/abc"; "abc";
      "abc/def"; "/abc/def"; "abc";
      "abc/def/jkl"; "abc/jkl"; "abc"; ".";
      "/"; ".."; "/";
      "../../mno"; "/abc";
      "def"; "def"; "../../def" ].
Proof. reflexivity. Qed.

Example Join_table :
  List.map (fun ab => Join (fst ab) (snd ab))
    [ ("a", "b"); ("a", ""); ("", "b"); ("/", "a"); ("/", ""); ("a/", "b"); ("a/", "");
      ("", ""); ("/srv/mc1", "../mc10/ops.json"); ("/srv/mc1", "../../escape.txt") ]
  = [ "a/b"; "a"; "b"; "/a"; "/"; "a/b"; "a"; ""; "/srv/mc10/ops.json"; "/escape.txt" ].
Proof. reflexivity. Qed.

Example Dir_table :
  List.map Dir [ ""; "."; "/."; "/"; "/foo"; "x/"; "abc"; "abc/def"; "a/b/.x"; "a/b/c." ]
  = [ "."; "."; "/"; "/"; "/"; "x"; "."; "abc"; "a/b"; "a/b" ].
Proof. reflexivity. Qed.

Example Base_table :
  List.map Base [ ""; "."; "/."; "/"; "////"; "x/"; "abc"; "abc/def"; "a/b/.x"; "a/b/c." ]
  = [ "."; "."; "."; "/"; "/"; "x"; "abc"; "def"; ".x"; "c." ].
Proof. reflexivity. Qed.

Lemma Split_nonempty s c : Split s c <> [].
Proof.
  destruct s as [|a s]; simpl; [discriminate|].
  destruct (Ascii.eqb a c); [discriminate|].
  destruct (Split s c); discriminate.
Qed.

Lemma Split_slash_free s : Forall slash_free (Split s Separator).
Proof.
  induction s as [|a s IH]; simpl.
  - repeat constructor.
  - destruct (Ascii.eqb a Separator) eqn:E.
    + constructor; [reflexivity | assumption].
    + destruct (Split s Separator) as [|h t];
        [repeat constructor; unfold slash_free; simpl; now rewrite E|].
      inversion IH; subst. constructor; [|assumption].
      unfold slash_free in *. simpl. now rewrite E.
Qed.

Lemma Split_of_slash_free s : slash_free s -> Split s Separator = [s].
Proof.
  unfold slash_free. induction s as [|a s IH]; simpl; [reflexivity|].
  intros H. apply orb_false_iff in H as [Ha Hs]. rewrite Ha, (IH Hs). reflexivity.
Qed.

Lemma Split_app_sep a rest :
  slash_free a -> Split (a ++ "/" ++ rest) Separator = a :: Split rest Separator.
Proof.
  unfold slash_free. induction a as [|c a IH]; simpl; intros H.
  - reflexivity.
  - apply orb_false_iff in H as [Hc Ha]. rewrite Hc, (IH Ha). reflexivity.
Qed.

Lemma Split_JoinStrings l :
  l <> [] -> Forall slash_free l -> Split (JoinStrings l "/") Separator = l.
Proof.
  induction l as [|a l IH]; [congruence|]. intros _ Hf. inversion Hf; subst.
  destruct l as [|b l].
  - simpl. now apply Split_of_slash_free.
  - change (JoinStrings (a :: b :: l) "/") with (a ++ "/" ++ JoinStrings (b :: l) "/").
    rewrite Split_app_sep by assumption. f_equal. apply IH; [discriminate | assumption].
Qed.

(** The scan of [Clean] on a rooted path keeps plain names only. *)
Lemma clean_step_plain out elem :
  Forall plain out -> slash_free elem -> Forall plain (clean_step true out elem).
Proof.
  intros Hout He. unfold clean_step.
  destruct (String.eqb elem "") eqn:E1; [assumption|].
  destruct (String.eqb elem ".") eqn:E2; [assumption|].
  destruct (String.eqb elem "..") eqn:E3.
  - destruct out as [|top rest]; [constructor|].
    destruct (String.eqb top ".."); [assumption|]. now inversion Hout.
  - constructor; [|assumption].
    apply String.eqb_neq in E1, E2, E3. repeat split; assumption.
Qed.

Lemma fold_clean_plain elems out :
  Forall plain out -> Forall slash_free elems ->
  Forall plain (List.fold_left (clean_step true) elems out).
Proof.
  revert out. induction elems as [|e elems IH]; simpl; intros out Hout He; [assumption|].
  inversion He; subst. apply IH; [|assumption]. now apply clean_step_plain.
Qed.

Lemma clean_elems_plain s : Forall plain (clean_elems true (Split s Separator)).
Proof.
  unfold clean_elems. apply Forall_rev. apply fold_clean_plain; [constructor|].
  apply Split_slash_free.
Qed.

(** On plain names the scan keeps everything. *)
Lemma fold_clean_of_plain elems out :
  Forall plain elems ->
  List.fold_left (clean_step true) elems out = (List.rev elems ++ out)%list.
Proof.
  revert out. induction elems as [|e elems IH]; simpl; intros out H; [reflexivity|].
  inversion H as [|? ? (N1 & N2 & N3 & _) Hrest]; subst.
  rewrite IH by assumption. unfold clean_step.
  apply String.eqb_neq in N1, N2, N3. rewrite N1, N2, N3.
  now rewrite <- app_assoc.
Qed.

Lemma clean_elems_of_plain elems :
  Forall plain elems -> clean_elems true ("" :: elems) = elems.
Proof.
  intros H. unfold clean_elems. simpl.
  rewrite fold_clean_of_plain by assumption.
  rewrite app_nil_r. apply rev_involutive.
Qed.

Lemma plain_slash_free l : Forall plain l -> Forall slash_free l.
Proof.
  intros H. eapply Forall_impl; [exact H|]. intros a (_ & _ & _ & Ha). exact Ha.
Qed.

(** What a rooted clean path resolves to: its names. *)
Lemma resolve_rooted_join cwd names :
  Forall plain names -> resolve cwd ("/" ++ JoinStrings names "/") = names.
Proof.
  intros H.
  change (resolve cwd ("/" ++ JoinStrings names "/"))
    with (clean_elems true ("" :: Split (JoinStrings names "/") Separator)).
  destruct names as [|a l].
  - reflexivity.
  - rewrite Split_JoinStrings; [|discriminate|now apply plain_slash_free].
    now apply clean_elems_of_plain.
Qed.

Lemma rooted_app a b : rooted a = true -> rooted (a ++ b) = true.
Proof. destruct a; [discriminate|]. simpl. auto. Qed.

Lemma rooted_nonempty a : rooted a = true -> String.eqb a "" = false.
Proof. destruct a; [discriminate | reflexivity]. Qed.

(** [Clean] of a rooted path, and what it resolves to. *)
Lemma Clean_rooted s :
  rooted s = true ->
  Clean s = "/" ++ JoinStrings (clean_elems true (Split s Separator)) "/".
Proof.
  intros H. unfold Clean. rewrite (rooted_nonempty _ H), H. reflexivity.
Qed.

Lemma resolve_rooted cwd s :
  rooted s = true -> resolve cwd s = clean_elems true (Split s Separator).
Proof. intros H. unfold resolve. now rewrite H. Qed.

Lemma resolve_Clean cwd s :
  rooted s = true -> resolve cwd (Clean s) = resolve cwd s.
Proof.
  intros H. rewrite (Clean_rooted _ H), (resolve_rooted _ _ H).
  apply resolve_rooted_join, clean_elems_plain.
Qed.

Lemma append_cons c (s t : string) : String c s ++ t = String c (s ++ t).
Proof. reflexivity. Qed.

Lemma append_empty_r s : s ++ "" = s.
Proof. induction s as [|c s IH]; [reflexivity | now rewrite append_cons, IH]. Qed.

Lemma append_assoc (a b c : string) : (a ++ b) ++ c = a ++ (b ++ c).
Proof. induction a as [|x a IH]; [reflexivity | now rewrite !append_cons, IH]. Qed.

Lemma prefix_cons a s c t :
  String.prefix (String a s) (String c t) = true -> a = c /\ String.prefix s t = true.
Proof. simpl. destruct (ascii_dec a c); [auto | discriminate]. Qed.

Lemma prefix_cons_same a s t :
  String.prefix (String a s) (String a t) = String.prefix s t.
Proof. simpl. destruct (ascii_dec a a); [reflexivity | congruence]. Qed.

Lemma prefix_cons_ne a s c t :
  a <> c -> String.prefix (String a s) (String c t) = false.
Proof. intros N. simpl. destruct (ascii_dec a c); [contradiction | reflexivity]. Qed.

Lemma prefix_sep_empty s : String.prefix (s ++ "/") "" = false.
Proof. destruct s; reflexivity. Qed.

Lemma JoinStrings_cons a l : JoinStrings (a :: l) "/" = a ++ path_tail l.
Proof. destruct l; simpl; [now rewrite append_empty_r | reflexivity]. Qed.

(** A name followed by a separator is a prefix of a joined path only
    when it is the first name of the path. *)
Lemma prefix_name d x t l :
  slash_free d -> slash_free t ->
  String.prefix (d ++ "/" ++ x) (t ++ path_tail l) = true ->
  d = t /\ String.prefix ("/" ++ x) (path_tail l) = true.
Proof.
  unfold slash_free. revert t. induction d as [|a d IH]; intros t Hd Ht H.
  - destruct t as [|c t].
    + split; [reflexivity | exact H].
    + simpl in Ht. apply orb_false_iff in Ht as [Hc _].
      change (String.prefix (String "/" x) (String c (t ++ path_tail l)) = true) in H.
      apply prefix_cons in H as [<- _]. discriminate.
  - simpl in Hd. apply orb_false_iff in Hd as [Ha Hd].
    destruct t as [|c t].
    + change (String.prefix (String a (d ++ "/" ++ x)) (path_tail l) = true) in H.
      destruct l as [|b l]; [discriminate|].
      apply prefix_cons in H as [-> _]. discriminate.
    + simpl in Ht. apply orb_false_iff in Ht as [_ Ht].
      change (String.prefix (String a (d ++ "/" ++ x)) (String c (t ++ path_tail l)) = true) in H.
      apply prefix_cons in H as [-> H].
      destruct (IH t Hd Ht H) as [-> H']. split; [reflexivity | exact H'].
Qed.

Lemma prefix_sep_plain T :
  Forall plain T -> String.prefix "/" (JoinStrings T "/") = false.
Proof.
  intros H. destruct T as [|t T]; [reflexivity|].
  rewrite JoinStrings_cons. inversion H as [|? ? (N1 & _ & _ & Hs) _]; subst.
  destruct t as [|c t]; [congruence|].
  unfold slash_free in Hs. simpl in Hs. apply orb_false_iff in Hs as [Hc _].
  rewrite append_cons. apply prefix_cons_ne. intros <-. discriminate.
Qed.

(** A joined path of names followed by a separator is a prefix of
    another joined path only when the names are the first ones of the
    other path, with at least one more after them. *)
Lemma JoinStrings_prefix D T :
  D <> [] -> Forall plain D -> Forall plain T ->
  String.prefix (JoinStrings D "/" ++ "/") (JoinStrings T "/") = true ->
  exists rest, rest <> [] /\ T = (D ++ rest)%list.
Proof.
  revert T. induction D as [|d D IH]; [congruence|]. intros T _ HD HT H.
  inversion HD as [|? ? (_ & _ & _ & Hd) HD']; subst.
  destruct T as [|t T].
  { simpl JoinStrings at 2 in H. rewrite prefix_sep_empty in H. discriminate. }
  inversion HT as [|? ? (_ & _ & _ & Ht) HT']; subst.
  rewrite (JoinStrings_cons t T) in H.
  destruct D as [|d2 D].
  - change (JoinStrings [d] "/" ++ "/") with (d ++ "/") in H.
    rewrite <- (append_empty_r (d ++ "/")), append_assoc in H.
    destruct (prefix_name d "" t T Hd Ht H) as [-> H'].
    exists T. split; [|reflexivity].
    destruct T; [discriminate | discriminate].
  - change (JoinStrings (d :: d2 :: D) "/") with (d ++ "/" ++ JoinStrings (d2 :: D) "/") in H.
    rewrite !append_assoc in H.
    destruct (prefix_name d (JoinStrings (d2 :: D) "/" ++ "/") t T Hd Ht H) as [-> H'].
    destruct T as [|t2 T]; [discriminate|].
    change (path_tail (t2 :: T)) with (String "/" (JoinStrings (t2 :: T) "/")) in H'.
    change ("/" ++ JoinStrings (d2 :: D) "/" ++ "/")
      with (String "/" (JoinStrings (d2 :: D) "/" ++ "/")) in H'.
    rewrite prefix_cons_same in H'.
    destruct (IH (t2 :: T)) as (rest & Hne & Heq); [discriminate|assumption|assumption|assumption|].
    exists rest. split; [assumption|]. simpl. now rewrite Heq.
Qed.

(** The test of the file manager's extractors.  For a rooted
    destination, an entry whose joined path starts with the cleaned
    destination and a separator resolves strictly inside the
    destination. *)
Lemma prefix_test_inside cwd destPath name :
  rooted destPath = true ->
  HasPrefix (Join destPath name) (Clean destPath ++ "/") = true ->
  strictly_inside (resolve cwd destPath) (resolve cwd (Join destPath name)).
Proof.
  intros Hr. unfold Join, HasPrefix. rewrite (rooted_nonempty _ Hr). simpl negb. cbv iota.
  assert (rooted (destPath ++ "/" ++ name) = true) as Hr2 by now apply rooted_app.
  rewrite (resolve_Clean _ _ Hr2), (resolve_rooted _ _ Hr2), (resolve_rooted _ _ Hr).
  rewrite (Clean_rooted _ Hr2), (Clean_rooted _ Hr).
  set (D := clean_elems true (Split destPath Separator)).
  set (T := clean_elems true (Split (destPath ++ "/" ++ name) Separator)).
  assert (Forall plain D) as HD by apply clean_elems_plain.
  assert (Forall plain T) as HT by apply clean_elems_plain.
  change (("/" ++ JoinStrings D "/") ++ "/") with (String "/" (JoinStrings D "/" ++ "/")).
  change ("/" ++ JoinStrings T "/") with (String "/" (JoinStrings T "/")).
  rewrite prefix_cons_same. intros H.
  destruct D as [|d D'] eqn:ED.
  - change (JoinStrings [] "/" ++ "/") with "/" in H.
    rewrite (prefix_sep_plain T HT) in H. discriminate.
  - apply JoinStrings_prefix; [discriminate | assumption | assumption | assumption].
Qed.

End PathProps.

(** ** The file system *)

Module FSProps.
Import GoStr Path FS.
Local Open Scope Z_scope.

(** A path at which [os.Stat] finds a node is not answered with an
    error. *)
Lemma Stat_found fs path n : Stat fs path = Some n -> IsNotExist (Stat_err fs path) = false.
Proof. unfold Stat_err. now intros ->. Qed.

Lemma node_at_nonroot fs p : p <> [] -> node_at fs p = nodes fs !! p.
Proof. destruct p; [congruence | reflexivity]. Qed.

Lemma String_eqb_false_ne (a b : string) : String.eqb a b = false -> a <> b.
Proof. intros H. now apply String.eqb_neq. Qed.

Lemma locate_same_cwd fs fs' path : cwd fs' = cwd fs -> locate fs' path = locate fs path.
Proof. unfold locate. now intros ->. Qed.

(** A successful [os.Create] leaves an empty regular file at the
    path. *)
Lemma Create_ok path fs fs1 :
  Create path fs = (fs1, None) ->
  path <> ""
  /\ locate fs path <> []
  /\ cwd fs1 = cwd fs
  /\ exists perm, nodes fs1 !! locate fs path = Some (Regular perm "").
Proof.
  unfold Create. destruct (String.eqb path "") eqn:E; [discriminate|].
  apply String_eqb_false_ne in E.
  destruct (locate fs path) as [|c p] eqn:Hp.
  { simpl. discriminate. }
  rewrite node_at_nonroot by discriminate.
  destruct (nodes fs !! (c :: p)) as [[perm|perm data]|] eqn:Hn.
  - discriminate.
  - intros H. inversion H; subst.
    split; [assumption|]. split; [congruence|]. split; [reflexivity|].
    exists perm. simpl. apply lookup_insert_eq.
  - destruct (node_at fs (parent (c :: p))) as [[perm|perm data]|]; try discriminate.
    intros H. inversion H; subst.
    split; [assumption|]. split; [congruence|]. split; [reflexivity|].
    exists 438. simpl. apply lookup_insert_eq.
Qed.

Lemma write_data_regular path data fs perm old :
  locate fs path <> [] ->
  nodes fs !! locate fs path = Some (Regular perm old) ->
  cwd (write_data path data fs) = cwd fs
  /\ nodes (write_data path data fs) !! locate fs path = Some (Regular perm data).
Proof.
  intros Hp Hn. unfold write_data. rewrite (node_at_nonroot _ _ Hp), Hn. simpl.
  split; [reflexivity | apply lookup_insert_eq].
Qed.

(** [os.Remove] of a regular file: nothing is at the path afterwards. *)
Lemma Remove_regular path fs perm data :
  path <> "" ->
  locate fs path <> [] ->
  nodes fs !! locate fs path = Some (Regular perm data) ->
  Stat (fst (Remove path fs)) path = None.
Proof.
  intros Hne Hp Hn. unfold Remove, Stat.
  apply String.eqb_neq in Hne. rewrite Hne.
  destruct (locate fs path) as [|c p] eqn:E; [congruence|].
  rewrite Hn. simpl. unfold locate in *. simpl. rewrite E.
  apply lookup_delete_eq.
Qed.

(** What [os.Remove] does to the disk, whatever it answers: only the
    node at the path can differ, no regular file is at the path
    afterwards, and nothing is there when a regular file was. *)
Lemma Remove_outcome path fs :
  cwd (fst (Remove path fs)) = cwd fs
  /\ (forall p, p <> locate fs path ->
                nodes (fst (Remove path fs)) !! p = nodes fs !! p)
  /\ (forall perm data, Stat (fst (Remove path fs)) path <> Some (Regular perm data))
  /\ (forall perm data, Stat fs path = Some (Regular perm data) ->
                        Stat (fst (Remove path fs)) path = None).
Proof.
  unfold Remove, Stat, locate. destruct (String.eqb path "") eqn:E.
  { cbn [fst]. repeat split; intros; congruence. }
  destruct (resolve (cwd fs) path) as [|c p] eqn:Hp.
  { cbn [fst]. rewrite Hp. simpl. repeat split; intros; congruence. }
  destruct (nodes fs !! (c :: p)) as [[perm0|perm0 data0]|] eqn:Hn.
  - destruct (children fs (c :: p)); cbn [fst with_nodes cwd nodes]; rewrite Hp; simpl.
    + rewrite lookup_delete_eq, Hn.
      split; [reflexivity|]. split; [intros q Hq; now apply lookup_delete_ne|].
      split; intros; congruence.
    + rewrite Hn. repeat split; intros; congruence.
  - cbn [fst with_nodes cwd nodes]. rewrite Hp. simpl. rewrite lookup_delete_eq.
    split; [reflexivity|]. split; [intros q Hq; now apply lookup_delete_ne|].
    split; intros; congruence.
  - cbn [fst]. rewrite Hp. simpl. rewrite Hn. repeat split; intros; congruence.
Qed.

End FSProps.

(** ** The backups table *)

Module ModelsProps.
Import Models.
Local Open Scope Z_scope.

Lemma older_refl x : older x x = true.
Proof.
  unfold older. rewrite Z.eqb_refl, N.leb_refl. simpl. apply orb_true_r.
Qed.

Lemma older_total x y : older x y = false -> older y x = true.
Proof.
  unfold older. intros H.
  apply orb_false_iff in H as [H1 H2]. apply Z.ltb_ge in H1.
  destruct (CreatedAt (snd y) <? CreatedAt (snd x)) eqn:E; [reflexivity|].
  apply Z.ltb_ge in E. simpl.
  assert (CreatedAt (snd x) = CreatedAt (snd y)) as Heq by lia.
  rewrite Heq, Z.eqb_refl in H2. rewrite Heq, Z.eqb_refl. simpl in *.
  apply N.leb_gt in H2. apply N.leb_le. lia.
Qed.

Lemma older_trans x y z : older x y = true -> older y z = true -> older x z = true.
Proof.
  unfold older. intros H1 H2.
  apply orb_true_iff in H1. apply orb_true_iff in H2. apply orb_true_iff.
  rewrite !andb_true_iff, !Z.ltb_lt, !Z.eqb_eq, !N.leb_le in *. lia.
Qed.

Lemma older_created x y : older x y = true -> CreatedAt (snd x) <= CreatedAt (snd y).
Proof.
  unfold older. intros H. apply orb_true_iff in H.
  rewrite andb_true_iff, Z.ltb_lt, Z.eqb_eq in H. lia.
Qed.

(** The row [oldest_of] picks is in the list and no row of the list
    comes before it. *)
Lemma oldest_of_spec l x :
  oldest_of l = Some x -> In x l /\ forall y, In y l -> older x y = true.
Proof.
  revert x. induction l as [|a l IH]; simpl; intros x H; [discriminate|].
  destruct (oldest_of l) as [y|] eqn:E.
  - destruct (IH y eq_refl) as [Hin Hmin].
    destruct (older a y) eqn:Ea; inversion H; subst.
    + split; [now left|]. intros z [<-|Hz]; [apply older_refl|].
      eapply older_trans; eauto.
    + split; [now right|]. intros z [<-|Hz]; [now apply older_total|auto].
  - inversion H; subst.
    destruct l;
      [|simpl in E; destruct (oldest_of l); try destruct (older _ _); discriminate].
    split; [now left|]. intros z [<-|[]]. apply older_refl.
Qed.

Lemma oldest_of_nonempty l : l <> [] -> exists x, oldest_of l = Some x.
Proof.
  destruct l as [|a l]; [congruence|]. intros _. simpl.
  destruct (oldest_of l) as [y|]; [destruct (older a y)|]; eauto.
Qed.

(** The key of a new row is not in use. *)
Lemma new_id_fresh (t : gmap N Backup) : t !! new_id t = None.
Proof.
  destruct (t !! new_id t) as [b|] eqn:E; [|reflexivity].
  apply elem_of_map_to_list in E.
  assert (forall (l : list (N * Backup)) k v,
             (k, v) ∈ l -> (k <= List.fold_right N.max 0 (List.map fst l))%N) as Hmax.
  { induction l as [|[k0 v0] l IH]; intros k v Hin.
    - apply elem_of_nil in Hin. destruct Hin.
    - apply elem_of_cons in Hin as [Heq|Hin]; simpl.
      + inversion Heq; subst. lia.
      + specialize (IH _ _ Hin). lia. }
  specialize (Hmax _ _ _ E). unfold new_id in Hmax. lia.
Qed.

Lemma rows_of_lookup serverID (t : gmap N Backup) id b :
  rows_of serverID t !! id = Some b <-> t !! id = Some b /\ ServerID b = serverID.
Proof. unfold rows_of. rewrite map_lookup_filter_Some. reflexivity. Qed.

(** Without a failing call, a server with at least one backup has an
    oldest one: a row of the server that no other row of the server
    precedes in creation time. *)
Lemma GetOldestBackup_spec serverID db :
  failing db CallOldest = false ->
  rows_of serverID (backups db) <> ∅ ->
  exists id oldest,
    GetOldestBackup serverID db = Some (id, oldest)
    /\ backups db !! id = Some oldest
    /\ ServerID oldest = serverID
    /\ forall id' b, backups db !! id' = Some b -> ServerID b = serverID ->
                     CreatedAt oldest <= CreatedAt b.
Proof.
  intros Hf Hne. unfold GetOldestBackup. rewrite Hf.
  destruct (oldest_of_nonempty (map_to_list (rows_of serverID (backups db))))
    as [[id oldest] Hx].
  { intros Hnil. apply map_to_list_empty_iff in Hnil. contradiction. }
  exists id, oldest. split; [assumption|].
  destruct (oldest_of_spec _ _ Hx) as [Hin Hmin].
  apply list_elem_of_In, elem_of_map_to_list, rows_of_lookup in Hin as [Hl Hs].
  repeat split; auto.
  intros id' b Hl' Hs'.
  apply (older_created (id, oldest) (id', b)). apply Hmin.
  apply list_elem_of_In, elem_of_map_to_list, rows_of_lookup. auto.
Qed.

Lemma size_rows_after_delete serverID (t : gmap N Backup) id b :
  t !! id = Some b -> ServerID b = serverID ->
  size (rows_of serverID (delete id t)) = pred (size (rows_of serverID t)).
Proof.
  intros Hl Hs. unfold rows_of. rewrite map_filter_delete.
  apply map_size_delete_Some. exists b. apply map_lookup_filter_Some. auto.
Qed.

Lemma size_rows_after_insert serverID (t : gmap N Backup) id b :
  t !! id = None -> ServerID b = serverID ->
  size (rows_of serverID (<[id := b]> t)) = S (size (rows_of serverID t)).
Proof.
  intros Hl Hs. unfold rows_of. rewrite map_filter_insert_True by exact Hs.
  apply map_size_insert_None. apply map_lookup_filter_None. now left.
Qed.

End ModelsProps.

(** ** Rotation, creation and restore of backups *)

Module BackupProps.
Import GoStr Path FS Archive Models BackupService BackupsHandler ScheduleService.
Import FSProps ModelsProps Fixtures.
Local Open Scope Z_scope.

(** Whatever fails, one call of [RotateBackups] takes at most one
    record out of the table. *)
Lemma RotateBackups_removes_at_most_one serverID maxBackups w :
  (size (backups (w_db w))
   <= S (size (backups (w_db (fst (RotateBackups serverID maxBackups w))))))%nat.
Proof.
  unfold RotateBackups.
  destruct (CountBackups serverID (w_db w)) as [count|]; simpl; [|lia].
  destruct (count >=? maxBackups); simpl; [|lia].
  destruct (GetOldestBackup serverID (w_db w)) as [[id oldest]|]; simpl; [|lia].
  unfold Delete. destruct (failing (w_db w) CallDelete); simpl; [lia|].
  rewrite map_size_delete. destruct (backups (w_db w) !! id); simpl; lia.
Qed.

(** A server without a backup has no oldest backup. *)
Lemma GetOldestBackup_none serverID db :
  size (rows_of serverID (backups db)) = 0%nat -> GetOldestBackup serverID db = None.
Proof.
  intros H. apply map_size_empty_inv in H. unfold GetOldestBackup.
  destruct (failing db CallOldest); [reflexivity|]. rewrite H, map_to_list_empty. reflexivity.
Qed.

(** C7 as stated fails for a maximum that the count reaches without a
    backup on record: with a maximum of 0 and no backup of the server,
    the count is not below the maximum, and the rotation returns the
    error of the missing oldest backup and deletes nothing. *)
Lemma RotateBackups_with_nothing_to_evict :
  0 <= count_of 1 no_backups
  /\ RotateBackups 1 0 no_backups = (no_backups, Some ErrGetOldest)
  /\ ~ (exists id oldest,
          backups (w_db no_backups) !! id = Some oldest
          /\ backups (w_db (fst (RotateBackups 1 0 no_backups)))
             = delete id (backups (w_db no_backups))).
Proof.
  split; [vm_compute; discriminate|]. split; [vm_compute; reflexivity|].
  intros (id & oldest & H & _). simpl in H. rewrite lookup_empty in H. discriminate.
Qed.

(** C7, amended.  When no call on the persistence layer fails, for
    every maximum: with fewer backups than the maximum, [RotateBackups]
    returns nil and changes nothing.  With at least as many, and a
    backup of the server on record, it evicts one backup, one that no
    other backup of the server precedes in creation time: it calls
    [os.Remove] on the path of that backup, after which no regular file
    is at the path (nothing at all when a regular file was there; the
    removal is best-effort, and what is not a file can stay) and the
    rest of the disk is as before; it deletes that backup's record, and
    returns nil.  With at least as many and no backup of the server on
    record, which takes a maximum of 0 or less, it returns the error of
    the missing oldest backup and changes nothing.  In every case at
    most one record leaves the table. *)
Theorem RotateBackups_evicts_only_the_oldest serverID maxBackups w :
  (forall c, failing (w_db w) c = false) ->
  (count_of serverID w < maxBackups ->
   RotateBackups serverID maxBackups w = (w, None))
  /\ (maxBackups <= count_of serverID w -> 0 < count_of serverID w ->
      exists id oldest,
        backups (w_db w) !! id = Some oldest
        /\ Models.ServerID oldest = serverID
        /\ (forall id' b, backups (w_db w) !! id' = Some b -> Models.ServerID b = serverID ->
                          CreatedAt oldest <= CreatedAt b)
        /\ RotateBackups serverID maxBackups w
           = (mkWorld (fst (Remove (FilePath oldest) (w_fs w)))
                      (with_backups (w_db w) (delete id (backups (w_db w)))),
              None)
        /\ (forall perm data,
               Stat (w_fs (fst (RotateBackups serverID maxBackups w))) (FilePath oldest)
               <> Some (Regular perm data))
        /\ (forall perm data,
               Stat (w_fs w) (FilePath oldest) = Some (Regular perm data) ->
               Stat (w_fs (fst (RotateBackups serverID maxBackups w))) (FilePath oldest)
               = None)
        /\ (forall p, p <> locate (w_fs w) (FilePath oldest) ->
                      nodes (w_fs (fst (RotateBackups serverID maxBackups w))) !! p
                      = nodes (w_fs w) !! p)
        /\ count_of serverID (fst (RotateBackups serverID maxBackups w))
           = count_of serverID w - 1)
  /\ (maxBackups <= count_of serverID w -> count_of serverID w = 0 ->
      RotateBackups serverID maxBackups w = (w, Some ErrGetOldest))
  /\ (size (backups (w_db w))
      <= S (size (backups (w_db (fst (RotateBackups serverID maxBackups w))))))%nat.
Proof.
  intros Hok. split; [|split; [|split]].
  - intros Hlt. unfold RotateBackups, CountBackups. rewrite Hok.
    fold (count_of serverID w).
    destruct (count_of serverID w >=? maxBackups) eqn:E; [|reflexivity].
    rewrite Z.geb_leb in E. apply Z.leb_le in E. lia.
  - intros Hge Hpos.
    destruct (GetOldestBackup_spec serverID (w_db w) (Hok CallOldest))
      as (id & oldest & Hget & Hl & Hs & Hmin).
    { intros Hempty. unfold count_of in Hpos. rewrite Hempty, map_size_empty in Hpos.
      simpl in Hpos. lia. }
    exists id, oldest.
    assert (RotateBackups serverID maxBackups w
            = (mkWorld (fst (Remove (FilePath oldest) (w_fs w)))
                       (with_backups (w_db w) (delete id (backups (w_db w)))),
               None)) as Heq.
    { unfold RotateBackups, CountBackups. rewrite Hok.
      fold (count_of serverID w).
      assert ((count_of serverID w >=? maxBackups) = true) as ->
          by (rewrite Z.geb_leb; now apply Z.leb_le).
      rewrite Hget. unfold Delete. rewrite Hok. reflexivity. }
    destruct (Remove_outcome (FilePath oldest) (w_fs w)) as (_ & Hrest & Hnofile & Hgone).
    split; [assumption|]. split; [assumption|]. split; [assumption|].
    split; [assumption|]. rewrite Heq. cbn [fst w_fs w_db].
    split; [assumption|]. split; [assumption|]. split; [assumption|].
    unfold count_of. simpl.
    rewrite (size_rows_after_delete _ _ _ _ Hl Hs).
    assert (size (rows_of serverID (backups (w_db w))) <> 0%nat).
    { unfold count_of in Hpos. lia. }
    lia.
  - intros Hge Hzero. unfold RotateBackups, CountBackups. rewrite Hok.
    fold (count_of serverID w).
    assert ((count_of serverID w >=? maxBackups) = true) as ->
        by (rewrite Z.geb_leb; now apply Z.leb_le).
    rewrite GetOldestBackup_none; [reflexivity|]. unfold count_of in Hzero. lia.
  - apply RotateBackups_removes_at_most_one.
Qed.

Lemma RotateBackups_evicts_only_the_oldest_witness :
  (count_of 1 three_backups < 3 ->
   RotateBackups 1 3 three_backups = (three_backups, None))
  /\ (3 <= count_of 1 three_backups -> 0 < count_of 1 three_backups ->
      exists id oldest,
        backups (w_db three_backups) !! id = Some oldest
        /\ Models.ServerID oldest = 1%N
        /\ (forall id' b, backups (w_db three_backups) !! id' = Some b -> Models.ServerID b = 1%N ->
                          CreatedAt oldest <= CreatedAt b)
        /\ RotateBackups 1 3 three_backups
           = (mkWorld (fst (Remove (FilePath oldest) (w_fs three_backups)))
                      (with_backups (w_db three_backups)
                                    (delete id (backups (w_db three_backups)))),
              None)
        /\ (forall perm data,
               Stat (w_fs (fst (RotateBackups 1 3 three_backups))) (FilePath oldest)
               <> Some (Regular perm data))
        /\ (forall perm data,
               Stat (w_fs three_backups) (FilePath oldest) = Some (Regular perm data) ->
               Stat (w_fs (fst (RotateBackups 1 3 three_backups))) (FilePath oldest) = None)
        /\ (forall p, p <> locate (w_fs three_backups) (FilePath oldest) ->
                      nodes (w_fs (fst (RotateBackups 1 3 three_backups))) !! p
                      = nodes (w_fs three_backups) !! p)
        /\ count_of 1 (fst (RotateBackups 1 3 three_backups))
           = count_of 1 three_backups - 1)
  /\ (3 <= count_of 1 three_backups -> count_of 1 three_backups = 0 ->
      RotateBackups 1 3 three_backups = (three_backups, Some ErrGetOldest))
  /\ (size (backups (w_db three_backups))
      <= S (size (backups (w_db (fst (RotateBackups 1 3 three_backups))))))%nat.
Proof.
  apply (RotateBackups_evicts_only_the_oldest 1 3 three_backups).
  intros c. reflexivity.
Defined.

(** On three backups created at times 10, 20 and 30 and a maximum of 3,
    the rotation removes the file and the record of the one created at
    time 10. *)
Example RotateBackups_three :
  RotateBackups 1 3 three_backups
  = (mkWorld (fst (Remove "/backups/a.tar.gz" disk))
             (with_backups (w_db three_backups) (delete 1%N three_rows)),
     None)
  /\ Stat (w_fs (fst (RotateBackups 1 3 three_backups))) "/backups/a.tar.gz" = None.
Proof. split; vm_compute; reflexivity. Qed.

(** What a successful [GetOldestBackup] returns is a row of the
    server. *)
Lemma GetOldestBackup_row serverID db id b :
  GetOldestBackup serverID db = Some (id, b) ->
  backups db !! id = Some b /\ Models.ServerID b = serverID.
Proof.
  unfold GetOldestBackup. destruct (failing db CallOldest); [discriminate|].
  intros H. apply oldest_of_spec in H as [Hin _].
  now apply list_elem_of_In, elem_of_map_to_list, rows_of_lookup in Hin.
Qed.

(** The count after a rotation that returned nil. *)
Lemma RotateBackups_count serverID maxBackups w w1 :
  RotateBackups serverID maxBackups w = (w1, None) ->
  count_of serverID w1
  = if count_of serverID w >=? maxBackups
    then count_of serverID w - 1 else count_of serverID w.
Proof.
  unfold RotateBackups, CountBackups.
  destruct (failing (w_db w) CallCount); [discriminate|].
  fold (count_of serverID w).
  destruct (count_of serverID w >=? maxBackups) eqn:E.
  - destruct (GetOldestBackup serverID (w_db w)) as [[id oldest]|] eqn:Hget; [|discriminate].
    apply GetOldestBackup_row in Hget as [Hl Hs].
    unfold Delete. destruct (failing (w_db w) CallDelete); [discriminate|].
    intros H. injection H as <-. unfold count_of. simpl.
    rewrite (size_rows_after_delete _ _ _ _ Hl Hs).
    assert (size (rows_of serverID (backups (w_db w))) <> 0%nat).
    { intros H0. apply map_size_empty_inv in H0.
      assert (rows_of serverID (backups (w_db w)) !! id = Some oldest) as Hr
          by (apply rows_of_lookup; auto).
      rewrite H0, lookup_empty in Hr. discriminate. }
    lia.
  - intros H. injection H as <-. reflexivity.
Qed.

Lemma CreateBackup_record_count serverID fileName filePath fileSize now db db' r :
  Models.CreateBackup serverID fileName filePath fileSize now db = (db', Some r) ->
  size (rows_of serverID (backups db')) = S (size (rows_of serverID (backups db))).
Proof.
  unfold Models.CreateBackup. destruct (failing db CallCreate); [discriminate|].
  intros H. inversion H; subst. simpl.
  apply size_rows_after_insert; [apply new_id_fresh | reflexivity].
Qed.

(** C2, as amended.  After a create-backup request answered with
    success, the server has as many backup records as before when it
    had at least the maximum, and one more when it had fewer; so the
    count after does not exceed the maximum when the count before did
    not. *)
Theorem CreateBackup_keeps_count_within_maximum
        codec server dateStr randomID now w w' resp :
  CreateBackup codec (Some server) dateStr randomID now w = (w', resp) ->
  success resp = true ->
  count_of (Models.ID server) w'
  = (if count_of (Models.ID server) w >=? MaxBackups server
     then count_of (Models.ID server) w else count_of (Models.ID server) w + 1)
  /\ (count_of (Models.ID server) w <= MaxBackups server ->
      count_of (Models.ID server) w' <= MaxBackups server).
Proof.
  unfold CreateBackup.
  destruct (String.eqb (Models.BackupPath server) ""); [intros H; inversion H; subst; discriminate|].
  destruct (RotateBackups (Models.ID server) (MaxBackups server) w) as [w1 [e|]] eqn:Hrot;
    [intros H; inversion H; subst; discriminate|].
  destruct (CreateTarGzBackup _ _ _ _ _) as [fs2 [[backupPath fileSize]|e]];
    [|intros H; inversion H; subst; discriminate].
  destruct (Models.CreateBackup _ _ _ _ _ _) as [db3 [r|]] eqn:Hins;
    [|intros H; inversion H; subst; discriminate].
  intros H _. inversion H; subst. clear H.
  apply RotateBackups_count in Hrot.
  apply CreateBackup_record_count in Hins.
  assert (count_of (Models.ID server) (mkWorld fs2 db3) = count_of (Models.ID server) w1 + 1) as Hc.
  { unfold count_of. simpl. rewrite Hins. lia. }
  rewrite Hc, Hrot.
  destruct (count_of (Models.ID server) w >=? MaxBackups server) eqn:E.
  - split; [lia|]. intros. lia.
  - rewrite Z.geb_leb in E. apply Z.leb_gt in E. split; [lia|]. intros. lia.
Qed.

Lemma CreateBackup_keeps_count_within_maximum_witness :
  count_of 1 (fst (CreateBackup (reading_as [] []) (Some survival)
                                "20240101" "0001" 40 three_backups))
  = (if count_of 1 three_backups >=? 3
     then count_of 1 three_backups else count_of 1 three_backups + 1)
  /\ (count_of 1 three_backups <= 3 ->
      count_of 1 (fst (CreateBackup (reading_as [] []) (Some survival)
                                    "20240101" "0001" 40 three_backups)) <= 3).
Proof.
  apply (CreateBackup_keeps_count_within_maximum
           (reading_as [] []) survival "20240101" "0001" 40 three_backups
           (fst (CreateBackup (reading_as [] []) (Some survival)
                              "20240101" "0001" 40 three_backups))
           (snd (CreateBackup (reading_as [] []) (Some survival)
                              "20240101" "0001" 40 three_backups))).
  - apply surjective_pairing.
  - vm_compute. reflexivity.
Defined.

(** With a maximum of 2 and two backups on record, a third create
    leaves two records: the newer of the two and the new one. *)
Example third_backup_evicts_the_oldest :
  backups (w_db (fst (CreateBackup (reading_as [] []) (Some survival_max2)
                                   "20240101" "0001" 40 two_backups)))
  = list_to_map
      [ (2%N, mkBackup 1 "b.tar.gz" "/backups/b.tar.gz" 1 20);
        (3%N, mkBackup 1 "survival_20240101_0001.tar.gz"
                       "/backups/survival_20240101_0001.tar.gz" 7 40) ].
Proof. vm_compute. reflexivity. Qed.

(** C2 as stated fails when the count is above the maximum: with three
    backups on record and the maximum lowered to 1, a create-backup
    request succeeds and leaves three records. *)
Lemma count_stays_above_lowered_maximum :
  MaxBackups survival_max1 = 1
  /\ count_of 1 three_backups = 3
  /\ success (snd (CreateBackup (reading_as [] []) (Some survival_max1)
                                "20240101" "0001" 40 three_backups)) = true
  /\ count_of 1 (fst (CreateBackup (reading_as [] []) (Some survival_max1)
                                   "20240101" "0001" 40 three_backups)) = 3
  /\ ~ (count_of 1 (fst (CreateBackup (reading_as [] []) (Some survival_max1)
                                      "20240101" "0001" 40 three_backups))
        <= MaxBackups survival_max1).
Proof.
  repeat split; try (vm_compute; reflexivity).
  vm_compute. intros H. apply H. reflexivity.
Qed.

(** The two checks of [RestoreBackupFromArchive] as far as they go:
    when [os.Stat] answers the backup path, or after it the target
    directory, with the error [os.IsNotExist] recognises, the function
    returns the not-found error and leaves the file system as it
    was. *)
Lemma RestoreBackupFromArchive_returns_when_not_exist
      codec backupFilePath serverFolderPath fs :
  (IsNotExist (Stat_err fs backupFilePath) = true ->
   RestoreBackupFromArchive codec backupFilePath serverFolderPath fs
   = (fs, Some ErrBackupNotFound))
  /\ (IsNotExist (Stat_err fs backupFilePath) = false ->
      IsNotExist (Stat_err fs serverFolderPath) = true ->
      RestoreBackupFromArchive codec backupFilePath serverFolderPath fs
      = (fs, Some ErrServerFolderNotFound)).
Proof.
  unfold RestoreBackupFromArchive. split.
  - intros ->. reflexivity.
  - intros -> ->. reflexivity.
Qed.

(** C4.  The check of the backup path is [os.IsNotExist] on the error
    of [os.Stat], which does not hold of every error for a path that
    does not exist.  A backup path that leads through a regular file
    does not exist, and [os.Stat] answers it with ENOTDIR: the check
    passes, the target directory is cleared, and the call fails only
    when the archive is opened.  The file that was in the target
    directory is gone, and the error is not the not-found error. *)
Theorem RestoreBackupFromArchive_clears_for_a_path_through_a_file :
  let out := RestoreBackupFromArchive (reading_as crafted []) "/backups/mc1.tar.gz/x"
                                      "/srv/mc1" two_servers in
  Stat two_servers "/backups/mc1.tar.gz/x" = None
  /\ Stat_err two_servers "/backups/mc1.tar.gz/x" = Some ENOTDIR
  /\ Stat two_servers "/srv/mc1/world.dat" = Some (Regular 420 "w")
  /\ snd out = Some (ErrExtract ErrOpenBackup)
  /\ Stat (fst out) "/srv/mc1/world.dat" = None.
Proof. vm_compute. repeat split; reflexivity. Qed.

(** With a backup path that is simply not there the checks do what
    they are for. *)
Example RestoreBackupFromArchive_missing_archive :
  RestoreBackupFromArchive (reading_as crafted []) "/backups/none.tar.gz" "/srv/mc1" two_servers
  = (two_servers, Some ErrBackupNotFound)
  /\ RestoreBackupFromArchive (reading_as crafted []) "/backups/mc1.tar.gz" "/srv/none"
                              two_servers
     = (two_servers, Some ErrServerFolderNotFound).
Proof. vm_compute. split; reflexivity. Qed.

(** A restore whose checks pass does clear the target directory: the
    file that was in it is gone afterwards. *)
Example RestoreBackupFromArchive_clears :
  Stat (fst (RestoreBackupFromArchive (reading_as [] []) "/backups/mc1.tar.gz"
                                      "/srv/mc1" two_servers))
       "/srv/mc1/world.dat" = None.
Proof. vm_compute. reflexivity. Qed.

(** The archive [CreateTarGzBackup] reports is a regular file at the
    joined path. *)
Lemma CreateTarGzBackup_written codec sourcePath backupPath fileName fs fs' path size :
  CreateTarGzBackup codec sourcePath backupPath fileName fs = (fs', inl (path, size)) ->
  path = Join backupPath fileName
  /\ path <> ""
  /\ locate fs' path <> []
  /\ exists perm data, nodes fs' !! locate fs' path = Some (Regular perm data).
Proof.
  unfold CreateTarGzBackup.
  destruct (MkdirAll backupPath 493 fs) as [fs1 [e|]]; [discriminate|].
  destruct (Create (Join backupPath fileName) fs1) as [fs2 [e|]] eqn:Hc; [discriminate|].
  destruct (Stat fs2 sourcePath); [|discriminate].
  destruct (Stat (write_data _ _ fs2) (Join backupPath fileName)); [|discriminate].
  intros H. inversion H; subst. clear H.
  apply Create_ok in Hc as (Hne & Hp & Hcwd & perm & Hn).
  rewrite <- (locate_same_cwd fs1 fs2 _ Hcwd) in Hp, Hn.
  destruct (write_data_regular (Join backupPath fileName)
              (targz_bytes codec
                 (List.map archive_member (walk_below fs2 (locate fs2 sourcePath))))
              fs2 perm "" Hp Hn) as [Hcwd' Hn'].
  rewrite (locate_same_cwd fs2 _ _ Hcwd').
  split; [reflexivity|]. split; [assumption|]. split; [assumption|]. eauto.
Qed.

(** In the handler, when the archive was written and the insertion of
    the record fails, the archive is removed, and nothing is left at its
    path. *)
Lemma CreateBackup_removes_archive_when_insert_fails
      codec server dateStr randomID now w w' resp :
  CreateBackup codec (Some server) dateStr randomID now w = (w', resp) ->
  message resp = "Failed to save backup record" ->
  Stat (w_fs w')
       (Join (Models.BackupPath server) (GenerateBackupFileName (Models.Name server) dateStr randomID))
  = None.
Proof.
  unfold CreateBackup.
  destruct (String.eqb (Models.BackupPath server) ""); [intros H; inversion H; subst; discriminate|].
  destruct (RotateBackups (Models.ID server) (MaxBackups server) w) as [w1 [e|]];
    [intros H; inversion H; subst; discriminate|].
  destruct (CreateTarGzBackup _ _ _ _ _) as [fs2 [[backupPath fileSize]|e]] eqn:Hc;
    [|intros H; inversion H; subst; discriminate].
  destruct (Models.CreateBackup _ _ _ _ _ _) as [db3 [r|]];
    [intros H; inversion H; subst; discriminate|].
  intros H _. inversion H; subst. clear H. simpl.
  apply CreateTarGzBackup_written in Hc as (-> & Hne & Hp & perm & data & Hn).
  eapply Remove_regular; eauto.
Qed.

(** In a scheduled firing, when the archive was written and the
    insertion of the record fails, the archive is still at its path
    afterwards. *)
Lemma executeBackup_keeps_archive_when_insert_fails
      codec server dateStr randomID now w w' :
  executeBackup codec server dateStr randomID now w = (w', LogSaveFailed) ->
  exists perm data,
    Stat (w_fs w')
         (Join (Models.BackupPath server)
               (GenerateBackupFileName (Models.Name server) dateStr randomID))
    = Some (Regular perm data).
Proof.
  unfold executeBackup.
  destruct (String.eqb (Models.BackupPath server) ""); [discriminate|].
  destruct (RotateBackups (Models.ID server) (MaxBackups server) w) as [w1 [e|]];
    [discriminate|].
  destruct (CreateTarGzBackup _ _ _ _ _) as [fs2 [[backupPath fileSize]|e]] eqn:Hc;
    [|discriminate].
  destruct (Models.CreateBackup _ _ _ _ _ _) as [db3 [r|]]; [discriminate|].
  intros H. inversion H; subst. clear H. simpl.
  apply CreateTarGzBackup_written in Hc as (-> & Hne & Hp & perm & data & Hn).
  exists perm, data. unfold Stat.
  apply String.eqb_neq in Hne. rewrite Hne.
  now rewrite (node_at_nonroot _ _ Hp).
Qed.

(** C3, the scheduled path at the failing input.  A firing of a backup
    schedule during which the insertion of the record fails logs the
    failure and returns: the archive it has just written stays on disk,
    and no record names it. *)
Theorem executeBackup_leaves_archive_when_insert_fails :
  Stat (w_fs insert_fails) "/backups/survival_20240101_0001.tar.gz" = None
  /\ snd (executeBackup (reading_as [] []) survival "20240101" "0001" 40 insert_fails)
     = LogSaveFailed
  /\ backups (w_db (fst (executeBackup (reading_as [] []) survival
                                       "20240101" "0001" 40 insert_fails))) = ∅
  /\ Stat (w_fs (fst (executeBackup (reading_as [] []) survival
                                    "20240101" "0001" 40 insert_fails)))
          "/backups/survival_20240101_0001.tar.gz"
     = Some (Regular 438 "archive").
Proof. repeat split; vm_compute; reflexivity. Qed.

(** The same request through the handler leaves no archive. *)
Example CreateBackup_cleans_up :
  message (snd (CreateBackup (reading_as [] []) (Some survival)
                             "20240101" "0001" 40 insert_fails))
  = "Failed to save backup record"
  /\ Stat (w_fs (fst (CreateBackup (reading_as [] []) (Some survival)
                                   "20240101" "0001" 40 insert_fails)))
          "/backups/survival_20240101_0001.tar.gz"
     = None.
Proof. split; vm_compute; reflexivity. Qed.

End BackupProps.

(** ** What extraction leaves untouched *)

Module SafetyProps.
Import GoStr Path FS Archive FilesHandler.
Import PathProps FSProps.
Local Open Scope Z_scope.

Lemma same_outside_refl root fs : same_outside root fs fs.
Proof. split; [reflexivity | intros; reflexivity]. Qed.

Lemma same_outside_trans root fs1 fs2 fs3 :
  same_outside root fs1 fs2 -> same_outside root fs2 fs3 -> same_outside root fs1 fs3.
Proof.
  intros [Hc1 H1] [Hc2 H2]. split; [congruence|].
  intros p Hp. rewrite (H2 p Hp). apply H1, Hp.
Qed.

(** Writing one node strictly inside [root] changes nothing outside. *)
Lemma same_outside_insert root fs p n :
  strictly_inside root p ->
  same_outside root fs (with_nodes fs (<[p := n]> (nodes fs))).
Proof.
  intros Hin. split; [reflexivity|]. intros q Hq. simpl.
  apply lookup_insert_ne. intros ->. contradiction.
Qed.

Lemma strictly_inside_not_self root : ~ strictly_inside root root.
Proof.
  intros (rest & Hne & H). apply Hne.
  rewrite <- (app_nil_r root) in H at 1. now apply app_inv_head in H.
Qed.

(** A directory that is there stays there when nothing outside it
    changes. *)
Lemma same_outside_root root fs fs' :
  same_outside root fs fs' -> node_at fs' root = node_at fs root.
Proof.
  intros [_ H]. destruct root as [|c r]; [reflexivity|].
  simpl. apply H, strictly_inside_not_self.
Qed.

Lemma mkdir_at_same_outside root p perm fs :
  strictly_inside root p -> same_outside root fs (fst (mkdir_at p perm fs)).
Proof.
  intros Hin. unfold mkdir_at.
  destruct (node_at fs p); [apply same_outside_refl|].
  destruct (node_at fs (parent p)) as [[?|? ?]|]; simpl;
    [now apply same_outside_insert | apply same_outside_refl | apply same_outside_refl].
Qed.

Lemma inside_snoc root rp c :
  inside root (List.rev (c :: rp)) -> List.rev (c :: rp) <> root ->
  inside root (List.rev rp) /\ strictly_inside root (List.rev (c :: rp)).
Proof.
  simpl. intros [rest H] Hne.
  induction rest as [|x rest' _] using rev_ind.
  - rewrite app_nil_r in H. contradiction.
  - rewrite app_assoc in H. apply app_inj_tail in H as [H1 H2].
    split; [now exists rest'|].
    exists (rest' ++ [x])%list. split; [now destruct rest'|].
    rewrite H1, <- H2. now rewrite app_assoc.
Qed.

(** [os.MkdirAll] of a path at or below a directory that exists makes
    directories strictly inside it only. *)
Lemma mkdir_all_at_same_outside root rp perm fs :
  is_Some (node_at fs root) ->
  inside root (List.rev rp) ->
  same_outside root fs (fst (mkdir_all_at rp perm fs)).
Proof.
  intros Hroot. induction rp as [|c rp IH]; intros Hin.
  - simpl. destruct (node_at fs (List.rev [])) as [[?|? ?]|]; apply same_outside_refl.
  - cbn [mkdir_all_at].
    destruct (node_at fs (List.rev (c :: rp))) as [[?|? ?]|] eqn:E;
      [apply same_outside_refl | apply same_outside_refl |].
    assert (List.rev (c :: rp) <> root) as Hne.
    { intros Heq. rewrite Heq in E. rewrite E in Hroot. now destruct Hroot. }
    destruct (inside_snoc _ _ _ Hin Hne) as [Hin' Hstrict].
    specialize (IH Hin').
    destruct (mkdir_all_at rp perm fs) as [fs1 [e|]]; simpl in *; [exact IH|].
    eapply same_outside_trans; [exact IH|].
    now apply mkdir_at_same_outside.
Qed.

Lemma MkdirAll_same_outside root path perm fs :
  is_Some (node_at fs root) ->
  inside root (locate fs path) ->
  same_outside root fs (fst (MkdirAll path perm fs)).
Proof.
  intros Hroot Hin. unfold MkdirAll.
  destruct (String.eqb path ""); [apply same_outside_refl|].
  apply mkdir_all_at_same_outside; [assumption|]. now rewrite rev_involutive.
Qed.

Lemma Create_same_outside root path fs :
  strictly_inside root (locate fs path) ->
  same_outside root fs (fst (Create path fs)).
Proof.
  intros Hin. unfold Create.
  destruct (String.eqb path ""); [apply same_outside_refl|].
  destruct (node_at fs (locate fs path)) as [[?|? ?]|]; simpl;
    [apply same_outside_refl | now apply same_outside_insert |].
  destruct (node_at fs (parent (locate fs path))) as [[?|? ?]|]; simpl;
    [now apply same_outside_insert | apply same_outside_refl | apply same_outside_refl].
Qed.

Lemma write_data_same_outside root path data fs :
  strictly_inside root (locate fs path) ->
  same_outside root fs (write_data path data fs).
Proof.
  intros Hin. unfold write_data.
  destruct (node_at fs (locate fs path)) as [[?|? ?]|];
    [apply same_outside_refl | now apply same_outside_insert | apply same_outside_refl].
Qed.

Lemma Chmod_same_outside root path mode fs :
  strictly_inside root (locate fs path) ->
  same_outside root fs (fst (Chmod path mode fs)).
Proof.
  intros Hin. unfold Chmod.
  destruct (String.eqb path ""); [apply same_outside_refl|].
  destruct (locate fs path) as [|c p] eqn:E; [apply same_outside_refl|].
  destruct (node_at fs (c :: p)) as [[?|? ?]|]; simpl;
    [now apply same_outside_insert | now apply same_outside_insert | apply same_outside_refl].
Qed.

Lemma Dir_pieces path a b l :
  Split path Separator = a :: b :: l ->
  Dir path = Clean (JoinStrings (List.removelast (a :: b :: l)) "/" ++ "/").
Proof. unfold Dir. now intros ->. Qed.

Lemma Split_JoinStrings_sep l :
  l <> [] -> Forall slash_free l ->
  Split (JoinStrings l "/" ++ "/") Separator = (l ++ [""])%list.
Proof.
  induction l as [|a l IH]; [congruence|]. intros _ Hf. inversion Hf; subst.
  destruct l as [|b l].
  - change (JoinStrings [a] "/" ++ "/") with (a ++ "/" ++ "").
    now rewrite Split_app_sep.
  - change (JoinStrings (a :: b :: l) "/") with (a ++ "/" ++ JoinStrings (b :: l) "/").
    rewrite !append_assoc, Split_app_sep by assumption.
    rewrite IH; [reflexivity | discriminate | assumption].
Qed.

Lemma clean_elems_of_plain_sep elems :
  Forall plain elems -> clean_elems true ("" :: elems ++ [""]) = elems.
Proof.
  intros H. unfold clean_elems.
  change (List.fold_left (clean_step true) ("" :: elems ++ [""]) [])
    with (List.fold_left (clean_step true) (elems ++ [""]) []).
  rewrite fold_left_app, (fold_clean_of_plain elems [] H).
  change (List.fold_left (clean_step true) [""] (List.rev elems ++ [])%list)
    with (List.rev elems ++ [])%list.
  rewrite app_nil_r. apply rev_involutive.
Qed.

Lemma Forall_removelast {A} (P : A -> Prop) (l : list A) :
  Forall P l -> Forall P (List.removelast l).
Proof.
  induction l as [|a l IH]; [auto|]. intros H. inversion H; subst.
  destruct l; [constructor|]. simpl. constructor; [assumption | now apply IH].
Qed.

(** What the parent directory of a rooted clean path resolves to. *)
Lemma resolve_Dir_rooted cwd names :
  Forall plain names ->
  resolve cwd (Dir ("/" ++ JoinStrings names "/")) = List.removelast names.
Proof.
  intros H. destruct names as [|t T]; [reflexivity|].
  assert (Split ("/" ++ JoinStrings (t :: T) "/") Separator = "" :: t :: T) as Hs.
  { change (Split ("/" ++ JoinStrings (t :: T) "/") Separator)
      with ("" :: Split (JoinStrings (t :: T) "/") Separator).
    rewrite Split_JoinStrings; [reflexivity | discriminate | now apply plain_slash_free]. }
  rewrite (Dir_pieces _ _ _ _ Hs).
  change (List.removelast ("" :: t :: T)) with ("" :: List.removelast (t :: T)).
  assert (Forall plain (List.removelast (t :: T))) as HR by now apply Forall_removelast.
  destruct (List.removelast (t :: T)) as [|r R] eqn:ER; [reflexivity|].
  change (JoinStrings ("" :: r :: R) "/" ++ "/")
    with (String "/" (JoinStrings (r :: R) "/" ++ "/")).
  rewrite resolve_Clean by reflexivity.
  change (resolve cwd (String "/" (JoinStrings (r :: R) "/" ++ "/")))
    with (clean_elems true ("" :: Split (JoinStrings (r :: R) "/" ++ "/") Separator)).
  rewrite Split_JoinStrings_sep; [|discriminate|now apply plain_slash_free].
  now apply clean_elems_of_plain_sep.
Qed.

Lemma Join_rooted destPath name :
  rooted destPath = true ->
  Join destPath name
  = "/" ++ JoinStrings (clean_elems true (Split (destPath ++ "/" ++ name) Separator)) "/".
Proof.
  intros Hr. unfold Join. rewrite (rooted_nonempty _ Hr). simpl negb. cbv iota.
  apply Clean_rooted. now apply rooted_app.
Qed.

Lemma resolve_Dir_Join cwd destPath name :
  rooted destPath = true ->
  resolve cwd (Dir (Join destPath name)) = List.removelast (resolve cwd (Join destPath name)).
Proof.
  intros Hr. rewrite (Join_rooted _ _ Hr).
  rewrite resolve_Dir_rooted, resolve_rooted_join by apply clean_elems_plain.
  reflexivity.
Qed.

Lemma removelast_inside root p :
  strictly_inside root p -> inside root (List.removelast p).
Proof.
  intros (rest & Hne & ->). exists (List.removelast rest).
  now apply removelast_app.
Qed.

Lemma same_outside_locate root fs fs' path :
  same_outside root fs fs' -> locate fs' path = locate fs path.
Proof. intros [Hc _]. now apply locate_same_cwd. Qed.

(** Writing a regular file of an archive at a path strictly inside
    [root]: the parent directories, the file, its content and its
    mode. *)
Lemma write_entry_same_outside root destPath name fs :
  rooted destPath = true ->
  is_Some (node_at fs root) ->
  strictly_inside root (locate fs (Join destPath name)) ->
  same_outside root fs (fst (MkdirAll (Dir (Join destPath name)) 493 fs))
  /\ (forall fs1, same_outside root fs fs1 ->
                  same_outside root fs (fst (Create (Join destPath name) fs1)))
  /\ (forall fs2 body mode, same_outside root fs fs2 ->
        same_outside root fs
          (fst (Chmod (Join destPath name) mode (write_data (Join destPath name) body fs2)))).
Proof.
  intros Hr Hroot Hin. split; [|split].
  - apply MkdirAll_same_outside; [assumption|].
    unfold locate. rewrite (resolve_Dir_Join _ _ _ Hr). now apply removelast_inside.
  - intros fs1 S1. eapply same_outside_trans; [exact S1|].
    apply Create_same_outside. now rewrite (same_outside_locate _ _ _ _ S1).
  - intros fs2 body mode S2.
    assert (same_outside root fs2 (write_data (Join destPath name) body fs2)) as S3.
    { apply write_data_same_outside. now rewrite (same_outside_locate _ _ _ _ S2). }
    eapply same_outside_trans; [exact S2|].
    eapply same_outside_trans; [exact S3|].
    apply Chmod_same_outside.
    rewrite (same_outside_locate _ _ _ _ S3). now rewrite (same_outside_locate _ _ _ _ S2).
Qed.

(** The tar extractors of the file manager, given a rooted destination
    that exists, change nothing outside the destination. *)
Lemma extract_tar_entries_same_outside destPath items fs :
  rooted destPath = true ->
  is_Some (node_at fs (locate fs destPath)) ->
  same_outside (locate fs destPath) fs (fst (extract_tar_entries destPath items fs)).
Proof.
  intros Hr. revert fs. induction items as [|item items IH]; intros fs Hroot.
  - apply same_outside_refl.
  - assert (forall fs', same_outside (locate fs destPath) fs fs' ->
                        same_outside (locate fs destPath) fs
                          (fst (extract_tar_entries destPath items fs'))) as Hnext.
    { intros fs' S. eapply same_outside_trans; [exact S|].
      rewrite <- (same_outside_locate _ _ _ destPath S).
      apply IH. rewrite (same_outside_locate _ _ _ destPath S).
      now rewrite (same_outside_root _ _ _ S). }
    destruct item as [h b|]; [|apply same_outside_refl].
    cbn [extract_tar_entries].
    destruct (HasPrefix (Join destPath (Name h)) (Clean destPath ++ "/")) eqn:Hp;
      simpl negb; cbv iota; [|apply IH, Hroot].
    pose proof (prefix_test_inside (cwd fs) destPath (Name h) Hr Hp) as Hin.
    fold (locate fs destPath) in Hin. fold (locate fs (Join destPath (Name h))) in Hin.
    destruct (write_entry_same_outside _ _ _ _ Hr Hroot Hin) as (S1 & S2 & S3).
    destruct (Typeflag h).
    + destruct (MkdirAll (Dir (Join destPath (Name h))) 493 fs) as [fs1 [e|]];
        simpl in S1; [exact S1|].
      specialize (S2 fs1 S1).
      destruct (Create (Join destPath (Name h)) fs1) as [fs2 [e|]]; simpl in S2; [exact S2|].
      specialize (S3 fs2 b (Mode h) S2).
      destruct (Chmod _ _ _) as [fs3 [e|]]; simpl in S3; [exact S3|].
      now apply Hnext.
    + pose proof (MkdirAll_same_outside (locate fs destPath) (Join destPath (Name h)) 493 fs
                    Hroot) as S.
      destruct (MkdirAll (Join destPath (Name h)) 493 fs) as [fs1 [e|]]; simpl in S.
      * apply S. destruct Hin as (rest & _ & ->). now exists rest.
      * apply Hnext, S. destruct Hin as (rest & _ & ->). now exists rest.
    + apply IH, Hroot.
Qed.

Lemma extract_zip_files_same_outside destPath files fs :
  rooted destPath = true ->
  is_Some (node_at fs (locate fs destPath)) ->
  same_outside (locate fs destPath) fs (fst (extract_zip_files destPath files fs)).
Proof.
  intros Hr. revert fs. induction files as [|f files IH]; intros fs Hroot.
  - apply same_outside_refl.
  - assert (forall fs', same_outside (locate fs destPath) fs fs' ->
                        same_outside (locate fs destPath) fs
                          (fst (extract_zip_files destPath files fs'))) as Hnext.
    { intros fs' S. eapply same_outside_trans; [exact S|].
      rewrite <- (same_outside_locate _ _ _ destPath S).
      apply IH. rewrite (same_outside_locate _ _ _ destPath S).
      now rewrite (same_outside_root _ _ _ S). }
    cbn [extract_zip_files].
    destruct (HasPrefix (Join destPath (zName f)) (Clean destPath ++ "/")) eqn:Hp;
      simpl negb; cbv iota; [|apply IH, Hroot].
    pose proof (prefix_test_inside (cwd fs) destPath (zName f) Hr Hp) as Hin.
    fold (locate fs destPath) in Hin. fold (locate fs (Join destPath (zName f))) in Hin.
    destruct (write_entry_same_outside _ _ _ _ Hr Hroot Hin) as (S1 & S2 & S3).
    destruct (zIsDir f).
    + pose proof (MkdirAll_same_outside (locate fs destPath) (Join destPath (zName f)) 493 fs
                    Hroot) as S.
      destruct (MkdirAll (Join destPath (zName f)) 493 fs) as [fs1 [e|]]; simpl in S.
      * apply S. destruct Hin as (rest & _ & ->). now exists rest.
      * apply Hnext, S. destruct Hin as (rest & _ & ->). now exists rest.
    + destruct (MkdirAll (Dir (Join destPath (zName f))) 493 fs) as [fs1 [e|]];
        simpl in S1; [exact S1|].
      destruct (zOpen f) as [body|]; [|exact S1].
      specialize (S2 fs1 S1).
      destruct (Create (Join destPath (zName f)) fs1) as [fs2 [e|]]; simpl in S2; [exact S2|].
      specialize (S3 fs2 body (zMode f) S2).
      destruct (Chmod _ _ _) as [fs3 [e|]]; simpl in S3; [exact S3|].
      now apply Hnext.
Qed.

(** The tar.gz, tar and zip extractors of the file manager, run on any
    archive with a rooted destination that exists, leave every node
    that is not strictly inside the destination as it was: they create
    nothing outside the destination root. *)
Theorem file_manager_extractors_stay_inside codec archivePath destPath fs :
  rooted destPath = true ->
  is_Some (node_at fs (locate fs destPath)) ->
  same_outside (locate fs destPath) fs (fst (extractTarGz codec archivePath destPath fs))
  /\ same_outside (locate fs destPath) fs (fst (extractTar codec archivePath destPath fs))
  /\ same_outside (locate fs destPath) fs (fst (extractZip codec archivePath destPath fs)).
Proof.
  intros Hr Hroot. unfold extractTarGz, extractTar, extractZip.
  destruct (Open fs archivePath) as [e| |data];
    [repeat split; apply same_outside_refl | repeat split; apply same_outside_refl |].
  split; [|split].
  - destruct (gunzip codec data); [|apply same_outside_refl].
    now apply extract_tar_entries_same_outside.
  - now apply extract_tar_entries_same_outside.
  - destruct (unzip codec data); [|apply same_outside_refl].
    now apply extract_zip_files_same_outside.
Qed.

End SafetyProps.

(** ** Extraction of archives *)

Module ArchiveProps.
Import GoStr Path FS Archive FilesHandler BackupService.
Import PathProps FSProps Fixtures.
Local Open Scope Z_scope.

(** An entry that does not resolve strictly inside a rooted destination
    fails the test of the file manager's extractors. *)
Lemma outside_fails_prefix_test fs destPath name :
  rooted destPath = true ->
  ~ strictly_inside (locate fs destPath) (locate fs (Join destPath name)) ->
  HasPrefix (Join destPath name) (Clean destPath ++ "/") = false.
Proof.
  intros Hr Hout.
  destruct (HasPrefix (Join destPath name) (Clean destPath ++ "/")) eqn:E; [|reflexivity].
  exfalso. apply Hout. now apply prefix_test_inside.
Qed.

(** The loop of the tar extractors passes over an entry that fails the
    test: the result is that of the archive without the entry. *)
Lemma extract_tar_entries_skips destPath pre header body post fs :
  HasPrefix (Join destPath (Name header)) (Clean destPath ++ "/") = false ->
  extract_tar_entries destPath (pre ++ Entry header body :: post) fs
  = extract_tar_entries destPath (pre ++ post) fs.
Proof.
  intros Hbad. revert fs. induction pre as [|item pre IH]; intros fs.
  - simpl. now rewrite Hbad.
  - rewrite <- !app_comm_cons. destruct item as [h b|]; [|reflexivity]. simpl.
    destruct (negb (HasPrefix (Join destPath (Name h)) (Clean destPath ++ "/")));
      [apply IH|].
    destruct (Typeflag h).
    + destruct (MkdirAll (Dir (Join destPath (Name h))) 493 fs) as [fs1 [e|]]; [reflexivity|].
      destruct (Create (Join destPath (Name h)) fs1) as [fs2 [e|]]; [reflexivity|].
      destruct (Chmod _ _ _) as [fs3 [e|]]; [reflexivity | apply IH].
    + destruct (MkdirAll (Join destPath (Name h)) 493 fs) as [fs1 [e|]];
        [reflexivity | apply IH].
    + apply IH.
Qed.

Lemma extract_zip_files_skips destPath pre file post fs :
  HasPrefix (Join destPath (zName file)) (Clean destPath ++ "/") = false ->
  extract_zip_files destPath (pre ++ file :: post) fs
  = extract_zip_files destPath (pre ++ post) fs.
Proof.
  intros Hbad. revert fs. induction pre as [|f pre IH]; intros fs.
  - simpl. now rewrite Hbad.
  - rewrite <- !app_comm_cons. simpl.
    destruct (negb (HasPrefix (Join destPath (zName f)) (Clean destPath ++ "/")));
      [apply IH|].
    destruct (zIsDir f).
    + destruct (MkdirAll (Join destPath (zName f)) 493 fs) as [fs1 [e|]];
        [reflexivity | apply IH].
    + destruct (MkdirAll (Dir (Join destPath (zName f))) 493 fs) as [fs1 [e|]]; [reflexivity|].
      destruct (zOpen f) as [b|]; [|reflexivity].
      destruct (Create (Join destPath (zName f)) fs1) as [fs2 [e|]]; [reflexivity|].
      destruct (Chmod _ _ _) as [fs3 [e|]]; [reflexivity | apply IH].
Qed.

(** The loop of the backup extractor stops with an error at an entry
    that fails its test, if it gets that far. *)
Lemma extract_backup_entries_aborts destPath pre header body post fs :
  HasPrefix (Clean (Join destPath (Name header))) (Clean destPath) = false ->
  snd (extract_backup_entries destPath (pre ++ Entry header body :: post) fs) <> None
  /\ (forall fs1, extract_backup_entries destPath pre fs = (fs1, None) ->
                  extract_backup_entries destPath (pre ++ Entry header body :: post) fs
                  = (fs1, Some (ErrInvalidPath (Name header)))).
Proof.
  intros Hbad. revert fs. induction pre as [|item pre IH]; intros fs.
  - simpl. rewrite Hbad. simpl. split; [discriminate|].
    intros fs1 H. now inversion H.
  - rewrite <- !app_comm_cons. destruct item as [h b|]; simpl.
    2:{ split; [discriminate | discriminate]. }
    destruct (negb (HasPrefix (Clean (Join destPath (Name h))) (Clean destPath))).
    { simpl. split; discriminate. }
    destruct (Typeflag h).
    + destruct (MkdirAll (Dir (Join destPath (Name h))) 493 fs) as [fs1 [e|]];
        [simpl; split; discriminate|].
      destruct (Create (Join destPath (Name h)) fs1) as [fs2 [e|]];
        [simpl; split; discriminate|].
      destruct (Chmod _ _ _) as [fs3 [e|]]; [simpl; split; discriminate | apply IH].
    + destruct (MkdirAll (Join destPath (Name h)) 493 fs) as [fs1 [e|]];
        [simpl; split; discriminate | apply IH].
    + apply IH.
Qed.

(** C6, as amended.  With a rooted destination: the tar.gz, tar and zip
    extractors of the file manager pass over an entry that does not
    resolve strictly inside the destination and go on, the result being
    that of the archive without the entry; the tar.gz extractor of the
    backup restore ends with an error on an archive with an entry whose
    cleaned path does not start with the cleaned destination. *)
Theorem escaping_entry_policy
        codec archivePath destPath data tarBytes pre header body post zpre file zpost fs :
  rooted destPath = true ->
  Open fs archivePath = OpenedFile data ->
  (gunzip codec data = Some tarBytes ->
   untar codec tarBytes = (pre ++ Entry header body :: post)%list ->
   ~ strictly_inside (locate fs destPath) (locate fs (Join destPath (Name header))) ->
   extractTarGz codec archivePath destPath fs
   = extract_tar_entries destPath (pre ++ post) fs)
  /\ (untar codec data = (pre ++ Entry header body :: post)%list ->
      ~ strictly_inside (locate fs destPath) (locate fs (Join destPath (Name header))) ->
      extractTar codec archivePath destPath fs
      = extract_tar_entries destPath (pre ++ post) fs)
  /\ (unzip codec data = Some (zpre ++ file :: zpost)%list ->
      ~ strictly_inside (locate fs destPath) (locate fs (Join destPath (zName file))) ->
      extractZip codec archivePath destPath fs
      = extract_zip_files destPath (zpre ++ zpost) fs)
  /\ (gunzip codec data = Some tarBytes ->
      untar codec tarBytes = (pre ++ Entry header body :: post)%list ->
      HasPrefix (Clean (Join destPath (Name header))) (Clean destPath) = false ->
      snd (extractTarGzBackup codec archivePath destPath fs) <> None).
Proof.
  intros Hr Hopen. repeat split.
  - intros Hg Hu Hout. unfold extractTarGz. rewrite Hopen, Hg, Hu.
    apply extract_tar_entries_skips. now apply (outside_fails_prefix_test fs).
  - intros Hu Hout. unfold extractTar. rewrite Hopen, Hu.
    apply extract_tar_entries_skips. now apply (outside_fails_prefix_test fs).
  - intros Hu Hout. unfold extractZip. rewrite Hopen, Hu.
    apply extract_zip_files_skips. now apply (outside_fails_prefix_test fs).
  - intros Hg Hu Hbad. unfold extractTarGzBackup. rewrite Hopen, Hg, Hu.
    now apply extract_backup_entries_aborts.
Qed.

Lemma escaping_entry_policy_witness :
  extractTarGz (reading_as escaping escaping_zip) "/backups/mc1.tar.gz" "/srv/mc1" two_servers
  = extract_tar_entries "/srv/mc1" [Entry inner_entry "motd=hi"] two_servers
  /\ extractTar (reading_as escaping escaping_zip) "/backups/mc1.tar.gz" "/srv/mc1" two_servers
     = extract_tar_entries "/srv/mc1" [Entry inner_entry "motd=hi"] two_servers
  /\ extractZip (reading_as escaping escaping_zip) "/backups/mc1.tar.gz" "/srv/mc1" two_servers
     = extract_zip_files "/srv/mc1"
         [mkZipFile "server.properties" false 420 (Some "motd=hi")] two_servers
  /\ snd (extractTarGzBackup (reading_as escaping escaping_zip)
                             "/backups/mc1.tar.gz" "/srv/mc1" two_servers) <> None.
Proof.
  assert (~ strictly_inside (locate two_servers "/srv/mc1")
            (locate two_servers (Join "/srv/mc1" "../../escape.txt"))) as Hout.
  { intros (rest & _ & H). vm_compute in H. discriminate. }
  destruct (escaping_entry_policy (reading_as escaping escaping_zip)
              "/backups/mc1.tar.gz" "/srv/mc1" "z" "z"
              [] escape_entry "x" [Entry inner_entry "motd=hi"]
              [] (mkZipFile "../../escape.txt" false 420 (Some "x"))
              [mkZipFile "server.properties" false 420 (Some "motd=hi")]
              two_servers eq_refl eq_refl)
    as (H1 & H2 & H3 & H4).
  split; [exact (H1 eq_refl eq_refl Hout)|].
  split; [exact (H2 eq_refl Hout)|].
  split; [exact (H3 eq_refl Hout)|].
  exact (H4 eq_refl eq_refl eq_refl).
Defined.

(** C6 as stated fails for tar.gz: the file manager sends a [.tar.gz]
    file to [extractTarGz], which on an archive with an entry that
    leaves the destination returns nil, having extracted the entry that
    follows it. *)
Lemma file_manager_tar_gz_skips :
  ~ strictly_inside (locate two_servers "/srv/mc1")
      (locate two_servers (Join "/srv/mc1" (Name escape_entry)))
  /\ unarchive (reading_as escaping []) "mc1.tar.gz" "/backups/mc1.tar.gz" "/srv/mc1"
               two_servers
     = Some (extractTarGz (reading_as escaping []) "/backups/mc1.tar.gz" "/srv/mc1"
                          two_servers)
  /\ snd (extractTarGz (reading_as escaping []) "/backups/mc1.tar.gz" "/srv/mc1" two_servers)
     = None
  /\ Stat (fst (extractTarGz (reading_as escaping []) "/backups/mc1.tar.gz" "/srv/mc1"
                             two_servers))
          "/srv/mc1/server.properties"
     = Some (Regular 420 "motd=hi").
Proof.
  split; [intros (rest & _ & H); vm_compute in H; discriminate|].
  repeat split; vm_compute; reflexivity.
Qed.

(** C1 at the failing input.  The backup extractor tests the cleaned
    path of an entry for the string prefix [/srv/mc1], which the path
    [/srv/mc10/ops.json] has: the entry [../mc10/ops.json] of an archive
    restored into [/srv/mc1] is written into the folder of the other
    server, outside the destination, and the extraction returns nil. *)
Theorem extractTarGzBackup_writes_outside_destination :
  Stat two_servers "/srv/mc10/ops.json" = None
  /\ ~ inside (locate two_servers "/srv/mc1") (locate two_servers "/srv/mc10/ops.json")
  /\ snd (extractTarGzBackup (reading_as crafted []) "/backups/mc1.tar.gz" "/srv/mc1"
                             two_servers) = None
  /\ Stat (fst (extractTarGzBackup (reading_as crafted []) "/backups/mc1.tar.gz" "/srv/mc1"
                                   two_servers))
          "/srv/mc10/ops.json"
     = Some (Regular 420 "[]").
Proof.
  split; [vm_compute; reflexivity|].
  split; [intros (rest & H); vm_compute in H; discriminate|].
  split; vm_compute; reflexivity.
Qed.

(** The same through [RestoreBackupFromArchive]. *)
Example RestoreBackupFromArchive_writes_outside_destination :
  RestoreBackupFromArchive (reading_as crafted []) "/backups/mc1.tar.gz" "/srv/mc1"
                           two_servers
  = (fst (RestoreBackupFromArchive (reading_as crafted []) "/backups/mc1.tar.gz" "/srv/mc1"
                                   two_servers), None)
  /\ Stat (fst (RestoreBackupFromArchive (reading_as crafted []) "/backups/mc1.tar.gz"
                                         "/srv/mc1" two_servers))
          "/srv/mc10/ops.json"
     = Some (Regular 420 "[]").
Proof. split; vm_compute; reflexivity. Qed.

(** The entry of the specification's example, [../../escape.txt],
    extracted by the backup extractor into the destination [/e]: the
    file [/escape.txt] is created, outside the destination. *)
Example extractTarGzBackup_escape_txt :
  ~ inside (locate short_destination "/e") (locate short_destination "/escape.txt")
  /\ snd (extractTarGzBackup (reading_as escaping []) "/backups/e.tar.gz" "/e"
                             short_destination) = None
  /\ Stat (fst (extractTarGzBackup (reading_as escaping []) "/backups/e.tar.gz" "/e"
                                   short_destination))
          "/escape.txt"
     = Some (Regular 420 "x").
Proof.
  split; [intros (rest & H); vm_compute in H; discriminate|].
  split; vm_compute; reflexivity.
Qed.

(** The file manager's tar.gz extractor on the same archives writes
    nothing outside the destination. *)
Example extractTarGz_stays_inside :
  Stat (fst (extractTarGz (reading_as crafted []) "/backups/mc1.tar.gz" "/srv/mc1"
                          two_servers))
       "/srv/mc10/ops.json" = None
  /\ Stat (fst (extractTarGz (reading_as escaping []) "/backups/e.tar.gz" "/e"
                             short_destination))
          "/escape.txt" = None.
Proof. split; vm_compute; reflexivity. Qed.

(** The destination has to be rooted for the test of the file manager
    to keep entries inside: with the relative destination [..], the
    entry [../x] passes the test and is written above the
    destination. *)
Example extractTarGz_relative_destination :
  locate working_in_mc1 ".." = ["srv"]
  /\ ~ inside (locate working_in_mc1 "..") (locate working_in_mc1 (Join ".." "../x"))
  /\ Stat (fst (extractTarGz (reading_as [Entry (mkHeader "../x" TypeReg 420) "x"] [])
                             "/backups/mc1.tar.gz" ".." working_in_mc1))
          "/x"
     = Some (Regular 420 "x").
Proof.
  split; [reflexivity|].
  split; [intros (rest & H); vm_compute in H; discriminate|].
  vm_compute. reflexivity.
Qed.

End ArchiveProps.

(** ** More on the cron validator *)

Module CronExtra.
Import GoStr Cron.
Local Open Scope Z_scope.

Lemma validateSingleCronValue_accepts fieldName lo hi value n :
  spec_bounds fieldName = Some (lo, hi) ->
  Atoi value = Some n -> lo <= n <= hi ->
  validateSingleCronValue fieldName value = None.
Proof.
  unfold spec_bounds, validateSingleCronValue. intros Hb -> Hn.
  repeat match type of Hb with
         | (if String.eqb ?a ?b then _ else _) = _ => destruct (String.eqb a b)
         end;
    try discriminate; inversion Hb; subst;
    (destruct (n <? _) eqn:E1; [apply Z.ltb_lt in E1; lia|]);
    (destruct (n >? _) eqn:E2; [rewrite Z.gtb_ltb in E2; apply Z.ltb_lt in E2; lia|]);
    reflexivity.
Qed.

Lemma validateCronRange_accepts fieldName lo hi a b :
  spec_bounds fieldName = Some (lo, hi) ->
  lo <= a -> b <= hi ->
  validateCronRange fieldName a b = None.
Proof.
  unfold spec_bounds, validateCronRange. intros Hb Ha Hh.
  repeat match type of Hb with
         | (if String.eqb ?a ?b then _ else _) = _ => destruct (String.eqb a b)
         end;
    try discriminate; inversion Hb; subst;
    (destruct (a <? _) eqn:E1; [apply Z.ltb_lt in E1; lia|]);
    (destruct (b >? _) eqn:E2; [rewrite Z.gtb_ltb in E2; apply Z.ltb_lt in E2; lia|]);
    reflexivity.
Qed.

Lemma validateParts_accepts fieldName lo hi parts :
  spec_bounds fieldName = Some (lo, hi) ->
  Forall (fun part => exists n, Atoi (TrimSpace part) = Some n /\ lo <= n <= hi) parts ->
  validateParts fieldName parts = None.
Proof.
  intros Hb. induction 1 as [|part rest (n & Hn & Hr) _ IH]; simpl; [reflexivity|].
  now rewrite (validateSingleCronValue_accepts _ _ _ _ _ Hb Hn Hr).
Qed.

Lemma Contains_nonempty value c : Contains value c = true -> value <> "".
Proof. destruct value; [discriminate | discriminate]. Qed.

Lemma HasPrefix_star value : HasPrefix value "*/" = true -> value <> "" /\ value <> "*".
Proof.
  destruct value as [|a [|b v]]; try discriminate.
  - unfold HasPrefix.
    change (String.prefix "*/" (String a ""))
      with (if ascii_dec "*"%char a then false else false).
    destruct (ascii_dec "*"%char a); discriminate.
  - intros _. split; discriminate.
Qed.

(** A value of one of the allowed forms is accepted: the wildcard, a
    step with a number of at least 1, a comma-separated list of numbers
    within the bounds of the field, a range [a-b] with
    [lo <= a < b <= hi], a single number within the bounds. *)
Theorem ValidateCronField_accepts_allowed_forms fieldName lo hi value :
  spec_bounds fieldName = Some (lo, hi) ->
  (value = "*"
   \/ (HasPrefix value "*/" = true
       /\ exists n, Atoi (TrimPrefix value "*/") = Some n /\ 1 <= n)
   \/ (HasPrefix value "*/" = false /\ Contains value ","%char = true
       /\ Forall (fun part => exists n, Atoi (TrimSpace part) = Some n /\ lo <= n <= hi)
                 (Split value ","%char))
   \/ (HasPrefix value "*/" = false /\ Contains value ","%char = false
       /\ Contains value "-"%char = true
       /\ exists p0 p1 a b,
           Split value "-"%char = [p0; p1]
           /\ Atoi (TrimSpace p0) = Some a /\ Atoi (TrimSpace p1) = Some b
           /\ lo <= a /\ a < b /\ b <= hi)
   \/ (HasPrefix value "*/" = false /\ Contains value ","%char = false
       /\ Contains value "-"%char = false
       /\ exists n, Atoi value = Some n /\ lo <= n <= hi)) ->
  ValidateCronField fieldName value = None.
Proof.
  intros Hb H. unfold ValidateCronField.
  destruct H as [->|[(Hp & n & Hn & H1)|[(Hp & Hc & Hf)|[(Hp & Hc & Hd & p0 & p1 & a & b & Hs & Ha & Hbb & Hlo & Hlt & Hhi)|(Hp & Hc & Hd & n & Hn & Hr)]]]].
  - reflexivity.
  - destruct (HasPrefix_star _ Hp) as [N0 N1].
    apply String.eqb_neq in N0, N1. rewrite N0, N1, Hp, Hn.
    assert ((n <? 1) = false) as -> by (apply Z.ltb_ge; lia). reflexivity.
  - pose proof (Contains_nonempty _ _ Hc) as N0.
    assert (value <> "*") as N1 by (intros ->; discriminate).
    apply String.eqb_neq in N0, N1. rewrite N0, N1, Hp, Hc.
    eapply validateParts_accepts; eauto.
  - pose proof (Contains_nonempty _ _ Hd) as N0.
    assert (value <> "*") as N1 by (intros ->; discriminate).
    apply String.eqb_neq in N0, N1. rewrite N0, N1, Hp, Hc, Hd, Hs, Ha, Hbb.
    assert ((a >=? b) = false) as -> by (rewrite Z.geb_leb; apply Z.leb_gt; lia).
    eapply validateCronRange_accepts; eauto.
  - assert (value <> "") as N0 by (intros ->; discriminate).
    assert (value <> "*") as N1 by (intros ->; discriminate).
    apply String.eqb_neq in N0, N1. rewrite N0, N1, Hp, Hc, Hd.
    eapply validateSingleCronValue_accepts; eauto.
Qed.

Lemma ValidateCronField_accepts_allowed_forms_witness :
  ValidateCronField "hour" "8, 12 ,20" = None.
Proof.
  apply (ValidateCronField_accepts_allowed_forms "hour" 0 23 "8, 12 ,20"); [reflexivity|].
  right. right. left. split; [reflexivity|]. split; [reflexivity|].
  change (Split "8, 12 ,20" ","%char) with ["8"; " 12 "; "20"].
  constructor; [exists 8; split; [reflexivity | lia]|].
  constructor; [exists 12; split; [reflexivity | lia]|].
  constructor; [exists 20; split; [reflexivity | lia]|].
  constructor.
Defined.

End CronExtra.

(** ** The registry of the schedule service *)

Module RegistryProps.
Import Models ScheduleService ScheduleRegistry Fixtures MoreFixtures.
Local Open Scope Z_scope.

Lemma NoDup_fst_inj {A B} (l : list (A * B)) a x y :
  NoDup (List.map fst l) -> In (a, x) l -> In (a, y) l -> x = y.
Proof.
  induction l as [|[a0 b0] l IH]; simpl; intros Hnd Hx Hy; [contradiction|].
  apply NoDup_cons in Hnd as [Hnotin Hnd].
  assert (forall z, In (a0, z) l -> False) as Hno.
  { intros z Hz. apply Hnotin. apply list_elem_of_In.
    apply (in_map fst) in Hz. exact Hz. }
  destruct Hx as [Hx|Hx], Hy as [Hy|Hy].
  - congruence.
  - inversion Hx; subst. exfalso. eauto.
  - inversion Hy; subst. exfalso. eauto.
  - eauto.
Qed.

Lemma NoDup_map_fst_filter {A B} (f : A * B -> bool) (l : list (A * B)) :
  NoDup (List.map fst l) -> NoDup (List.map fst (List.filter f l)).
Proof.
  induction l as [|e l IH]; simpl; intros Hnd; [constructor|].
  apply NoDup_cons in Hnd as [Hnotin Hnd].
  destruct (f e); simpl; [|auto].
  apply NoDup_cons. split; [|auto].
  intros Hin. apply Hnotin.
  apply list_elem_of_In in Hin. apply list_elem_of_In.
  apply in_map_iff in Hin as (e' & He & Hin). apply filter_In in Hin as [Hin _].
  apply in_map_iff. eauto.
Qed.

Lemma new_service_consistent : consistent new_service.
Proof.
  split; [constructor|]. split; [intros e []|].
  intros sid eid. simpl. rewrite lookup_empty. split; [discriminate|].
  intros (sch & [] & _).
Qed.

Lemma addScheduleInternal_consistent cron_accepts schedule s :
  consistent s -> consistent (fst (addScheduleInternal cron_accepts schedule s)).
Proof.
  intros (Hnd & Hle & Hiff). unfold addScheduleInternal, cron_AddFunc.
  destruct (schedules s !! ID schedule) eqn:Hl; [split; auto|].
  destruct (cron_accepts (GetCronExpression schedule)); [|split; auto].
  unfold consistent. simpl. split; [|split].
  - rewrite map_app. simpl. apply NoDup_app. split; [assumption|]. split.
    + intros x Hx Hx'. apply list_elem_of_In in Hx. apply list_elem_of_singleton in Hx'.
      apply in_map_iff in Hx as (e & He & Hin). specialize (Hle e Hin). lia.
    + apply NoDup_singleton.
  - intros e Hin. apply in_app_or in Hin as [Hin|[<-|[]]]; [|simpl; lia].
    specialize (Hle e Hin). lia.
  - intros sid eid. split.
    + intros H. destruct (decide (ID schedule = sid)) as [<-|Hne].
      * rewrite lookup_insert_eq in H. inversion H; subst.
        exists schedule. split; [|reflexivity]. apply in_or_app. right. now left.
      * rewrite lookup_insert_ne in H by assumption.
        apply Hiff in H as (sch & Hin & Hid). exists sch. split; [|assumption].
        apply in_or_app. now left.
    + intros (sch & Hin & Hid). apply in_app_or in Hin as [Hin|[Heq|[]]].
      * assert (schedules s !! sid = Some eid) as Hold by (apply Hiff; eauto).
        rewrite lookup_insert_ne; [assumption|]. intros Heq. rewrite Heq in Hl. congruence.
      * inversion Heq; subst. apply lookup_insert_eq.
Qed.

Lemma RemoveSchedule_consistent scheduleID s :
  consistent s -> consistent (fst (RemoveSchedule scheduleID s)).
Proof.
  intros (Hnd & Hle & Hiff). unfold RemoveSchedule, cron_Remove.
  destruct (schedules s !! scheduleID) as [entryID|] eqn:Hl; [|split; auto].
  unfold consistent. simpl. split; [|split].
  - now apply NoDup_map_fst_filter.
  - intros e Hin. apply filter_In in Hin as [Hin _]. auto.
  - intros sid eid. split.
    + intros H. destruct (decide (scheduleID = sid)) as [<-|Hne].
      { rewrite lookup_delete_eq in H. discriminate. }
      rewrite lookup_delete_ne in H by assumption.
      apply Hiff in H as (sch & Hin & Hid). exists sch. split; [|assumption].
      apply filter_In. split; [assumption|]. simpl.
      destruct (eid =? entryID) eqn:E; [|reflexivity]. apply Z.eqb_eq in E. subst eid.
      exfalso. apply Hiff in Hl as (sch0 & Hin0 & Hid0).
      assert (sch = sch0) by (eapply NoDup_fst_inj; eauto). congruence.
    + intros (sch & Hin & Hid). apply filter_In in Hin as [Hin Hne]. simpl in Hne.
      assert (schedules s !! sid = Some eid) as Hold by (apply Hiff; eauto).
      rewrite lookup_delete_ne; [assumption|]. intros <-.
      rewrite Hl in Hold. inversion Hold; subst. rewrite Z.eqb_refl in Hne. discriminate.
Qed.

Lemma AddSchedule_consistent cron_accepts schedule s :
  consistent s -> consistent (fst (AddSchedule cron_accepts schedule s)).
Proof.
  intros H. unfold AddSchedule. destruct (negb (Enabled schedule)); [exact H|].
  now apply addScheduleInternal_consistent.
Qed.

Lemma load_schedules_consistent cron_accepts l s :
  consistent s -> consistent (load_schedules cron_accepts l s).
Proof.
  revert s. induction l as [|sch l IH]; simpl; intros s H; [exact H|].
  apply IH. now apply addScheduleInternal_consistent.
Qed.

(** Map and engine agree in the new service, and every operation of the
    service keeps them agreeing: adding, removing and updating a
    schedule, and loading the schedules at start-up. *)
Theorem registry_stays_consistent cron_accepts schedule scheduleID loaded s :
  consistent s ->
  consistent (fst (AddSchedule cron_accepts schedule s))
  /\ consistent (fst (RemoveSchedule scheduleID s))
  /\ consistent (fst (UpdateSchedule cron_accepts schedule s))
  /\ consistent (fst (LoadAllSchedules cron_accepts loaded s)).
Proof.
  intros H. split; [now apply AddSchedule_consistent|].
  split; [now apply RemoveSchedule_consistent|]. split.
  - unfold UpdateSchedule.
    pose proof (RemoveSchedule_consistent (ID schedule) s H) as Hr.
    destruct (RemoveSchedule (ID schedule) s) as [s1 [e|]]; simpl in *; [exact Hr|].
    destruct (Enabled schedule); [now apply AddSchedule_consistent | exact Hr].
  - unfold LoadAllSchedules. destruct loaded as [l|]; simpl; [|exact H].
    now apply load_schedules_consistent.
Qed.

Lemma registry_stays_consistent_witness :
  consistent (fst (AddSchedule (fun _ => true) hourly one_registered))
  /\ consistent (fst (RemoveSchedule 7 one_registered))
  /\ consistent (fst (UpdateSchedule (fun _ => true) hourly one_registered))
  /\ consistent (fst (LoadAllSchedules (fun _ => true) (Some [hourly]) one_registered)).
Proof.
  apply (registry_stays_consistent (fun _ => true) hourly 7 (Some [hourly]) one_registered).
  split; [repeat constructor; intros H; apply elem_of_nil in H; exact H|].
  split.
  - intros e [<-|[]]. simpl. lia.
  - intros sid eid. unfold one_registered. simpl. split.
    + intros H. apply lookup_singleton_Some in H as [<- <-].
      exists nightly. split; [now left | reflexivity].
    + intros (sch & [Heq|[]] & Hid). inversion Heq; subst. apply lookup_singleton_eq.
Defined.

(** The service that start-up makes is consistent, whatever the load
    gives. *)
Lemma InitScheduler_consistent cron_accepts enabled :
  consistent (InitScheduler cron_accepts enabled).
Proof.
  unfold InitScheduler, LoadAllSchedules. destruct enabled as [l|]; simpl.
  - apply load_schedules_consistent, new_service_consistent.
  - apply new_service_consistent.
Qed.

Lemma filter_keeps_older (entries : list (Z * Schedule)) n sch :
  (forall e, In e entries -> fst e <= n) ->
  List.filter (fun e : Z * Schedule => negb (fst e =? n + 1)) (entries ++ [(n + 1, sch)])
  = entries.
Proof.
  intros Hle. rewrite List.filter_app. simpl. rewrite Z.eqb_refl. simpl. rewrite app_nil_r.
  induction entries as [|e l IH]; [reflexivity|]. simpl.
  assert ((fst e =? n + 1) = false) as ->.
  { apply Z.eqb_neq. specialize (Hle e (or_introl eq_refl)). lia. }
  simpl. f_equal. apply IH. intros e' He'. apply Hle. now right.
Qed.

(** Adding a schedule that is not yet registered and removing it again
    gives back the map and the engine's entries as they were; only the
    engine's counter has moved on. *)
Theorem add_then_remove_restores cron_accepts schedule s :
  consistent s ->
  Enabled schedule = true ->
  schedules s !! ID schedule = None ->
  cron_accepts (GetCronExpression schedule) = true ->
  RemoveSchedule (ID schedule) (fst (AddSchedule cron_accepts schedule s))
  = (mkService (cron_entries s) (cron_nextID s + 1) (schedules s), None).
Proof.
  intros (_ & Hle & _) He Hl Ha.
  unfold AddSchedule, addScheduleInternal, cron_AddFunc. rewrite He, Hl, Ha. simpl.
  unfold RemoveSchedule. simpl. rewrite lookup_insert_eq. unfold cron_Remove. simpl.
  rewrite (filter_keeps_older _ _ _ Hle).
  rewrite delete_insert_eq, delete_id by assumption. reflexivity.
Qed.

Lemma add_then_remove_restores_witness :
  RemoveSchedule 8 (fst (AddSchedule (fun _ => true) hourly one_registered))
  = (mkService [(1, nightly)] 2 {[ 7%N := 1 ]}, None).
Proof.
  apply (add_then_remove_restores (fun _ => true) hourly one_registered).
  - split; [repeat constructor; intros H; apply elem_of_nil in H; exact H|].
    split.
    + intros e [<-|[]]. simpl. lia.
    + intros sid eid. unfold one_registered. simpl. split.
      * intros H. apply lookup_singleton_Some in H as [<- <-].
        exists nightly. split; [now left | reflexivity].
      * intros (sch & [Heq|[]] & Hid). inversion Heq; subst. apply lookup_singleton_eq.
  - reflexivity.
  - reflexivity.
  - reflexivity.
Defined.

Lemma RemoveSchedule_entries k s eid sch :
  consistent s ->
  In (eid, sch) (cron_entries (fst (RemoveSchedule k s))) ->
  In (eid, sch) (cron_entries s) /\ ID sch <> k.
Proof.
  intros (_ & _ & Hmap). unfold RemoveSchedule.
  destruct (schedules s !! k) as [eid0|] eqn:E; simpl.
  - intros Hin. apply filter_In in Hin as [Hin Hne]. split; [assumption|].
    intros Hid. simpl in Hne.
    assert (schedules s !! k = Some eid) as Hk by (apply Hmap; eauto).
    rewrite E in Hk. inversion Hk; subst. rewrite Z.eqb_refl in Hne. discriminate.
  - intros Hin. split; [assumption|]. intros Hid.
    assert (schedules s !! k = Some eid) as Hk by (apply Hmap; eauto).
    congruence.
Qed.

Lemma RemoveSchedule_keeps k s eid sch :
  consistent s ->
  In (eid, sch) (cron_entries s) -> ID sch <> k ->
  In (eid, sch) (cron_entries (fst (RemoveSchedule k s))).
Proof.
  intros (Hnd & _ & Hmap) Hin Hne. unfold RemoveSchedule.
  destruct (schedules s !! k) as [eid0|] eqn:E; simpl; [|assumption].
  apply filter_In. split; [assumption|]. simpl.
  destruct (eid =? eid0) eqn:Ee; [|reflexivity]. apply Z.eqb_eq in Ee. subst eid0.
  apply Hmap in E as (sch0 & Hin0 & Hid0).
  rewrite (NoDup_fst_inj _ _ _ _ Hnd Hin Hin0) in Hne. congruence.
Qed.

Lemma AddSchedule_entries cron_accepts schedule s eid sch :
  In (eid, sch) (cron_entries (fst (AddSchedule cron_accepts schedule s))) ->
  In (eid, sch) (cron_entries s) \/ (sch = schedule /\ Enabled schedule = true).
Proof.
  unfold AddSchedule, addScheduleInternal, cron_AddFunc.
  destruct (Enabled schedule); simpl; [|auto].
  destruct (schedules s !! ID schedule); simpl; [auto|].
  destruct (cron_accepts _); simpl; [|auto].
  intros Hin. apply in_app_or in Hin as [Hin|[Heq|[]]]; [auto|].
  inversion Heq; subst. auto.
Qed.

Lemma AddSchedule_keeps cron_accepts schedule s e :
  In e (cron_entries s) ->
  In e (cron_entries (fst (AddSchedule cron_accepts schedule s))).
Proof.
  unfold AddSchedule, addScheduleInternal, cron_AddFunc.
  destruct (negb (Enabled schedule)); simpl; [auto|].
  destruct (schedules s !! ID schedule); simpl; [auto|].
  destruct (cron_accepts _); simpl; [|auto].
  intros Hin. apply in_or_app. now left.
Qed.

(** The update of the service, as a removal followed by an addition. *)
Lemma UpdateSchedule_fst cron_accepts schedule s :
  fst (ScheduleService.UpdateSchedule cron_accepts schedule s)
  = fst (AddSchedule cron_accepts schedule (fst (RemoveSchedule (ID schedule) s))).
Proof.
  unfold ScheduleService.UpdateSchedule.
  assert (snd (RemoveSchedule (ID schedule) s) = None) as Hn
      by (unfold RemoveSchedule; destruct (schedules s !! ID schedule); reflexivity).
  destruct (RemoveSchedule (ID schedule) s) as [s1 [e|]]; simpl in *; [discriminate|].
  unfold AddSchedule. destruct (Enabled schedule); reflexivity.
Qed.

Lemma one_registered_consistent : consistent one_registered.
Proof.
  split; [repeat constructor; intros H; apply elem_of_nil in H; exact H|].
  split.
  - intros e [<-|[]]. simpl. lia.
  - intros sid eid. unfold one_registered. simpl. split.
    + intros H. apply lookup_singleton_Some in H as [<- <-].
      exists nightly. split; [now left | reflexivity].
    + intros (sch & [Heq|[]] & Hid). inversion Heq; subst. apply lookup_singleton_eq.
Qed.

(** What [UpdateSchedule] leaves behind.  A schedule that is not
    enabled ends unregistered; an enabled one whose expression the
    engine accepts ends registered under a new entry that holds the
    schedule as given; an enabled one whose expression the engine
    rejects ends unregistered, with the error of the failed add.  The
    registrations of the other schedules are not touched.  In a
    service whose map and engine agree, the old entry is gone from the
    engine in each case: an entry that holds a schedule with this ID
    afterwards is the new one, which is there only for an enabled
    schedule with an accepted expression; and the entries that hold
    other schedules are those of before. *)
Theorem UpdateSchedule_outcome cron_accepts schedule s :
  (Enabled schedule = false ->
   snd (UpdateSchedule cron_accepts schedule s) = None
   /\ schedules (fst (UpdateSchedule cron_accepts schedule s)) !! ID schedule = None)
  /\ (Enabled schedule = true -> cron_accepts (GetCronExpression schedule) = true ->
      snd (UpdateSchedule cron_accepts schedule s) = None
      /\ schedules (fst (UpdateSchedule cron_accepts schedule s)) !! ID schedule
         = Some (cron_nextID s + 1)
      /\ In (cron_nextID s + 1, schedule)
            (cron_entries (fst (UpdateSchedule cron_accepts schedule s))))
  /\ (Enabled schedule = true -> cron_accepts (GetCronExpression schedule) = false ->
      snd (UpdateSchedule cron_accepts schedule s) = Some ErrAddCronJob
      /\ schedules (fst (UpdateSchedule cron_accepts schedule s)) !! ID schedule = None)
  /\ (forall sid, sid <> ID schedule ->
        schedules (fst (UpdateSchedule cron_accepts schedule s)) !! sid
        = schedules s !! sid)
  /\ (consistent s ->
      (forall eid sch,
          In (eid, sch) (cron_entries (fst (UpdateSchedule cron_accepts schedule s))) ->
          ID sch = ID schedule ->
          eid = cron_nextID s + 1 /\ sch = schedule
          /\ Enabled schedule = true /\ cron_accepts (GetCronExpression schedule) = true)
      /\ (forall eid sch,
             ID sch <> ID schedule ->
             (In (eid, sch) (cron_entries (fst (UpdateSchedule cron_accepts schedule s)))
              <-> In (eid, sch) (cron_entries s)))).
Proof.
  assert (schedules (fst (RemoveSchedule (ID schedule) s)) !! ID schedule = None
          /\ snd (RemoveSchedule (ID schedule) s) = None
          /\ cron_nextID (fst (RemoveSchedule (ID schedule) s)) = cron_nextID s
          /\ forall sid, sid <> ID schedule ->
               schedules (fst (RemoveSchedule (ID schedule) s)) !! sid = schedules s !! sid)
    as (Hgone & Hnil & Hnext & Hother).
  { unfold RemoveSchedule. destruct (schedules s !! ID schedule) eqn:E; simpl.
    - split; [apply lookup_delete_eq|]. repeat split.
      intros sid Hne. now apply lookup_delete_ne.
    - repeat split; assumption. }
  split; [|split; [|split; [|split]]].
  5: {
    intros Hcons. rewrite UpdateSchedule_fst. split.
    - intros eid sch Hin Hid.
      unfold AddSchedule, addScheduleInternal, cron_AddFunc in Hin. rewrite Hgone in Hin.
      destruct (Enabled schedule); simpl in Hin;
        [|now destruct (RemoveSchedule_entries _ _ _ _ Hcons Hin)].
      destruct (cron_accepts (GetCronExpression schedule)); simpl in Hin;
        [|now destruct (RemoveSchedule_entries _ _ _ _ Hcons Hin)].
      apply in_app_or in Hin as [Hin|[Heq|[]]];
        [now destruct (RemoveSchedule_entries _ _ _ _ Hcons Hin)|].
      inversion Heq; subst. rewrite Hnext. auto.
    - intros eid sch Hne. split.
      + intros Hin. apply AddSchedule_entries in Hin as [Hin|[-> _]]; [|congruence].
        now apply (RemoveSchedule_entries _ _ _ _ Hcons Hin).
      + intros Hin. apply AddSchedule_keeps. now apply RemoveSchedule_keeps. }
  all: unfold UpdateSchedule;
    destruct (RemoveSchedule (ID schedule) s) as [s1 [e|]]; simpl in *; [discriminate|];
    unfold AddSchedule, addScheduleInternal, cron_AddFunc; rewrite Hgone.
  - intros ->. simpl. auto.
  - intros -> ->. simpl. rewrite lookup_insert_eq, Hnext.
    repeat split. apply in_or_app. right. now left.
  - intros -> ->. simpl. auto.
  - intros sid Hne. destruct (Enabled schedule); simpl; [|auto].
    destruct (cron_accepts (GetCronExpression schedule)); simpl; [|auto].
    rewrite lookup_insert_ne by congruence. auto.
Qed.

Lemma UpdateSchedule_outcome_witness :
  (snd (UpdateSchedule rejecting_bad hourly_off one_registered) = None
   /\ schedules (fst (UpdateSchedule rejecting_bad hourly_off one_registered)) !! 8%N = None)
  /\ (snd (UpdateSchedule rejecting_bad hourly one_registered) = None
      /\ schedules (fst (UpdateSchedule rejecting_bad hourly one_registered)) !! 8%N = Some 2
      /\ In (2, hourly) (cron_entries (fst (UpdateSchedule rejecting_bad hourly one_registered))))
  /\ (snd (UpdateSchedule rejecting_bad broken one_registered) = Some ErrAddCronJob
      /\ schedules (fst (UpdateSchedule rejecting_bad broken one_registered)) !! 9%N = None)
  /\ (forall eid sch,
        In (eid, sch)
           (cron_entries (fst (UpdateSchedule rejecting_bad nightly_off
                                              one_registered))) ->
        ID sch <> 7%N).
Proof.
  split; [|split; [|split]].
  - apply (UpdateSchedule_outcome rejecting_bad hourly_off one_registered). reflexivity.
  - apply (UpdateSchedule_outcome rejecting_bad hourly one_registered); reflexivity.
  - apply (UpdateSchedule_outcome rejecting_bad broken one_registered); reflexivity.
  - intros eid sch Hin Hid.
    destruct (UpdateSchedule_outcome rejecting_bad nightly_off one_registered)
      as (_ & _ & _ & _ & Hent).
    destruct (Hent one_registered_consistent) as [Hnew _].
    destruct (Hnew eid sch Hin Hid) as (_ & _ & Hen & _). discriminate.
Defined.

Lemma addScheduleInternal_lookup cron_accepts schedule s :
  (forall sid, sid <> ID schedule ->
     schedules (fst (addScheduleInternal cron_accepts schedule s)) !! sid
     = schedules s !! sid)
  /\ (schedules s !! ID schedule = None ->
      (is_Some (schedules (fst (addScheduleInternal cron_accepts schedule s)) !! ID schedule)
       <-> cron_accepts (GetCronExpression schedule) = true)).
Proof.
  unfold addScheduleInternal, cron_AddFunc. split.
  - intros sid Hne. destruct (schedules s !! ID schedule); [reflexivity|].
    destruct (cron_accepts _); simpl; [|reflexivity].
    now rewrite lookup_insert_ne by congruence.
  - intros Hl. rewrite Hl. destruct (cron_accepts _); simpl.
    + rewrite lookup_insert_eq. split; eauto.
    + rewrite Hl. split; [intros [x Hx]; discriminate | discriminate].
Qed.

Lemma load_schedules_other cron_accepts l s sid :
  (forall sch, In sch l -> ID sch <> sid) ->
  schedules (load_schedules cron_accepts l s) !! sid = schedules s !! sid.
Proof.
  revert s. induction l as [|sch l IH]; simpl; intros s H; [reflexivity|].
  rewrite IH by (intros; apply H; now right).
  apply addScheduleInternal_lookup. intros ->. now apply (H sch); [left|].
Qed.

(** The load at start-up goes through the whole list: of schedules
    with distinct IDs none of which is registered yet, exactly those
    whose expression the engine accepts are registered afterwards,
    whatever the others were rejected for; and what was registered
    before stays registered as it was. *)
Lemma load_registers_the_accepted cron_accepts l s :
  NoDup (List.map ID l) ->
  (forall sch, In sch l -> schedules s !! ID sch = None) ->
  (forall sch, In sch l ->
     (is_Some (schedules (load_schedules cron_accepts l s) !! ID sch)
      <-> cron_accepts (GetCronExpression sch) = true))
  /\ (forall sid, is_Some (schedules s !! sid) ->
        schedules (load_schedules cron_accepts l s) !! sid = schedules s !! sid).
Proof.
  intros Hnd Hfresh. split.
  - revert s Hnd Hfresh. induction l as [|a l IH]; intros s Hnd Hfresh sch Hin; [destruct Hin|].
    simpl in Hnd. apply NoDup_cons in Hnd as [Hnotin Hnd]. simpl.
    destruct (addScheduleInternal_lookup cron_accepts a s) as [Hother Hown].
    destruct Hin as [->|Hin].
    + rewrite load_schedules_other.
      * apply Hown, Hfresh. now left.
      * intros sch' Hin' Heq. apply Hnotin. rewrite <- Heq.
        apply list_elem_of_In. now apply in_map.
    + apply IH; [assumption| |assumption].
      intros sch' Hin'. rewrite Hother; [apply Hfresh; now right|].
      intros Heq. apply Hnotin. rewrite <- Heq. apply list_elem_of_In. now apply in_map.
  - intros sid [eid Hsid]. apply load_schedules_other.
    intros sch Hin Heq. rewrite <- Heq, (Hfresh sch Hin) in Hsid. discriminate.
Qed.

End RegistryProps.
(* ===================================================================== *)
(** ** The schedule model *)
(* ===================================================================== *)

Module ScheduleModelProps.
Import GoStr Cron ScheduleService ScheduleModel Fixtures MoreFixtures.
Local Open Scope Z_scope.

(** The key of a new row is not in use and is not 0. *)
Lemma next_key_fresh (t : gmap N Schedule) : t !! next_key t = None /\ next_key t <> 0%N.
Proof.
  split; [|unfold next_key; lia].
  destruct (t !! next_key t) as [b|] eqn:E; [|reflexivity].
  apply elem_of_map_to_list in E.
  assert (forall (l : list (N * Schedule)) k v,
             (k, v) ∈ l -> (k <= List.fold_right N.max 0 (List.map fst l))%N) as Hmax.
  { induction l as [|[k0 v0] l IH]; intros k v Hin.
    - apply elem_of_nil in Hin. destruct Hin.
    - apply elem_of_cons in Hin as [Heq|Hin]; simpl.
      + inversion Heq; subst. lia.
      + specialize (IH _ _ Hin). lia. }
  specialize (Hmax _ _ _ E). unfold next_key in Hmax. lia.
Qed.

Lemma isValidAction_In action : isValidAction action = true <-> In action validActions.
Proof.
  unfold isValidAction. rewrite existsb_exists. split.
  - intros (x & Hin & Heq). apply String.eqb_eq in Heq. now subst.
  - intros Hin. exists action. split; [assumption | apply String.eqb_refl].
Qed.

(** The inputs that pass the checks make a valid schedule. *)
Lemma validate_inputs_valid id serverID name cm ch cdom cmon cdow enabled action command :
  validate_inputs name cm ch cdom cmon cdow action command = None <->
  valid_schedule (mkSchedule id serverID name cm ch cdom cmon cdow enabled action command).
Proof.
  unfold validate_inputs, valid_schedule. simpl. split.
  - destruct (String.eqb name "") eqn:En; [discriminate|].
    apply String.eqb_neq in En.
    destruct (ValidateCronField "minute" cm); [discriminate|].
    destruct (ValidateCronField "hour" ch); [discriminate|].
    destruct (ValidateCronField "day_of_month" cdom); [discriminate|].
    destruct (ValidateCronField "month" cmon); [discriminate|].
    destruct (ValidateCronField "day_of_week" cdow); [discriminate|].
    destruct (isValidAction action) eqn:Ea; [|discriminate]. simpl.
    apply isValidAction_In in Ea.
    destruct (String.eqb action "send_command" && String.eqb command "") eqn:Ec;
      [discriminate|].
    intros _. repeat split; try assumption.
    intros -> ->. discriminate.
  - intros (Hn & -> & -> & -> & -> & -> & Ha & Hc).
    apply String.eqb_neq in Hn. rewrite Hn.
    apply isValidAction_In in Ha. rewrite Ha. simpl.
    destruct (String.eqb action "send_command") eqn:E1; [|reflexivity].
    apply String.eqb_eq in E1. specialize (Hc E1).
    apply String.eqb_neq in Hc. now rewrite Hc.
Qed.

Lemma valid_with_ID s id : valid_schedule s -> valid_schedule (with_ID s id).
Proof. exact (fun H => H). Qed.

Lemma valid_with_Enabled s b : valid_schedule s -> valid_schedule (with_Enabled s b).
Proof. exact (fun H => H). Qed.

Lemma well_stored_insert db k s :
  well_stored db -> ID s = k -> k <> 0%N -> valid_schedule s ->
  well_stored (with_rows db (<[k := s]> (rows db))).
Proof.
  intros Hw Hid Hk Hv k' s' Hl. simpl in Hl.
  destruct (decide (k' = k)) as [->|Hne].
  - rewrite lookup_insert_eq in Hl. inversion Hl; subst. auto.
  - rewrite lookup_insert_ne in Hl by congruence. now apply Hw.
Qed.

Lemma well_stored_delete db k :
  well_stored db -> well_stored (with_rows db (delete k (rows db))).
Proof.
  intros Hw k' s' Hl. simpl in Hl.
  destruct (decide (k' = k)) as [->|Hne].
  - rewrite lookup_delete_eq in Hl. discriminate.
  - rewrite lookup_delete_ne in Hl by congruence. now apply Hw.
Qed.

Lemma db_save_well_stored s db :
  well_stored db -> valid_schedule s -> well_stored (fst (fst (db_save s db))).
Proof.
  intros Hw Hv. unfold db_save.
  destruct (sfailing db CallSaveSchedule); [exact Hw|].
  destruct (ID s =? 0)%N eqn:E; simpl.
  - apply well_stored_insert; [assumption|reflexivity|apply next_key_fresh|assumption].
  - apply N.eqb_neq in E. now apply well_stored_insert.
Qed.

(** What a save does to the rows: nothing when it fails, and else it
    writes the schedule under its ID, the rows of the other IDs staying
    as they are. *)
Lemma db_save_rows s db :
  ID s <> 0%N ->
  snd (fst (db_save s db)) = s
  /\ (snd (db_save s db) = false -> fst (fst (db_save s db)) = db)
  /\ (snd (db_save s db) = true ->
      fst (fst (db_save s db)) = with_rows db (<[ID s := s]> (rows db))).
Proof.
  intros Hid. apply N.eqb_neq in Hid. unfold db_save. rewrite Hid.
  destruct (sfailing db CallSaveSchedule); simpl; repeat split; congruence.
Qed.

Lemma CreateSchedule_spec serverID name cm ch cdom cmon cdow enabled action command db :
  match ScheduleModel.CreateSchedule serverID name cm ch cdom cmon cdow enabled action command db with
  | (db1, inr _) => db1 = db
  | (db1, inl created) =>
      created = mkSchedule (next_key (rows db)) serverID name cm ch cdom cmon cdow
                           true action command
      /\ db1 = with_rows db (<[next_key (rows db) := created]> (rows db))
      /\ valid_schedule created
  end.
Proof.
  unfold ScheduleModel.CreateSchedule.
  destruct (validate_inputs name cm ch cdom cmon cdow action command) eqn:Ev; [reflexivity|].
  unfold db_create. destruct (sfailing db CallCreateSchedule); [reflexivity|].
  split; [reflexivity|]. split; [reflexivity|].
  now apply (validate_inputs_valid (next_key (rows db)) serverID name cm ch cdom cmon cdow
                                   true action command).
Qed.

Lemma UpdateSchedule_spec s name cm ch cdom cmon cdow enabled action command db :
  ID s <> 0%N ->
  match ScheduleModel.UpdateSchedule s name cm ch cdom cmon cdow enabled action command db with
  | (db1, _, Some _) => db1 = db
  | (db1, s1, None) =>
      s1 = mkSchedule (ID s) (ServerID s) name cm ch cdom cmon cdow enabled action command
      /\ db1 = with_rows db (<[ID s := s1]> (rows db))
      /\ valid_schedule s1
  end.
Proof.
  intros Hid. unfold ScheduleModel.UpdateSchedule.
  destruct (validate_inputs name cm ch cdom cmon cdow action command) eqn:Ev; [reflexivity|].
  match goal with |- context [db_save ?x db] => set (s1 := x) end.
  destruct (db_save_rows s1 db Hid) as (Hs & Hf & Ht).
  destruct (db_save s1 db) as [[db1 s2] [|]]; simpl in *.
  - subst s2. split; [reflexivity|]. split; [now apply Ht|].
    now apply (validate_inputs_valid (ID s) (ServerID s) name cm ch cdom cmon cdow
                                     enabled action command).
  - now apply Hf.
Qed.

Lemma nightly_valid : valid_schedule nightly.
Proof.
  unfold valid_schedule, nightly. simpl.
  repeat (split; [first [discriminate | reflexivity | (simpl; tauto)]|]).
  discriminate.
Qed.

Lemma nightly_rows_well_stored failing :
  well_stored (mkScheduleDB {[ 7%N := nightly ]} failing).
Proof.
  intros k s H. simpl in H. apply lookup_singleton_Some in H as [<- <-].
  split; [reflexivity|]. split; [discriminate | apply nightly_valid].
Qed.

(** The schedules table stays well stored under every operation of the
    model: all rows are valid schedules stored under their own IDs, none
    under the key 0.  Creating and updating validate what they write;
    toggling, enabling and disabling write back a schedule that was
    valid. *)
Theorem model_keeps_well_stored db s serverID name cm ch cdom cmon cdow enabled action command :
  well_stored db ->
  well_stored (fst (ScheduleModel.CreateSchedule serverID name cm ch cdom cmon cdow
                                                 enabled action command db))
  /\ well_stored (fst (fst (ScheduleModel.UpdateSchedule s name cm ch cdom cmon cdow
                                                         enabled action command db)))
  /\ (valid_schedule s -> well_stored (fst (fst (ToggleEnabled s db))))
  /\ (valid_schedule s -> well_stored (fst (fst (SetEnabled s enabled db))))
  /\ well_stored (fst (Delete s db)).
Proof.
  intros Hw. split; [|split; [|split; [|split]]].
  - pose proof (CreateSchedule_spec serverID name cm ch cdom cmon cdow enabled action
                                    command db) as H.
    destruct (ScheduleModel.CreateSchedule _ _ _ _ _ _ _ _ _ _ _) as [db1 [c|e]]; simpl.
    + destruct H as (Hc & -> & Hv).
      apply well_stored_insert; [assumption| |apply next_key_fresh|assumption].
      now rewrite Hc.
    + now rewrite H.
  - unfold ScheduleModel.UpdateSchedule.
    destruct (validate_inputs name cm ch cdom cmon cdow action command) eqn:Ev; [exact Hw|].
    match goal with |- context [db_save ?x db] => set (s1 := x) end.
    assert (valid_schedule s1) as Hv
        by now apply (validate_inputs_valid (ID s) (ServerID s) name cm ch cdom cmon cdow
                                            enabled action command).
    pose proof (db_save_well_stored s1 db Hw Hv) as H.
    destruct (db_save s1 db) as [[db1 s2] [|]]; exact H.
  - intros Hv. now apply db_save_well_stored.
  - intros Hv. now apply db_save_well_stored.
  - unfold Delete. destruct (sfailing db CallDeleteSchedule); [exact Hw|].
    destruct (ID s =? 0)%N; [exact Hw|]. now apply well_stored_delete.
Qed.

Lemma model_keeps_well_stored_witness :
  well_stored (fst (ScheduleModel.CreateSchedule 1 "weekly" "30" "4" "*" "*" "0" true
                                                 "backup" "" nightly_db))
  /\ well_stored (fst (fst (ScheduleModel.UpdateSchedule nightly "weekly" "30" "4" "*" "*"
                                                         "0" true "backup" "" nightly_db)))
  /\ well_stored (fst (fst (ToggleEnabled nightly nightly_db)))
  /\ well_stored (fst (fst (SetEnabled nightly false nightly_db)))
  /\ well_stored (fst (Delete nightly nightly_db)).
Proof.
  destruct (model_keeps_well_stored nightly_db nightly 1 "weekly" "30" "4" "*" "*" "0" false
              "backup" "" (nightly_rows_well_stored _)) as (_ & _ & H3 & H4 & H5).
  destruct (model_keeps_well_stored nightly_db nightly 1 "weekly" "30" "4" "*" "*" "0" true
              "backup" "" (nightly_rows_well_stored _)) as (H1 & H2 & _).
  split; [exact H1|]. split; [exact H2|]. split; [exact (H3 nightly_valid)|].
  split; [exact (H4 nightly_valid) | exact H5].
Defined.

End ScheduleModelProps.
(* ===================================================================== *)
(** ** The schedule handlers *)
(* ===================================================================== *)

Module HandlerProps.
Import GoStr Strconv Cron Models ScheduleService ScheduleRegistry ScheduleModel ScheduleHandlers.
Import Fixtures MoreFixtures.
Import RegistryProps ScheduleModelProps.
Local Open Scope Z_scope.

(** The schedule the shared part of the handlers finds is a row of the
    server of the request, stored under the ID it carries. *)
Lemma find_schedule_found found scheduleIDStr db schedule :
  well_stored db ->
  find_schedule found scheduleIDStr db = inl schedule ->
  exists server,
    found = Some server
    /\ ServerID schedule = Models.ID server
    /\ rows db !! ID schedule = Some schedule
    /\ ID schedule <> 0%N.
Proof.
  intros Hw. unfold find_schedule, GetScheduleByID.
  destruct found as [server|]; [|discriminate].
  destruct (ParseUint32 scheduleIDStr) as [k|]; [|discriminate].
  destruct (sfailing db CallFirstSchedule); [discriminate|].
  destruct (rows db !! k) as [s|] eqn:Hl; [|discriminate].
  destruct (ServerID s =? Models.ID server)%N eqn:E; simpl; [|discriminate].
  intros H. inversion H; subst. apply N.eqb_eq in E.
  destruct (Hw _ _ Hl) as (Hid & Hk & _).
  exists server. rewrite Hid. auto.
Qed.

Lemma RemoveSchedule_other k s sid :
  sid <> k -> schedules (fst (RemoveSchedule k s)) !! sid = schedules s !! sid.
Proof.
  intros Hne. unfold RemoveSchedule. destruct (schedules s !! k); simpl; [|reflexivity].
  now apply lookup_delete_ne.
Qed.

Lemma AddSchedule_other cron_accepts schedule s sid :
  sid <> ID schedule ->
  schedules (fst (AddSchedule cron_accepts schedule s)) !! sid = schedules s !! sid.
Proof.
  intros Hne. unfold AddSchedule. destruct (negb (Enabled schedule)); [reflexivity|].
  now apply addScheduleInternal_lookup.
Qed.

Lemma linked_unfold st :
  linked st <->
  well_stored (p_db st) /\ consistent (p_svc st)
  /\ forall eid sch, In (eid, sch) (cron_entries (p_svc st)) ->
                     rows (p_db st) !! ID sch = Some sch /\ Enabled sch = true.
Proof. reflexivity. Qed.

(** Writing the row of a schedule and updating the service with it keeps
    the panel linked. *)
Lemma save_and_update_linked cron_accepts st s :
  linked st -> ID s <> 0%N -> valid_schedule s ->
  linked (mkPanel (with_rows (p_db st) (<[ID s := s]> (rows (p_db st))))
                  (fst (ScheduleService.UpdateSchedule cron_accepts s (p_svc st)))).
Proof.
  intros (Hw & Hc & He) Hid Hv. rewrite UpdateSchedule_fst.
  split; [|split]; simpl.
  - now apply well_stored_insert.
  - now apply AddSchedule_consistent, RemoveSchedule_consistent.
  - intros eid sch Hin. apply AddSchedule_entries in Hin as [Hin|[-> Hen]].
    + apply RemoveSchedule_entries in Hin as [Hin Hne]; [|assumption].
      rewrite lookup_insert_ne by congruence. exact (He _ _ Hin).
    + rewrite lookup_insert_eq. auto.
Qed.

Lemma CreateSchedule_linked cron_accepts found formOk name cm ch cdom cmon cdow
      enabledStr action command st :
  linked st ->
  linked (fst (CreateSchedule cron_accepts found formOk name cm ch cdom cmon cdow
                              enabledStr action command st)).
Proof.
  intros Hl. unfold CreateSchedule.
  destruct found as [server|]; [|exact Hl].
  destruct formOk; simpl; [|exact Hl].
  pose proof (CreateSchedule_spec (Models.ID server) name cm ch cdom cmon cdow
                                  (parse_enabled enabledStr) action command (p_db st)) as H.
  destruct (ScheduleModel.CreateSchedule _ _ _ _ _ _ _ _ _ _ _) as [db1 [c|e]].
  - destruct H as (Hc & -> & Hv). destruct Hl as (Hw & Hcons & He).
    destruct (next_key_fresh (rows (p_db st))) as [Hfresh Hnz].
    assert (ID c = next_key (rows (p_db st))) as Hid by now rewrite Hc.
    assert (Enabled c = true) as Hen by now rewrite Hc.
    assert (forall eid sch,
               In (eid, sch) (cron_entries (p_svc st)) ->
               <[next_key (rows (p_db st)) := c]> (rows (p_db st)) !! ID sch = Some sch
               /\ Enabled sch = true) as Hold.
    { intros eid sch Hin. destruct (He _ _ Hin) as [Hrow Hon]. split; [|assumption].
      rewrite lookup_insert_ne; [assumption|]. intros Heq.
      rewrite <- Heq, Hfresh in Hrow. discriminate. }
    assert (linked (mkPanel (with_rows (p_db st) (<[next_key (rows (p_db st)) := c]>
                                                    (rows (p_db st))))
                            (fst (AddSchedule cron_accepts c (p_svc st))))) as Hgoal.
    { split; [|split]; simpl.
      - now apply well_stored_insert.
      - now apply AddSchedule_consistent.
      - intros eid sch Hin. apply AddSchedule_entries in Hin as [Hin|[-> Hen']].
        + exact (Hold _ _ Hin).
        + rewrite <- Hid, lookup_insert_eq. auto. }
    destruct (parse_enabled enabledStr); simpl in *.
    + destruct (AddSchedule cron_accepts c (p_svc st)) as [svc1 [err|]];
        simpl in Hgoal; exact Hgoal.
    + split; [|split]; simpl; [now apply well_stored_insert | assumption | exact Hold].
  - simpl. rewrite H. destruct st. exact Hl.
Qed.

Lemma UpdateSchedule_linked cron_accepts found scheduleIDStr formOk name cm ch cdom cmon cdow
      enabledStr action command st :
  linked st ->
  linked (fst (UpdateSchedule cron_accepts found scheduleIDStr formOk name cm ch cdom cmon
                              cdow enabledStr action command st)).
Proof.
  intros Hl. unfold UpdateSchedule.
  destruct (find_schedule found scheduleIDStr (p_db st)) as [schedule|r] eqn:Hf; [|exact Hl].
  destruct formOk; simpl; [|exact Hl].
  apply find_schedule_found in Hf as (server & _ & _ & Hrow & Hnz); [|apply Hl].
  pose proof (UpdateSchedule_spec schedule name cm ch cdom cmon cdow
                                  (parse_enabled enabledStr) action command (p_db st) Hnz) as H.
  destruct (ScheduleModel.UpdateSchedule _ _ _ _ _ _ _ _ _ _ _) as [[db1 s1] [e|]].
  - simpl. rewrite H. destruct st. exact Hl.
  - destruct H as (Hs & -> & Hv).
    assert (ID s1 = ID schedule) as Hid by now rewrite Hs.
    pose proof (save_and_update_linked cron_accepts st s1 Hl) as Hgoal.
    rewrite Hid in Hgoal. specialize (Hgoal Hnz Hv).
    destruct (ScheduleService.UpdateSchedule cron_accepts s1 (p_svc st)) as [svc1 [err|]];
      exact Hgoal.
Qed.

Lemma DeleteSchedule_linked found scheduleIDStr st :
  linked st -> linked (fst (DeleteSchedule found scheduleIDStr st)).
Proof.
  intros Hl. unfold DeleteSchedule.
  destruct (find_schedule found scheduleIDStr (p_db st)) as [schedule|r] eqn:Hf; [|exact Hl].
  apply find_schedule_found in Hf as (server & _ & _ & Hrow & Hnz); [|apply Hl].
  destruct Hl as (Hw & Hc & He).
  assert (forall db1,
             well_stored db1 ->
             (forall k, k <> ID schedule -> rows db1 !! k = rows (p_db st) !! k) ->
             linked (mkPanel db1 (fst (RemoveSchedule (ID schedule) (p_svc st))))) as Hgoal.
  { intros db1 Hw1 Hsame. split; [|split]; simpl; [assumption| |].
    - now apply RemoveSchedule_consistent.
    - intros eid sch Hin. apply RemoveSchedule_entries in Hin as [Hin Hne]; [|assumption].
      rewrite Hsame by assumption. exact (He _ _ Hin). }
  unfold Delete. destruct (sfailing (p_db st) CallDeleteSchedule); simpl.
  - apply Hgoal; auto.
  - apply N.eqb_neq in Hnz. rewrite Hnz. simpl. apply Hgoal.
    + now apply well_stored_delete.
    + intros k Hk. simpl. now apply lookup_delete_ne.
Qed.

Lemma ToggleSchedule_linked cron_accepts found scheduleIDStr st :
  linked st -> linked (fst (ToggleSchedule cron_accepts found scheduleIDStr st)).
Proof.
  intros Hl. unfold ToggleSchedule.
  destruct (find_schedule found scheduleIDStr (p_db st)) as [schedule|r] eqn:Hf; [|exact Hl].
  apply find_schedule_found in Hf as (server & _ & _ & Hrow & Hnz); [|apply Hl].
  assert (valid_schedule schedule) as Hv by (destruct Hl as (Hw & _); now apply (Hw _ _ Hrow)).
  unfold ToggleEnabled.
  set (s1 := with_Enabled schedule (negb (Enabled schedule))).
  destruct (db_save_rows s1 (p_db st) Hnz) as (Hs & Hfail & Hok).
  destruct (db_save s1 (p_db st)) as [[db1 s2] [|]]; simpl in *.
  - subst s2. rewrite (Hok eq_refl).
    now apply (save_and_update_linked cron_accepts st s1 Hl Hnz).
  - rewrite (Hfail eq_refl). destruct st. exact Hl.
Qed.


Lemma unregistered_without_row st k :
  linked st -> rows (p_db st) !! k = None -> schedules (p_svc st) !! k = None.
Proof.
  intros (_ & (_ & _ & Hmap) & He) Hrow.
  destruct (schedules (p_svc st) !! k) as [eid|] eqn:E; [|reflexivity].
  apply Hmap in E as (sch & Hin & Hid). destruct (He _ _ Hin) as [Hr _].
  rewrite Hid, Hrow in Hr. discriminate.
Qed.

Lemma RemoveSchedule_gone k s : schedules (fst (RemoveSchedule k s)) !! k = None.
Proof.
  unfold RemoveSchedule. destruct (schedules s !! k) eqn:E; simpl; [|assumption].
  apply lookup_delete_eq.
Qed.

Lemma AddSchedule_registers cron_accepts schedule s :
  schedules s !! ID schedule = None ->
  (is_Some (schedules (fst (AddSchedule cron_accepts schedule s)) !! ID schedule)
   <-> Enabled schedule = true /\ cron_accepts (GetCronExpression schedule) = true).
Proof.
  intros Hl. unfold AddSchedule. destruct (Enabled schedule); simpl.
  - rewrite (proj2 (addScheduleInternal_lookup cron_accepts schedule s) Hl). tauto.
  - rewrite Hl. split; [intros [x Hx]; discriminate | intros [H _]; discriminate].
Qed.

Lemma UpdateSchedule_registers cron_accepts schedule s :
  is_Some (schedules (fst (ScheduleService.UpdateSchedule cron_accepts schedule s))
           !! ID schedule)
  <-> Enabled schedule = true /\ cron_accepts (GetCronExpression schedule) = true.
Proof.
  rewrite UpdateSchedule_fst. apply AddSchedule_registers, RemoveSchedule_gone.
Qed.

Lemma UpdateSchedule_other cron_accepts schedule s sid :
  sid <> ID schedule ->
  schedules (fst (ScheduleService.UpdateSchedule cron_accepts schedule s)) !! sid
  = schedules s !! sid.
Proof.
  intros Hne. rewrite UpdateSchedule_fst, AddSchedule_other by assumption.
  now apply RemoveSchedule_other.
Qed.

(** The three shapes of what a handler does to the panel. *)

(** A handler that creates: nothing, or a new row under a new key,
    added to the service. *)
Lemma CreateSchedule_cases cron_accepts server formOk name cm ch cdom cmon cdow
      enabledStr action command st :
  let out := CreateSchedule cron_accepts (Some server) formOk name cm ch cdom cmon cdow
                            enabledStr action command st in
  let c := mkSchedule (next_key (rows (p_db st))) (Models.ID server) name cm ch cdom cmon
                      cdow true action command in
  (fst out = st /\ status (snd out) = 400 /\ success (snd out) = false
   /\ (formOk = false
       \/ validate_inputs name cm ch cdom cmon cdow action command <> None
       \/ sfailing (p_db st) CallCreateSchedule = true))
  \/ (fst out = mkPanel (with_rows (p_db st) (<[ID c := c]> (rows (p_db st))))
                        (if parse_enabled enabledStr
                         then fst (AddSchedule cron_accepts c (p_svc st))
                         else p_svc st)
      /\ status (snd out) = (if parse_enabled enabledStr
                             then match snd (AddSchedule cron_accepts c (p_svc st)) with
                                  | Some _ => 201
                                  | None => 200
                                  end
                             else 200)
      /\ success (snd out) = true
      /\ formOk = true
      /\ validate_inputs name cm ch cdom cmon cdow action command = None
      /\ sfailing (p_db st) CallCreateSchedule = false).
Proof.
  intros out c. subst out. unfold CreateSchedule.
  destruct formOk; simpl; [|left; auto].
  unfold ScheduleModel.CreateSchedule.
  destruct (validate_inputs name cm ch cdom cmon cdow action command) eqn:Ev.
  { left. destruct st. simpl. split; [reflexivity|]. split; [reflexivity|].
    split; [reflexivity|]. right. left. discriminate. }
  unfold db_create. destruct (sfailing (p_db st) CallCreateSchedule) eqn:Ef.
  { left. destruct st. simpl. split; [reflexivity|]. split; [reflexivity|].
    split; [reflexivity|]. right. right. reflexivity. }
  right. fold c. change (inserted _ _) with c.
  destruct (parse_enabled enabledStr); simpl; [|repeat split; reflexivity].
  destruct (AddSchedule cron_accepts c (p_svc st)) as [svc1 [err|]]; simpl;
    repeat split; reflexivity.
Qed.

(** Handlers that write a found schedule back: nothing, or the row is
    replaced and the service updated with it. *)
Lemma UpdateSchedule_cases cron_accepts found scheduleIDStr formOk name cm ch cdom cmon cdow
      enabledStr action command st :
  well_stored (p_db st) ->
  let out := UpdateSchedule cron_accepts found scheduleIDStr formOk name cm ch cdom cmon
                            cdow enabledStr action command st in
  fst out = st
  \/ exists schedule,
      find_schedule found scheduleIDStr (p_db st) = inl schedule
      /\ let s1 := mkSchedule (ID schedule) (ServerID schedule) name cm ch cdom cmon cdow
                              (parse_enabled enabledStr) action command in
         fst out = mkPanel (with_rows (p_db st) (<[ID schedule := s1]> (rows (p_db st))))
                           (fst (ScheduleService.UpdateSchedule cron_accepts s1 (p_svc st)))
         /\ valid_schedule s1.
Proof.
  intros Hw out. subst out. unfold UpdateSchedule.
  destruct (find_schedule found scheduleIDStr (p_db st)) as [schedule|r] eqn:Hf; [|now left].
  destruct formOk; simpl; [|now left].
  pose proof Hf as Hf'.
  apply find_schedule_found in Hf' as (server & _ & _ & Hrow & Hnz); [|assumption].
  pose proof (UpdateSchedule_spec schedule name cm ch cdom cmon cdow
                                  (parse_enabled enabledStr) action command (p_db st) Hnz) as H.
  destruct (ScheduleModel.UpdateSchedule _ _ _ _ _ _ _ _ _ _ _) as [[db1 s1] [e|]].
  - left. simpl. rewrite H. now destruct st.
  - right. exists schedule. split; [reflexivity|]. destruct H as (-> & -> & Hv).
    split; [|assumption].
    destruct (ScheduleService.UpdateSchedule cron_accepts _ (p_svc st)) as [svc1 [err|]];
      reflexivity.
Qed.

Lemma ToggleSchedule_cases cron_accepts found scheduleIDStr st :
  well_stored (p_db st) ->
  let out := ToggleSchedule cron_accepts found scheduleIDStr st in
  fst out = st
  \/ exists schedule,
      find_schedule found scheduleIDStr (p_db st) = inl schedule
      /\ let s1 := with_Enabled schedule (negb (Enabled schedule)) in
         fst out = mkPanel (with_rows (p_db st) (<[ID schedule := s1]> (rows (p_db st))))
                           (fst (ScheduleService.UpdateSchedule cron_accepts s1 (p_svc st)))
         /\ valid_schedule s1.
Proof.
  intros Hw out. subst out. unfold ToggleSchedule.
  destruct (find_schedule found scheduleIDStr (p_db st)) as [schedule|r] eqn:Hf; [|now left].
  pose proof Hf as Hf'.
  apply find_schedule_found in Hf' as (server & _ & _ & Hrow & Hnz); [|assumption].
  unfold ToggleEnabled.
  set (s1 := with_Enabled schedule (negb (Enabled schedule))).
  destruct (db_save_rows s1 (p_db st) Hnz) as (Hs & Hfail & Hok).
  destruct (db_save s1 (p_db st)) as [[db1 s2] [|]]; simpl in *.
  - right. exists schedule. split; [reflexivity|]. subst s2. rewrite (Hok eq_refl).
    split; [reflexivity|]. now apply (Hw _ _ Hrow).
  - left. rewrite (Hfail eq_refl). now destruct st.
Qed.

(** The handler that deletes: nothing, or the schedule leaves the
    service, and leaves the rows unless the deletion fails. *)
Lemma DeleteSchedule_cases found scheduleIDStr st :
  well_stored (p_db st) ->
  let out := DeleteSchedule found scheduleIDStr st in
  (fst out = st /\ exists r, find_schedule found scheduleIDStr (p_db st) = inr r)
  \/ exists schedule,
      find_schedule found scheduleIDStr (p_db st) = inl schedule
      /\ p_svc (fst out) = fst (RemoveSchedule (ID schedule) (p_svc st))
      /\ if sfailing (p_db st) CallDeleteSchedule
         then p_db (fst out) = p_db st /\ status (snd out) = 500
         else p_db (fst out) = with_rows (p_db st) (delete (ID schedule) (rows (p_db st)))
              /\ status (snd out) = 200.
Proof.
  intros Hw out. subst out. unfold DeleteSchedule.
  destruct (find_schedule found scheduleIDStr (p_db st)) as [schedule|r] eqn:Hf;
    [|left; eauto].
  pose proof Hf as Hf'.
  apply find_schedule_found in Hf' as (server & _ & _ & Hrow & Hnz); [|assumption].
  right. exists schedule. split; [reflexivity|]. unfold Delete.
  destruct (sfailing (p_db st) CallDeleteSchedule); simpl; [auto|].
  apply N.eqb_neq in Hnz. rewrite Hnz. simpl. auto.
Qed.

(** What the shapes do to a row of another ID. *)
Lemma write_back_untouched cron_accepts st s1 k s :
  linked st -> rows (p_db st) !! k = Some s -> k <> ID s1 ->
  untouched k s st
            (mkPanel (with_rows (p_db st) (<[ID s1 := s1]> (rows (p_db st))))
                     (fst (ScheduleService.UpdateSchedule cron_accepts s1 (p_svc st)))).
Proof.
  intros (Hw & Hc & He) Hrow Hne. split; [|split]; simpl.
  - now rewrite lookup_insert_ne by congruence.
  - now apply UpdateSchedule_other.
  - intros eid Hin. rewrite UpdateSchedule_fst. apply AddSchedule_keeps.
    apply RemoveSchedule_keeps; [assumption..|].
    destruct (Hw _ _ Hrow) as [Hid _]. congruence.
Qed.

Lemma untouched_refl st k s : rows (p_db st) !! k = Some s -> untouched k s st st.
Proof. intros H. split; [assumption|]. split; [reflexivity|auto]. Qed.

(** A schedule of a server other than the one of the request is not the
    one the request finds. *)
Lemma other_server_other_ID found scheduleIDStr db schedule server k s :
  well_stored db ->
  find_schedule found scheduleIDStr db = inl schedule ->
  found = Some server ->
  rows db !! k = Some s -> ServerID s <> Models.ID server ->
  k <> ID schedule.
Proof.
  intros Hw Hf Hfound Hrow Hne Heq.
  apply find_schedule_found in Hf as (server' & Hfound' & Hsrv & Hrow' & _); [|assumption].
  rewrite Hfound in Hfound'. inversion Hfound'; subst server'.
  rewrite <- Heq, Hrow in Hrow'. inversion Hrow'; subst. congruence.
Qed.



(** *** The fixtures *)

Lemma nightly_rows_linked failing :
  linked (mkPanel (mkScheduleDB {[ 7%N := nightly ]} failing) one_registered).
Proof.
  split; [apply nightly_rows_well_stored|]. split; [apply one_registered_consistent|].
  intros eid sch [Heq|[]]. inversion Heq; subst. split; reflexivity.
Qed.

Lemma nightly_panel_complete cron_accepts : complete cron_accepts nightly_panel.
Proof.
  intros k s H _ _. simpl in H. apply lookup_singleton_Some in H as [<- <-].
  exists 1. reflexivity.
Qed.

(** *** Start-up *)

Lemma addScheduleInternal_entries cron_accepts schedule s eid sch :
  In (eid, sch) (cron_entries (fst (addScheduleInternal cron_accepts schedule s))) ->
  In (eid, sch) (cron_entries s) \/ sch = schedule.
Proof.
  unfold addScheduleInternal, cron_AddFunc.
  destruct (schedules s !! ID schedule); simpl; [auto|].
  destruct (cron_accepts _); simpl; [|auto].
  intros Hin. apply in_app_or in Hin as [Hin|[Heq|[]]]; [auto|].
  inversion Heq; subst. auto.
Qed.

Lemma load_schedules_entries cron_accepts l s eid sch :
  In (eid, sch) (cron_entries (load_schedules cron_accepts l s)) ->
  In (eid, sch) (cron_entries s) \/ In sch l.
Proof.
  revert s. induction l as [|x l IH]; simpl; intros s Hin; [auto|].
  apply IH in Hin as [Hin|Hin]; [|auto].
  apply addScheduleInternal_entries in Hin as [Hin| ->]; auto.
Qed.

Lemma NoDup_map_filter {A B} (f : A -> B) (p : A -> bool) (l : list A) :
  NoDup (List.map f l) -> NoDup (List.map f (List.filter p l)).
Proof.
  induction l as [|a l IH]; simpl; intros H; [assumption|].
  apply NoDup_cons in H as [Hnotin Hnd]. destruct (p a); simpl; [|auto].
  apply NoDup_cons. split; [|auto].
  intros Hin. apply Hnotin. apply list_elem_of_In in Hin. apply list_elem_of_In.
  apply in_map_iff in Hin as (x & Hx & Hin). apply filter_In in Hin as [Hin _].
  apply in_map_iff. eauto.
Qed.

(** The enabled schedules read from a well-stored table: each is an
    enabled row stored under its ID, and their IDs are distinct. *)
Lemma enabled_rows db sch :
  well_stored db ->
  In sch (List.filter Enabled (List.map snd (map_to_list (rows db)))) <->
  rows db !! ID sch = Some sch /\ Enabled sch = true.
Proof.
  intros Hw. rewrite filter_In, in_map_iff. split.
  - intros [([k s] & Heq & Hin) Hen]. simpl in Heq. subst s. split; [|assumption].
    apply list_elem_of_In, elem_of_map_to_list in Hin.
    destruct (Hw _ _ Hin) as [-> _]. assumption.
  - intros [Hrow Hen]. split; [|assumption]. exists (ID sch, sch). split; [reflexivity|].
    now apply list_elem_of_In, elem_of_map_to_list.
Qed.

Lemma enabled_rows_NoDup db :
  well_stored db ->
  NoDup (List.map ID (List.filter Enabled (List.map snd (map_to_list (rows db))))).
Proof.
  intros Hw. apply NoDup_map_filter.
  assert (List.map ID (List.map snd (map_to_list (rows db)))
          = List.map fst (map_to_list (rows db))) as ->.
  { rewrite List.map_map. apply List.map_ext_in. intros [k s] Hin. simpl.
    apply list_elem_of_In, elem_of_map_to_list in Hin. now apply (Hw _ _ Hin). }
  pose proof (NoDup_fst_map_to_list (rows db)) as Hnd.
  exact Hnd.
Qed.

(** At start-up the panel is linked: what the scheduler fires are
    enabled schedules as they are on record.  And when the schedules
    could be read, every enabled schedule on record whose expression the
    cron engine accepts is registered. *)
Theorem start_up_links_and_registers cron_accepts db :
  well_stored db ->
  linked (started cron_accepts db)
  /\ (sfailing db CallFindEnabled = false -> complete cron_accepts (started cron_accepts db)).
Proof.
  intros Hw. split.
  - split; [exact Hw|]. split; [apply InitScheduler_consistent|].
    unfold started, InitScheduler, LoadAllSchedules, GetAllEnabledSchedules. simpl.
    destruct (sfailing db CallFindEnabled); simpl; [intros eid sch []|].
    intros eid sch Hin. apply load_schedules_entries in Hin as [[]|Hin].
    now apply enabled_rows.
  - intros Hread k s Hrow Hen Hacc.
    unfold started, InitScheduler, LoadAllSchedules, GetAllEnabledSchedules. simpl.
    rewrite Hread. simpl.
    destruct (Hw _ _ Hrow) as [Hid _]. rewrite <- Hid in Hrow |- *.
    apply (load_registers_the_accepted cron_accepts _ new_service
             (enabled_rows_NoDup db Hw)); [reflexivity| |assumption].
    apply enabled_rows; auto.
Qed.

Lemma start_up_links_and_registers_witness :
  linked (started rejecting_bad nightly_db)
  /\ complete rejecting_bad (started rejecting_bad nightly_db).
Proof.
  destruct (start_up_links_and_registers rejecting_bad nightly_db
              (nightly_rows_well_stored _)) as [Hl Hc].
  split; [exact Hl | exact (Hc eq_refl)].
Defined.

(** *** The invariant *)

(** The four handlers that change schedules keep the panel linked,
    whatever the request and whatever fails: the rows stay valid
    schedules under their IDs, map and engine of the service agree, and
    every entry of the engine holds an enabled schedule exactly as it is
    on record. *)
Theorem handlers_keep_linked cron_accepts found scheduleIDStr formOk
        name cm ch cdom cmon cdow enabledStr action command st :
  linked st ->
  linked (fst (CreateSchedule cron_accepts found formOk name cm ch cdom cmon cdow
                              enabledStr action command st))
  /\ linked (fst (UpdateSchedule cron_accepts found scheduleIDStr formOk name cm ch cdom
                                 cmon cdow enabledStr action command st))
  /\ linked (fst (DeleteSchedule found scheduleIDStr st))
  /\ linked (fst (ToggleSchedule cron_accepts found scheduleIDStr st)).
Proof.
  intros H. split; [now apply CreateSchedule_linked|].
  split; [now apply UpdateSchedule_linked|].
  split; [now apply DeleteSchedule_linked | now apply ToggleSchedule_linked].
Qed.

Lemma handlers_keep_linked_witness :
  linked (fst (CreateSchedule rejecting_bad (Some survival) true "weekly" "30" "4" "*" "*"
                              "0" "true" "backup" "" nightly_panel))
  /\ linked (fst (UpdateSchedule rejecting_bad (Some survival) "7" true "weekly" "30" "4"
                                 "*" "*" "0" "true" "backup" "" nightly_panel))
  /\ linked (fst (DeleteSchedule (Some survival) "7" nightly_panel))
  /\ linked (fst (ToggleSchedule rejecting_bad (Some survival) "7" nightly_panel)).
Proof.
  apply (handlers_keep_linked rejecting_bad (Some survival) "7" true "weekly" "30" "4" "*"
                              "*" "0" "true" "backup" "" nightly_panel).
  apply nightly_rows_linked.
Defined.

(** *** Other servers *)

(** A request made for one server leaves the schedules of every other
    server alone: their rows read the same, their registrations are the
    same, and the entries of the engine that hold them are still
    there, whatever schedule ID the request names. *)
Theorem handlers_leave_other_servers_alone cron_accepts server scheduleIDStr formOk
        name cm ch cdom cmon cdow enabledStr action command st k s :
  linked st ->
  rows (p_db st) !! k = Some s ->
  ServerID s <> Models.ID server ->
  untouched k s st
            (fst (CreateSchedule cron_accepts (Some server) formOk name cm ch cdom cmon cdow
                                 enabledStr action command st))
  /\ untouched k s st
               (fst (UpdateSchedule cron_accepts (Some server) scheduleIDStr formOk name cm
                                    ch cdom cmon cdow enabledStr action command st))
  /\ untouched k s st (fst (DeleteSchedule (Some server) scheduleIDStr st))
  /\ untouched k s st (fst (ToggleSchedule cron_accepts (Some server) scheduleIDStr st)).
Proof.
  intros Hl Hrow Hsrv. pose proof Hl as (Hw & Hc & He).
  split; [|split; [|split]].
  - destruct (CreateSchedule_cases cron_accepts server formOk name cm ch cdom cmon cdow
                                   enabledStr action command st)
      as [(-> & _)|(-> & _)]; [now apply untouched_refl|].
    destruct (next_key_fresh (rows (p_db st))) as [Hfresh _].
    assert (k <> next_key (rows (p_db st))) as Hne by (intros ->; congruence).
    split; [|split]; simpl.
    + now rewrite lookup_insert_ne by congruence.
    + destruct (parse_enabled enabledStr); [now apply AddSchedule_other | reflexivity].
    + intros eid Hin. destruct (parse_enabled enabledStr); [now apply AddSchedule_keeps|].
      exact Hin.
  - destruct (UpdateSchedule_cases cron_accepts (Some server) scheduleIDStr formOk name cm ch
                                   cdom cmon cdow enabledStr action command st Hw)
      as [->|(schedule & Hf & -> & _)]; [now apply untouched_refl|].
    pose proof (other_server_other_ID _ _ _ _ _ _ _ Hw Hf eq_refl Hrow Hsrv) as Hne.
    now apply (write_back_untouched cron_accepts st
                 (mkSchedule (ID schedule) (ServerID schedule) name cm ch cdom cmon cdow
                             (parse_enabled enabledStr) action command)).
  - destruct (DeleteSchedule_cases (Some server) scheduleIDStr st Hw)
      as [(-> & _)|(schedule & Hf & Hsvc & Hdb)]; [now apply untouched_refl|].
    pose proof (other_server_other_ID _ _ _ _ _ _ _ Hw Hf eq_refl Hrow Hsrv) as Hne.
    unfold untouched. rewrite Hsvc. split; [|split].
    + destruct (sfailing (p_db st) CallDeleteSchedule); destruct Hdb as [-> _];
        [assumption|]. simpl. now rewrite lookup_delete_ne by congruence.
    + now apply RemoveSchedule_other.
    + intros eid Hin. apply RemoveSchedule_keeps; [assumption..|].
      destruct (Hw _ _ Hrow) as [Hid _]. congruence.
  - destruct (ToggleSchedule_cases cron_accepts (Some server) scheduleIDStr st Hw)
      as [->|(schedule & Hf & -> & _)]; [now apply untouched_refl|].
    pose proof (other_server_other_ID _ _ _ _ _ _ _ Hw Hf eq_refl Hrow Hsrv) as Hne.
    now apply (write_back_untouched cron_accepts st
                 (with_Enabled schedule (negb (Enabled schedule)))).
Qed.

Lemma handlers_leave_other_servers_alone_witness :
  untouched 7 nightly nightly_panel
            (fst (CreateSchedule rejecting_bad (Some creative) true "weekly" "30" "4" "*" "*"
                                 "0" "true" "backup" "" nightly_panel))
  /\ untouched 7 nightly nightly_panel
               (fst (UpdateSchedule rejecting_bad (Some creative) "7" true "weekly" "30" "4"
                                    "*" "*" "0" "true" "backup" "" nightly_panel))
  /\ untouched 7 nightly nightly_panel (fst (DeleteSchedule (Some creative) "7" nightly_panel))
  /\ untouched 7 nightly nightly_panel
               (fst (ToggleSchedule rejecting_bad (Some creative) "7" nightly_panel)).
Proof.
  apply (handlers_leave_other_servers_alone rejecting_bad creative "7" true "weekly" "30" "4"
           "*" "*" "0" "true" "backup" "" nightly_panel 7 nightly).
  - apply nightly_rows_linked.
  - reflexivity.
  - discriminate.
Defined.

(** *** Creation *)

(** What a create request does.  When the form parses, the inputs pass
    the checks and the insertion succeeds, the schedule is on record
    under an ID that was not in use, with the server of the request and
    the values of the form, except that it is on record as enabled
    whatever the form says: the column's default replaces a [false].
    The other rows are unchanged.  The schedule is registered exactly
    when the form says enabled and the cron engine accepts its
    expression; and the answer is a success, with status 201 in place
    of 200 exactly when the form says enabled and the engine rejects
    the expression.  In every other case the answer is status 400 and
    nothing is changed. *)
Theorem CreateSchedule_outcome cron_accepts server formOk name cm ch cdom cmon cdow
        enabledStr action command st :
  linked st ->
  let out := CreateSchedule cron_accepts (Some server) formOk name cm ch cdom cmon cdow
                            enabledStr action command st in
  let c := mkSchedule (next_key (rows (p_db st))) (Models.ID server) name cm ch cdom cmon
                      cdow true action command in
  (formOk = true ->
   validate_inputs name cm ch cdom cmon cdow action command = None ->
   sfailing (p_db st) CallCreateSchedule = false ->
   rows (p_db st) !! ID c = None
   /\ rows (p_db (fst out)) !! ID c = Some c
   /\ (forall k, k <> ID c -> rows (p_db (fst out)) !! k = rows (p_db st) !! k)
   /\ (is_Some (schedules (p_svc (fst out)) !! ID c)
       <-> parse_enabled enabledStr = true /\ cron_accepts (GetCronExpression c) = true)
   /\ success (snd out) = true
   /\ status (snd out)
      = if parse_enabled enabledStr && negb (cron_accepts (GetCronExpression c))
        then 201 else 200)
  /\ (formOk = false
      \/ validate_inputs name cm ch cdom cmon cdow action command <> None
      \/ sfailing (p_db st) CallCreateSchedule = true ->
      fst out = st /\ status (snd out) = 400 /\ success (snd out) = false).
Proof.
  intros Hl out c.
  destruct (next_key_fresh (rows (p_db st))) as [Hfresh _].
  pose proof (unregistered_without_row st _ Hl Hfresh) as Hunreg.
  destruct (CreateSchedule_cases cron_accepts server formOk name cm ch cdom cmon cdow
                                 enabledStr action command st)
    as [(Hst & Hcode & Hsucc & Hwhy)|(Hst & Hcode & Hsucc & Hform & Hval & Hdb)];
    fold out in Hst, Hcode, Hsucc; fold c in Hst, Hcode.
  - split; [|auto]. intros Hform Hval Hdb.
    destruct Hwhy as [?|[?|?]]; congruence.
  - split; [|intros [?|[?|?]]; congruence]. intros _ _ _.
    rewrite Hst, Hcode, Hsucc. simpl.
    split; [exact Hfresh|]. split; [apply lookup_insert_eq|].
    split; [intros k Hk; now apply lookup_insert_ne|].
    destruct (parse_enabled enabledStr); simpl.
    + split.
      { destruct (AddSchedule_registers cron_accepts c (p_svc st) Hunreg) as [Ha Hb].
        split; [intros H; split; [reflexivity | now apply Ha] | intros [_ H]; apply Hb].
        now split. }
      split; [reflexivity|].
      unfold AddSchedule, addScheduleInternal, cron_AddFunc. simpl.
      rewrite Hunreg.
      destruct (cron_accepts (GetCronExpression c)); reflexivity.
    + split; [|split; reflexivity].
      rewrite Hunreg. split; [intros [x Hx]; discriminate | intros [H _]; discriminate].
Qed.

Lemma CreateSchedule_outcome_witness :
  let out := CreateSchedule (fun _ => false) (Some survival) true "weekly" "30" "4" "*" "*"
                            "0" "1" "backup" "" nightly_panel in
  let c := mkSchedule 8 1 "weekly" "30" "4" "*" "*" "0" true "backup" "" in
  rows (p_db nightly_panel) !! 8%N = None
  /\ rows (p_db (fst out)) !! 8%N = Some c
  /\ (forall k, k <> 8%N -> rows (p_db (fst out)) !! k = rows (p_db nightly_panel) !! k)
  /\ (is_Some (schedules (p_svc (fst out)) !! 8%N) <-> true = true /\ false = true)
  /\ success (snd out) = true
  /\ status (snd out) = 201.
Proof.
  apply (CreateSchedule_outcome (fun _ => false) survival true "weekly" "30" "4" "*" "*"
                                "0" "1" "backup" "" nightly_panel (nightly_rows_linked _));
    reflexivity.
Defined.

(** A schedule created with the form saying disabled is on record as
    enabled, and is not registered. *)
Example CreateSchedule_disabled_is_stored_enabled :
  let out := CreateSchedule (fun _ => true) (Some survival) true "weekly" "30" "4" "*" "*"
                            "0" "false" "backup" "" nightly_panel in
  rows (p_db (fst out)) !! 8%N
  = Some (mkSchedule 8 1 "weekly" "30" "4" "*" "*" "0" true "backup" "")
  /\ schedules (p_svc (fst out)) !! 8%N = None
  /\ status (snd out) = 200.
Proof. vm_compute. repeat split; reflexivity. Qed.

(** *** No enabled schedule left out *)

(** Updating and toggling keep every enabled schedule on record
    registered, as far as the cron engine accepts the expression; so
    does deleting when the deletion from the database does not fail,
    and so does creating when the form says enabled.  A create whose
    form says disabled does not: the new row is on record as enabled
    (the column's default) and is not registered, so that, when the
    engine accepts its expression, an enabled schedule is left out of
    the scheduler. *)
Theorem handlers_keep_complete cron_accepts found scheduleIDStr formOk
        name cm ch cdom cmon cdow enabledStr action command st :
  linked st ->
  complete cron_accepts st ->
  let created := fst (CreateSchedule cron_accepts found formOk name cm ch cdom cmon cdow
                                     enabledStr action command st) in
  (parse_enabled enabledStr = true -> complete cron_accepts created)
  /\ complete cron_accepts
              (fst (UpdateSchedule cron_accepts found scheduleIDStr formOk name cm ch cdom
                                   cmon cdow enabledStr action command st))
  /\ complete cron_accepts (fst (ToggleSchedule cron_accepts found scheduleIDStr st))
  /\ (sfailing (p_db st) CallDeleteSchedule = false ->
      complete cron_accepts (fst (DeleteSchedule found scheduleIDStr st)))
  /\ (forall server,
        found = Some server ->
        parse_enabled enabledStr = false ->
        formOk = true ->
        validate_inputs name cm ch cdom cmon cdow action command = None ->
        sfailing (p_db st) CallCreateSchedule = false ->
        cron_accepts
          (GetCronExpression
             (mkSchedule (next_key (rows (p_db st))) (Models.ID server) name cm ch cdom cmon
                         cdow true action command)) = true ->
        ~ complete cron_accepts created).
Proof.
  intros Hl Hcomp created. subst created. pose proof Hl as (Hw & Hc & He).
  assert (forall s1,
             complete cron_accepts
               (mkPanel (with_rows (p_db st) (<[ID s1 := s1]> (rows (p_db st))))
                        (fst (ScheduleService.UpdateSchedule cron_accepts s1 (p_svc st)))))
    as Hwrite.
  { intros s1 k s Hrow Hen Hacc. simpl in *.
    destruct (decide (k = ID s1)) as [->|Hne].
    - rewrite lookup_insert_eq in Hrow. inversion Hrow; subst s.
      apply UpdateSchedule_registers. auto.
    - rewrite lookup_insert_ne in Hrow by congruence.
      rewrite UpdateSchedule_other by assumption. now apply (Hcomp k s). }
  destruct (next_key_fresh (rows (p_db st))) as [Hfresh _].
  pose proof (unregistered_without_row st _ Hl Hfresh) as Hunreg.
  split; [|split; [|split; [|split]]].
  - intros Hon. destruct found as [server|]; [|exact Hcomp].
    destruct (CreateSchedule_cases cron_accepts server formOk name cm ch cdom cmon cdow
                                   enabledStr action command st)
      as [(-> & _)|(-> & _)]; [exact Hcomp|].
    rewrite Hon.
    intros k s Hrow Hen Hacc. simpl in *.
    destruct (decide (k = next_key (rows (p_db st)))) as [->|Hne].
    + rewrite lookup_insert_eq in Hrow. inversion Hrow; subst s.
      match goal with |- context [AddSchedule _ ?x _] => set (c := x) in * end.
      now apply (AddSchedule_registers cron_accepts c).
    + rewrite lookup_insert_ne in Hrow by congruence.
      rewrite AddSchedule_other by assumption. now apply (Hcomp k s).
  - destruct (UpdateSchedule_cases cron_accepts found scheduleIDStr formOk name cm ch
                                   cdom cmon cdow enabledStr action command st Hw)
      as [->|(schedule & Hf & -> & _)]; [exact Hcomp|].
    apply (Hwrite (mkSchedule (ID schedule) (ServerID schedule) name cm ch cdom cmon cdow
                              (parse_enabled enabledStr) action command)).
  - destruct (ToggleSchedule_cases cron_accepts found scheduleIDStr st Hw)
      as [->|(schedule & Hf & -> & _)]; [exact Hcomp|].
    apply (Hwrite (with_Enabled schedule (negb (Enabled schedule)))).
  - intros Hok.
    destruct (DeleteSchedule_cases found scheduleIDStr st Hw)
      as [(-> & _)|(schedule & Hf & Hsvc & Hdb)]; [exact Hcomp|].
    rewrite Hok in Hdb. destruct Hdb as [Hdb _].
    intros k s Hrow Hen Hacc. rewrite Hdb in Hrow. rewrite Hsvc. simpl in Hrow.
    destruct (decide (k = ID schedule)) as [->|Hne].
    + rewrite lookup_delete_eq in Hrow. discriminate.
    + rewrite lookup_delete_ne in Hrow by congruence.
      rewrite RemoveSchedule_other by assumption. now apply (Hcomp k s).
  - intros server -> Hoff Hform Hval Hdb Hacc Hcomp'.
    destruct (CreateSchedule_cases cron_accepts server formOk name cm ch cdom cmon cdow
                                   enabledStr action command st)
      as [(_ & _ & _ & [?|[?|?]])|(Hst & _)]; try congruence.
    rewrite Hst, Hoff in Hcomp'.
    destruct (Hcomp' (next_key (rows (p_db st))) _ (lookup_insert_eq _ _ _) eq_refl Hacc)
      as [eid Heid].
    simpl in Heid. congruence.
Qed.

Lemma handlers_keep_complete_witness :
  complete rejecting_bad
           (fst (CreateSchedule rejecting_bad (Some survival) true "weekly" "30" "4" "*" "*"
                                "0" "true" "backup" "" nightly_panel))
  /\ complete rejecting_bad
              (fst (UpdateSchedule rejecting_bad (Some survival) "7" true "weekly" "30" "4"
                                   "*" "*" "0" "true" "backup" "" nightly_panel))
  /\ complete rejecting_bad (fst (ToggleSchedule rejecting_bad (Some survival) "7"
                                                 nightly_panel))
  /\ complete rejecting_bad (fst (DeleteSchedule (Some survival) "7" nightly_panel))
  /\ ~ complete rejecting_bad
        (fst (CreateSchedule rejecting_bad (Some survival) true "weekly" "30" "4" "*" "*"
                             "0" "false" "backup" "" nightly_panel)).
Proof.
  destruct (handlers_keep_complete rejecting_bad (Some survival) "7" true "weekly" "30" "4"
              "*" "*" "0" "true" "backup" "" nightly_panel (nightly_rows_linked _)
              (nightly_panel_complete _)) as (H1 & H2 & H3 & H4 & _).
  destruct (handlers_keep_complete rejecting_bad (Some survival) "7" true "weekly" "30" "4"
              "*" "*" "0" "false" "backup" "" nightly_panel (nightly_rows_linked _)
              (nightly_panel_complete _)) as (_ & _ & _ & _ & H5).
  split; [exact (H1 eq_refl)|]. split; [exact H2|]. split; [exact H3|].
  split; [exact (H4 eq_refl)|].
  apply (H5 survival); reflexivity.
Defined.

(** A delete request whose deletion from the database fails is answered
    with status 500 and leaves the schedule on record as it was, but no
    longer registered: no entry of the engine holds a schedule with its
    ID, so that it does not fire again before it is registered anew. *)
Theorem DeleteSchedule_failed_delete_unregisters found scheduleIDStr st schedule :
  linked st ->
  find_schedule found scheduleIDStr (p_db st) = inl schedule ->
  sfailing (p_db st) CallDeleteSchedule = true ->
  let out := DeleteSchedule found scheduleIDStr st in
  status (snd out) = 500
  /\ success (snd out) = false
  /\ rows (p_db (fst out)) !! ID schedule = Some schedule
  /\ schedules (p_svc (fst out)) !! ID schedule = None
  /\ forall eid sch, In (eid, sch) (cron_entries (p_svc (fst out))) -> ID sch <> ID schedule.
Proof.
  intros (Hw & Hc & He) Hf Hfail out.
  pose proof (find_schedule_found _ _ _ _ Hw Hf) as (server & _ & _ & Hrow & _).
  subst out. unfold DeleteSchedule, Delete. rewrite Hf, Hfail. simpl.
  split; [reflexivity|]. split; [reflexivity|]. split; [exact Hrow|].
  split; [apply RemoveSchedule_gone|].
  intros eid sch Hin. now apply (RemoveSchedule_entries _ _ _ _ Hc Hin).
Qed.

Lemma DeleteSchedule_failed_delete_unregisters_witness :
  let out := DeleteSchedule (Some survival) "7" nightly_panel_no_delete in
  status (snd out) = 500
  /\ success (snd out) = false
  /\ rows (p_db (fst out)) !! 7%N = Some nightly
  /\ schedules (p_svc (fst out)) !! 7%N = None
  /\ forall eid sch, In (eid, sch) (cron_entries (p_svc (fst out))) -> ID sch <> 7%N.
Proof.
  apply (DeleteSchedule_failed_delete_unregisters (Some survival) "7"
           nightly_panel_no_delete nightly (nightly_rows_linked _)); reflexivity.
Defined.

End HandlerProps.
(* ===================================================================== *)
(** ** Deleting and restoring backups *)
(* ===================================================================== *)

Module BackupRequestProps.
Import GoStr Strconv Path FS Archive Models BackupService BackupsHandler ScheduleService.
Import BackupRequests.
Import FSProps ModelsProps BackupProps Fixtures MoreFixtures.
Local Open Scope Z_scope.

Lemma Stat_regular fs path perm data :
  Stat fs path = Some (Regular perm data) ->
  path <> "" /\ locate fs path <> []
  /\ nodes fs !! locate fs path = Some (Regular perm data).
Proof.
  unfold Stat. destruct (String.eqb path "") eqn:E; [discriminate|].
  apply String.eqb_neq in E. destruct (locate fs path) as [|c p]; simpl; [discriminate|].
  intros H. repeat split; [assumption | discriminate | assumption].
Qed.

(** The backup the shared part of the handlers finds is a row of the
    server of the request, under the key the URL names. *)
Lemma find_backup_found server backupIDStr readFails db id backup :
  find_backup server backupIDStr readFails db = inl (id, backup) ->
  ParseUint32 backupIDStr = Some id
  /\ backups db !! id = Some backup
  /\ Models.ServerID backup = Models.ID server.
Proof.
  unfold find_backup, GetBackupByID.
  destruct (ParseUint32 backupIDStr) as [k|]; [|discriminate].
  destruct readFails; [discriminate|].
  destruct (backups db !! k) as [b|] eqn:Hl; [|discriminate].
  destruct (Models.ServerID b =? Models.ID server)%N eqn:E; simpl; [|discriminate].
  intros H. inversion H; subst. apply N.eqb_eq in E. auto.
Qed.

Lemma RotateBackups_other_rows serverID maxBackups w k b :
  backups (w_db w) !! k = Some b ->
  Models.ServerID b <> serverID ->
  backups (w_db (fst (RotateBackups serverID maxBackups w))) !! k = Some b.
Proof.
  intros Hrow Hne. unfold RotateBackups.
  destruct (CountBackups serverID (w_db w)) as [count|]; [|assumption].
  destruct (count >=? maxBackups); [|assumption].
  destruct (GetOldestBackup serverID (w_db w)) as [[id oldest]|] eqn:Hget; [|assumption].
  apply GetOldestBackup_row in Hget as [Hl Hs].
  unfold Delete. destruct (failing (w_db w) CallDelete); simpl; [assumption|].
  rewrite lookup_delete_ne; [assumption|]. intros <-. congruence.
Qed.

Lemma CreateBackup_record_other_rows serverID fileName filePath fileSize now db k b :
  backups db !! k = Some b ->
  backups (fst (Models.CreateBackup serverID fileName filePath fileSize now db)) !! k
  = Some b.
Proof.
  intros Hrow. unfold Models.CreateBackup. destruct (failing db CallCreate); [assumption|].
  simpl. rewrite lookup_insert_ne; [assumption|].
  intros Heq. rewrite <- Heq, new_id_fresh in Hrow. discriminate.
Qed.

(** The backup records of the other servers are never changed: not by
    a rotation, not by a create or a delete request, not by a scheduled
    backup of the server. *)
Theorem records_of_other_servers_kept
        codec server dateStr randomID now backupIDStr readFails w k b :
  backups (w_db w) !! k = Some b ->
  Models.ServerID b <> Models.ID server ->
  backups (w_db (fst (RotateBackups (Models.ID server) (MaxBackups server) w))) !! k = Some b
  /\ backups (w_db (fst (CreateBackup codec (Some server) dateStr randomID now w))) !! k
     = Some b
  /\ backups (w_db (fst (executeBackup codec server dateStr randomID now w))) !! k = Some b
  /\ backups (w_db (fst (DeleteBackup (Some server) backupIDStr readFails w))) !! k = Some b.
Proof.
  intros Hrow Hne.
  pose proof (RotateBackups_other_rows (Models.ID server) (MaxBackups server) w k b Hrow Hne)
    as Hrot.
  split; [exact Hrot|]. split; [|split].
  - unfold CreateBackup.
    destruct (String.eqb (Models.BackupPath server) ""); [assumption|].
    destruct (RotateBackups (Models.ID server) (MaxBackups server) w) as [w1 [e|]];
      simpl in Hrot; [assumption|].
    destruct (CreateTarGzBackup _ _ _ _ _) as [fs2 [[backupPath fileSize]|e]];
      [|assumption].
    pose proof (CreateBackup_record_other_rows (Models.ID server)
                  (GenerateBackupFileName (Models.Name server) dateStr randomID)
                  backupPath fileSize now (w_db w1) k b Hrot) as Hins.
    destruct (Models.CreateBackup _ _ _ _ _ _) as [db3 [r|]]; exact Hins.
  - unfold executeBackup.
    destruct (String.eqb (Models.BackupPath server) ""); [assumption|].
    destruct (RotateBackups (Models.ID server) (MaxBackups server) w) as [w1 [e|]];
      simpl in Hrot; [assumption|].
    destruct (CreateTarGzBackup _ _ _ _ _) as [fs2 [[backupPath fileSize]|e]];
      [|assumption].
    pose proof (CreateBackup_record_other_rows (Models.ID server)
                  (GenerateBackupFileName (Models.Name server) dateStr randomID)
                  backupPath fileSize now (w_db w1) k b Hrot) as Hins.
    destruct (Models.CreateBackup _ _ _ _ _ _) as [db3 [r|]]; exact Hins.
  - unfold DeleteBackup.
    destruct (find_backup server backupIDStr readFails (w_db w)) as [[id backup]|r] eqn:Hf;
      [|assumption].
    apply find_backup_found in Hf as (_ & Hl & Hs).
    unfold Delete. destruct (failing (w_db w) CallDelete); simpl; [assumption|].
    rewrite lookup_delete_ne; [assumption|]. intros <-. congruence.
Qed.

Lemma records_of_other_servers_kept_witness :
  let b := mkBackup 1 "a.tar.gz" "/backups/a.tar.gz" 1 10 in
  backups (w_db (fst (RotateBackups 2 3 three_backups))) !! 1%N = Some b
  /\ backups (w_db (fst (CreateBackup (reading_as [] []) (Some creative) "20240101" "0001"
                                      40 three_backups))) !! 1%N = Some b
  /\ backups (w_db (fst (executeBackup (reading_as [] []) creative "20240101" "0001" 40
                                       three_backups))) !! 1%N = Some b
  /\ backups (w_db (fst (DeleteBackup (Some creative) "1" false three_backups))) !! 1%N
     = Some b.
Proof.
  apply (records_of_other_servers_kept (reading_as [] []) creative "20240101" "0001" 40 "1"
           false three_backups 1%N).
  - reflexivity.
  - discriminate.
Defined.

(** A delete request removes the file before the record.  When the
    deletion of the record fails, the answer is status 500 and the
    record stays, but its archive, a regular file until then, is gone
    from the disk. *)
Theorem DeleteBackup_failed_delete_loses_file
        server backupIDStr readFails w id backup perm data :
  find_backup server backupIDStr readFails (w_db w) = inl (id, backup) ->
  Stat (w_fs w) (FilePath backup) = Some (Regular perm data) ->
  failing (w_db w) CallDelete = true ->
  let out := DeleteBackup (Some server) backupIDStr readFails w in
  status (snd out) = 500
  /\ backups (w_db (fst out)) !! id = Some backup
  /\ Stat (w_fs (fst out)) (FilePath backup) = None.
Proof.
  intros Hf Hstat Hfail out. subst out. unfold DeleteBackup, Delete, DeleteBackupFile.
  rewrite Hf, Hfail.
  apply find_backup_found in Hf as (_ & Hl & _).
  apply Stat_regular in Hstat as (Hne & Hp & Hn).
  pose proof (Remove_regular _ _ _ _ Hne Hp Hn) as Hgone.
  destruct (Remove (FilePath backup) (w_fs w)) as [fs1 [e|]]; simpl in *; auto.
Qed.

Lemma DeleteBackup_failed_delete_loses_file_witness :
  let w := mkWorld disk (mkDB three_rows (fun c => match c with
                                                   | CallDelete => true
                                                   | _ => false
                                                   end)) in
  let out := DeleteBackup (Some survival) "2" false w in
  status (snd out) = 500
  /\ backups (w_db (fst out)) !! 2%N = Some (mkBackup 1 "b.tar.gz" "/backups/b.tar.gz" 1 20)
  /\ Stat (w_fs (fst out)) "/backups/b.tar.gz" = None.
Proof.
  apply (DeleteBackup_failed_delete_loses_file survival "2" false
           (mkWorld disk (mkDB three_rows (fun c => match c with
                                                    | CallDelete => true
                                                    | _ => false
                                                    end)))
           2%N (mkBackup 1 "b.tar.gz" "/backups/b.tar.gz" 1 20) 420 "b");
    reflexivity.
Defined.

(** A delete request that succeeds leaves no record under the ID and no
    regular file at the path the record named; the other records are
    as they were. *)
Theorem DeleteBackup_success server backupIDStr readFails w :
  let out := DeleteBackup (Some server) backupIDStr readFails w in
  success (snd out) = true ->
  exists id backup,
    ParseUint32 backupIDStr = Some id
    /\ backups (w_db w) !! id = Some backup
    /\ Models.ServerID backup = Models.ID server
    /\ backups (w_db (fst out)) = delete id (backups (w_db w))
    /\ forall perm data, Stat (w_fs (fst out)) (FilePath backup) <> Some (Regular perm data).
Proof.
  intros out. subst out. unfold DeleteBackup.
  destruct (find_backup server backupIDStr readFails (w_db w)) as [[id backup]|r] eqn:Hf.
  - pose proof (find_backup_found _ _ _ _ _ _ Hf) as (Hparse & Hl & Hs).
    unfold Delete. destruct (failing (w_db w) CallDelete); simpl; [discriminate|].
    intros _. exists id, backup. repeat split; try assumption.
    intros perm data. unfold DeleteBackupFile.
    destruct (Stat (w_fs w) (FilePath backup)) as [[p|p d]|] eqn:Hstat.
    + unfold Remove, Stat in *.
      destruct (String.eqb (FilePath backup) ""); [discriminate|].
      destruct (locate (w_fs w) (FilePath backup)) as [|c l] eqn:Hp; simpl in *.
      { rewrite Hp. discriminate. }
      rewrite Hstat.
      destruct (children (w_fs w) (c :: l)); simpl; unfold locate in *; simpl; rewrite Hp;
        simpl; [rewrite lookup_delete_eq | rewrite Hstat]; discriminate.
    + apply Stat_regular in Hstat as (Hne & Hp & Hn).
      pose proof (Remove_regular _ _ _ _ Hne Hp Hn) as Hgone.
      destruct (Remove (FilePath backup) (w_fs w)) as [fs1 [e|]]; simpl in *;
        rewrite Hgone; discriminate.
    + unfold Remove, Stat in *.
      destruct (String.eqb (FilePath backup) ""); [discriminate|].
      destruct (locate (w_fs w) (FilePath backup)) as [|c l] eqn:Hp; simpl in *;
        [discriminate|].
      rewrite Hstat. simpl. unfold locate in *. rewrite Hp. simpl. rewrite Hstat.
      discriminate.
  - unfold find_backup, GetBackupByID in Hf.
    destruct (ParseUint32 backupIDStr) as [k|]; [|inversion Hf; subst; discriminate].
    destruct readFails; [inversion Hf; subst; discriminate|].
    destruct (backups (w_db w) !! k) as [b|]; [|inversion Hf; subst; discriminate].
    destruct (negb _); inversion Hf; subst; discriminate.
Qed.

Lemma DeleteBackup_success_witness :
  exists id backup,
    ParseUint32 "2" = Some id
    /\ backups (w_db three_backups) !! id = Some backup
    /\ Models.ServerID backup = Models.ID survival
    /\ backups (w_db (fst (DeleteBackup (Some survival) "2" false three_backups)))
       = delete id (backups (w_db three_backups))
    /\ forall perm data,
         Stat (w_fs (fst (DeleteBackup (Some survival) "2" false three_backups)))
              (FilePath backup) <> Some (Regular perm data).
Proof.
  apply (DeleteBackup_success survival "2" false three_backups). reflexivity.
Defined.

(** A restore request never changes the backup records, and it changes
    the file system only when the server is not marked online, the ID
    names a backup of this server, [os.Stat] does not answer the path
    of the archive with the error [os.IsNotExist] recognises, and the
    server's folder is a directory on the disk.  The archive itself
    need not be there: a path that leads through a regular file passes
    the check of the handler and of [RestoreBackupFromArchive]. *)
Theorem RestoreBackup_changes_only_when_allowed codec found backupIDStr readFails w :
  let out := RestoreBackup codec found backupIDStr readFails w in
  w_db (fst out) = w_db w
  /\ (w_fs (fst out) <> w_fs w ->
      exists server id backup,
        found = Some server
        /\ Status server <> "online"
        /\ ParseUint32 backupIDStr = Some id
        /\ backups (w_db w) !! id = Some backup
        /\ Models.ServerID backup = Models.ID server
        /\ IsNotExist (Stat_err (w_fs w) (FilePath backup)) = false
        /\ exists perm, Stat (w_fs w) (FolderPath server) = Some (Directory perm)).
Proof.
  intros out. subst out. unfold RestoreBackup.
  destruct found as [server|]; [|split; [reflexivity | simpl; intros H; now destruct H]].
  destruct (String.eqb (Status server) "online") eqn:Eon; [split; [reflexivity | simpl; intros H; now destruct H]|].
  apply String.eqb_neq in Eon.
  destruct (find_backup server backupIDStr readFails (w_db w)) as [[id backup]|r] eqn:Hf;
    [|split; [reflexivity | simpl; intros H; now destruct H]].
  apply find_backup_found in Hf as (Hparse & Hl & Hs).
  destruct (IsNotExist (Stat_err (w_fs w) (FilePath backup))) eqn:Hstat;
    [split; [reflexivity | simpl; intros H; now destruct H]|].
  assert (w_fs w <> fst (RestoreBackupFromArchive codec (FilePath backup) (FolderPath server)
                                                  (w_fs w)) ->
          exists perm, Stat (w_fs w) (FolderPath server) = Some (Directory perm)) as Hfolder.
  { unfold RestoreBackupFromArchive. rewrite Hstat.
    destruct (IsNotExist (Stat_err (w_fs w) (FolderPath server)));
      [simpl; intros H; congruence|].
    unfold clearDirectory, ReadDir.
    destruct (Stat (w_fs w) (FolderPath server)) as [[perm|perm data]|];
      [eauto | simpl; intros H; congruence | simpl; intros H; congruence]. }
  destruct (RestoreBackupFromArchive codec (FilePath backup) (FolderPath server) (w_fs w))
    as [fs1 [e|]]; simpl in *.
  - split; [reflexivity|]. intros Hch. exists server, id, backup.
    repeat split; try assumption. apply Hfolder; congruence.
  - split; [reflexivity|]. intros Hch. exists server, id, backup.
    repeat split; try assumption. apply Hfolder; congruence.
Qed.

Lemma RestoreBackup_changes_only_when_allowed_witness :
  exists server id backup,
    Some survival = Some server
    /\ Status server <> "online"
    /\ ParseUint32 "1" = Some id
    /\ backups (w_db three_backups) !! id = Some backup
    /\ Models.ServerID backup = Models.ID server
    /\ IsNotExist (Stat_err (w_fs three_backups) (FilePath backup)) = false
    /\ exists perm, Stat (w_fs three_backups) (FolderPath server) = Some (Directory perm).
Proof.
  apply (RestoreBackup_changes_only_when_allowed (reading_as [] []) (Some survival) "1" false
           three_backups).
  intros H.
  apply (f_equal (fun fs => Stat fs "/srv/survival/world.dat")) in H.
  vm_compute in H. discriminate.
Defined.

(** A restore request for a record whose path leads through a regular
    file: no archive is there, the handler's check passes, the server's
    folder is emptied and the answer is status 500. *)
Example RestoreBackup_of_a_path_through_a_file :
  let w := mkWorld disk
             (mkDB {[ 1%N := mkBackup 1 "x" "/backups/a.tar.gz/x" 1 10 ]} never_failing) in
  let out := RestoreBackup (reading_as [] []) (Some survival_max2) "1" false w in
  Stat (w_fs w) "/backups/a.tar.gz/x" = None
  /\ status (snd out) = 500
  /\ Stat (w_fs w) "/srv/survival/world.dat" = Some (Regular 420 "w")
  /\ Stat (w_fs (fst out)) "/srv/survival/world.dat" = None.
Proof. vm_compute. repeat split; reflexivity. Qed.

(** *** The size shown for a backup *)

Lemma scale_loop_spec bytes fuel :
  forall n div exp,
    1 <= n < 1024 ^ Z.of_nat fuel ->
    div = 1024 ^ (Z.of_nat exp + 1) ->
    div * n <= bytes < div * (n + 1) ->
    fst (scale_loop fuel n div exp) = 1024 ^ (Z.of_nat (snd (scale_loop fuel n div exp)) + 1)
    /\ fst (scale_loop fuel n div exp) <= bytes < fst (scale_loop fuel n div exp) * 1024.
Proof.
  induction fuel as [|fuel IH]; intros n div exp Hn Hdiv Hinv.
  { simpl in Hn. lia. }
  assert (0 < div) as Hpos by (subst div; apply Z.pow_pos_nonneg; lia).
  simpl scale_loop. destruct (n >=? 1024) eqn:E.
  - apply Z.geb_le in E.
    assert (n = 1024 * (n / 1024) + n mod 1024) as Hdm by (apply Z.div_mod; lia).
    assert (0 <= n mod 1024 < 1024) as Hmod by (apply Z.mod_pos_bound; lia).
    apply IH.
    + split; [lia|]. apply Z.div_lt_upper_bound; [lia|].
      rewrite Nat2Z.inj_succ, Z.pow_succ_r in Hn by lia. lia.
    + rewrite Nat2Z.inj_succ. subst div.
      replace (Z.succ (Z.of_nat exp) + 1) with (Z.succ (Z.of_nat exp + 1)) by lia.
      rewrite (Z.pow_succ_r 1024 (Z.of_nat exp + 1)) by lia. lia.
    + nia.
  - simpl. rewrite Z.geb_leb in E. apply Z.leb_gt in E. split; [assumption|]. nia.
Qed.

Lemma scale_unique bytes a b :
  1024 ^ (Z.of_nat a + 1) <= bytes < 1024 ^ (Z.of_nat a + 1) * 1024 ->
  1024 ^ (Z.of_nat b + 1) <= bytes < 1024 ^ (Z.of_nat b + 1) * 1024 ->
  a = b.
Proof.
  assert (forall x y : nat,
             1024 ^ (Z.of_nat x + 1) <= bytes ->
             bytes < 1024 ^ (Z.of_nat y + 1) * 1024 -> (x <= y)%nat) as Hle.
  { intros x y Hx Hy. destruct (Nat.le_gt_cases x y) as [H|H]; [assumption|].
    assert (1024 ^ (Z.of_nat y + 1) * 1024 <= 1024 ^ (Z.of_nat x + 1)); [|lia].
    rewrite Z.mul_comm, <- Z.pow_succ_r by lia.
    apply Z.pow_le_mono_r; lia. }
  intros [Ha1 Ha2] [Hb1 Hb2].
  apply Nat.le_antisymm; apply Hle; assumption.
Qed.

(** For every size from 1024 bytes up that an int64 holds, the loop of
    [FormatFileSize] ends by its own test, with an index that is within
    the six unit letters and a divisor that is the power of 1024 with
    that index: the largest power of 1024 that is not above the
    size. *)
Theorem FormatFileSize_scale bytes fuel :
  1024 <= bytes < 2 ^ 63 ->
  (7 <= fuel)%nat ->
  exists div exp,
    size_scale bytes = Some (div, exp)
    /\ scale_loop fuel (bytes / 1024) 1024 0 = (div, exp)
    /\ (exp < String.length unit_letters)%nat
    /\ div = 1024 ^ (Z.of_nat exp + 1)
    /\ div <= bytes < div * 1024.
Proof.
  intros Hb Hfuel.
  assert (bytes = 1024 * (bytes / 1024) + bytes mod 1024) as Hdm by (apply Z.div_mod; lia).
  assert (0 <= bytes mod 1024 < 1024) as Hmod by (apply Z.mod_pos_bound; lia).
  assert (forall f, (7 <= f)%nat ->
            fst (scale_loop f (bytes / 1024) 1024 0)
            = 1024 ^ (Z.of_nat (snd (scale_loop f (bytes / 1024) 1024 0)) + 1)
            /\ fst (scale_loop f (bytes / 1024) 1024 0) <= bytes
               < fst (scale_loop f (bytes / 1024) 1024 0) * 1024) as Hspec.
  { intros f Hf. apply scale_loop_spec; [|reflexivity|lia].
    split; [lia|].
    assert (2 ^ 63 <= 1024 ^ Z.of_nat f); [|lia].
    change (2 ^ 63) with (1024 ^ 6 * 8).
    assert (1024 ^ 7 <= 1024 ^ Z.of_nat f) by (apply Z.pow_le_mono_r; lia).
    change (1024 ^ 7) with (1024 ^ 6 * 1024) in H. lia. }
  destruct (Hspec 7%nat (le_n _)) as [H7 H7b].
  destruct (Hspec fuel Hfuel) as [Hf Hfb].
  destruct (scale_loop 7 (bytes / 1024) 1024 0) as [div exp] eqn:E7.
  destruct (scale_loop fuel (bytes / 1024) 1024 0) as [div' exp'] eqn:Ef.
  cbn [fst snd] in *. exists div, exp.
  assert (exp' = exp) as ->.
  { apply (scale_unique bytes); [rewrite <- Hf | rewrite <- H7]; assumption. }
  split.
  { unfold size_scale. destruct (bytes <? 1024) eqn:E; [apply Z.ltb_lt in E; lia|].
    now rewrite E7. }
  split; [congruence|]. split; [|split; assumption].
  destruct (Nat.lt_ge_cases exp 6) as [H|H]; [exact H|].
  assert (1024 ^ 7 <= 1024 ^ (Z.of_nat exp + 1)) by (apply Z.pow_le_mono_r; lia).
  change (1024 ^ 7) with (2 ^ 70) in H0.
  assert (2 ^ 63 < 2 ^ 70) by reflexivity. lia.
Qed.

Lemma FormatFileSize_scale_witness :
  exists div exp,
    size_scale 1536 = Some (div, exp)
    /\ scale_loop 9 (1536 / 1024) 1024 0 = (div, exp)
    /\ (exp < String.length unit_letters)%nat
    /\ div = 1024 ^ (Z.of_nat exp + 1)
    /\ div <= 1536 < div * 1024.
Proof.
  apply (FormatFileSize_scale 1536 9).
  - split; [lia | reflexivity].
  - lia.
Defined.

End BackupRequestProps.
(* ===================================================================== *)
(** ** The backup folder and the server folder on disk *)
(* ===================================================================== *)

Module DiskProps.
Import GoStr Path FS Archive Models BackupService Disk.
Import PathProps FSProps SafetyProps Fixtures MoreFixtures.
Local Open Scope Z_scope.

Ltac same_nodes :=
  split; [reflexivity|];
  let Ha := fresh in
  let Hb := fresh in
  split; [intros ? ? Ha; exact Ha
         | intros ? ? Ha Hb; rewrite Ha in Hb; discriminate].

(** A directory made: the nodes there were are kept, and the new ones
    are directories of mode [perm]. *)
Lemma mkdir_at_grows p perm fs :
  cwd (fst (mkdir_at p perm fs)) = cwd fs
  /\ (forall q n, nodes fs !! q = Some n -> nodes (fst (mkdir_at p perm fs)) !! q = Some n)
  /\ (forall q n, nodes (fst (mkdir_at p perm fs)) !! q = Some n ->
                  nodes fs !! q = None -> n = Directory perm).
Proof.
  unfold mkdir_at. destruct (node_at fs p) eqn:Hp; [simpl; same_nodes|].
  assert (nodes fs !! p = None) as Hnone.
  { destruct p; [discriminate | assumption]. }
  destruct (node_at fs (parent p)) as [[perm0|perm0 data]|];
    simpl; try same_nodes.
  split; [reflexivity|]. split.
  - intros q n Hq. rewrite lookup_insert_ne; [assumption | congruence].
  - intros q n Hq Hnew. destruct (decide (q = p)) as [->|Hne].
    + rewrite lookup_insert_eq in Hq. congruence.
    + rewrite lookup_insert_ne in Hq by congruence. congruence.
Qed.

Lemma mkdir_all_at_grows rp perm fs :
  cwd (fst (mkdir_all_at rp perm fs)) = cwd fs
  /\ (forall q n, nodes fs !! q = Some n ->
                  nodes (fst (mkdir_all_at rp perm fs)) !! q = Some n)
  /\ (forall q n, nodes (fst (mkdir_all_at rp perm fs)) !! q = Some n ->
                  nodes fs !! q = None -> n = Directory perm).
Proof.
  revert fs. induction rp as [|c rp IH]; intros fs.
  - simpl. same_nodes.
  - simpl mkdir_all_at. change (rev rp ++ [c])%list with (List.rev (c :: rp)).
    destruct (node_at fs (List.rev (c :: rp))) as [[perm0|perm0 data]|];
      try (simpl; same_nodes).
    destruct (IH fs) as (Hc & Hkeep & Hnew).
    destruct (mkdir_all_at rp perm fs) as [fs1 [e|]]; cbn [fst snd] in *; [auto|].
    destruct (mkdir_at_grows (List.rev (c :: rp)) perm fs1) as (Hc' & Hkeep' & Hnew').
    split; [congruence|]. split; [auto|].
    intros q n Hq Hnone. destruct (nodes fs1 !! q) as [n1|] eqn:H1.
    + rewrite (Hkeep' _ _ H1) in Hq. inversion Hq; subst. eauto.
    + eauto.
Qed.

Lemma WriteFile_outcome path data perm fs :
  match WriteFile path data perm fs with
  | (fs2, Some _) => fs2 = fs
  | (fs2, None) =>
      path <> "" /\ locate fs path <> []
      /\ exists perm', fs2 = with_nodes fs (<[locate fs path := Regular perm' data]> (nodes fs))
  end.
Proof.
  unfold WriteFile. destruct (String.eqb path "") eqn:E; [reflexivity|].
  apply String.eqb_neq in E.
  destruct (locate fs path) as [|c p] eqn:Hp; [reflexivity|].
  rewrite node_at_nonroot by discriminate.
  destruct (nodes fs !! (c :: p)) as [[perm0|perm0 data0]|]; [reflexivity| |].
  - split; [assumption|]. split; [discriminate | eauto].
  - destruct (node_at fs (parent (c :: p))) as [[perm0|perm0 data0]|]; try reflexivity.
    split; [assumption|]. split; [discriminate | eauto].
Qed.

Lemma Remove_regular_nodes path fs perm data :
  path <> "" ->
  locate fs path <> [] ->
  nodes fs !! locate fs path = Some (Regular perm data) ->
  fst (Remove path fs) = with_nodes fs (delete (locate fs path) (nodes fs)).
Proof.
  intros Hne Hp Hn. unfold Remove. apply String.eqb_neq in Hne. rewrite Hne.
  destruct (locate fs path) as [|c p] eqn:E; [congruence|].
  now rewrite Hn.
Qed.

(** [ValidateBackupPath] does no harm to what is on the disk: every
    node stays as it was, except a node at the path of the test file;
    what is new afterwards are directories of mode 0755 only; and when
    it returns nil, nothing is left at the path of the test file. *)
Theorem ValidateBackupPath_keeps_the_disk backupPath fs :
  let out := ValidateBackupPath backupPath fs in
  let testFile := Join backupPath ".write_test" in
  cwd (fst out) = cwd fs
  /\ (forall q n, nodes fs !! q = Some n -> q <> locate fs testFile ->
                  nodes (fst out) !! q = Some n)
  /\ (forall q n, nodes (fst out) !! q = Some n -> nodes fs !! q = None ->
                  n = Directory 493)
  /\ (snd out = None -> Stat (fst out) testFile = None).
Proof.
  intros out testFile. subst out. unfold ValidateBackupPath. fold testFile.
  assert (exists fs1 r,
             (if IsNotExist (Stat_err fs backupPath) then MkdirAll backupPath 493 fs
              else (fs, None)) = (fs1, r)
             /\ cwd fs1 = cwd fs
             /\ (forall q n, nodes fs !! q = Some n -> nodes fs1 !! q = Some n)
             /\ (forall q n, nodes fs1 !! q = Some n -> nodes fs !! q = None ->
                             n = Directory 493))
    as (fs1 & r & -> & Hc & Hkeep & Hnew).
  { destruct (IsNotExist (Stat_err fs backupPath)).
    - unfold MkdirAll. destruct (String.eqb backupPath "").
      + exists fs, (Some ENOENT). split; [reflexivity|]. same_nodes.
      + destruct (mkdir_all_at_grows (List.rev (locate fs backupPath)) 493 fs)
          as (H1 & H2 & H3).
        destruct (mkdir_all_at _ _ _) as [fs1 r]. exists fs1, r. auto.
    - exists fs, None. split; [reflexivity|]. same_nodes. }
  destruct r as [e|]; simpl.
  { split; [assumption|]. split; [auto|]. split; [assumption | discriminate]. }
  assert (locate fs1 testFile = locate fs testFile) as Hloc by now apply locate_same_cwd.
  pose proof (WriteFile_outcome testFile "test" 420 fs1) as Hw.
  destruct (WriteFile testFile "test" 420 fs1) as [fs2 [e|]]; simpl.
  { subst fs2. split; [assumption|]. split; [auto|]. split; [assumption | discriminate]. }
  destruct Hw as (Hne & Hp & perm' & ->).
  rewrite Remove_regular_nodes with (perm := perm') (data := "test");
    [|assumption|exact Hp|apply lookup_insert_eq].
  change (locate (with_nodes fs1 _) testFile) with (locate fs1 testFile).
  simpl. rewrite delete_insert_eq, Hloc in *.
  split; [assumption|]. split; [|split].
  - intros q n Hq Hneq. rewrite lookup_delete_ne by congruence. auto.
  - intros q n Hq Hnone. destruct (decide (q = locate fs testFile)) as [->|Hneq].
    + rewrite lookup_delete_eq in Hq. discriminate.
    + rewrite lookup_delete_ne in Hq by congruence. eauto.
  - intros _. unfold Stat. apply String.eqb_neq in Hne. rewrite Hne.
    match goal with
    | |- context [locate ?X testFile] =>
        replace (locate X testFile) with (locate fs testFile)
          by (unfold locate; simpl; now rewrite Hc)
    end.
    rewrite node_at_nonroot by assumption. simpl. apply lookup_delete_eq.
Qed.

Lemma ValidateBackupPath_keeps_the_disk_witness :
  Stat (fst (ValidateBackupPath "/backups/new" disk)) (Join "/backups/new" ".write_test")
  = None.
Proof.
  apply (ValidateBackupPath_keeps_the_disk "/backups/new" disk). vm_compute. reflexivity.
Defined.

(** *** Clearing the server folder *)

Lemma Split_app a b :
  Split (a ++ "/" ++ b) Separator = (Split a Separator ++ Split b Separator)%list.
Proof.
  induction a as [|c a IH].
  - reflexivity.
  - rewrite append_cons. simpl. rewrite IH.
    destruct (Ascii.eqb c Separator); [reflexivity|].
    pose proof (Split_nonempty a Separator) as Hne.
    destruct (Split a Separator) as [|h t]; [congruence | reflexivity].
Qed.

(** The path of an entry of a directory. *)
Lemma locate_child fs dirPath name :
  rooted dirPath = true -> plain name ->
  Join dirPath name <> ""
  /\ locate fs (Join dirPath name) = (locate fs dirPath ++ [name])%list.
Proof.
  intros Hr Hp. rewrite (Join_rooted _ _ Hr). split; [discriminate|].
  unfold locate. rewrite resolve_rooted_join by apply clean_elems_plain.
  rewrite (resolve_rooted _ _ Hr), Split_app.
  rewrite (Split_of_slash_free name) by apply Hp.
  unfold clean_elems. rewrite fold_left_app. simpl.
  destruct Hp as (N1 & N2 & N3 & _). unfold clean_step at 1.
  apply String.eqb_neq in N1, N2, N3. rewrite N1, N2, N3. reflexivity.
Qed.

Lemma is_prefix_spec a b : is_prefix a b = true <-> exists rest, b = (a ++ rest)%list.
Proof.
  revert b. induction a as [|x a IH]; intros b; simpl.
  - split; [eauto | reflexivity].
  - destruct b as [|y b].
    + split; [discriminate | intros [rest H]; discriminate].
    + rewrite andb_true_iff, String.eqb_eq, IH. split.
      * intros [-> [rest ->]]. eauto.
      * intros [rest H]. inversion H; subst. eauto.
Qed.

Lemma is_prefix_child root name k :
  is_prefix (root ++ [name]) k = true <-> exists rest, k = (root ++ name :: rest)%list.
Proof.
  rewrite is_prefix_spec. split; intros [rest ->]; exists rest; now rewrite <- app_assoc.
Qed.

Lemma RemoveAll_lookup path fs k :
  path <> "" ->
  cwd (RemoveAll path fs) = cwd fs
  /\ nodes (RemoveAll path fs) !! k
     = if is_prefix (locate fs path) k then None else nodes fs !! k.
Proof.
  intros Hne. unfold RemoveAll. apply String.eqb_neq in Hne. rewrite Hne. simpl.
  split; [reflexivity|].
  destruct (is_prefix (locate fs path) k) eqn:E.
  - apply map_lookup_filter_None. right. intros x _. simpl. congruence.
  - destruct (nodes fs !! k) as [n|] eqn:Hk.
    + apply map_lookup_filter_Some. auto.
    + apply map_lookup_filter_None. now left.
Qed.

Lemma remove_entries_lookup dirPath entries fs k :
  rooted dirPath = true -> Forall plain entries ->
  cwd (remove_entries dirPath entries fs) = cwd fs
  /\ nodes (remove_entries dirPath entries fs) !! k
     = if List.existsb (fun name => is_prefix (locate fs dirPath ++ [name]) k) entries
       then None else nodes fs !! k.
Proof.
  intros Hr. revert fs. induction entries as [|name rest IH]; intros fs Hplain.
  - simpl. auto.
  - inversion Hplain as [|? ? Hname Hrest]; subst. simpl.
    destruct (locate_child fs dirPath name Hr Hname) as [Hne Hloc].
    destruct (RemoveAll_lookup (Join dirPath name) fs k Hne) as [Hc Hl].
    destruct (IH (RemoveAll (Join dirPath name) fs) Hrest) as [Hc' Hl'].
    split; [congruence|]. rewrite Hl'.
    rewrite (locate_same_cwd fs (RemoveAll (Join dirPath name) fs) dirPath Hc).
    rewrite Hl, Hloc.
    destruct (is_prefix (locate fs dirPath ++ [name]) k); simpl; [|reflexivity].
    match goal with |- (if ?b then _ else _) = _ => now destruct b end.
Qed.

Lemma In_insert_sorted x y l : In x (insert_sorted y l) <-> x = y \/ In x l.
Proof.
  induction l as [|z l IH]; simpl; [intuition congruence|].
  destruct (String.leb y z); simpl; [intuition congruence|]. rewrite IH.
  intuition congruence.
Qed.

Lemma In_sort_names x l : In x (sort_names l) <-> In x l.
Proof.
  unfold sort_names. induction l as [|y l IH]; simpl; [reflexivity|].
  rewrite In_insert_sorted, IH. intuition congruence.
Qed.

Lemma child_name_spec p k name : child_name p k = Some name <-> k = (p ++ [name])%list.
Proof.
  unfold child_name. split.
  - destruct (is_prefix p k) eqn:E; [|discriminate].
    apply is_prefix_spec in E as [rest ->].
    rewrite skipn_app, Nat.sub_diag, skipn_all. simpl.
    destruct rest as [|a [|b rest]]; try discriminate. intros H. now inversion H.
  - intros ->. assert (is_prefix p (p ++ [name]) = true) as -> by (apply is_prefix_spec; eauto).
    rewrite skipn_app, Nat.sub_diag, skipn_all. reflexivity.
Qed.

(** The names [os.ReadDir] gives are those of the nodes directly below
    the directory. *)
Lemma children_spec fs p name :
  In name (children fs p) <-> is_Some (nodes fs !! (p ++ [name])%list).
Proof.
  unfold children. rewrite In_sort_names, <- list_elem_of_In, list_elem_of_omap. split.
  - intros ([k n] & Hin & Hc). simpl in Hc. apply child_name_spec in Hc. subst k.
    apply elem_of_map_to_list in Hin. eauto.
  - intros [n Hn]. exists (p ++ [name], n)%list. split.
    + now apply elem_of_map_to_list.
    + simpl. now apply child_name_spec.
Qed.

(** In a tree, what lies below a directory lies below one of its
    entries. *)
Lemma tree_has_entry fs root name rest n :
  tree_shaped fs ->
  nodes fs !! (root ++ name :: rest)%list = Some n ->
  is_Some (nodes fs !! (root ++ [name])%list).
Proof.
  intros Ht. revert n. induction rest as [|x rest IH] using rev_ind; intros n Hn; [eauto|].
  destruct (Ht _ _ Hn) as (_ & _ & perm & Hparent).
  assert (parent (root ++ name :: rest ++ [x]) = root ++ name :: rest)%list as Hp.
  { unfold parent. change (root ++ name :: rest ++ [x])%list
      with (root ++ (name :: rest) ++ [x])%list.
    rewrite app_assoc. apply removelast_last. }
  rewrite Hp in Hparent. rewrite node_at_nonroot in Hparent by (destruct root; discriminate).
  eapply IH; eauto.
Qed.

(** The loop of [clearDirectory] over the entries of a directory of a
    tree-shaped file system. *)
Lemma remove_entries_clears dirPath fs :
  tree_shaped fs ->
  rooted dirPath = true ->
  let fs1 := remove_entries dirPath (children fs (locate fs dirPath)) fs in
  same_outside (locate fs dirPath) fs fs1
  /\ (forall p, strictly_inside (locate fs dirPath) p -> nodes fs1 !! p = None)
  /\ (forall p n, nodes fs1 !! p = Some n -> nodes fs !! p = Some n).
Proof.
  intros Ht Hr fs1. subst fs1.
  assert (Forall plain (children fs (locate fs dirPath))) as Hplain.
  { apply Forall_forall. intros name Hin. apply list_elem_of_In, children_spec in Hin as [n Hn].
    destruct (Ht _ _ Hn) as (_ & Hall & _).
    apply Forall_app in Hall as [_ Hall]. now inversion Hall. }
  split; [split|split].
  - apply (remove_entries_lookup dirPath _ fs [] Hr Hplain).
  - intros p Hout.
    destruct (remove_entries_lookup dirPath _ fs p Hr Hplain) as [_ ->].
    destruct (existsb _ _) eqn:E; [|reflexivity].
    apply existsb_exists in E as (name & _ & Hpre).
    apply is_prefix_child in Hpre as [rest ->].
    destruct Hout. exists (name :: rest). split; [discriminate | reflexivity].
  - intros p (rest & Hne & ->).
    destruct (remove_entries_lookup dirPath _ fs (locate fs dirPath ++ rest)%list Hr Hplain)
      as [_ ->].
    destruct (existsb _ _) eqn:E; [reflexivity|].
    destruct (nodes fs !! (locate fs dirPath ++ rest)%list) as [n|] eqn:Hn; [|reflexivity].
    destruct rest as [|name rest]; [congruence|].
    pose proof (tree_has_entry _ _ _ _ _ Ht Hn) as Hentry.
    apply children_spec in Hentry.
    assert (existsb (fun name0 => is_prefix (locate fs dirPath ++ [name0])
                                            (locate fs dirPath ++ name :: rest))
                    (children fs (locate fs dirPath)) = true) as Hex.
    { apply existsb_exists. exists name. split; [assumption|].
      apply is_prefix_child. eauto. }
    congruence.
  - intros p n.
    destruct (remove_entries_lookup dirPath _ fs p Hr Hplain) as [_ ->].
    destruct (existsb _ _); [discriminate | auto].
Qed.

(** [clearDirectory] on a rooted path that names a directory of a
    tree-shaped file system: it returns nil, nothing is left inside the
    directory, and what is not inside it is as it was. *)
Theorem clearDirectory_empties_the_folder dirPath fs perm :
  tree_shaped fs ->
  rooted dirPath = true ->
  Stat fs dirPath = Some (Directory perm) ->
  let out := clearDirectory dirPath fs in
  snd out = true
  /\ same_outside (locate fs dirPath) fs (fst out)
  /\ forall p, strictly_inside (locate fs dirPath) p -> nodes (fst out) !! p = None.
Proof.
  intros Ht Hr Hstat out. subst out. unfold clearDirectory, ReadDir. rewrite Hstat. simpl.
  destruct (remove_entries_clears dirPath fs Ht Hr) as (H1 & H2 & _). auto.
Qed.

Lemma plainb_plain s : plainb s = true -> plain s.
Proof.
  unfold plainb, plain, slash_free. rewrite !andb_true_iff, !negb_true_iff.
  intros [[[H1 H2] H3] H4]. apply String.eqb_neq in H1, H2, H3. auto.
Qed.

Lemma tree_shapedb_tree_shaped fs : tree_shapedb fs = true -> tree_shaped fs.
Proof.
  unfold tree_shapedb. rewrite forallb_forall. intros H p n Hn.
  apply elem_of_map_to_list, list_elem_of_In in Hn. specialize (H _ Hn). cbn [fst] in H.
  destruct p as [|c p]; [discriminate|].
  apply andb_true_iff in H as [Hplain Hparent]. split; [discriminate|]. split.
  - apply Forall_forall. intros x Hx. apply plainb_plain.
    rewrite forallb_forall in Hplain. now apply Hplain, list_elem_of_In.
  - destruct (node_at fs (parent (c :: p))) as [[perm|perm data]|]; try discriminate. eauto.
Qed.

Lemma disk_tree_shaped : tree_shaped disk.
Proof. apply tree_shapedb_tree_shaped. vm_compute. reflexivity. Qed.

Lemma clearDirectory_empties_the_folder_witness :
  snd (clearDirectory "/srv/survival" disk) = true
  /\ same_outside (locate disk "/srv/survival") disk (fst (clearDirectory "/srv/survival" disk))
  /\ forall p, strictly_inside (locate disk "/srv/survival") p ->
               nodes (fst (clearDirectory "/srv/survival" disk)) !! p = None.
Proof.
  apply (clearDirectory_empties_the_folder "/srv/survival" disk 493).
  - apply disk_tree_shaped.
  - reflexivity.
  - vm_compute. reflexivity.
Defined.

(** *** Restoring an archive of benign names *)

(** Where an entry with a benign name goes: down from the destination
    by the names it is made of. *)
Lemma benign_target fs destPath names :
  rooted destPath = true -> names <> [] -> Forall plain names ->
  Join destPath (JoinStrings names "/")
  = "/" ++ JoinStrings (locate fs destPath ++ names) "/"
  /\ locate fs (Join destPath (JoinStrings names "/")) = (locate fs destPath ++ names)%list
  /\ Forall plain (locate fs destPath ++ names).
Proof.
  intros Hr Hne Hplain.
  assert (clean_elems true (Split (destPath ++ "/" ++ JoinStrings names "/") Separator)
          = (locate fs destPath ++ names)%list) as Hc.
  { rewrite Split_app, Split_JoinStrings by (try assumption; now apply plain_slash_free).
    unfold clean_elems. rewrite fold_left_app, fold_clean_of_plain by assumption.
    rewrite rev_app_distr, rev_involutive. unfold locate.
    now rewrite (resolve_rooted _ _ Hr). }
  assert (Forall plain (locate fs destPath ++ names)) as Hall.
  { apply Forall_app. split; [|assumption]. unfold locate.
    rewrite (resolve_rooted _ _ Hr). apply clean_elems_plain. }
  rewrite (Join_rooted _ _ Hr), Hc. split; [reflexivity|]. split; [|assumption].
  unfold locate at 1. now apply resolve_rooted_join.
Qed.

Lemma prefix_empty s : String.prefix "" s = true.
Proof. now destruct s. Qed.

Lemma prefix_app_same a b c : String.prefix (a ++ b) (a ++ c) = String.prefix b c.
Proof.
  induction a as [|x a IH]; [reflexivity|].
  now rewrite !append_cons, prefix_cons_same.
Qed.

Lemma prefix_JoinStrings D T :
  String.prefix (JoinStrings D "/") (JoinStrings (D ++ T) "/") = true.
Proof.
  induction D as [|d D IH]; [apply prefix_empty|].
  change ((d :: D) ++ T)%list with (d :: (D ++ T))%list.
  rewrite !JoinStrings_cons, prefix_app_same.
  destruct D as [|d' D]; [apply prefix_empty|].
  change (path_tail (d' :: D)) with ("/" ++ JoinStrings (d' :: D) "/").
  change (path_tail ((d' :: D) ++ T)) with ("/" ++ JoinStrings ((d' :: D) ++ T) "/").
  now rewrite prefix_app_same.
Qed.

Lemma Clean_of_plain names :
  Forall plain names ->
  Clean ("/" ++ JoinStrings names "/") = "/" ++ JoinStrings names "/".
Proof.
  intros Hp. rewrite Clean_rooted by reflexivity.
  rewrite <- (resolve_rooted [] ("/" ++ JoinStrings names "/")) by reflexivity.
  now rewrite resolve_rooted_join.
Qed.

(** The test of the backup extractor accepts an entry with a benign
    name. *)
Lemma benign_passes_prefix_test destPath names :
  rooted destPath = true -> names <> [] -> Forall plain names ->
  HasPrefix (Clean (Join destPath (JoinStrings names "/"))) (Clean destPath) = true.
Proof.
  intros Hr Hne Hplain.
  destruct (benign_target (mkFS [] ∅) destPath names Hr Hne Hplain) as (-> & _ & Hall).
  rewrite (Clean_of_plain _ Hall), (Clean_rooted _ Hr). unfold HasPrefix.
  rewrite prefix_app_same. unfold locate. rewrite (resolve_rooted _ _ Hr).
  apply prefix_JoinStrings.
Qed.

(** The loop of the backup extractor over entries with benign names:
    nothing outside the destination changes, and no entry is refused as
    an invalid path. *)
Lemma extract_backup_entries_confined destPath items fs :
  rooted destPath = true ->
  is_Some (node_at fs (locate fs destPath)) ->
  Forall benign_item items ->
  same_outside (locate fs destPath) fs (fst (extract_backup_entries destPath items fs))
  /\ forall name, snd (extract_backup_entries destPath items fs) <> Some (ErrInvalidPath name).
Proof.
  intros Hr. revert fs. induction items as [|item items IH]; intros fs Hroot Hben.
  - split; [apply same_outside_refl | discriminate].
  - inversion Hben as [|? ? Hitem Hrest]; subst.
    assert (forall fs', same_outside (locate fs destPath) fs fs' ->
              same_outside (locate fs destPath) fs
                           (fst (extract_backup_entries destPath items fs'))
              /\ forall name, snd (extract_backup_entries destPath items fs')
                              <> Some (ErrInvalidPath name)) as Hnext.
    { intros fs' S.
      assert (is_Some (node_at fs' (locate fs' destPath))) as Hroot'.
      { rewrite (same_outside_locate _ _ _ destPath S).
        now rewrite (same_outside_root _ _ _ S). }
      destruct (IH fs' Hroot' Hrest) as [S' E']. split; [|assumption].
      eapply same_outside_trans; [exact S|].
      now rewrite <- (same_outside_locate _ _ _ destPath S). }
    destruct item as [h b|]; [|split; [apply same_outside_refl | discriminate]].
    destruct Hitem as (names & Hne & Hplain & Hname).
    cbn [extract_backup_entries]. rewrite Hname.
    rewrite (benign_passes_prefix_test destPath names Hr Hne Hplain).
    simpl negb. cbv iota.
    assert (strictly_inside (locate fs destPath)
                            (locate fs (Join destPath (JoinStrings names "/")))) as Hin.
    { destruct (benign_target fs destPath names Hr Hne Hplain) as (_ & -> & _).
      now exists names. }
    destruct (write_entry_same_outside _ _ _ _ Hr Hroot Hin) as (S1 & S2 & S3).
    destruct (Typeflag h).
    + destruct (MkdirAll (Dir (Join destPath (JoinStrings names "/"))) 493 fs)
        as [fs1 [e|]]; simpl in S1; [split; [exact S1 | discriminate]|].
      specialize (S2 fs1 S1).
      destruct (Create (Join destPath (JoinStrings names "/")) fs1) as [fs2 [e|]];
        simpl in S2; [split; [exact S2 | discriminate]|].
      specialize (S3 fs2 b (Mode h) S2).
      destruct (Chmod _ _ _) as [fs3 [e|]]; simpl in S3; [split; [exact S3 | discriminate]|].
      now apply Hnext.
    + pose proof (MkdirAll_same_outside (locate fs destPath)
                    (Join destPath (JoinStrings names "/")) 493 fs Hroot) as S.
      assert (inside (locate fs destPath)
                     (locate fs (Join destPath (JoinStrings names "/")))) as Hin'
          by (destruct Hin as (rest & _ & ->); now exists rest).
      specialize (S Hin').
      destruct (MkdirAll (Join destPath (JoinStrings names "/")) 493 fs) as [fs1 [e|]];
        simpl in S; [split; [exact S | discriminate]|].
      now apply Hnext.
    + now apply IH.
Qed.

(** A restore from an archive whose entries have benign names, as the
    archives have that [CreateTarGzBackup] writes, into a rooted folder
    of a tree-shaped file system: whatever happens, nothing outside the
    server folder changes, and no entry is refused as an invalid
    path. *)
Theorem RestoreBackupFromArchive_confined codec backupFilePath serverFolderPath fs :
  tree_shaped fs ->
  rooted serverFolderPath = true ->
  (forall perm data tarBytes,
      Stat fs backupFilePath = Some (Regular perm data) ->
      gunzip codec data = Some tarBytes ->
      Forall benign_item (untar codec tarBytes)) ->
  let out := RestoreBackupFromArchive codec backupFilePath serverFolderPath fs in
  same_outside (locate fs serverFolderPath) fs (fst out)
  /\ forall name, snd out <> Some (ErrExtract (ErrInvalidPath name)).
Proof.
  intros Ht Hr Harch out. subst out. unfold RestoreBackupFromArchive.
  destruct (IsNotExist (Stat_err fs backupFilePath));
    [split; [apply same_outside_refl | discriminate]|].
  destruct (IsNotExist (Stat_err fs serverFolderPath));
    [split; [apply same_outside_refl | discriminate]|].
  unfold clearDirectory, ReadDir.
  destruct (Stat fs serverFolderPath) as [[perm1|perm1 data1]|] eqn:Hs;
    try (split; [apply same_outside_refl | discriminate]).
  destruct (remove_entries_clears serverFolderPath fs Ht Hr) as (S1 & _ & Hsub).
  set (fs1 := remove_entries serverFolderPath (children fs (locate fs serverFolderPath)) fs)
    in *.
  assert (is_Some (node_at fs1 (locate fs1 serverFolderPath))) as Hroot1.
  { rewrite (same_outside_locate _ _ _ serverFolderPath S1).
    rewrite (same_outside_root _ _ _ S1). unfold Stat in Hs.
    destruct (String.eqb serverFolderPath ""); [discriminate | eauto]. }
  assert (forall items, Forall benign_item items ->
            same_outside (locate fs serverFolderPath) fs
                         (fst (extract_backup_entries serverFolderPath items fs1))
            /\ forall name, snd (extract_backup_entries serverFolderPath items fs1)
                            <> Some (ErrInvalidPath name)) as Hext.
  { intros items Hben.
    destruct (extract_backup_entries_confined serverFolderPath items fs1 Hr Hroot1 Hben)
      as [S2 E2].
    split; [|assumption]. eapply same_outside_trans; [exact S1|].
    now rewrite <- (same_outside_locate _ _ _ serverFolderPath S1). }
  unfold extractTarGzBackup, Open.
  destruct (Stat fs1 backupFilePath) as [[perm|perm data]|] eqn:Hopen;
    try (simpl; split; [exact S1 | discriminate]).
  assert (Stat fs backupFilePath = Some (Regular perm data)) as Hsame.
  { unfold Stat in *. destruct (String.eqb backupFilePath ""); [discriminate|].
    rewrite (same_outside_locate _ _ _ backupFilePath S1) in Hopen.
    destruct (locate fs backupFilePath) as [|c p]; [discriminate|].
    simpl in *. now apply Hsub. }
  destruct (gunzip codec data) as [tarBytes|] eqn:Hz;
    [|simpl; split; [exact S1 | discriminate]].
  destruct (Hext _ (Harch _ _ _ Hsame Hz)) as [S2 E2].
  destruct (extract_backup_entries serverFolderPath (untar codec tarBytes) fs1)
    as [fs2 [e|]]; simpl in *; split; try assumption; [|discriminate].
  intros name Heq. inversion Heq; subst. now apply (E2 name).
Qed.

Lemma RestoreBackupFromArchive_confined_witness :
  let out := RestoreBackupFromArchive (reading_as [Entry inner_entry "motd=hello"] [])
                                      "/backups/a.tar.gz" "/srv/survival" disk in
  same_outside (locate disk "/srv/survival") disk (fst out)
  /\ forall name, snd out <> Some (ErrExtract (ErrInvalidPath name)).
Proof.
  apply (RestoreBackupFromArchive_confined (reading_as [Entry inner_entry "motd=hello"] [])
           "/backups/a.tar.gz" "/srv/survival" disk).
  - apply disk_tree_shaped.
  - reflexivity.
  - intros perm data tarBytes _ _. constructor; [|constructor].
    exists ["server.properties"]. split; [discriminate|]. split; [|reflexivity].
    constructor; [|constructor].
    split; [discriminate|]. split; [discriminate|]. split; [discriminate | reflexivity].
Defined.

End DiskProps.
(* ===================================================================== *)
(** ** From a backup to a restore *)
(* ===================================================================== *)

Module RoundTripProps.
Import GoStr Path FS Archive Models BackupService Disk.
Import PathProps FSProps SafetyProps DiskProps Fixtures MoreFixtures.
Local Open Scope Z_scope.

Lemma In_insert_walk x y l : In x (insert_walk y l) <-> x = y \/ In x l.
Proof.
  induction l as [|z l IH]; simpl; [intuition congruence|].
  destruct (path_leb (fst y) (fst z)); simpl; [intuition congruence|]. rewrite IH.
  intuition congruence.
Qed.

Lemma In_walk_order x l : In x (List.fold_right insert_walk [] l) <-> In x l.
Proof.
  induction l as [|y l IH]; simpl; [reflexivity|].
  rewrite In_insert_walk, IH. intuition congruence.
Qed.

(** The walk of a backup visits exactly the nodes below the source. *)
Lemma walk_below_spec fs root rel n :
  In (rel, n) (walk_below fs root) <->
  rel <> [] /\ nodes fs !! (root ++ rel)%list = Some n.
Proof.
  unfold walk_below. rewrite In_walk_order, <- list_elem_of_In, list_elem_of_omap. split.
  - intros ([k n'] & Hin & Hf). simpl in Hf. apply elem_of_map_to_list in Hin.
    destruct (is_prefix root k) eqn:E; [|discriminate].
    apply is_prefix_spec in E as [rest ->].
    rewrite skipn_app, Nat.sub_diag, skipn_all in Hf. simpl in Hf.
    destruct rest as [|a rest]; [discriminate|]. inversion Hf; subst.
    split; [discriminate | assumption].
  - intros [Hne Hn]. exists ((root ++ rel)%list, n). split.
    + now apply elem_of_map_to_list.
    + simpl. assert (is_prefix root (root ++ rel) = true) as ->
          by (apply is_prefix_spec; eauto).
      rewrite skipn_app, Nat.sub_diag, skipn_all. simpl.
      destruct rel; [congruence | reflexivity].
Qed.

(** In a tree, the names on the way down to a node name
    directories. *)
Lemma tree_ancestors fs root pre post n :
  tree_shaped fs ->
  nodes fs !! (root ++ pre ++ post)%list = Some n ->
  pre <> [] -> post <> [] ->
  exists perm, nodes fs !! (root ++ pre)%list = Some (Directory perm).
Proof.
  intros Ht. revert n. induction post as [|x post IH] using rev_ind; intros n Hn Hpre Hpost;
    [congruence|].
  destruct (Ht _ _ Hn) as (_ & _ & perm & Hparent).
  assert (parent (root ++ pre ++ post ++ [x]) = root ++ pre ++ post)%list as Hp.
  { unfold parent. rewrite !app_assoc. apply removelast_last. }
  rewrite Hp in Hparent.
  rewrite node_at_nonroot in Hparent by (destruct root, pre; try discriminate; congruence).
  destruct post as [|y post].
  - rewrite app_nil_r in Hparent. eauto.
  - eapply IH; [exact Hparent | assumption | discriminate].
Qed.

Lemma mkdir_all_at_nil perm fs : mkdir_all_at [] perm fs = (fs, None).
Proof. reflexivity. Qed.

Lemma mkdir_all_at_cons x rp perm fs :
  mkdir_all_at (x :: rp) perm fs
  = match node_at fs (List.rev (x :: rp)) with
    | Some (Directory _) => (fs, None)
    | Some (Regular _ _) => (fs, Some ENOTDIR)
    | None =>
        match mkdir_all_at rp perm fs with
        | (fs1, Some e) => (fs1, Some e)
        | (fs1, None) => mkdir_at (List.rev (x :: rp)) perm fs1
        end
    end.
Proof. reflexivity. Qed.

(** [os.MkdirAll] of a path below a directory, when the names on the
    way that are in use name directories: it succeeds, it keeps what
    there is, what it adds are directories on the way, and the path
    names a directory afterwards. *)
Lemma mkdir_all_below perm cur root rel :
  (exists p, node_at cur root = Some (Directory p)) ->
  (forall pre post n, rel = (pre ++ post)%list -> pre <> [] ->
                      nodes cur !! (root ++ pre)%list = Some n -> exists p, n = Directory p) ->
  exists cur',
    mkdir_all_at (List.rev (root ++ rel)) perm cur = (cur', None)
    /\ cwd cur' = cwd cur
    /\ (forall k n, nodes cur !! k = Some n -> nodes cur' !! k = Some n)
    /\ (forall k n, nodes cur' !! k = Some n -> nodes cur !! k = None ->
          n = Directory perm
          /\ exists pre post, rel = (pre ++ post)%list /\ pre <> [] /\ k = (root ++ pre)%list)
    /\ (exists p, node_at cur' (root ++ rel) = Some (Directory p)).
Proof.
  intros Hroot. induction rel as [|x rel IH] using rev_ind; intros Hdirs.
  - rewrite app_nil_r. destruct Hroot as [p Hp]. exists cur.
    assert (mkdir_all_at (List.rev root) perm cur = (cur, None)) as ->.
    { destruct (List.rev root) as [|c rp] eqn:E; [reflexivity|].
      rewrite mkdir_all_at_cons, <- E, rev_involutive, Hp. reflexivity. }
    split; [reflexivity|]. split; [reflexivity|]. split; [auto|]. split; [|eauto].
    intros k n Hk Hnone. congruence.
  - assert (List.rev (root ++ rel ++ [x]) = x :: List.rev (root ++ rel)) as Hrev
        by (rewrite app_assoc, rev_app_distr; reflexivity).
    rewrite Hrev, mkdir_all_at_cons, <- Hrev, rev_involutive.
    assert (root ++ rel ++ [x] <> [])%list as Hne by (destruct root, rel; discriminate).
    rewrite (node_at_nonroot _ _ Hne).
    destruct (nodes cur !! (root ++ rel ++ [x])%list) as [n|] eqn:Hn.
    + destruct (Hdirs (rel ++ [x])%list [] n) as [p ->];
        [now rewrite app_nil_r | destruct rel; discriminate | assumption|].
      exists cur. split; [reflexivity|]. split; [reflexivity|]. split; [auto|].
      split; [intros k n Hk Hnone; congruence|].
      exists p. now rewrite (node_at_nonroot _ _ Hne).
    + destruct IH as (cur1 & Hrun & Hc & Hkeep & Hnew & (p1 & Hdir)).
      { intros pre post n Hrel Hpre Hk. apply (Hdirs pre (post ++ [x])%list n); try assumption.
        rewrite Hrel. now rewrite app_assoc. }
      rewrite Hrun. unfold mkdir_at.
      assert (nodes cur1 !! (root ++ rel ++ [x])%list = None) as Hfree.
      { destruct (nodes cur1 !! (root ++ rel ++ [x])%list) as [n|] eqn:H1; [|reflexivity].
        destruct (Hnew _ _ H1 Hn) as (_ & pre & post & Hrel & _ & Heq).
        apply app_inv_head in Heq. rewrite Hrel in Heq.
        apply (f_equal (@List.length string)) in Heq.
        rewrite !length_app in Heq. simpl in Heq. lia. }
      rewrite (node_at_nonroot _ _ Hne), Hfree.
      assert (parent (root ++ rel ++ [x]) = root ++ rel)%list as Hp
          by (unfold parent; rewrite app_assoc; apply removelast_last).
      rewrite Hp, Hdir.
      eexists. split; [reflexivity|]. split; [assumption|]. split; [|split].
      * intros k n Hk. simpl. rewrite lookup_insert_ne; [auto|]. intros <-. congruence.
      * intros k n Hk Hnone. simpl in Hk.
        destruct (decide (k = root ++ rel ++ [x])%list) as [->|Hneq].
        -- rewrite lookup_insert_eq in Hk. inversion Hk; subst. split; [reflexivity|].
           exists (rel ++ [x])%list, []. rewrite app_nil_r.
           split; [reflexivity|]. split; [destruct rel; discriminate | reflexivity].
        -- rewrite lookup_insert_ne in Hk by congruence.
           destruct (Hnew _ _ Hk Hnone) as (-> & pre & post & Hrel & Hpre & ->).
           split; [reflexivity|]. exists pre, (post ++ [x])%list.
           rewrite Hrel, app_assoc. auto.
      * exists perm. rewrite (node_at_nonroot _ _ Hne). simpl. apply lookup_insert_eq.
Qed.


(** Writing one regular file: create, copy, chmod. *)
Lemma write_file_at path data mode fs p :
  path <> "" -> locate fs path = p -> p <> [] ->
  (forall perm, nodes fs !! p <> Some (Directory perm)) ->
  (nodes fs !! p = None -> exists perm, node_at fs (parent p) = Some (Directory perm)) ->
  exists fs2 fs3,
    Create path fs = (fs2, None)
    /\ Chmod path mode (write_data path data fs2) = (fs3, None)
    /\ cwd fs3 = cwd fs
    /\ nodes fs3 !! p = Some (Regular (Z.land mode 511) data)
    /\ forall k, k <> p -> nodes fs3 !! k = nodes fs !! k.
Proof.
  intros Hne Hloc Hp Hnodir Hparent.
  assert (exists q, Create path fs = (with_nodes fs (<[p := Regular q ""]> (nodes fs)), None))
    as [q Hcreate].
  { unfold Create. apply String.eqb_neq in Hne. rewrite Hne, Hloc.
    rewrite (node_at_nonroot _ _ Hp).
    destruct (nodes fs !! p) as [[perm|perm old]|] eqn:Hn.
    - now destruct (Hnodir perm).
    - eauto.
    - destruct (Hparent eq_refl) as [perm ->]. eauto. }
  set (fs2 := with_nodes fs (<[p := Regular q ""]> (nodes fs))) in *.
  assert (locate fs2 path = p) as Hloc2 by exact Hloc.
  assert (write_data path data fs2
          = with_nodes fs2 (<[p := Regular q data]> (nodes fs2))) as Hwrite.
  { unfold write_data. rewrite Hloc2, (node_at_nonroot _ _ Hp).
    subst fs2. simpl. now rewrite lookup_insert_eq. }
  exists fs2. eexists. split; [exact Hcreate|]. rewrite Hwrite.
  set (fs2' := with_nodes fs2 (<[p := Regular q data]> (nodes fs2))).
  assert (locate fs2' path = p) as Hloc3 by exact Hloc.
  unfold Chmod. apply String.eqb_neq in Hne. rewrite Hne, Hloc3.
  destruct p as [|c p]; [congruence|].
  rewrite node_at_nonroot by discriminate.
  assert (nodes fs2' !! (c :: p) = Some (Regular q data)) as -> by apply lookup_insert_eq.
  split; [reflexivity|]. split; [reflexivity|]. simpl. split.
  - apply lookup_insert_eq.
  - intros k Hk. now rewrite !lookup_insert_ne by congruence.
Qed.

Lemma Dir_of_rooted_nonempty names :
  names <> [] -> Forall plain names -> Dir ("/" ++ JoinStrings names "/") <> "".
Proof.
  intros Hne H. destruct names as [|t T]; [congruence|].
  assert (Split ("/" ++ JoinStrings (t :: T) "/") Separator = "" :: t :: T) as Hs.
  { change (Split ("/" ++ JoinStrings (t :: T) "/") Separator)
      with ("" :: Split (JoinStrings (t :: T) "/") Separator).
    rewrite Split_JoinStrings; [reflexivity | discriminate | now apply plain_slash_free]. }
  rewrite (Dir_pieces _ _ _ _ Hs).
  change (List.removelast ("" :: t :: T)) with ("" :: List.removelast (t :: T)).
  destruct (List.removelast (t :: T)) as [|r R]; [discriminate|].
  change (JoinStrings ("" :: r :: R) "/" ++ "/")
    with (String "/" (JoinStrings (r :: R) "/" ++ "/")).
  rewrite Clean_rooted by reflexivity. discriminate.
Qed.

Lemma plain_below fs root rel n :
  tree_shaped fs -> nodes fs !! (root ++ rel)%list = Some n -> Forall plain rel.
Proof.
  intros Ht Hn. destruct (Ht _ _ Hn) as (_ & Hall & _).
  now apply Forall_app in Hall as [_ Hall].
Qed.

(** One member of a backup written back: the loop goes on, in a file
    system that still mirrors the one archived, has kept every node it
    had, and has a node where the member belongs. *)
Lemma extract_member fs0 root0 destPath cur rel n0 rest :
  tree_shaped fs0 ->
  rooted destPath = true ->
  (exists p, node_at cur (locate cur destPath) = Some (Directory p)) ->
  mirrors fs0 root0 cur (locate cur destPath) ->
  rel <> [] ->
  nodes fs0 !! (root0 ++ rel)%list = Some n0 ->
  exists cur',
    extract_backup_entries destPath
      (Entry (fst (archive_member (rel, n0))) (snd (archive_member (rel, n0))) :: rest) cur
    = extract_backup_entries destPath rest cur'
    /\ cwd cur' = cwd cur
    /\ (exists p, node_at cur' (locate cur destPath) = Some (Directory p))
    /\ mirrors fs0 root0 cur' (locate cur destPath)
    /\ (forall k, is_Some (nodes cur !! k) -> is_Some (nodes cur' !! k))
    /\ is_Some (nodes cur' !! (locate cur destPath ++ rel)%list).
Proof.
  intros Ht Hr Hroot Hmir Hne Hn0.
  pose proof (plain_below _ _ _ _ Ht Hn0) as Hplain.
  destruct (benign_target cur destPath rel Hr Hne Hplain) as (Htarget & Hloc & Hall).
  set (root := locate cur destPath) in *.
  set (target := Join destPath (JoinStrings rel "/")) in *.
  assert (target <> "") as Htne by (rewrite Htarget; discriminate).
  assert (root ++ rel <> [])%list as Hnonroot by (destruct root, rel; try discriminate; congruence).
  (* the names on the way down that are in use name directories *)
  assert (forall pre post n, rel = (pre ++ post)%list -> pre <> [] -> post <> [] ->
            nodes cur !! (root ++ pre)%list = Some n -> exists p, n = Directory p) as Hway.
  { intros pre post n Hrel Hpre Hpost Hk.
    destruct (Hmir pre n Hpre Hk) as (n' & Hn' & ->).
    rewrite Hrel in Hn0.
    destruct (tree_ancestors _ _ _ _ _ Ht Hn0 Hpre Hpost) as [perm Hdir].
    rewrite Hdir in Hn'. inversion Hn'; subst. simpl. eauto. }
  (* what a directory made on the way down mirrors *)
  assert (forall rel' cur1,
            (exists post, rel = (rel' ++ post)%list
                          /\ (post = [] -> exists p, n0 = Directory p)) ->
            (forall k n, nodes cur !! k = Some n -> nodes cur1 !! k = Some n) ->
            (forall k n, nodes cur1 !! k = Some n -> nodes cur !! k = None ->
               n = Directory 493
               /\ exists pre post, rel' = (pre ++ post)%list /\ pre <> []
                                   /\ k = (root ++ pre)%list) ->
            mirrors fs0 root0 cur1 root) as Hmirror.
  { intros rel' cur1 (post' & Hrel' & Hlast) Hkeep Hnew r n Hrne Hk.
    destruct (nodes cur !! (root ++ r)%list) as [m|] eqn:Hold.
    - rewrite (Hkeep _ _ Hold) in Hk. inversion Hk; subst. now apply Hmir.
    - destruct (Hnew _ _ Hk Hold) as (-> & pre & post & Hsplit & Hpre & Heq).
      apply app_inv_head in Heq. subst r.
      assert (rel = pre ++ (post ++ post'))%list as Hrel
          by (rewrite Hrel', Hsplit; now rewrite app_assoc).
      destruct (post ++ post')%list as [|y ys] eqn:Htail.
      + apply app_eq_nil in Htail as [-> ->].
        destruct (Hlast eq_refl) as [p ->].
        rewrite Hrel, app_nil_r in Hn0. eauto.
      + rewrite Hrel in Hn0.
        destruct (tree_ancestors _ _ _ _ _ Ht Hn0 Hpre) as [perm Hdir]; [discriminate|].
        eauto. }
  destruct n0 as [perm|perm data].
  - (* a directory *)
    cbn [archive_member snd fst extract_backup_entries Archive.Name Typeflag Mode].
    rewrite (benign_passes_prefix_test destPath rel Hr Hne Hplain).
    simpl negb. cbv iota. fold target. unfold MkdirAll.
    apply String.eqb_neq in Htne. rewrite Htne, Hloc.
    destruct (mkdir_all_below 493 cur root rel Hroot) as (cur' & Hrun & Hc & Hkeep & Hnew & Hdir).
    { intros pre post n Hrel Hpre Hk. destruct post as [|y post].
      - destruct (Hmir pre n Hpre Hk) as (n' & Hn' & ->).
        rewrite Hrel, app_nil_r in Hn0. rewrite Hn0 in Hn'. inversion Hn'; subst.
        simpl. eauto.
      - apply (Hway pre (y :: post) n Hrel Hpre); [discriminate | assumption]. }
    rewrite Hrun. exists cur'. split; [reflexivity|]. split; [assumption|]. split; [|split; [|split]].
    + destruct Hroot as [p Hp]. destruct root as [|c root'] eqn:Eroot; [simpl; eauto|].
      exists p. simpl in *. now apply Hkeep.
    + apply (Hmirror rel cur'); [|assumption..].
      exists []. split; [now rewrite app_nil_r | eauto].
    + intros k [n Hk]. eauto.
    + destruct Hdir as [p Hp]. rewrite (node_at_nonroot _ _ Hnonroot) in Hp. eauto.
  - (* a regular file *)
    cbn [archive_member snd fst extract_backup_entries Archive.Name Typeflag Mode].
    rewrite (benign_passes_prefix_test destPath rel Hr Hne Hplain).
    simpl negb. cbv iota. fold target. unfold MkdirAll.
    assert (Dir target <> "") as Hdne
        by (rewrite Htarget; now apply Dir_of_rooted_nonempty;
            [destruct root, rel; try discriminate; congruence|]).
    apply String.eqb_neq in Hdne. rewrite Hdne.
    assert (locate cur (Dir target) = root ++ List.removelast rel)%list as Hdloc.
    { pose proof Hloc as Hloc'. unfold locate, target in Hloc'.
      unfold locate, target. rewrite (resolve_Dir_Join _ _ _ Hr), Hloc'.
      now apply removelast_app. }
    rewrite Hdloc.
    assert (exists last, rel = (List.removelast rel ++ [last])%list) as [last Hlast]
        by (exists (List.last rel ""); now apply app_removelast_last).
    destruct (mkdir_all_below 493 cur root (List.removelast rel) Hroot)
      as (cur1 & Hrun & Hc & Hkeep & Hnew & Hdir).
    { intros pre post n Hrel Hpre Hk.
      apply (Hway pre (post ++ [last])%list n); try assumption.
      - rewrite Hlast at 1. rewrite Hrel. now rewrite app_assoc.
      - destruct post; discriminate. }
    rewrite Hrun.
    assert (mirrors fs0 root0 cur1 root) as Hmir1.
    { apply (Hmirror (List.removelast rel) cur1); [|assumption..].
      exists [last]. split; [assumption | discriminate]. }
    assert (locate cur1 target = root ++ rel)%list as Hloc1
        by (rewrite (locate_same_cwd cur cur1 _ Hc); exact Hloc).
    destruct (write_file_at target data perm cur1 (root ++ rel)%list Htne Hloc1 Hnonroot)
      as (fs2 & fs3 & Hcreate & Hchmod & Hc3 & Hfile & Hothers).
    { intros q Hq. destruct (Hmir1 rel _ Hne Hq) as (n' & Hn' & Heq).
      rewrite Hn0 in Hn'. inversion Hn'; subst. discriminate. }
    { intros _. destruct Hdir as [p Hp]. exists p.
      assert (parent (root ++ rel) = root ++ List.removelast rel)%list as ->
          by (unfold parent; now apply removelast_app).
      exact Hp. }
    rewrite Hcreate, Hchmod. exists fs3. split; [reflexivity|].
    split; [congruence|]. split; [|split; [|split]].
    + destruct Hroot as [p Hp]. destruct root as [|c root'] eqn:Eroot; [simpl; eauto|].
      exists p. rewrite node_at_nonroot in * by discriminate.
      rewrite Hothers; [now apply Hkeep|].
      intros Heq. apply (f_equal (@List.length string)) in Heq.
      rewrite length_app in Heq. destruct rel; [congruence | simpl in Heq; lia].
    + intros r n Hrne Hk. destruct (decide (r = rel)) as [->|Hneq].
      * rewrite Hfile in Hk. inversion Hk; subst. eauto.
      * rewrite Hothers in Hk by (intros Heq; apply app_inv_head in Heq; congruence).
        now apply Hmir1.
    + intros k [n Hk]. destruct (decide (k = root ++ rel)%list) as [->|Hneq]; [eauto|].
      rewrite Hothers by assumption. eauto.
    + eauto.
Qed.


(** The members of a walk written back one after the other. *)
Lemma extract_members fs0 root0 destPath W :
  tree_shaped fs0 ->
  rooted destPath = true ->
  (forall rel n, In (rel, n) W -> rel <> [] /\ nodes fs0 !! (root0 ++ rel)%list = Some n) ->
  forall cur,
    (exists p, node_at cur (locate cur destPath) = Some (Directory p)) ->
    mirrors fs0 root0 cur (locate cur destPath) ->
    exists cur',
      extract_backup_entries destPath (items_of (List.map archive_member W)) cur = (cur', None)
      /\ cwd cur' = cwd cur
      /\ mirrors fs0 root0 cur' (locate cur destPath)
      /\ (forall k, is_Some (nodes cur !! k) -> is_Some (nodes cur' !! k))
      /\ (forall rel n, In (rel, n) W ->
            is_Some (nodes cur' !! (locate cur destPath ++ rel)%list)).
Proof.
  intros Ht Hr. induction W as [|[rel n0] W IH]; intros HW cur Hroot Hmir.
  - exists cur. simpl. repeat split; auto. intros rel n [].
  - destruct (HW rel n0 (or_introl eq_refl)) as [Hne Hn0].
    destruct (extract_member fs0 root0 destPath cur rel n0
                (items_of (List.map archive_member W)) Ht Hr Hroot Hmir Hne Hn0)
      as (cur1 & Hstep & Hc1 & Hroot1 & Hmir1 & Hkeep1 & Hhere).
    assert (locate cur1 destPath = locate cur destPath) as Hloc
        by now apply locate_same_cwd.
    destruct (IH (fun r n H => HW r n (or_intror H)) cur1) as
        (cur' & Hrun & Hc & Hmir' & Hkeep & Hall); [now rewrite Hloc..|].
    exists cur'.
    change (items_of (List.map archive_member ((rel, n0) :: W)))
      with (Entry (fst (archive_member (rel, n0))) (snd (archive_member (rel, n0)))
                  :: items_of (List.map archive_member W)).
    rewrite Hstep, Hrun. rewrite Hloc in *.
    split; [reflexivity|]. split; [congruence|]. split; [assumption|].
    split; [auto|]. intros r n [Heq|Hin].
    + inversion Heq; subst. auto.
    + eauto.
Qed.

Lemma members_benign fs0 root0 :
  tree_shaped fs0 ->
  Forall benign_item (items_of (List.map archive_member (walk_below fs0 root0))).
Proof.
  intros Ht. unfold items_of. rewrite List.map_map. apply Forall_forall.
  intros item Hin. apply list_elem_of_In, in_map_iff in Hin as ([rel n] & <- & Hin).
  apply walk_below_spec in Hin as [Hne Hn].
  exists rel. split; [assumption|]. split; [now apply (plain_below _ _ _ _ Ht Hn)|].
  now destruct n.
Qed.

(** The restore of an archive that reads back as the walk of a tree. *)
Lemma restore_of_archived_tree
        codec fs0 sourcePath fs backupFilePath serverFolderPath permd perm data tarBytes :
  tree_shaped fs0 ->
  tree_shaped fs ->
  rooted serverFolderPath = true ->
  Stat fs serverFolderPath = Some (Directory permd) ->
  Stat fs backupFilePath = Some (Regular perm data) ->
  ~ strictly_inside (locate fs serverFolderPath) (locate fs backupFilePath) ->
  gunzip codec data = Some tarBytes ->
  untar codec tarBytes
  = items_of (List.map archive_member (walk_below fs0 (locate fs0 sourcePath))) ->
  let out := RestoreBackupFromArchive codec backupFilePath serverFolderPath fs in
  snd out = None
  /\ same_outside (locate fs serverFolderPath) fs (fst out)
  /\ forall rel, rel <> [] ->
       nodes (fst out) !! (locate fs serverFolderPath ++ rel)%list
       = restored <$> nodes fs0 !! (locate fs0 sourcePath ++ rel)%list.
Proof.
  intros Ht0 Ht Hr Hfolder Harchive Houtside Hz Htar out. subst out.
  unfold RestoreBackupFromArchive.
  rewrite (Stat_found _ _ _ Harchive), (Stat_found _ _ _ Hfolder).
  unfold clearDirectory, ReadDir. rewrite Hfolder.
  destruct (remove_entries_clears serverFolderPath fs Ht Hr) as (S1 & Hempty & Hsub).
  set (fs1 := remove_entries serverFolderPath (children fs (locate fs serverFolderPath)) fs)
    in *.
  set (root := locate fs serverFolderPath) in *.
  assert (locate fs1 serverFolderPath = root) as Hloc1
      by apply (same_outside_locate _ _ _ _ S1).
  assert (exists p, node_at fs1 (locate fs1 serverFolderPath) = Some (Directory p)) as Hroot1.
  { rewrite Hloc1, (same_outside_root _ _ _ S1). unfold Stat in Hfolder.
    destruct (String.eqb serverFolderPath ""); [discriminate | eauto]. }
  assert (mirrors fs0 (locate fs0 sourcePath) fs1 (locate fs1 serverFolderPath)) as Hmir1.
  { intros rel n Hne Hk. rewrite Hloc1, Hempty in Hk; [discriminate|]. now exists rel. }
  assert (Stat fs1 backupFilePath = Some (Regular perm data)) as Harchive1.
  { unfold Stat in *. destruct (String.eqb backupFilePath ""); [discriminate|].
    rewrite (same_outside_locate _ _ _ backupFilePath S1).
    destruct (locate fs backupFilePath) as [|c p] eqn:Hp; [discriminate|].
    simpl in *. destruct S1 as [_ S1]. now rewrite S1. }
  unfold extractTarGzBackup, Open. rewrite Harchive1, Hz, Htar.
  destruct (extract_members fs0 (locate fs0 sourcePath) serverFolderPath
              (walk_below fs0 (locate fs0 sourcePath)) Ht0 Hr
              (fun rel n H => proj1 (walk_below_spec _ _ _ _) H) fs1 Hroot1 Hmir1)
    as (fs2 & Hrun & Hc & Hmir & Hkeep & Hall).
  destruct (extract_backup_entries_confined serverFolderPath
              (items_of (List.map archive_member (walk_below fs0 (locate fs0 sourcePath))))
              fs1 Hr) as [S2 _];
    [destruct Hroot1 as [p Hp]; eauto | now apply members_benign|].
  rewrite Hrun in *. simpl in *. rewrite Hloc1 in *.
  split; [reflexivity|]. split; [eapply same_outside_trans; eauto|].
  intros rel Hne.
  destruct (nodes fs0 !! (locate fs0 sourcePath ++ rel)%list) as [n0|] eqn:Hn0; simpl.
  - destruct (Hall rel n0) as [n Hn]; [now apply walk_below_spec|].
    destruct (Hmir rel n Hne Hn) as (n0' & Hn0' & ->). congruence.
  - destruct (nodes fs2 !! (root ++ rel)%list) as [n|] eqn:Hn; [|reflexivity].
    destruct (Hmir rel n Hne Hn) as (n0' & Hn0' & _). congruence.
Qed.

(** Backup and restore.  A restore into a rooted server folder of a
    tree-shaped file system, from an archive that lies outside that
    folder and reads back as the members [CreateTarGzBackup] wrote for
    the tree below a source folder, returns nil; afterwards the server
    folder holds exactly the archived tree, every file with its content
    and the permission bits of its mode, every directory with mode
    0755; and nothing outside the server folder has changed. *)
Theorem restore_gives_back_the_archived_tree
        codec fs0 sourcePath fs backupFilePath serverFolderPath permd perm data tarBytes :
  tree_shaped fs0 ->
  tree_shaped fs ->
  rooted serverFolderPath = true ->
  Stat fs serverFolderPath = Some (Directory permd) ->
  Stat fs backupFilePath = Some (Regular perm data) ->
  ~ strictly_inside (locate fs serverFolderPath) (locate fs backupFilePath) ->
  gunzip codec data = Some tarBytes ->
  untar codec tarBytes
  = items_of (List.map archive_member (walk_below fs0 (locate fs0 sourcePath))) ->
  let out := RestoreBackupFromArchive codec backupFilePath serverFolderPath fs in
  snd out = None
  /\ same_outside (locate fs serverFolderPath) fs (fst out)
  /\ forall rel, rel <> [] ->
       nodes (fst out) !! (locate fs serverFolderPath ++ rel)%list
       = restored <$> nodes fs0 !! (locate fs0 sourcePath ++ rel)%list.
Proof. apply restore_of_archived_tree. Qed.

Lemma restore_gives_back_the_archived_tree_witness :
  let codec :=
    reading_as (items_of (List.map archive_member (walk_below disk (locate disk "/srv/survival"))))
               [] in
  let out := RestoreBackupFromArchive codec "/backups/a.tar.gz" "/srv/survival" disk in
  snd out = None
  /\ same_outside (locate disk "/srv/survival") disk (fst out)
  /\ forall rel, rel <> [] ->
       nodes (fst out) !! (locate disk "/srv/survival" ++ rel)%list
       = restored <$> nodes disk !! (locate disk "/srv/survival" ++ rel)%list.
Proof.
  apply (restore_gives_back_the_archived_tree
           (reading_as (items_of (List.map archive_member
                                           (walk_below disk (locate disk "/srv/survival")))) [])
           disk "/srv/survival" disk "/backups/a.tar.gz" "/srv/survival" 493 420 "a" "a").
  - apply disk_tree_shaped.
  - apply disk_tree_shaped.
  - reflexivity.
  - vm_compute. reflexivity.
  - vm_compute. reflexivity.
  - intros (rest & _ & H). vm_compute in H. discriminate.
  - reflexivity.
  - reflexivity.
Defined.

End RoundTripProps.
(* ===================================================================== *)
(** ** The firing of a schedule *)
(* ===================================================================== *)

Module DispatcherProps.
Import GoStr Archive Models BackupService ScheduleService ScheduleModel Dispatcher.
Import Fixtures MoreFixtures.
Local Open Scope Z_scope.

(** A firing keeps to its action.  Only a backup touches the disk and
    the backup records, and a backup touches no process; a command, a
    restart or a stop does nothing to a server that is not running, and
    a start does nothing to one that is; an action that is none of the
    five changes nothing. *)
Theorem executeSchedule_keeps_to_its_action
        {proc : Type} (sup : supervisor proc) codec schedule dateStr randomID now p w server :
  GetServerByID sup (ServerID schedule) = Some server ->
  let out := executeSchedule sup codec schedule dateStr randomID now p w in
  (Action schedule <> "backup" -> snd (fst out) = w)
  /\ (Action schedule = "backup" -> fst (fst out) = p)
  /\ (IsServerRunning sup server p = false -> Action schedule <> "start_server" ->
      fst (fst out) = p)
  /\ (IsServerRunning sup server p = true -> Action schedule = "start_server" ->
      fst (fst out) = p /\ snd out = LogSkipped)
  /\ (~ In (Action schedule) validActions -> out = (p, w, LogUnknownAction)).
Proof.
  intros Hs out. subst out. unfold executeSchedule. rewrite Hs.
  unfold executeSendCommand, executeStartServer, executeRestartServer, executeStopServer.
  destruct (String.eqb (Action schedule) "send_command") eqn:E1.
  { apply String.eqb_eq in E1.
    destruct (IsServerRunning sup server p) eqn:Er; simpl.
    - destruct (SendCommand sup server (Command schedule) p) as [p1 [|]]; simpl;
        (split; [reflexivity|]); (split; [congruence|]); (split; [congruence|]);
        (split; [congruence|]); intros Hn; destruct Hn; rewrite E1; simpl; auto.
    - split; [reflexivity|]. split; [reflexivity|]. split; [reflexivity|].
      split; [congruence|]. intros Hn. destruct Hn. rewrite E1. simpl. auto. }
  destruct (String.eqb (Action schedule) "start_server") eqn:E2.
  { apply String.eqb_eq in E2.
    destruct (IsServerRunning sup server p) eqn:Er; simpl.
    - split; [reflexivity|]. split; [reflexivity|]. split; [reflexivity|].
      split; [auto|]. intros Hn. destruct Hn. rewrite E2. simpl. auto.
    - destruct (StartServer sup server p) as [p1 [|]]; simpl;
        (split; [reflexivity|]); (split; [congruence|]); (split; [congruence|]);
        (split; [congruence|]); intros Hn; destruct Hn; rewrite E2; simpl; auto. }
  destruct (String.eqb (Action schedule) "restart_server") eqn:E3.
  { apply String.eqb_eq in E3. apply String.eqb_neq in E2.
    destruct (IsServerRunning sup server p) eqn:Er; simpl.
    - destruct (RestartServer sup server p) as [p1 [|]]; simpl;
        (split; [reflexivity|]); (split; [congruence|]); (split; [congruence|]);
        (split; [congruence|]); intros Hn; destruct Hn; rewrite E3; simpl; auto.
    - split; [reflexivity|]. split; [reflexivity|]. split; [reflexivity|].
      split; [congruence|]. intros Hn. destruct Hn. rewrite E3. simpl. auto. }
  destruct (String.eqb (Action schedule) "stop_server") eqn:E4.
  { apply String.eqb_eq in E4. apply String.eqb_neq in E2.
    destruct (IsServerRunning sup server p) eqn:Er; simpl.
    - destruct (StopServer sup server p) as [p1 [|]]; simpl;
        (split; [reflexivity|]); (split; [congruence|]); (split; [congruence|]);
        (split; [congruence|]); intros Hn; destruct Hn; rewrite E4; simpl; auto.
    - split; [reflexivity|]. split; [reflexivity|]. split; [reflexivity|].
      split; [congruence|]. intros Hn. destruct Hn. rewrite E4. simpl. auto. }
  destruct (String.eqb (Action schedule) "backup") eqn:E5.
  { apply String.eqb_eq in E5. apply String.eqb_neq in E2.
    destruct (executeBackup codec server dateStr randomID now w) as [w1 l]. simpl.
    split; [congruence|]. split; [reflexivity|]. split; [reflexivity|].
    split; [congruence|]. intros Hn. destruct Hn. rewrite E5. simpl. auto 6. }
  apply String.eqb_neq in E1, E2, E3, E4, E5. simpl.
  split; [reflexivity|]. split; [reflexivity|]. split; [reflexivity|].
  split; [congruence | reflexivity].
Qed.

Lemma executeSchedule_keeps_to_its_action_witness :
  let out := executeSchedule one_process (reading_as [] []) hourly "20240101" "0001" 40
                             false three_backups in
  snd (fst out) = three_backups /\ fst (fst out) = false.
Proof.
  destruct (executeSchedule_keeps_to_its_action one_process (reading_as [] []) hourly
              "20240101" "0001" 40 false three_backups survival eq_refl)
    as (H1 & _ & H3 & _).
  split; [apply H1; discriminate | apply H3; [reflexivity | discriminate]].
Defined.

End DispatcherProps.

(* ===================================================================== *)
(** ** The cron expression *)
(* ===================================================================== *)

Module ExpressionProps.
Import GoStr Cron PathProps.
Local Open Scope Z_scope.

Lemma Split_one a c : Contains a c = false -> Split a c = [a].
Proof.
  induction a as [|x a IH]; simpl; intros H; [reflexivity|].
  apply orb_false_iff in H as [Hx Ha]. now rewrite Hx, (IH Ha).
Qed.

Lemma Split_at a rest c :
  Contains a c = false -> Split (a ++ String c rest) c = a :: Split rest c.
Proof.
  induction a as [|x a IH]; intros H.
  - simpl. now rewrite Ascii.eqb_refl.
  - simpl in H. apply orb_false_iff in H as [Hx Ha].
    rewrite append_cons. simpl. now rewrite Hx, (IH Ha).
Qed.

Lemma length_Split_app a b c :
  List.length (Split (a ++ String c b) c)
  = (List.length (Split a c) + List.length (Split b c))%nat.
Proof.
  induction a as [|x a IH].
  - simpl. now rewrite Ascii.eqb_refl.
  - rewrite append_cons. simpl. destruct (Ascii.eqb x c); simpl; [now rewrite IH|].
    pose proof (Split_nonempty a c) as Ha.
    pose proof (Split_nonempty (a ++ String c b) c) as Hab.
    destruct (Split (a ++ String c b) c) as [|h t]; [congruence|].
    destruct (Split a c) as [|h' t']; [congruence|]. simpl in *. exact IH.
Qed.

Lemma length_Split_one a c :
  List.length (Split a c) = 1%nat <-> Contains a c = false.
Proof.
  split; [|intros H; now rewrite Split_one].
  induction a as [|x a IH]; simpl; [reflexivity|].
  pose proof (Split_nonempty a c) as Ha.
  destruct (Ascii.eqb x c); simpl.
  - destruct (Split a c); [congruence | discriminate].
  - destruct (Split a c) as [|h t]; [congruence|]. simpl in *. exact IH.
Qed.

(** The expression built from the five fields splits at the spaces
    into the five fields again when no field holds a space, and into
    more than five pieces otherwise. *)
Theorem GetCronExpression_reads_back cm ch cdom cmon cdow :
  let pieces := Split (GetCronExpression cm ch cdom cmon cdow) " "%char in
  (Forall (fun f => Contains f " "%char = false) [cm; ch; cdom; cmon; cdow] ->
   pieces = [cm; ch; cdom; cmon; cdow])
  /\ (List.length pieces = 5%nat <->
      Forall (fun f => Contains f " "%char = false) [cm; ch; cdom; cmon; cdow]).
Proof.
  intros pieces. subst pieces. unfold GetCronExpression.
  change (" " ++ ?x) with (String " "%char x).
  assert (forall a b, a ++ " " ++ b = a ++ String " "%char b) as Hsp by reflexivity.
  rewrite !Hsp. split.
  - intros H. inversion H as [|? ? H1 H']; subst. inversion H' as [|? ? H2 H'']; subst.
    inversion H'' as [|? ? H3 H4']; subst. inversion H4' as [|? ? H4 H5']; subst.
    inversion H5' as [|? ? H5 _]; subst.
    now rewrite !Split_at, Split_one by assumption.
  - rewrite !length_Split_app.
    assert (forall s, (1 <= List.length (Split s " "%char))%nat) as Hpos
        by (intros s; pose proof (Split_nonempty s " "%char);
            destruct (Split s " "%char); [congruence | simpl; lia]).
    pose proof (Hpos cm). pose proof (Hpos ch). pose proof (Hpos cdom).
    pose proof (Hpos cmon). pose proof (Hpos cdow).
    split.
    + intros Hlen. repeat constructor; apply length_Split_one; lia.
    + intros H'. inversion H' as [|? ? F1 Ha]; subst. inversion Ha as [|? ? F2 Hb]; subst.
      inversion Hb as [|? ? F3 Hc]; subst. inversion Hc as [|? ? F4 Hd]; subst.
      inversion Hd as [|? ? F5 _]; subst.
      apply length_Split_one in F1, F2, F3, F4, F5. lia.
Qed.

Lemma GetCronExpression_reads_back_witness :
  Split (GetCronExpression "0" "*/2" "1-15" "*" "1,3") " "%char
  = ["0"; "*/2"; "1-15"; "*"; "1,3"].
Proof.
  apply (GetCronExpression_reads_back "0" "*/2" "1-15" "*" "1,3").
  repeat constructor.
Defined.

(** A field that the validator accepts can hold a space; the
    expression then has a sixth piece. *)
Example accepted_field_with_a_space :
  ValidateCronField "minute" "1, 2" = None
  /\ Split (GetCronExpression "1, 2" "*" "*" "*" "*") " "%char
     = ["1,"; "2"; "*"; "*"; "*"; "*"].
Proof. split; vm_compute; reflexivity. Qed.

End ExpressionProps.

(* ===================================================================== *)
(** ** Instances *)
(* ===================================================================== *)

Module Instances.
Import GoStr Path FS Archive FilesHandler Models BackupService BackupsHandler Fixtures.
Local Open Scope Z_scope.

Lemma file_manager_extractors_stay_inside_witness :
  same_outside (locate disk "/srv/survival") disk
               (fst (extractTarGz (reading_as escaping escaping_zip) "/backups/a.tar.gz"
                                  "/srv/survival" disk))
  /\ same_outside (locate disk "/srv/survival") disk
                  (fst (extractTar (reading_as escaping escaping_zip) "/backups/a.tar.gz"
                                   "/srv/survival" disk))
  /\ same_outside (locate disk "/srv/survival") disk
                  (fst (extractZip (reading_as escaping escaping_zip) "/backups/a.tar.gz"
                                   "/srv/survival" disk)).
Proof.
  apply (SafetyProps.file_manager_extractors_stay_inside
           (reading_as escaping escaping_zip) "/backups/a.tar.gz" "/srv/survival" disk).
  - reflexivity.
  - vm_compute. eauto.
Defined.

Lemma CreateBackup_removes_archive_when_insert_fails_witness :
  Stat (w_fs (fst (CreateBackup (reading_as [] []) (Some survival) "20240101" "0001" 40
                                insert_fails)))
       (Join (Models.BackupPath survival)
             (GenerateBackupFileName (Models.Name survival) "20240101" "0001"))
  = None.
Proof.
  apply (BackupProps.CreateBackup_removes_archive_when_insert_fails
           (reading_as [] []) survival "20240101" "0001" 40 insert_fails
           (fst (CreateBackup (reading_as [] []) (Some survival) "20240101" "0001" 40
                              insert_fails))
           (snd (CreateBackup (reading_as [] []) (Some survival) "20240101" "0001" 40
                              insert_fails))).
  - apply surjective_pairing.
  - vm_compute. reflexivity.
Defined.

End Instances.
(* ===================================================================== *)
(** ** The file manager *)
(* ===================================================================== *)

Module FileManagerProps.
Import GoStr Path FS Models BackupsHandler FileManager.
Import PathProps FSProps SafetyProps DiskProps Fixtures MoreFixtures.
Local Open Scope Z_scope.

(** A cleaned rooted path is the separator and plain names joined, and
    it resolves to those names. *)
Lemma Clean_rooted_form s :
  rooted s = true ->
  exists T, Forall plain T
            /\ Clean s = "/" ++ JoinStrings T "/"
            /\ forall fs, locate fs (Clean s) = T.
Proof.
  intros Hr. exists (clean_elems true (Split s Separator)).
  split; [apply clean_elems_plain|]. split; [now apply Clean_rooted|].
  intros fs. rewrite (Clean_rooted _ Hr). unfold locate.
  apply resolve_rooted_join, clean_elems_plain.
Qed.

Lemma Clean_Clean s : rooted s = true -> Clean (Clean s) = Clean s.
Proof.
  intros Hr. destruct (Clean_rooted_form s Hr) as (T & Hp & -> & _).
  now apply Clean_of_plain.
Qed.

Lemma rooted_Clean s : rooted s = true -> rooted (Clean s) = true.
Proof. intros Hr. now rewrite (Clean_rooted _ Hr). Qed.

Lemma Join_is_Clean a b : rooted a = true -> Join a b = Clean (a ++ "/" ++ b).
Proof. intros Hr. unfold Join. now rewrite (rooted_nonempty _ Hr). Qed.

Lemma Join3_is_Clean a b c :
  rooted a = true -> exists raw, rooted raw = true /\ Join3 a b c = Clean raw.
Proof.
  intros Hr. unfold Join3. cbn [List.filter]. rewrite (rooted_nonempty _ Hr).
  destruct (String.eqb b ""), (String.eqb c ""); cbn [negb];
    (eexists; split; [|reflexivity]); rewrite JoinStrings_cons; now apply rooted_app.
Qed.

(** The paths the handlers test are cleaned rooted paths. *)
Lemma full_path_is_Clean server currentPath name :
  rooted (FolderPath server) = true ->
  exists raw, rooted raw = true /\ Clean (full_path server currentPath name) = Clean raw.
Proof.
  intros Hr. unfold full_path.
  destruct (String.eqb currentPath "/" || String.eqb currentPath "").
  - exists (FolderPath server ++ "/" ++ name). split; [now apply rooted_app|].
    rewrite (Join_is_Clean _ _ Hr). apply Clean_Clean. now apply rooted_app.
  - destruct (Join3_is_Clean (FolderPath server) (TrimPrefix currentPath "/") name Hr)
      as (raw & Hraw & ->).
    exists raw. split; [assumption | now apply Clean_Clean].
Qed.

Lemma prefix_in_name d t x :
  slash_free d -> String.prefix d (t ++ "/" ++ x) = true -> String.prefix d t = true.
Proof.
  unfold slash_free. revert t. induction d as [|a d IH]; intros t Hd H;
    [apply prefix_empty|].
  simpl in Hd. apply orb_false_iff in Hd as [Ha Hd].
  destruct t as [|b t].
  - change ("" ++ "/" ++ x) with (String "/" x) in H.
    apply prefix_cons in H as [-> _]. discriminate.
  - rewrite append_cons in H. apply prefix_cons in H as [-> H].
    rewrite prefix_cons_same. now apply IH.
Qed.

Lemma prefix_of_empty s : String.prefix s "" = true -> s = "".
Proof. destruct s; [reflexivity | discriminate]. Qed.

(** What the test of the handlers, a comparison of strings, says of the
    names of the two paths. *)
Lemma prefix_near D T :
  Forall plain D -> Forall plain T ->
  String.prefix (JoinStrings D "/") (JoinStrings T "/") = true ->
  near D T.
Proof.
  intros HD. revert T. induction D as [|d D IH]; intros T HT H; [now left|].
  inversion HD as [|? ? Hd HD']; subst.
  destruct T as [|t T].
  { rewrite JoinStrings_cons in H. apply prefix_of_empty in H.
    destruct Hd as [Hne _]. destruct d; [congruence | discriminate]. }
  inversion HT as [|? ? Ht HT']; subst.
  rewrite !JoinStrings_cons in H. right. destruct D as [|d2 D].
  - change (path_tail []) with "" in H. rewrite append_empty_r in H.
    exists [], d, t, T. split; [reflexivity|]. split; [reflexivity|].
    destruct T as [|t2 T].
    + change (path_tail []) with "" in H. now rewrite append_empty_r in H.
    + change (path_tail (t2 :: T)) with ("/" ++ JoinStrings (t2 :: T) "/") in H.
      eapply prefix_in_name; [apply Hd | exact H].
  - change (path_tail (d2 :: D)) with ("/" ++ JoinStrings (d2 :: D) "/") in H.
    apply prefix_name in H as [-> H]; [|apply Hd | apply Ht].
    destruct T as [|t2 T]; [discriminate|].
    change (path_tail (t2 :: T)) with ("/" ++ JoinStrings (t2 :: T) "/") in H.
    change ("/" ++ ?x) with (String "/" x) in H. rewrite prefix_cons_same in H.
    destruct (IH HD' (t2 :: T) HT' H) as [Hnil|(pre & e & e' & rest & HDeq & HTeq & Hpre)];
      [discriminate|].
    exists (t :: pre), e, e', rest. rewrite HDeq, HTeq. auto.
Qed.

Lemma near_below D q p : near D q -> is_prefix q p = true -> near D p.
Proof.
  intros [->|(pre & d & d' & rest & HD & -> & Hpre)] Hq; [now left|].
  apply is_prefix_spec in Hq as [more ->]. right.
  exists pre, d, d', (rest ++ more)%list. rewrite <- app_assoc. auto.
Qed.

(** A path that passes the test of the handlers lies near the folder
    of the server. *)
Lemma passes_test_near folderPath raw fs :
  rooted folderPath = true -> Clean folderPath = folderPath -> rooted raw = true ->
  HasPrefix (Clean raw) folderPath = true ->
  near (locate fs folderPath) (locate fs (Clean raw)).
Proof.
  intros HrF HcF Hraw Htest.
  destruct (Clean_rooted_form folderPath HrF) as (D & HD & HF & HlocF).
  destruct (Clean_rooted_form raw Hraw) as (T & HT & HP & HlocP).
  rewrite HlocP. rewrite <- HcF, HlocF.
  unfold HasPrefix in Htest. rewrite <- HcF, HF, HP in Htest.
  change ("/" ++ ?x) with (String "/" x) in Htest. rewrite prefix_cons_same in Htest.
  now apply prefix_near.
Qed.

Lemma mkdir_at_changes p perm fs q :
  nodes (fst (mkdir_at p perm fs)) !! q <> nodes fs !! q ->
  q = p /\ nodes fs !! q = None
  /\ nodes (fst (mkdir_at p perm fs)) !! q = Some (Directory perm).
Proof.
  unfold mkdir_at. destruct (node_at fs p) eqn:Hp; [simpl; congruence|].
  assert (nodes fs !! p = None) as Hnone by (destruct p; [discriminate | assumption]).
  destruct (node_at fs (parent p)) as [[perm0|perm0 data]|]; simpl; try congruence.
  intros H. destruct (decide (q = p)) as [->|Hne].
  - rewrite lookup_insert_eq. auto.
  - rewrite lookup_insert_ne in H by congruence. congruence.
Qed.

Lemma Create_new_changes path fs q :
  Stat fs path = None ->
  nodes (fst (Create path fs)) !! q <> nodes fs !! q ->
  q = locate fs path /\ nodes fs !! q = None
  /\ nodes (fst (Create path fs)) !! q = Some (Regular 438 "").
Proof.
  unfold Stat, Create. destruct (String.eqb path ""); [simpl; congruence|].
  destruct (locate fs path) as [|c p] eqn:Hp; [discriminate|].
  rewrite !node_at_nonroot by discriminate. intros Hnone. rewrite Hnone.
  destruct (node_at fs (parent (c :: p))) as [[perm0|perm0 data]|]; simpl; try congruence.
  intros H. destruct (decide (q = c :: p)) as [->|Hne].
  - rewrite lookup_insert_eq. auto.
  - rewrite lookup_insert_ne in H by congruence. congruence.
Qed.

(** The loop of [DeleteFiles]: it only removes, and what it removes
    lies near the folder of the server. *)
Lemma delete_each_changes folderPath fullPath names fs q :
  rooted folderPath = true -> Clean folderPath = folderPath -> rooted fullPath = true ->
  nodes (fst (fst (delete_each folderPath fullPath names fs))) !! q <> nodes fs !! q ->
  near (locate fs folderPath) q
  /\ nodes (fst (fst (delete_each folderPath fullPath names fs))) !! q = None.
Proof.
  intros HrF HcF Hfull. revert fs. induction names as [|name names IH]; intros fs H.
  - simpl in H. congruence.
  - simpl in *.
    destruct (HasPrefix (Join fullPath name) folderPath) eqn:Htest; simpl in *.
    + destruct (IsNotExist (Stat_err fs (Join fullPath name)));
        [|destruct (RemoveAll_fails fs (Join fullPath name))].
      * specialize (IH fs).
        destruct (delete_each folderPath fullPath names fs) as [[fs1 n1] errors].
        simpl in *. now apply IH.
      * specialize (IH fs).
        destruct (delete_each folderPath fullPath names fs) as [[fs1 n1] errors].
        simpl in *. now apply IH.
      * specialize (IH (RemoveAll (Join fullPath name) fs)).
        destruct (delete_each folderPath fullPath names (RemoveAll (Join fullPath name) fs))
          as [[fs1 n1] errors]. simpl in *.
        assert (Join fullPath name <> "") as Hne
            by (rewrite (Join_rooted _ _ Hfull); discriminate).
        destruct (RemoveAll_lookup (Join fullPath name) fs q Hne) as [Hc Hl].
        rewrite (locate_same_cwd fs (RemoveAll (Join fullPath name) fs) _ Hc) in IH.
        destruct (is_prefix (locate fs (Join fullPath name)) q) eqn:Hpre;
          [|apply IH; now rewrite Hl].
        split.
        -- apply (near_below _ (locate fs (Join fullPath name))); [|assumption].
           rewrite (Join_is_Clean _ _ Hfull) in *.
           apply passes_test_near; try assumption. now apply rooted_app.
        -- destruct (nodes fs1 !! q) as [m|] eqn:Hq; [|reflexivity].
           apply IH. rewrite Hl. discriminate.
    + specialize (IH fs).
      destruct (delete_each folderPath fullPath names fs) as [[fs1 n1] errors].
      simpl in *. now apply IH.
Qed.

(** The handlers of the file manager that create a directory, create a
    file and delete files, for a server whose folder path is rooted and
    clean: whatever the request, a node that differs afterwards lies
    near the folder of the server, that is in it or in a folder beside
    it whose name begins with the folder's name.  Creating adds one
    node where there was none, a directory or an empty regular file;
    deleting only removes.  (Of the mode of what is created nothing is
    said: the process's umask, which the model leaves out, takes bits
    away from the 0755 and 0666 that are asked for.) *)
Theorem file_manager_stays_near server formOk currentPath name fileNames fs p :
  rooted (FolderPath server) = true ->
  Clean (FolderPath server) = FolderPath server ->
  (nodes (fst (CreateDirectory (Some server) formOk currentPath name fs)) !! p
   <> nodes fs !! p ->
   near (locate fs (FolderPath server)) p
   /\ nodes fs !! p = None
   /\ exists perm,
       nodes (fst (CreateDirectory (Some server) formOk currentPath name fs)) !! p
       = Some (Directory perm))
  /\ (nodes (fst (CreateNewFile (Some server) formOk currentPath name fs)) !! p
      <> nodes fs !! p ->
      near (locate fs (FolderPath server)) p
      /\ nodes fs !! p = None
      /\ exists perm,
          nodes (fst (CreateNewFile (Some server) formOk currentPath name fs)) !! p
          = Some (Regular perm ""))
  /\ (nodes (fst (DeleteFiles (Some server) formOk currentPath fileNames fs)) !! p
      <> nodes fs !! p ->
      near (locate fs (FolderPath server)) p
      /\ nodes (fst (DeleteFiles (Some server) formOk currentPath fileNames fs)) !! p = None).
Proof.
  intros HrF HcF.
  destruct (full_path_is_Clean server currentPath name HrF) as (raw & Hraw & Hclean).
  split; [|split].
  - unfold CreateDirectory. destruct formOk; simpl; [|congruence].
    destruct (String.eqb name ""); [simpl; congruence|].
    rewrite Hclean.
    destruct (HasPrefix (Clean raw) (FolderPath server)) eqn:Htest; simpl; [|congruence].
    destruct (Stat fs (Clean raw)); [simpl; congruence|].
    unfold Mkdir. destruct (String.eqb (Clean raw) ""); [simpl; congruence|].
    intros H.
    assert (nodes (fst (mkdir_at (locate fs (Clean raw)) 493 fs)) !! p <> nodes fs !! p) as H'
        by (destruct (mkdir_at (locate fs (Clean raw)) 493 fs) as [fs1 [e|]]; exact H).
    apply mkdir_at_changes in H' as (-> & Hnone & Hnew).
    split; [now apply passes_test_near|]. split; [assumption|]. exists 493.
    destruct (mkdir_at (locate fs (Clean raw)) 493 fs) as [fs1 [e|]]; exact Hnew.
  - unfold CreateNewFile. destruct formOk; simpl; [|congruence].
    destruct (String.eqb name ""); [simpl; congruence|].
    destruct (Contains name "."); simpl; [|congruence].
    rewrite Hclean.
    destruct (HasPrefix (Clean raw) (FolderPath server)) eqn:Htest; simpl; [|congruence].
    destruct (Stat fs (Clean raw)) eqn:Hstat; [simpl; congruence|].
    intros H.
    assert (nodes (fst (Create (Clean raw) fs)) !! p <> nodes fs !! p) as H'
        by (destruct (Create (Clean raw) fs) as [fs1 [e|]]; exact H).
    apply (Create_new_changes _ _ _ Hstat) in H' as (-> & Hnone & Hnew).
    split; [now apply passes_test_near|]. split; [assumption|]. exists 438.
    destruct (Create (Clean raw) fs) as [fs1 [e|]]; exact Hnew.
  - unfold DeleteFiles. destruct formOk; cbn [negb]; [|simpl; congruence].
    destruct fileNames as [[|n0 names]|]; [simpl; congruence| |simpl; congruence].
    match goal with
    | |- context [delete_each _ ?f _ _] => set (fullPath := f)
    end.
    assert (rooted fullPath = true) as Hfull.
    { subst fullPath. destruct (String.eqb currentPath "/" || String.eqb currentPath "");
        [assumption|]. now rewrite (Join_rooted _ _ HrF). }
    destruct (HasPrefix fullPath (FolderPath server)); cbn [negb]; [|simpl; congruence].
    pose proof (delete_each_changes (FolderPath server) fullPath (n0 :: names) fs p
                  HrF HcF Hfull) as Hd.
    destruct (delete_each (FolderPath server) fullPath (n0 :: names) fs)
      as [[fs1 n1] errors]. exact Hd.
Qed.

Lemma file_manager_stays_near_witness :
  near (locate two_servers (FolderPath mc1)) ["srv"; "mc10"; "plugins"]
  /\ nodes two_servers !! ["srv"; "mc10"; "plugins"] = None
  /\ exists perm,
       nodes (fst (CreateDirectory (Some mc1) true "/" "../mc10/plugins" two_servers))
       !! ["srv"; "mc10"; "plugins"]
       = Some (Directory perm).
Proof.
  apply (file_manager_stays_near mc1 true "/" "../mc10/plugins" None two_servers
           ["srv"; "mc10"; "plugins"]).
  - reflexivity.
  - vm_compute. reflexivity.
  - vm_compute. discriminate.
Defined.

(** The folder beside the server's is within reach: a directory made
    for the server in [/srv/mc1] lands in [/srv/mc10]. *)
Example CreateDirectory_in_the_folder_beside :
  snd (CreateDirectory (Some mc1) true "/" "../mc10/plugins" two_servers)
  = mkResponse 200 true "Directory created successfully"
  /\ Stat (fst (CreateDirectory (Some mc1) true "/" "../mc10/plugins" two_servers))
          "/srv/mc10/plugins"
     = Some (Directory 493).
Proof. split; vm_compute; reflexivity. Qed.

(** A path that leaves the folder for good is refused. *)
Example CreateDirectory_refuses_the_parent :
  CreateDirectory (Some mc1) true "/" "../../etc/x" two_servers
  = (two_servers, mkResponse 403 false "Access denied: path outside server directory").
Proof. vm_compute. reflexivity. Qed.

(** The name [.] passes the test of [DeleteFiles]: the folder of the
    server itself is removed with all that is in it. *)
Example DeleteFiles_dot_removes_the_folder :
  snd (DeleteFiles (Some mc1) true "/" (Some ["."]) two_servers) = Deleted true 1 []
  /\ Stat (fst (DeleteFiles (Some mc1) true "/" (Some ["."]) two_servers)) "/srv/mc1" = None
  /\ Stat (fst (DeleteFiles (Some mc1) true "/" (Some ["."]) two_servers)) "/srv/mc10"
     = Some (Directory 493).
Proof. repeat split; vm_compute; reflexivity. Qed.

End FileManagerProps.
(* ===================================================================== *)
(** ** A backup taken and restored *)
(* ===================================================================== *)

Module BackupRestoreProps.
Import GoStr Path FS Archive Models BackupService Disk.
Import PathProps FSProps SafetyProps DiskProps RoundTripProps Fixtures MoreFixtures.
Local Open Scope Z_scope.

(** A node added below a directory keeps the tree a tree. *)
Lemma tree_shaped_add fs p n :
  tree_shaped fs ->
  nodes fs !! p = None -> p <> [] -> Forall plain p ->
  (exists perm, node_at fs (parent p) = Some (Directory perm)) ->
  tree_shaped (with_nodes fs (<[p := n]> (nodes fs))).
Proof.
  intros Ht Hnone Hne Hplain [perm Hparent] k m Hk. simpl in Hk.
  assert (forall q dperm, node_at fs q = Some (Directory dperm) ->
            node_at (with_nodes fs (<[p := n]> (nodes fs))) q = Some (Directory dperm)) as Hsame.
  { intros q dperm Hq. destruct q as [|c q]; [exact Hq|].
    rewrite node_at_nonroot in * by discriminate. simpl.
    rewrite lookup_insert_ne; [assumption|]. intros Heq. rewrite Heq in Hnone. congruence. }
  destruct (decide (k = p)) as [->|Hneq].
  - split; [assumption|]. split; [assumption|]. eauto.
  - rewrite lookup_insert_ne in Hk by congruence.
    destruct (Ht _ _ Hk) as (H1 & H2 & dperm & H3). eauto.
Qed.

(** A file written over a file keeps the tree a tree. *)
Lemma tree_shaped_rewrite fs p perm old perm' data :
  tree_shaped fs ->
  nodes fs !! p = Some (Regular perm old) ->
  tree_shaped (with_nodes fs (<[p := Regular perm' data]> (nodes fs))).
Proof.
  intros Ht Hold k m Hk. simpl in Hk.
  assert (forall q dperm, node_at fs q = Some (Directory dperm) ->
            node_at (with_nodes fs (<[p := Regular perm' data]> (nodes fs))) q
            = Some (Directory dperm)) as Hsame.
  { intros q dperm Hq. destruct q as [|c q]; [exact Hq|].
    rewrite node_at_nonroot in * by discriminate. simpl.
    rewrite lookup_insert_ne; [assumption|]. intros Heq. rewrite Heq in Hold. congruence. }
  destruct (decide (k = p)) as [->|Hneq].
  - destruct (Ht _ _ Hold) as (H1 & H2 & dperm & H3). eauto.
  - rewrite lookup_insert_ne in Hk by congruence.
    destruct (Ht _ _ Hk) as (H1 & H2 & dperm & H3). eauto.
Qed.

Lemma mkdir_at_tree p perm fs :
  tree_shaped fs -> Forall plain p -> tree_shaped (fst (mkdir_at p perm fs)).
Proof.
  intros Ht Hplain. unfold mkdir_at. destruct (node_at fs p) eqn:Hp; [exact Ht|].
  assert (nodes fs !! p = None /\ p <> []) as [Hnone Hne]
      by (destruct p; [discriminate | split; [assumption | discriminate]]).
  destruct (node_at fs (parent p)) as [[perm0|perm0 data]|] eqn:Hparent; try exact Ht.
  simpl. apply tree_shaped_add; eauto.
Qed.

(** [os.MkdirAll] keeps the tree a tree, and the directories it adds
    are on the way to its path. *)
Lemma mkdir_all_at_tree rp perm fs :
  tree_shaped fs -> Forall plain rp ->
  tree_shaped (fst (mkdir_all_at rp perm fs))
  /\ forall k n, nodes (fst (mkdir_all_at rp perm fs)) !! k = Some n ->
                 nodes fs !! k = None ->
                 exists post, List.rev rp = (k ++ post)%list.
Proof.
  revert fs. induction rp as [|c rp IH]; intros fs Ht Hplain.
  - simpl. split; [exact Ht|]. intros k n Hk Hnone. congruence.
  - rewrite mkdir_all_at_cons.
    destruct (node_at fs (List.rev (c :: rp))) as [[perm0|perm0 data]|];
      try (simpl; split; [exact Ht | intros k n Hk Hnone; congruence]).
    inversion Hplain as [|? ? Hc Hrp]; subst.
    destruct (IH fs Ht Hrp) as [Ht1 Hnew1].
    destruct (mkdir_all_at rp perm fs) as [fs1 [e|]]; cbn [fst snd] in *.
    + split; [exact Ht1|]. intros k n Hk Hnone.
      destruct (Hnew1 _ _ Hk Hnone) as [post Hpost]. exists (post ++ [c])%list.
      simpl. rewrite Hpost. now rewrite app_assoc.
    + assert (Forall plain (List.rev (c :: rp))) as Hplain'
          by (apply Forall_rev; now constructor).
      split; [now apply mkdir_at_tree|].
      intros k n Hk Hnone.
      destruct (nodes fs1 !! k) as [m|] eqn:H1.
      * destruct (Hnew1 _ _ H1 Hnone) as [post Hpost]. exists (post ++ [c])%list.
        simpl. rewrite Hpost. now rewrite app_assoc.
      * exists []. rewrite app_nil_r.
        destruct (decide (k = List.rev (c :: rp))) as [->|Hneq];
          [reflexivity|].
        exfalso. unfold mkdir_at in Hk.
        destruct (node_at fs1 (List.rev (c :: rp))); [simpl in Hk; congruence|].
        destruct (node_at fs1 (parent (List.rev (c :: rp)))) as [[q|q d]|];
          simpl in Hk; try congruence.
        rewrite lookup_insert_ne in Hk
          by (intros Heq; apply Hneq; symmetry; exact Heq).
        congruence.
Qed.

Lemma Create_outcome path fs :
  match Create path fs with
  | (fs1, Some _) => fs1 = fs
  | (fs1, None) =>
      path <> "" /\ locate fs path <> []
      /\ exists perm,
           fs1 = with_nodes fs (<[locate fs path := Regular perm ""]> (nodes fs))
           /\ ((exists old, nodes fs !! locate fs path = Some (Regular perm old))
               \/ (nodes fs !! locate fs path = None
                   /\ exists q, node_at fs (parent (locate fs path)) = Some (Directory q)))
  end.
Proof.
  unfold Create. destruct (String.eqb path "") eqn:E; [reflexivity|].
  apply String.eqb_neq in E.
  destruct (locate fs path) as [|c p] eqn:Hp; [reflexivity|].
  rewrite node_at_nonroot by discriminate.
  destruct (nodes fs !! (c :: p)) as [[perm0|perm0 data0]|] eqn:Hn; [reflexivity| |].
  - split; [assumption|]. split; [discriminate|]. exists perm0. split; [reflexivity|]. eauto.
  - destruct (node_at fs (parent (c :: p))) as [[perm0|perm0 data0]|] eqn:Hq; try reflexivity.
    split; [assumption|]. split; [discriminate|]. exists 438. split; [reflexivity|]. eauto.
Qed.

Lemma locate_plain fs path : rooted path = true -> Forall plain (locate fs path).
Proof.
  intros Hr. unfold locate. rewrite (resolve_rooted _ _ Hr). apply clean_elems_plain.
Qed.

(** The order of [filepath.Walk] is a total order on paths. *)
Lemma String_leb_trans (a b c : string) :
  String.leb a b = true -> String.leb b c = true -> String.leb a c = true.
Proof.
  unfold String.leb.
  destruct (String.compare a b) eqn:E1; try discriminate;
    destruct (String.compare b c) eqn:E2; try discriminate; intros _ _.
  - apply String.compare_eq_iff in E1 as ->. now rewrite E2.
  - apply String.compare_eq_iff in E1 as ->. now rewrite E2.
  - apply String.compare_eq_iff in E2 as <-. now rewrite E1.
  - apply OrderedTypeEx.String_as_OT.cmp_lt in E1, E2.
    pose proof (OrderedTypeEx.String_as_OT.lt_trans _ _ _ E1 E2) as H.
    apply OrderedTypeEx.String_as_OT.cmp_lt in H.
    unfold OrderedTypeEx.String_as_OT.cmp in H. now rewrite H.
Qed.

Lemma path_leb_total a b : path_leb a b = false -> path_leb b a = true.
Proof.
  revert b. induction a as [|x a IH]; intros [|y b]; simpl; try congruence.
  rewrite (String.eqb_sym y x). destruct (String.eqb x y); [apply IH|].
  intros H. destruct (String.leb_total x y); congruence.
Qed.

Lemma path_leb_antisym a b : path_leb a b = true -> path_leb b a = true -> a = b.
Proof.
  revert b. induction a as [|x a IH]; intros [|y b]; simpl; try congruence.
  rewrite (String.eqb_sym y x). destruct (String.eqb x y) eqn:E.
  - apply String.eqb_eq in E as ->. intros H1 H2. f_equal. now apply IH.
  - intros H1 H2. apply String.eqb_neq in E. destruct E. now apply String.leb_antisym.
Qed.

Lemma path_leb_trans a b c :
  path_leb a b = true -> path_leb b c = true -> path_leb a c = true.
Proof.
  revert b c. induction a as [|x a IH]; intros [|y b] [|z c]; simpl; try congruence.
  destruct (String.eqb x y) eqn:Exy.
  - apply String.eqb_eq in Exy as ->. destruct (String.eqb y z); [apply IH | congruence].
  - destruct (String.eqb y z) eqn:Eyz.
    + apply String.eqb_eq in Eyz as ->. rewrite Exy. congruence.
    + intros H1 H2. destruct (String.eqb x z) eqn:Exz.
      * apply String.eqb_eq in Exz as ->. apply String.eqb_neq in Eyz. destruct Eyz.
        now apply String.leb_antisym.
      * eapply String_leb_trans; eassumption.
Qed.

(** Two visited nodes with different paths can be put in their places
    in either order. *)
Lemma insert_walk_comm x y l :
  fst x <> fst y ->
  insert_walk x (insert_walk y l) = insert_walk y (insert_walk x l).
Proof.
  intros Hne. induction l as [|z l IH]; simpl.
  - destruct (path_leb (fst x) (fst y)) eqn:Exy, (path_leb (fst y) (fst x)) eqn:Eyx;
      try reflexivity.
    + destruct Hne. now apply path_leb_antisym.
    + apply path_leb_total in Exy. congruence.
  - destruct (path_leb (fst y) (fst z)) eqn:Eyz, (path_leb (fst x) (fst z)) eqn:Exz; simpl.
    + destruct (path_leb (fst x) (fst y)) eqn:Exy, (path_leb (fst y) (fst x)) eqn:Eyx;
        rewrite ?Exz, ?Eyz; try reflexivity.
      * destruct Hne. now apply path_leb_antisym.
      * apply path_leb_total in Exy. congruence.
    + destruct (path_leb (fst x) (fst y)) eqn:Exy.
      * rewrite (path_leb_trans _ _ _ Exy Eyz) in Exz. discriminate.
      * now rewrite Eyz, Exz.
    + destruct (path_leb (fst y) (fst x)) eqn:Eyx.
      * rewrite (path_leb_trans _ _ _ Eyx Exz) in Eyz. discriminate.
      * now rewrite Eyz, Exz.
    + now rewrite Eyz, Exz, IH.
Qed.

Lemma walk_order_permutation (l1 l2 : list (list string * node)) :
  NoDup (l1.*1) -> l1 ≡ₚ l2 ->
  List.fold_right insert_walk [] l1 = List.fold_right insert_walk [] l2.
Proof.
  intros Hnd Hperm.
  apply (foldr_permutation eq insert_walk []); [| exact Hperm].
  intros j1 a1 j2 a2 b0 Hj H1 H2. apply insert_walk_comm.
  intros Heq. apply Hj. apply (NoDup_lookup _ _ _ (fst a1) Hnd).
  - now rewrite list_lookup_fmap, H1.
  - now rewrite list_lookup_fmap, H2, Heq.
Qed.

(** The nodes below [root], before they are put in walk order. *)
Lemma below_of_item root (kv r : list string * node) :
  (if is_prefix root (fst kv)
   then match List.skipn (List.length root) (fst kv) with
        | [] => None
        | rel => Some (rel, snd kv)
        end
   else None) = Some r ->
  fst kv = (root ++ fst r)%list /\ snd kv = snd r.
Proof.
  destruct (is_prefix root (fst kv)) eqn:E; [|discriminate].
  apply is_prefix_spec in E as [rest E]. rewrite E.
  rewrite skipn_app, Nat.sub_diag, skipn_all. simpl.
  destruct rest; [discriminate|]. intros H. inversion H; subst. now split.
Qed.

Lemma below_keys_NoDup root (L : list (list string * node)) :
  NoDup (L.*1) ->
  NoDup ((omap (fun kv : list string * node =>
                  if is_prefix root (fst kv)
                  then match List.skipn (List.length root) (fst kv) with
                       | [] => None
                       | rel => Some (rel, snd kv)
                       end
                  else None) L).*1).
Proof.
  induction L as [|kv L IH]; intros Hnd; [constructor|].
  apply NoDup_cons in Hnd as [Hnotin Hnd]. cbn [omap list_omap].
  match goal with |- context [match ?f with Some _ => _ | None => _ end] =>
    destruct f as [r|] eqn:Hf end; [|now apply IH].
  cbn [fmap list_fmap]. apply NoDup_cons. split; [|now apply IH].
  intros Hin. apply Hnotin.
  apply list_elem_of_fmap in Hin as (r' & Hr' & Hin).
  apply list_elem_of_omap in Hin as (kv' & Hin & Hf').
  apply below_of_item in Hf as [Hk _]. apply below_of_item in Hf' as [Hk' _].
  apply list_elem_of_fmap. exists kv'. split; [congruence | assumption].
Qed.

(** The walk of a folder depends only on what is below the folder. *)
Lemma walk_below_same fs fs' root :
  (forall rel, rel <> [] ->
     nodes fs !! (root ++ rel)%list = nodes fs' !! (root ++ rel)%list) ->
  walk_below fs root = walk_below fs' root.
Proof.
  intros Hsame.
  assert (forall x, In x (walk_below fs root) <-> In x (walk_below fs' root)) as Hin.
  { intros [rel n]. rewrite !walk_below_spec. split; intros [Hne Hn]; split; try assumption.
    - now rewrite <- Hsame.
    - now rewrite Hsame. }
  unfold walk_below in *.
  apply walk_order_permutation.
  - apply below_keys_NoDup, NoDup_fst_map_to_list.
  - apply NoDup_Permutation.
    + eapply NoDup_fmap_1, below_keys_NoDup, NoDup_fst_map_to_list.
    + eapply NoDup_fmap_1, below_keys_NoDup, NoDup_fst_map_to_list.
    + intros x. rewrite !list_elem_of_In.
      split; intros H; apply In_walk_order, Hin, In_walk_order, H.
Qed.

(** What [CreateTarGzBackup] does to the disk when it returns an
    archive: the directories on the way to the backup folder and the
    archive are new or rewritten, the rest is as before. *)
Lemma CreateTarGzBackup_disk codec sourcePath backupPath fileName fs0 fs1 path size :
  tree_shaped fs0 ->
  rooted backupPath = true -> plain fileName ->
  CreateTarGzBackup codec sourcePath backupPath fileName fs0 = (fs1, inl (path, size)) ->
  let a := (locate fs0 backupPath ++ [fileName])%list in
  tree_shaped fs1
  /\ cwd fs1 = cwd fs0
  /\ path = Join backupPath fileName
  /\ locate fs0 path = a
  /\ (exists fs2 perm,
        nodes fs1 !! a
        = Some (Regular perm
                  (targz_bytes codec
                     (List.map archive_member (walk_below fs2 (locate fs0 sourcePath)))))
        /\ forall k, k <> a ->
             (forall post, locate fs0 backupPath <> (k ++ post)%list) ->
             nodes fs2 !! k = nodes fs0 !! k)
  /\ (forall k n, k <> a -> nodes fs0 !! k = Some n -> nodes fs1 !! k = Some n)
  /\ (forall perm, nodes fs0 !! a <> Some (Directory perm)).
Proof.
  intros Ht Hrb Hplain. unfold CreateTarGzBackup, MkdirAll.
  rewrite (rooted_nonempty _ Hrb).
  destruct (mkdir_all_at_tree (List.rev (locate fs0 backupPath)) 493 fs0 Ht) as [HtA HnewA];
    [apply Forall_rev, locate_plain, Hrb|].
  destruct (mkdir_all_at_grows (List.rev (locate fs0 backupPath)) 493 fs0)
    as (HcA & HkeepA & _).
  rewrite rev_involutive in HnewA.
  destruct (mkdir_all_at (List.rev (locate fs0 backupPath)) 493 fs0) as [fsA [e|]];
    [discriminate|]. cbn [fst] in *.
  destruct (locate_child fsA backupPath fileName Hrb Hplain) as [Hne Hloc].
  rewrite (locate_same_cwd _ _ backupPath HcA) in Hloc.
  pose proof (Create_outcome (Join backupPath fileName) fsA) as Hcreate.
  destruct (Create (Join backupPath fileName) fsA) as [fsB [e|]]; [discriminate|].
  destruct Hcreate as (_ & Hnonroot & perm & -> & Hwas). rewrite Hloc in *.
  set (a := (locate fs0 backupPath ++ [fileName])%list) in *.
  set (fsB := with_nodes fsA (<[a := Regular perm ""]> (nodes fsA))) in *.
  assert (tree_shaped fsB) as HtB.
  { destruct Hwas as [[old Hold] | [Hnone Hparent]].
    - eapply tree_shaped_rewrite; eassumption.
    - apply tree_shaped_add; try assumption.
      subst a. apply Forall_app. split; [apply locate_plain, Hrb | constructor; [assumption | constructor]]. }
  destruct (Stat fsB sourcePath); [|discriminate].
  assert (locate fsB (Join backupPath fileName) = a) as HlocB
      by (rewrite <- Hloc; now apply locate_same_cwd).
  assert (nodes fsB !! a = Some (Regular perm "")) as HnB by apply lookup_insert_eq.
  unfold write_data. rewrite HlocB, (node_at_nonroot _ _ Hnonroot), HnB.
  match goal with |- context [Stat ?fs3 _] => destruct (Stat fs3 (Join backupPath fileName)) end;
    [|discriminate].
  intros H. inversion H; subst fs1 path size. clear H.
  split; [eapply tree_shaped_rewrite; eassumption|].
  split; [exact HcA|]. split; [reflexivity|].
  split; [rewrite <- Hloc; now apply locate_same_cwd|].
  split; [|split].
  - exists fsB, perm. split.
    + simpl. rewrite lookup_insert_eq.
      now rewrite (locate_same_cwd fs0 fsB sourcePath HcA).
    + intros k Hk Hpre. simpl. rewrite lookup_insert_ne by congruence.
      destruct (nodes fsA !! k) as [nA|] eqn:HA.
      * destruct (nodes fs0 !! k) as [m0|] eqn:H0.
        -- rewrite (HkeepA _ _ H0) in HA. congruence.
        -- destruct (HnewA _ _ HA H0) as [post Hpost]. now destruct (Hpre post).
      * destruct (nodes fs0 !! k) as [m0|] eqn:H0; [|reflexivity].
        rewrite (HkeepA _ _ H0) in HA. discriminate.
  - intros k m Hk H0. simpl. rewrite !lookup_insert_ne by congruence. now apply HkeepA.
  - intros dperm H0. apply HkeepA in H0.
    destruct Hwas as [[old Hold] | [Hnone _]]; congruence.
Qed.

(** Restoring from an archive kept inside the server folder: the
    folder is emptied first, the archive with it, so that the restore
    fails at opening the archive and leaves the server folder empty.
    Nothing outside the folder changes. *)
Theorem restore_from_inside_the_folder_empties_it
        codec backupFilePath serverFolderPath fs n :
  tree_shaped fs ->
  rooted serverFolderPath = true ->
  Stat fs backupFilePath = Some n ->
  strictly_inside (locate fs serverFolderPath) (locate fs backupFilePath) ->
  let out := RestoreBackupFromArchive codec backupFilePath serverFolderPath fs in
  snd out = Some (ErrExtract ErrOpenBackup)
  /\ same_outside (locate fs serverFolderPath) fs (fst out)
  /\ forall p, strictly_inside (locate fs serverFolderPath) p -> nodes (fst out) !! p = None.
Proof.
  intros Ht Hr Harchive Hin out. subst out.
  assert (exists permd, Stat fs serverFolderPath = Some (Directory permd)) as [permd Hfolder].
  { unfold Stat in *. rewrite (rooted_nonempty _ Hr).
    destruct (String.eqb backupFilePath ""); [discriminate|].
    destruct Hin as (rest & Hne & Hrest). rewrite Hrest in Harchive.
    destruct (locate fs serverFolderPath) as [|c root] eqn:Hroot; [simpl; eauto|].
    rewrite node_at_nonroot in Harchive by discriminate.
    rewrite node_at_nonroot by discriminate.
    apply (tree_ancestors fs [] (c :: root) rest n Ht Harchive); [discriminate | assumption]. }
  unfold RestoreBackupFromArchive.
  rewrite (Stat_found _ _ _ Harchive), (Stat_found _ _ _ Hfolder).
  unfold clearDirectory, ReadDir. rewrite Hfolder.
  destruct (remove_entries_clears serverFolderPath fs Ht Hr) as (S1 & Hempty & Hsub).
  set (fs1 := remove_entries serverFolderPath (children fs (locate fs serverFolderPath)) fs)
    in *.
  assert (Stat fs1 backupFilePath = None) as Hgone.
  { unfold Stat in *. destruct (String.eqb backupFilePath ""); [reflexivity|].
    rewrite (same_outside_locate _ _ _ backupFilePath S1).
    pose proof (Hempty _ Hin) as Hnone.
    destruct (locate fs backupFilePath) as [|c p] eqn:Hp; [|exact Hnone].
    destruct Hin as (rest & Hne & Hrest).
    symmetry in Hrest. apply app_eq_nil in Hrest as [_ ->]. congruence. }
  unfold extractTarGzBackup, Open. rewrite Hgone. simpl.
  split; [reflexivity|]. split; assumption.
Qed.

Lemma restore_from_inside_the_folder_empties_it_witness :
  let out := RestoreBackupFromArchive (reading_as [] []) "/srv/survival/world.dat"
                                      "/srv/survival" disk in
  snd out = Some (ErrExtract ErrOpenBackup)
  /\ same_outside (locate disk "/srv/survival") disk (fst out)
  /\ forall p, strictly_inside (locate disk "/srv/survival") p -> nodes (fst out) !! p = None.
Proof.
  apply (restore_from_inside_the_folder_empties_it
           (reading_as [] []) "/srv/survival/world.dat" "/srv/survival" disk (Regular 420 "w")).
  - apply disk_tree_shaped.
  - reflexivity.
  - vm_compute. reflexivity.
  - exists ["world.dat"]. split; [discriminate | vm_compute; reflexivity].
Defined.

(** A backup, then a restore.  [CreateTarGzBackup] archives a rooted
    server folder of a tree-shaped file system into a rooted backup
    folder that is neither the server folder nor inside it; the codec
    reads back the members written for the tree.  Whatever is then
    changed inside the server folder, a restore from that archive
    returns nil and leaves below the server folder exactly the tree of
    the time of the backup, every file with its content and the
    permission bits of its mode, every directory with mode 0755, and
    changes nothing outside the folder. *)
Theorem backup_then_restore
        codec sourcePath backupPath fileName fs0 fs1 path size permd tarBytes fs :
  tree_shaped fs0 ->
  rooted sourcePath = true ->
  rooted backupPath = true ->
  plain fileName ->
  Stat fs0 sourcePath = Some (Directory permd) ->
  ~ inside (locate fs0 sourcePath) (locate fs0 backupPath) ->
  gunzip codec
    (targz_bytes codec (List.map archive_member (walk_below fs0 (locate fs0 sourcePath))))
  = Some tarBytes ->
  untar codec tarBytes
  = items_of (List.map archive_member (walk_below fs0 (locate fs0 sourcePath))) ->
  CreateTarGzBackup codec sourcePath backupPath fileName fs0 = (fs1, inl (path, size)) ->
  tree_shaped fs ->
  same_outside (locate fs0 sourcePath) fs1 fs ->
  let out := RestoreBackupFromArchive codec path sourcePath fs in
  snd out = None
  /\ same_outside (locate fs0 sourcePath) fs (fst out)
  /\ forall rel, rel <> [] ->
       nodes (fst out) !! (locate fs0 sourcePath ++ rel)%list
       = restored <$> nodes fs0 !! (locate fs0 sourcePath ++ rel)%list.
Proof.
  intros Ht0 Hrs Hrb Hplain Hfolder Hout Hz Htar Hbackup Ht Hsame.
  destruct (CreateTarGzBackup_disk _ _ _ _ _ _ _ _ Ht0 Hrb Hplain Hbackup)
    as (Ht1 & Hc1 & -> & Hloc & (fs2 & perm & Harch & Hfs2) & Hkeep & Hnodir).
  set (root := locate fs0 sourcePath) in *.
  set (a := (locate fs0 backupPath ++ [fileName])%list) in *.
  assert (locate fs sourcePath = root) as Hlocs.
  { rewrite (same_outside_locate _ _ _ sourcePath Hsame). now apply locate_same_cwd. }
  assert (locate fs (Join backupPath fileName) = a) as Hloca.
  { rewrite (same_outside_locate _ _ _ _ Hsame), <- Hloc. now apply locate_same_cwd. }
  assert (~ strictly_inside root a) as Hnotin.
  { intros (rest & Hne & Hrest). apply Hout. exists (List.removelast rest).
    apply (f_equal (@List.removelast string)) in Hrest.
    subst a. rewrite removelast_last in Hrest. rewrite Hrest.
    now apply removelast_app. }
  assert (walk_below fs2 root = walk_below fs0 root) as Hwalk.
  { apply walk_below_same. intros rel Hne. apply Hfs2.
    - intros Heq. apply Hnotin. exists rel. now split.
    - intros post Hpost. apply Hout. exists (rel ++ post)%list.
      now rewrite Hpost, app_assoc. }
  rewrite Hwalk in Harch.
  assert (node_at fs0 root = Some (Directory permd)) as Hroot0.
  { unfold Stat in Hfolder. now rewrite (rooted_nonempty _ Hrs) in Hfolder. }
  assert (root <> []) as Hrootne.
  { intros Heq. apply Hout. exists (locate fs0 backupPath). now rewrite Heq. }
  rewrite node_at_nonroot in Hroot0 by assumption.
  assert (root <> a) as Hra by (intros Heq; rewrite Heq in Hroot0; now apply Hnodir in Hroot0).
  destruct Hsame as [Hc Hsame].
  assert (Stat fs sourcePath = Some (Directory permd)) as Hfolder'.
  { unfold Stat. rewrite (rooted_nonempty _ Hrs), Hlocs, (node_at_nonroot _ _ Hrootne).
    rewrite (Hsame _ (strictly_inside_not_self root)). now apply Hkeep. }
  assert (Stat fs (Join backupPath fileName)
          = Some (Regular perm
                    (targz_bytes codec (List.map archive_member (walk_below fs0 root)))))
    as Harchive'.
  { unfold Stat.
    destruct (String.eqb (Join backupPath fileName) "") eqn:E.
    { apply String.eqb_eq in E. now destruct (locate_child fs0 backupPath fileName Hrb Hplain). }
    rewrite Hloca, node_at_nonroot by (subst a; now destruct (locate fs0 backupPath)).
    rewrite (Hsame _ Hnotin). exact Harch. }
  assert (~ strictly_inside (locate fs sourcePath) (locate fs (Join backupPath fileName)))
    as Hnotin' by now rewrite Hlocs, Hloca.
  pose proof (restore_of_archived_tree codec fs0 sourcePath fs (Join backupPath fileName)
                sourcePath permd perm _ tarBytes Ht0 Ht Hrs Hfolder' Harchive' Hnotin' Hz Htar)
    as Hres.
  rewrite Hlocs in Hres. exact Hres.
Qed.

Lemma backup_then_restore_witness :
  let codec :=
    reading_as (items_of (List.map archive_member (walk_below disk (locate disk "/srv/survival"))))
               [] in
  let fs1 := fst (CreateTarGzBackup codec "/srv/survival" "/backups"
                    "survival_20261102_0042.tar.gz" disk) in
  let fs := with_nodes fs1 (<[ ["srv"; "survival"; "world.dat"] := Regular 420 "griefed" ]>
                              (nodes fs1)) in
  let out := RestoreBackupFromArchive codec "/backups/survival_20261102_0042.tar.gz"
                                      "/srv/survival" fs in
  snd out = None
  /\ same_outside (locate disk "/srv/survival") fs (fst out)
  /\ forall rel, rel <> [] ->
       nodes (fst out) !! (locate disk "/srv/survival" ++ rel)%list
       = restored <$> nodes disk !! (locate disk "/srv/survival" ++ rel)%list.
Proof.
  intros codec fs1 fs.
  apply (backup_then_restore codec "/srv/survival" "/backups" "survival_20261102_0042.tar.gz"
           disk fs1 "/backups/survival_20261102_0042.tar.gz" 7 493 "archive" fs).
  - apply disk_tree_shaped.
  - reflexivity.
  - reflexivity.
  - repeat split; try discriminate.
  - vm_compute. reflexivity.
  - intros [rest H]. vm_compute in H. discriminate.
  - reflexivity.
  - reflexivity.
  - vm_compute. reflexivity.
  - apply tree_shapedb_tree_shaped. vm_compute. reflexivity.
  - apply same_outside_insert. exists ["world.dat"]. split; [discriminate|].
    vm_compute. reflexivity.
Defined.

End BackupRestoreProps.
(* ===================================================================== *)
(** ** The gz extractor of the file manager *)
(* ===================================================================== *)

Module ExtractGzProps.
Import GoStr Path FS Archive FilesHandler Disk.
Import PathProps FSProps SafetyProps DiskProps BackupRestoreProps Fixtures MoreFixtures.
Local Open Scope Z_scope.

Lemma Contains_false_iff s sep :
  Contains s sep = false <-> ~ In sep (list_ascii_of_string s).
Proof.
  induction s as [|c s IH]; simpl.
  - split; [intros _ [] | reflexivity].
  - rewrite orb_false_iff, IH, Ascii.eqb_neq. split.
    + intros [H1 H2] [H|H]; [now apply H1 | now apply H2].
    + intros H. split; [intros ->; apply H; now left | intros H'; apply H; now right].
Qed.

Lemma drop_bytes_In n s c :
  In c (list_ascii_of_string (drop_bytes n s)) -> In c (list_ascii_of_string s).
Proof.
  revert s. induction n as [|n IH]; intros [|a s]; simpl; try tauto.
  intros H. right. now apply IH.
Qed.

(** Trimming a suffix brings no separator into a name. *)
Lemma TrimSuffix_slash_free s p : slash_free s -> slash_free (TrimSuffix s p).
Proof.
  unfold TrimSuffix. destruct (HasSuffix s p); [|trivial].
  unfold slash_free, str_rev. rewrite !Contains_false_iff.
  rewrite list_ascii_of_string_of_list_ascii. intros H Hin. apply H.
  apply in_rev in Hin. apply drop_bytes_In in Hin.
  rewrite list_ascii_of_string_of_list_ascii in Hin. now apply in_rev in Hin.
Qed.

Lemma last_In {A} (l : list A) (d : A) : In (List.last l d) (d :: l).
Proof.
  revert d. induction l as [|a l IH]; intros d; [now left|].
  change (List.last (a :: l) d) with (match l with [] => a | _ :: _ => List.last l d end).
  destruct l as [|b l]; [right; now left|].
  destruct (IH d) as [H|H]; [left; exact H | right; right; exact H].
Qed.

(** [filepath.Base] gives a name without a separator, or the
    separator alone. *)
Lemma Base_cases path : Base path = "/"%string \/ slash_free (Base path).
Proof.
  unfold Base. destruct (String.eqb path ""); [now right|].
  destruct (List.filter _ _) as [|e es] eqn:Hf; [now left|]. right.
  pose proof (Split_slash_free path) as Hall. rewrite Forall_forall in Hall.
  apply Hall. apply list_elem_of_In.
  assert (In (List.last es e) (List.filter (fun e => negb (String.eqb e ""))
                                           (Split path Separator))) as Hin
      by (rewrite Hf; apply last_In).
  apply filter_In in Hin. tauto.
Qed.

(** Where [filepath.Join] of a rooted folder and one name leads: to
    the folder, to its parent, or to the entry of that name in it. *)
Lemma locate_Join_cases fs dest name :
  rooted dest = true ->
  name = "/"%string \/ slash_free name ->
  locate fs (Join dest name) = locate fs dest
  \/ locate fs (Join dest name) = parent (locate fs dest)
  \/ (plain name /\ locate fs (Join dest name) = (locate fs dest ++ [name])%list).
Proof.
  intros Hr Hname.
  assert (locate fs (Join dest name)
          = List.rev (List.fold_left (clean_step true) (Split name Separator)
                                     (List.rev (locate fs dest)))) as ->.
  { rewrite (Join_rooted _ _ Hr). unfold locate.
    rewrite resolve_rooted_join by apply clean_elems_plain.
    rewrite (resolve_rooted _ _ Hr), Split_app. unfold clean_elems.
    now rewrite fold_left_app, rev_involutive. }
  destruct Hname as [-> | Hfree].
  { left. simpl. apply rev_involutive. }
  rewrite (Split_of_slash_free _ Hfree). simpl. unfold clean_step.
  destruct (String.eqb name "") eqn:E1; [left; apply rev_involutive|].
  destruct (String.eqb name ".") eqn:E2; [left; apply rev_involutive|].
  destruct (String.eqb name "..") eqn:E3.
  - assert (Forall plain (locate fs dest)) as Hplain by apply locate_plain, Hr.
    destruct (locate fs dest) as [|top rest _] using rev_ind; [now left|].
    right. left. rewrite rev_app_distr. simpl.
    apply Forall_app in Hplain as [_ Htop]. inversion Htop as [|? ? (_ & _ & Hdd & _) _]; subst.
    apply String.eqb_neq in Hdd. rewrite Hdd, rev_involutive.
    unfold parent. now rewrite removelast_last.
  - right. right. apply String.eqb_neq in E1, E2, E3. split.
    + repeat split; assumption.
    + simpl. now rewrite rev_involutive.
Qed.

(** The gz extractor of the file manager, run with a rooted
    destination that is a directory of a tree-shaped file system,
    changes at most one node: the entry of the destination named after
    the archive without its [.gz] suffix, which becomes a regular file
    with the bytes the copy from the gzip reader has written; the
    extractor returns nil exactly when that copy ended without an
    error, so that a stream that breaks off leaves its first part in
    the file.  An archive whose name leaves no proper entry name
    ([.gz], [..gz], [...gz]) changes nothing. *)
Theorem extractGz_writes_one_entry codec archivePath destPath fs permd p :
  tree_shaped fs ->
  rooted destPath = true ->
  Stat fs destPath = Some (Directory permd) ->
  let out := extractGz codec archivePath destPath fs in
  let outputName := TrimSuffix (Base archivePath) ".gz" in
  nodes (fst out) !! p <> nodes fs !! p ->
  plain outputName
  /\ p = (locate fs destPath ++ [outputName])%list
  /\ exists data bytes complete perm,
       Open fs archivePath = OpenedFile data
       /\ gzip_stream codec data = Some (bytes, complete)
       /\ nodes (fst out) !! p = Some (Regular perm bytes)
       /\ snd out = (if complete then None else Some GzipError).
Proof.
  intros Ht Hr Hdest out outputName. subst out. unfold extractGz.
  destruct (Open fs archivePath) as [e| |data]; try (intros H; now destruct H).
  destruct (gzip_stream codec data) as [[bytes complete]|] eqn:Hz;
    [|intros H; now destruct H].
  fold outputName.
  assert (outputName = "/"%string \/ slash_free outputName) as Hname.
  { subst outputName. destruct (Base_cases archivePath) as [-> | Hfree]; [now left|].
    right. now apply TrimSuffix_slash_free. }
  pose proof (Create_outcome (Join destPath outputName) fs) as Hcreate.
  destruct (Create (Join destPath outputName) fs) as [fs1 [e|]];
    [subst fs1; intros H; now destruct H|].
  destruct Hcreate as (_ & Hnonroot & perm & -> & Hwas).
  unfold Stat in Hdest. rewrite (rooted_nonempty _ Hr) in Hdest.
  set (root := locate fs destPath) in *.
  set (q := locate fs (Join destPath outputName)) in *.
  assert (node_at fs q <> Some (Directory permd) /\ forall d, nodes fs !! q <> Some (Directory d))
    as [Hq Hq'].
  { rewrite (node_at_nonroot _ _ Hnonroot).
    destruct Hwas as [[old Hold] | [Hnone _]]; split; congruence. }
  destruct (locate_Join_cases fs destPath outputName Hr Hname) as [Hloc | [Hloc | [Hplain Hloc]]];
    fold q root in Hloc.
  - rewrite Hloc in Hq. contradiction.
  - exfalso. destruct root as [|c root'] eqn:Hroot; [now rewrite Hloc in Hnonroot|].
    rewrite node_at_nonroot in Hdest by discriminate.
    destruct (Ht _ _ Hdest) as (_ & _ & d & Hparent). rewrite <- Hloc in Hparent.
    rewrite (node_at_nonroot _ _ Hnonroot) in Hparent. now apply Hq' in Hparent.
  - unfold write_data. cbn [fst snd].
    change (locate (with_nodes fs (<[q := Regular perm ""]> (nodes fs)))
                   (Join destPath outputName)) with q.
    rewrite (node_at_nonroot _ _ Hnonroot). cbn [nodes with_nodes].
    rewrite lookup_insert_eq. cbn [nodes with_nodes].
    intros Hp. destruct (decide (p = q)) as [-> | Hpq].
    + split; [assumption|]. split; [assumption|].
      exists data, bytes, complete, perm. split; [reflexivity|]. split; [exact Hz|].
      split; [apply lookup_insert_eq | reflexivity].
    + destruct Hp. rewrite !lookup_insert_ne by congruence. reflexivity.
Qed.

Lemma extractGz_writes_one_entry_witness :
  let out := extractGz breaking_off "/backups/a.tar.gz" "/srv/survival" disk in
  let outputName := TrimSuffix (Base "/backups/a.tar.gz") ".gz" in
  plain outputName
  /\ ["srv"; "survival"; "a.tar"]%string = (locate disk "/srv/survival" ++ [outputName])%list
  /\ exists data bytes complete perm,
       Open disk "/backups/a.tar.gz" = OpenedFile data
       /\ gzip_stream breaking_off data = Some (bytes, complete)
       /\ nodes (fst out) !! ["srv"; "survival"; "a.tar"]%string = Some (Regular perm bytes)
       /\ snd out = (if complete then None else Some GzipError).
Proof.
  apply (extractGz_writes_one_entry breaking_off "/backups/a.tar.gz" "/srv/survival"
           disk 493 ["srv"; "survival"; "a.tar"]%string).
  - apply disk_tree_shaped.
  - reflexivity.
  - vm_compute. reflexivity.
  - vm_compute. discriminate.
Defined.

(** A gzip stream that breaks off: the first part is in the output
    file, and the extractor returns the error. *)
Example extractGz_of_a_broken_stream :
  let out := extractGz breaking_off "/backups/a.tar.gz" "/srv/survival" disk in
  snd out = Some GzipError
  /\ exists perm, Stat (fst out) "/srv/survival/a.tar" = Some (Regular perm "he").
Proof. vm_compute. split; [reflexivity | eexists; reflexivity]. Qed.

(** An archive named [..gz] in the file manager: nothing is written. *)
Example extractGz_of_a_name_without_stem :
  extractGz (reading_as [] []) "/backups/..gz" "/srv/survival"
            (with_nodes disk (<[ ["backups"; "..gz"]%string := Regular 420 "z" ]> (nodes disk)))
  = (with_nodes disk (<[ ["backups"; "..gz"]%string := Regular 420 "z" ]> (nodes disk)),
     Some (OsError EISDIR)).
Proof. vm_compute. reflexivity. Qed.

End ExtractGzProps.
